(* ===== verification/_CoqProject ===== *)
-Q . S2P
Prelude.v
RangeMask.v
CommonData.v
Base64.v
RLP.v
RLPCodec.v
RLPFields.v
TrieCommon.v
NodeDB.v
TrieDB.v
TrieSpec.v
TrieRefine.v
TrieContents.v
TrieHash.v
State.v
StateSteps.v
NativeStorage.v
TransactionQueue.v
Instruction.v
LegacyVM.v
LegacyVMCode.v
LegacyVMArith.v
LegacyVMLogic.v
LegacyVMSafety.v
LegacyVMCalls.v
LegacyVMExec.v
TransactionBase.v
TransactionCodec.v
Receipt.v
ReceiptSpec.v
BlockHeader.v
BlockHeaderCodec.v
SealEngine.v
EthashSeal.v
BasicAuthority.v
BlockQueue.v
BlockQueueSpec.v
BlockQueueSystem.v
BlockChain.v
BlockChainTree.v
BlockChainVerify.v
BlockChainInsert.v
BlockChainSystem.v
Precompiled.v
Executive.v
ExecutiveSafety.v
ExecutiveTx.v
Block.v
BlockSpec.v
BlockSeal.v
