(* ===== verification/Prelude.v ===== *)
(** * Verification of Wing

    Wing (src/) is a C++ client of an Ethereum-like chain, a fork of
    cpp-ethereum.  This library models its core in Rocq and proves what makes
    it correct.

    ** The parts of the program, and where they are

    - libdevcore, the base library:
      [RangeMask] (RangeMask.h: sets of block numbers as ranges),
      [CommonData] (CommonData.h, CommonData.cpp: hexadecimal and big-endian
      conversions), [Base64] (Base64.cpp), [RLP] (RLP.h, RLP.cpp,
      vector_ref.h: the serialisation of all data, reader and writer) with its
      theory in [RLPCodec], and [RLPFields], the theory of lists of fields.
    - libdevcore, the authenticated storage: [TrieCommon] (TrieCommon.h,
      TrieCommon.cpp: slices of nibbles and the hex-prefix notation), [NodeDB]
      (MemoryDB.h, MemoryDB.cpp, OverlayDB.h, OverlayDB.cpp: stores of nodes
      with reference counts), [TrieDB] (TrieDB.h: the operations of
      [GenericTrieDB] and of the views with hashed keys), with its theory in
      [TrieSpec] (tries as trees, without hashes), [TrieRefine] (each
      operation refines one on trees) and [TrieContents] (the tries as maps),
      and [TrieHash] (TrieHash.cpp: the root computed without a store).
    - The data of a chain: [TransactionBase] (TransactionBase.cpp,
      Transaction.cpp) and [TransactionCodec], [Receipt]
      (TransactionReceipt.cpp, LogEntry.cpp, LogFilter.cpp, the bloom filters
      of FixedHash.h) and [ReceiptSpec], [BlockHeader] (BlockHeader.cpp) and
      [BlockHeaderCodec]: the first of each pair is the code, the second what
      holds of it.
    - The rules of a chain: [SealEngine] (ChainOperationParams.cpp,
      SealEngine.cpp: parameters, schedules, which transactions are accepted),
      [EthashSeal] (Ethash.cpp: difficulty, gas limit, checks of a header),
      [BasicAuthority] (BasicAuthority.cpp), [Precompiled] (Precompiled.cpp).
    - The state of the world: [State] (Account.h, Account.cpp in its module
      [Account]; State.h, State.cpp in its module [State]), [StateSteps]
      (what its callers see of it), [NativeStorage] (NativeStorage.cpp,
      Native.cpp: data in the slots of an account, native contracts).
    - libevm with libwingcore's schedules, the virtual machine:
      [Instruction] (Instruction.h, Instruction.cpp, EVMSchedule.h),
      [LegacyVM] (LegacyVM.h, LegacyVM.cpp, LegacyVMCalls.cpp,
      LegacyVMOpt.cpp), and its theory: [LegacyVMCode] the scan of the code,
      [LegacyVMArith] the arithmetic instructions, [LegacyVMLogic] a program
      logic for the interpreter's monad, [LegacyVMSafety] the instructions in
      that logic, [LegacyVMCalls] the instructions that call out,
      [LegacyVMExec] whole runs.
    - The execution of transactions: [Executive] (Executive.cpp, ExtVM.cpp,
      [State::execute]) puts the state and the machine together, with
      [ExecutiveSafety] (messages between contracts) and [ExecutiveTx]
      (transactions).
    - Pools: [TransactionQueue] (TransactionQueue.cpp), [BlockQueue]
      (BlockQueue.h, BlockQueue.cpp), with [BlockQueueSpec] (the invariant) and
      [BlockQueueSystem] (its threads as one system).
    - The chain: [BlockChain] (BlockChain.h, BlockChain.cpp, BlockDetails.h),
      with [BlockChainTree] (the tree of blocks, the way between two of them),
      [BlockChainVerify] (the checks of a block), [BlockChainInsert] (what an
      insertion does) and [BlockChainSystem] (its operations as one system).
    - [Prelude]: results of code that throws, machine words, ordered maps
      ([std::map]), bytes and big-endian numbers.

    ** How the parts meet

    Where a part calls another through virtual functions, or calls code that is
    not modelled, there is a type class, and laws that say what the caller
    relies on.  The virtual machine reaches the world through
    [LegacyVM.ExtVMFace]; [Executive.ext_vm] is its instance over the state, and
    [ExecutiveSafety] proves the laws for it, by induction on the depth of the
    call.  Tries keep their nodes in a store of the class [NodeDB], whose
    instances are [MemoryDB] and [OverlayDB], the latter over the database of
    the class [DatabaseFace].  The state keeps accounts in the tries of the
    class [StateDB].  The queue of transactions reads them through
    [Transaction]; the queue of blocks asks the chain through [ChainFace].
    The chain executes a block through [Enactor].  Hash function and recovery of
    a key are [Crypto]; ethash, the signing of authorities and the libraries
    behind the precompiled contracts are [EthashLib], [AuthorityLib] and
    [PrecompiledLib].  Each class has a concrete instance, with which the
    theorems are applied to inputs.

    ** How code is modelled

    A member function that changes its object is a function from states to
    states; one that throws returns a [result], or is a computation of a state
    monad with exceptions ([LegacyVM.M], [BlockChain.M]).  What the code
    leaves undefined - an iterator of an empty container, memory outside a
    buffer - is the result [None] or an exception [Undefined] of its own, so
    that the theorems have to exclude it.  Unsigned arithmetic wraps ([u32],
    [u64], [u256], [u512]).  Caches are kept apart from what they cache: the
    cache of accounts from the trie, the caches of the chain from its databases.
    Threads are systems whose steps are the critical sections, in any order.

    ** What the theorems show

    - Transactions: a transaction that is accepted is executed to its end
      whatever code it meets, creates no ether and uses gas within its limit
      ([transaction_total]); one that fails costs its gas and leaves all other
      accounts ([failed_transaction]); a message between contracts is all or
      nothing ([message_atomic]).  They assume that the parameters of the chain
      and the state are sane ([chain_ok], [info_ok]), which has instances.
    - The chain: an import stores the block, moves the head to the heavier
      block and says what left the chain and what joined it
      ([import_reorganizes]); the blocks by number are a chain from the genesis
      block to the head in every state that imports, insertions, rewinds,
      questions, evictions and restarts reach ([reachable_chained]); no known
      block is heavier than the head as long as blocks are only imported
      ([head_heaviest]); the way between two blocks goes through their latest
      common ancestor ([treeRoute_spec]).  They assume of the blocks offered
      that no two have one hash ([offered]), of the execution that it adds the
      difficulty of the block ([EnactorLaws]), and of questions for a number
      that it is not above the head: [stale_number] shows why.
    - The block queue: whatever the order in which verifiers finish, blocks
      are handed out behind their parents, once, none known to be bad
      ([drain_parents_first]), and the containers agree in every state
      ([reachable_consistent]), for a chain with [ChainLaws].
    - Headers: which blocks are accepted behind a parent ([block_accepted]),
      that made children are ([populated_accepted]), by whom a seal is accepted
      ([sealed_accepted]), and the bounds of the difficulty
      ([difficulty_bounds]).
    - Data: headers, transactions and receipts are read back as they were
      written ([header_roundtrip], [tx_roundtrip], [receipt_roundtrip]); a
      search with a bloom filter hides no entry ([filter_complete]).
    - The virtual machine: [exec] returns on every code, input, gas and world
      after at most [2 * gas + 3] rounds of its trampoline, never touches
      memory outside the stack, the code, the memory or a buffer, and never
      leaves more gas than it was given ([exec_total]); between the rounds the
      stack, the memory, the gas and the program counter are well formed
      ([reachable_safe]); the code scan finds exactly the jump destinations
      ([optimize_spec]); every arithmetic instruction computes the function of
      a reference on integers for the cost of the schedule ([arith_step]); the
      modular exponentiation is that of numbers ([modexp_correct], with
      [PowmLaw]).
    - The state: a rollback restores what a savepoint saw, through any nesting
      of calls ([rollback_restores]); a transfer moves the value or fails
      ([transferBalance_spec]); a commit writes what the state shows
      ([commit_spec]); data of a native contract reads back
      ([putData_getData]).
    - The queue of transactions: no sequence of operations runs into undefined
      behaviour and the containers agree ([queue_safe]); what each operation
      answers and changes.
    - RLP: the strict reader accepts exactly one encoding of each tree, the
      writer produces it ([parse_canonical], [stream_roundtrip]).
    - Tries: after any history of insertions and removals, a trie holds the
      map that the history makes and reads it back ([trie_contents]), its root
      depends on the map only ([trie_canonical]) and is the root that
      [hash256] computes without a store ([hash256_root]).  Values of nodes are
      RLP trees, which [parse_canonical] and [stream_roundtrip] justify.  The
      hash has no collision among the strings that the run at hand stores;
      nothing is assumed about other strings.
    - The overlay commits what it says ([overlay_commit_spec]); range sets are
      sets, the conversions are inverse to each other.
    - Some theorems show where the code does not do what it is meant to do;
      they are listed as findings in PROJECT.json.

    ** Bounds and fuel

    Buffers have fewer than [2^63] bytes.  The fuel of [LegacyVM.exec] is
    [exec_fuel]; messages nest 1024 levels deep, after which the machine sends
    none ([Executive.run_level]); of [RangeMask.unionWith_Range] and [iterate]
    the length of the range; of the loops of [RLP] the number of bytes; of the
    size loops of the queues and of [noteReady], [retryAllUnknown],
    [drainVerified] the number of the elements; of [evict_loop] the number of
    entries; of the walks of a trie [fuel_of], four steps per byte of the key
    and three, as a walk takes at most two steps per nibble; of [hash256]
    [hash_fuel], the length of the longest key; of [BlockChain.meet] the height
    of the lower block.  In each case a lemma shows that the loop ends within
    it.  A block has a number below [2^32 - 1], which the chain keeps for no
    block.

    ** Not modelled

    The iterators and the debugging scans of the tries and [FatGenericTrieDB]
    are not modelled, and the storage tries of [State] are an interface.  Of
    the chain, [rescue], [rebuild] and [checkConsistency] are left out, and
    the block under construction (Block.cpp) is the class [Enactor].  The
    second interpreter (VM.cpp) is the first one behind another interface.  The
    database (LevelDB), the cryptography (libdevcrypto, SHA3), the peer to
    peer network (libp2p), the synchronisation with peers and the program's
    start (aya) are input, output or calls of external libraries.  The genesis
    texts are data.  The EIP 615 and 616 extensions are not compiled.  The
    consensus of libtm is an unfinished port, of which several functions do not
    compile. *)
From Stdlib Require Export ZArith Lia.
From stdpp Require Export base numbers option gmap list_numbers list.

Global Open Scope Z_scope.

Declare Scope wing_scope.
Delimit Scope wing_scope with wing.

Create HintDb wing.

(** Linear arithmetic with quotients and remainders by constants. *)
Ltac dlia := Z.to_euclidean_division_equations; lia.

(** ** Results of code that may throw *)

(** [Ok a]: the call returned [a]; [Err e]: it threw [e]. *)
Inductive result (E A : Type) : Type :=
| Ok (a : A)
| Err (e : E).
Arguments Ok {E A} a.
Arguments Err {E A} e.

#[export] Instance result_ret E : MRet (result E) := λ A a, Ok a.
#[export] Instance result_bind E : MBind (result E) := λ A B f m,
  match m with Ok a => f a | Err e => Err e end.
#[export] Instance result_fmap E : FMap (result E) := λ A B f m,
  match m with Ok a => Ok (f a) | Err e => Err e end.

#[export] Instance result_eq_dec `{EqDecision E, EqDecision A} : EqDecision (result E A).
Proof. solve_decision. Defined.

Definition is_ok {E A} (r : result E A) : bool :=
  match r with Ok _ => true | Err _ => false end.

(** Call [f] when the guard does not hold. *)
Definition throw_if {E} (b : bool) (e : E) : result E () := if b then Err e else Ok ().

Lemma bind_Ok_inv {E A B} (m : result E A) (f : A → result E B) b :
  m ≫= f = Ok b → ∃ a, m = Ok a ∧ f a = Ok b.
Proof. destruct m; [by eauto | done]. Qed.

Lemma bind_Ok_intro {E A B} (m : result E A) (f : A → result E B) a r :
  m = Ok a → f a = r → m ≫= f = r.
Proof. by intros -> <-. Qed.

Lemma throw_if_Ok {E} b (e : E) u : throw_if b e = Ok u → b = false.
Proof. by destruct b. Qed.

(** Run the left-to-right loop [for (x : l) acc = f acc x] of code that may throw. *)
Fixpoint foldM {E A B} (f : B → A → result E B) (acc : B) (l : list A) : result E B :=
  match l with
  | [] => Ok acc
  | x :: l => acc' ← f acc x; foldM f acc' l
  end.

Lemma bind_cong {E A B} (r r' : result E A) (f g : A → result E B) :
  r = r' → (∀ a, f a = g a) → r ≫= f = r' ≫= g.
Proof. intros -> Hfg. destruct r' as [a|e]; [apply Hfg|reflexivity]. Qed.
Lemma bind_id {E A} (r : result E A) : r ≫= (λ a, Ok a) = r.
Proof. by destruct r. Qed.

(** ** Machine words *)

(** The value kept by an unsigned integer type of [w] bits. *)
Definition wrap (w z : Z) : Z := z mod 2 ^ w.
Abbreviation u8 := (wrap 8).
Abbreviation u16 := (wrap 16).
Abbreviation u32 := (wrap 32).
Abbreviation u64 := (wrap 64).
Abbreviation u160 := (wrap 160).
Abbreviation u256 := (wrap 256).
Abbreviation u512 := (wrap 512).

(** The two's complement reading of a [w]-bit pattern. *)
Definition to_signed (w z : Z) : Z :=
  let r := wrap w z in if r <? 2 ^ (w - 1) then r else r - 2 ^ w.

Definition in_word (w z : Z) : Prop := 0 ≤ z < 2 ^ w.

Lemma wrap_in_word w z : 0 ≤ w → in_word w (wrap w z).
Proof. intros. apply Z.mod_pos_bound. lia. Qed.

Lemma wrap_small w z : in_word w z → wrap w z = z.
Proof. intros. by apply Z.mod_small. Qed.

Lemma wrap_wrap w z : 0 ≤ w → wrap w (wrap w z) = wrap w z.
Proof. intros. by apply wrap_small, wrap_in_word. Qed.

#[export] Hint Resolve wrap_in_word : wing.

(** ** Ordered maps (std::map), as association lists sorted by key *)

Section OrderedMap.
Context {V : Type}.
Implicit Types (k : Z) (v : V) (l : list (Z * V)).

(** [m[k] = v] *)
Fixpoint om_insert k v l : list (Z * V) :=
  match l with
  | [] => [(k, v)]
  | (k', v') :: t =>
      if k <? k' then (k, v) :: l
      else if k =? k' then (k, v) :: t
      else (k', v') :: om_insert k v t
  end.

(** [m.erase(k)] *)
Fixpoint om_erase k l : list (Z * V) :=
  match l with
  | [] => []
  | (k', v') :: t => if k =? k' then t else (k', v') :: om_erase k t
  end.

(** [m.find(k)]: the mapped value *)
Fixpoint om_find k l : option V :=
  match l with
  | [] => None
  | (k', v') :: t => if k =? k' then Some v' else om_find k t
  end.

(** [m.upper_bound(k)]: the first entry with a key above [k] *)
Fixpoint om_upper_bound k l : option (Z * V) :=
  match l with
  | [] => None
  | (k', v') :: t => if k <? k' then Some (k', v') else om_upper_bound k t
  end.

(** [std::prev(m.upper_bound(k))], [None] when the bound is [m.begin()] *)
Fixpoint om_floor k l : option (Z * V) :=
  match l with
  | [] => None
  | (k', v') :: t =>
      if k <? k' then None
      else match om_floor k t with Some e => Some e | None => Some (k', v') end
  end.

(** Keys strictly ascend and lie above [lo]. *)
Fixpoint om_sorted_from (lo : Z) l : Prop :=
  match l with
  | [] => True
  | (k, _) :: t => lo < k ∧ om_sorted_from k t
  end.

Lemma om_sorted_from_weaken lo lo' l :
  lo' ≤ lo → om_sorted_from lo l → om_sorted_from lo' l.
Proof. destruct l as [|[k v] l]; simpl; [done|]. intros ? [??]; split; [lia|done]. Qed.

Lemma om_find_below lo k l : om_sorted_from lo l → k ≤ lo → om_find k l = None.
Proof.
  revert lo. induction l as [|[k' v'] l IH]; simpl; [done|].
  intros lo [Hlo Hs] Hk. destruct (Z.eqb_spec k k'); [lia|]. apply (IH k'); [done|lia].
Qed.

Lemma om_insert_sorted lo k v l :
  lo < k → om_sorted_from lo l → om_sorted_from lo (om_insert k v l).
Proof.
  revert lo. induction l as [|[k' v'] l IH]; simpl; [done|].
  intros lo Hk [Hlo Hs]. destruct (Z.ltb_spec k k'); simpl; [done|].
  destruct (Z.eqb_spec k k'); simpl; [by subst|]. split; [done|]. apply IH; [lia|done].
Qed.

Lemma om_find_insert k k' v l :
  om_find k' (om_insert k v l) = if k' =? k then Some v else om_find k' l.
Proof.
  induction l as [|[a b] l IH]; simpl; [done|].
  destruct (Z.ltb_spec k a); simpl; [done|].
  destruct (Z.eqb_spec k a); simpl.
  - subst. destruct (Z.eqb_spec k' a); done.
  - destruct (Z.eqb_spec k' a); [|done]. subst. by destruct (Z.eqb_spec a k); [lia|].
Qed.

Lemma om_erase_sorted lo k l : om_sorted_from lo l → om_sorted_from lo (om_erase k l).
Proof.
  revert lo. induction l as [|[k' v'] l IH]; simpl; [done|].
  intros lo [Hlo Hs]. destruct (Z.eqb_spec k k'); simpl.
  - apply (om_sorted_from_weaken k'); [lia|done].
  - split; [done|]. by apply IH.
Qed.

Lemma om_find_erase lo k k' l :
  om_sorted_from lo l →
  om_find k' (om_erase k l) = if k' =? k then None else om_find k' l.
Proof.
  revert lo. induction l as [|[a b] l IH]; intros lo; simpl; [by destruct (k' =? k)|].
  intros [Hlo Hs]. destruct (Z.eqb_spec k a); simpl.
  - subst. destruct (Z.eqb_spec k' a); [subst; eapply om_find_below; [done|lia]|done].
  - rewrite (IH a) by done. destruct (Z.eqb_spec k' a); [|done].
    subst. by destruct (Z.eqb_spec a k); [lia|].
Qed.

(** The entries of a sorted list are what [om_find] finds. *)
Lemma om_sorted_above lo l k v : om_sorted_from lo l → (k, v) ∈ l → lo < k.
Proof.
  revert lo. induction l as [|[k' v'] l IH]; simpl; intros lo Hs; [by intros ?%elem_of_nil|].
  intros [?|Hin]%elem_of_cons; simplify_eq; [by destruct Hs|].
  destruct Hs as [? Hs]. specialize (IH _ Hs Hin). lia.
Qed.

Lemma om_find_elem lo l k v : om_sorted_from lo l → om_find k l = Some v ↔ (k, v) ∈ l.
Proof.
  revert lo. induction l as [|[k' v'] l IH]; intros lo Hs; simpl.
  { split; [done|]. by intros ?%elem_of_nil. }
  destruct Hs as [Hlo Hs]. rewrite elem_of_cons. destruct (Z.eqb_spec k k') as [->|Hne].
  - split; [intros; simplify_eq; by left|]. intros [?|Hin]; [by simplify_eq|].
    apply (om_sorted_above k') in Hin; [lia|done].
  - rewrite (IH k') by done. split; [by right|]. intros [?|?]; [by simplify_eq|done].
Qed.

Lemma om_sorted_sublist lo l l' :
  l' `sublist_of` l → om_sorted_from lo l → om_sorted_from lo l'.
Proof.
  intros Hsub. revert lo. induction Hsub as [|[k v] l1 l2 _ IH|[k v] l1 l2 _ IH]; intros lo; simpl.
  - done.
  - intros [??]. split; [done|]. by apply IH.
  - intros [? Hs]. apply IH. eapply om_sorted_from_weaken; [|done]. lia.
Qed.

(** The entries below a key and those from the key on ([lower_bound]). *)
Lemma om_filter_all lo k l : om_sorted_from lo l → k ≤ lo → filter (λ e, k ≤ e.1) l = l.
Proof.
  revert lo. induction l as [|[k' v'] l IH]; intros lo; [done|]. simpl. intros [Hlo Hs] Hk.
  rewrite filter_cons_True by (simpl; lia). by rewrite (IH k') by (done || lia).
Qed.
Lemma om_filter_none lo k l : om_sorted_from lo l → k ≤ lo → filter (λ e, e.1 < k) l = [].
Proof.
  revert lo. induction l as [|[k' v'] l IH]; intros lo; [done|]. simpl. intros [Hlo Hs] Hk.
  rewrite filter_cons_False by (simpl; lia). apply (IH k'); [done|lia].
Qed.
Lemma om_split lo k l :
  om_sorted_from lo l → l = filter (λ e, e.1 < k) l ++ filter (λ e, k ≤ e.1) l.
Proof.
  revert lo. induction l as [|[k' v'] l IH]; intros lo; [done|]. simpl. intros [Hlo Hs].
  destruct (decide (k' < k)).
  - rewrite filter_cons_True, filter_cons_False by (simpl; lia). simpl. f_equal. by eapply IH.
  - rewrite filter_cons_False, filter_cons_True by (simpl; lia).
    rewrite (om_filter_all k') by (done || lia). by rewrite (om_filter_none k') by (done || lia).
Qed.

Lemma om_sorted_app lo l1 l2 k v k' v' :
  om_sorted_from lo (l1 ++ l2) → (k, v) ∈ l1 → (k', v') ∈ l2 → k < k'.
Proof.
  revert lo. induction l1 as [|[k1 v1] l1 IH]; simpl; intros lo; [by intros _ ?%elem_of_nil|].
  intros [_ Hs] [?|Hin]%elem_of_cons Hin'; simplify_eq; [|by eapply IH].
  eapply om_sorted_above; [done|]. apply elem_of_app. by right.
Qed.

Lemma om_insert_length k v l : om_find k l = None → length (om_insert k v l) = S (length l).
Proof.
  induction l as [|[k' v'] l IH]; simpl; [done|]. destruct (Z.eqb_spec k k'); [done|].
  intros Hf. destruct (Z.ltb_spec k k'); simpl; [done|]. by rewrite IH.
Qed.
Lemma om_erase_length k v l : om_find k l = Some v → length l = S (length (om_erase k l)).
Proof.
  induction l as [|[k' v'] l IH]; simpl; [done|]. destruct (Z.eqb_spec k k'); [done|].
  intros Hf. simpl. by rewrite <-IH.
Qed.
Lemma om_insert_not_nil k v l : om_insert k v l ≠ [].
Proof. destruct l as [|[k' v'] l]; simpl; [done|]. by repeat case_match. Qed.
End OrderedMap.

Lemma removelast_sublist {A} (l : list A) : removelast l `sublist_of` l.
Proof.
  induction l as [|x l IH]; [done|]. simpl. destruct l; [by apply sublist_nil_l|].
  by apply sublist_skip.
Qed.
Lemma removelast_length {A} (l : list A) : l ≠ [] → length l = S (length (removelast l)).
Proof.
  induction l as [|x l IH]; [done|]. intros _. destruct l as [|y l]; [done|].
  change (S (length (y :: l)) = S (S (length (removelast (y :: l))))). by rewrite <-IH.
Qed.

(** ** Bytes *)

(** A byte is an integer from 0 to 255; [bytes], [std::string] and a
    [bytesConstRef] are lists of bytes. *)
Abbreviation bytes := (list Z).
Definition bytes_ok (bs : bytes) : Prop := Forall (in_word 8) bs.

Definition byte_okb (b : Z) : bool := (0 <=? b) && (b <? 256).
Lemma byte_okb_spec b : byte_okb b = true ↔ in_word 8 b.
Proof. unfold byte_okb, in_word. change (2 ^ 8) with 256. lia. Qed.

Lemma bytes_ok_app l1 l2 : bytes_ok (l1 ++ l2) ↔ bytes_ok l1 ∧ bytes_ok l2.
Proof. apply Forall_app. Qed.
Lemma bytes_ok_nil : bytes_ok [].
Proof. constructor. Qed.
Lemma bytes_ok_cons b l : bytes_ok (b :: l) ↔ in_word 8 b ∧ bytes_ok l.
Proof. apply Forall_cons. Qed.
Lemma bytes_ok_single b : in_word 8 b → bytes_ok [b].
Proof. intros. apply bytes_ok_cons. by split; [|constructor]. Qed.
Lemma bytes_ok_snoc l b : bytes_ok l → in_word 8 b → bytes_ok (l ++ [b]).
Proof. intros. apply bytes_ok_app. split; [done|by apply bytes_ok_single]. Qed.
#[export] Hint Resolve bytes_ok_nil bytes_ok_single bytes_ok_snoc : wing.

Definition bytes_okb (bs : bytes) : bool := forallb byte_okb bs.
Lemma bytes_okb_spec bs : bytes_okb bs = true → bytes_ok bs.
Proof.
  induction bs as [|b bs IH]; simpl; [constructor|].
  intros [Hb Hbs]%andb_prop. constructor; [by apply byte_okb_spec|by apply IH].
Qed.

(** A decision for all bytes is made by computation. *)
Lemma byte_forall (f : Z → bool) :
  forallb f (map Z.of_nat (seq 0 256)) = true → ∀ b, in_word 8 b → f b = true.
Proof.
  intros Hall b [Hb Hb']. change (2 ^ 8) with 256 in Hb'. rewrite forallb_forall in Hall.
  apply Hall, in_map_iff. exists (Z.to_nat b). split; [lia|]. apply in_seq. lia.
Qed.
Lemma bytes_ok_lookup bs i b : bytes_ok bs → bs !! i = Some b → in_word 8 b.
Proof. intros. by eapply Forall_lookup_1. Qed.

(** The big-endian number of a list of bytes, the reference the conversions
    of the code are compared with. *)
Definition be_val (bs : bytes) : Z := foldl (λ a b, a * 256 + b) 0 bs.

Lemma be_val_from a bs :
  foldl (λ a b, a * 256 + b) a bs = a * 256 ^ Z.of_nat (length bs) + be_val bs.
Proof.
  revert a. induction bs as [|b bs IH]; intros a; [unfold be_val; simpl; lia|].
  unfold be_val. simpl length. simpl foldl. rewrite !IH.
  rewrite Nat2Z.inj_succ, Z.pow_succ_r by lia. lia.
Qed.
Lemma be_val_cons b bs : be_val (b :: bs) = b * 256 ^ Z.of_nat (length bs) + be_val bs.
Proof. unfold be_val at 1. simpl. by rewrite be_val_from. Qed.
Lemma be_val_snoc b bs : be_val (bs ++ [b]) = be_val bs * 256 + b.
Proof. unfold be_val. by rewrite foldl_app. Qed.
Lemma be_val_app l1 l2 : be_val (l1 ++ l2) = be_val l1 * 256 ^ Z.of_nat (length l2) + be_val l2.
Proof. unfold be_val at 1. rewrite foldl_app. apply be_val_from. Qed.

Lemma be_val_bound bs : bytes_ok bs → 0 ≤ be_val bs < 256 ^ Z.of_nat (length bs).
Proof.
  induction bs as [|b bs IH] using rev_ind; [unfold be_val; simpl; lia|].
  intros [Hbs Hb]%bytes_ok_app. apply Forall_cons in Hb as [Hb _].
  rewrite be_val_snoc, length_app. simpl length. specialize (IH Hbs).
  unfold in_word in Hb. change (2 ^ 8) with 256 in Hb.
  replace (Z.of_nat (length bs + 1)) with (Z.succ (Z.of_nat (length bs))) by lia.
  rewrite Z.pow_succ_r by lia. lia.
Qed.

Lemma pow256_pos n : 0 < 256 ^ Z.of_nat n.
Proof. apply Z.pow_pos_nonneg; lia. Qed.

Lemma be_val_inj l1 l2 :
  bytes_ok l1 → bytes_ok l2 → length l1 = length l2 → be_val l1 = be_val l2 → l1 = l2.
Proof.
  revert l2. induction l1 as [|a l1 IH] using rev_ind; intros l2 H1 H2 Hlen Heq.
  { by destruct l2. }
  destruct l2 as [|b l2 _] using rev_ind; [rewrite length_app in Hlen; simpl in Hlen; lia|].
  rewrite !length_app in Hlen. simpl in Hlen. rewrite !be_val_snoc in Heq.
  apply bytes_ok_app in H1 as [H1 [Ha _]%bytes_ok_cons].
  apply bytes_ok_app in H2 as [H2 [Hb _]%bytes_ok_cons].
  unfold in_word in *. change (2 ^ 8) with 256 in *.
  assert (a = b) as -> by lia. f_equal. apply IH; [done|done|lia|lia].
Qed.

Lemma be_val_zero_prefix n bs : be_val (replicate n 0 ++ bs) = be_val bs.
Proof.
  rewrite be_val_app. enough (be_val (replicate n 0) = 0) as -> by lia.
  induction n as [|n IH]; [done|]. simpl. rewrite be_val_cons, IH. lia.
Qed.

(** ** Bit operations the code writes with masks and shifts *)

Lemma land_255 v : Z.land v 255 = v mod 256.
Proof. change 255 with (Z.ones 8). by rewrite Z.land_ones by lia. Qed.
Lemma shiftr_8 v : Z.shiftr v 8 = v / 256.
Proof. by rewrite Z.shiftr_div_pow2 by lia. Qed.
Lemma shiftl_8 v : Z.shiftl v 8 = v * 256.
Proof. by rewrite Z.shiftl_mul_pow2 by lia. Qed.

(** An or of numbers without common bits is their sum. *)
Lemma lor_shiftl_add v k b : 0 ≤ k → 0 ≤ b < 2 ^ k → Z.lor (Z.shiftl v k) b = v * 2 ^ k + b.
Proof.
  intros Hk Hb. rewrite <-Z.add_lor_land, Z.shiftl_mul_pow2 by done.
  enough (Z.land (v * 2 ^ k) b = 0) as -> by lia.
  apply Z.bits_inj'. intros n Hn. rewrite Z.land_spec, Z.bits_0.
  destruct (Z.lt_ge_cases n k).
  - by rewrite Z.mul_pow2_bits_low.
  - rewrite andb_comm. destruct (Z.eq_dec b 0) as [->|]; [by rewrite Z.bits_0|].
    rewrite (Z.bits_above_log2 b n); [done|lia|].
    apply Z.log2_lt_pow2; [lia|]. eapply Z.lt_le_trans; [apply Hb|].
    apply Z.pow_le_mono_r; lia.
Qed.
