(* ===== verification/RangeMask.v ===== *)
(** * RangeMask (libdevcore/RangeMask.h)

    A set of unsigned integers inside a ground range, kept as a [std::map]
    from the begin to the end of disjoint half-open ranges.  [m_ranges] is
    the ordered map of the prelude; [unsigned] is 32 bits wide. *)
From S2P Require Import Prelude.

Module RangeMask.

(** ** State *)

Definition Range : Type := Z * Z.

Record RangeMask := mkRangeMask {
  m_all : Range;               (** the ground range *)
  m_ranges : list (Z * Z)      (** begin -> end *)
}.

(** [AssertFailed]: an [assert] of the code fails.  [LoopBound]: the fuel of
    the model's loop ran out (excluded by [unionWith_Range_loop_total]). *)
Inductive error := AssertFailed | LoopBound.

(** ** Operations *)

(** The constructors: an empty mask over a ground range. *)
Definition empty_mask (c : Range) : RangeMask := mkRangeMask c [].

(** [for (i; i < _m.second;)] of [unionWith(Range)], on [m_ranges]. *)
Fixpoint unionWith_Range_loop (fuel : nat) (all m : Range) (i : Z) (rs : list (Z * Z))
    : result error (list (Z * Z)) :=
  match fuel with
  | O => Err LoopBound
  | S fuel =>
    if negb (i <? m.2) then Ok rs
    else if negb (all.1 <=? i) then Err AssertFailed
    else if negb (i <? all.2) then Err AssertFailed
    else
      let rangeAfter := om_upper_bound i rs in
      let it := om_floor i rs in
      let tooHigh := match rangeAfter with None => true | Some ra => m.2 <? ra.1 end in
      match it with
      | Some itv =>
        if itv.2 <? i then (* lower range is too low to merge *)
          match rangeAfter with
          | Some ra =>
            if tooHigh then Ok (om_insert i m.2 rs)
            else if ra.1 =? i then unionWith_Range_loop fuel all m ra.2 rs
            else unionWith_Range_loop fuel all m ra.2 (om_erase ra.1 (om_insert i ra.2 rs))
          | None => Ok (om_insert i m.2 rs)
          end
        else if itv.2 =? i then
          match rangeAfter with
          | Some ra =>
            if tooHigh then Ok (om_insert itv.1 m.2 rs)
            else unionWith_Range_loop fuel all m ra.2 (om_erase ra.1 (om_insert itv.1 ra.2 rs))
          | None => Ok (om_insert itv.1 m.2 rs)
          end
        else unionWith_Range_loop fuel all m itv.2 rs
      | None =>
        match rangeAfter with
        | Some ra =>
          if tooHigh then Ok (om_insert i m.2 rs)
          else if ra.1 =? i then unionWith_Range_loop fuel all m ra.2 rs
          else unionWith_Range_loop fuel all m ra.2 (om_erase ra.1 (om_insert i ra.2 rs))
        | None => Ok (om_insert i m.2 rs)
        end
      end
  end.

(** [RangeMask& unionWith(Range const& _m)].  Every round but the last leaves
    one range fewer that ends after [i], so one round per range and a last
    one are enough. *)
Definition unionWith_Range (rm : RangeMask) (m : Range) : result error RangeMask :=
  rs ← unionWith_Range_loop (S (S (length (m_ranges rm)))) (m_all rm) m m.1 (m_ranges rm);
  Ok (mkRangeMask (m_all rm) rs).

(** [RangeMask& unionWith(unsigned _i)] *)
Definition unionWith_elem (rm : RangeMask) (i : Z) : result error RangeMask :=
  unionWith_Range rm (i, u32 (i + 1)).

(** [RangeMask& unionWith(RangeMask const& _m)], also [operator+=], and
    [operator+] on a copy. *)
Definition unionWith (rm m : RangeMask) : result error RangeMask :=
  foldM unionWith_Range
    (mkRangeMask (Z.min (m_all m).1 (m_all rm).1, Z.max (m_all m).2 (m_all rm).2) (m_ranges rm))
    (m_ranges m).

(** [RangeMask lowest(unsigned _items) const] *)
Fixpoint lowest_loop (l : list (Z * Z)) (items : Z) (ret : list (Z * Z)) : list (Z * Z) :=
  match l with
  | [] => ret
  | (b, e) :: l =>
    if items =? 0 then ret
    else
      let r := Z.min (u32 (b + items)) e in
      lowest_loop l (u32 (items - (r - b))) (om_insert b r ret)
  end.
Definition lowest (rm : RangeMask) (items : Z) : RangeMask :=
  mkRangeMask (m_all rm) (lowest_loop (m_ranges rm) items []).

(** [RangeMask inverted() const]: the loop and the code after it *)
Fixpoint inverted_loop (l : list (Z * Z)) (last : Z) (ret : list (Z * Z))
    : Z * list (Z * Z) :=
  match l with
  | [] => (last, ret)
  | (b, e) :: l =>
    inverted_loop l e (if b =? last then ret else om_insert last b ret)
  end.
Definition inverted (rm : RangeMask) : RangeMask :=
  let '(last, ret) := inverted_loop (m_ranges rm) (m_all rm).1 [] in
  mkRangeMask (m_all rm)
    (if last =? (m_all rm).2 then ret else om_insert last (m_all rm).2 ret).

(** [operator-=]: [invert().unionWith(_m).invert()] *)
Definition subtract (rm m : RangeMask) : result error RangeMask :=
  r ← unionWith (inverted rm) m; Ok (inverted r).

(** [bool contains(unsigned _i) const] *)
Definition contains (rm : RangeMask) (i : Z) : bool :=
  match om_floor i (m_ranges rm) with
  | None => false
  | Some it => i <? it.2
  end.

Definition empty (rm : RangeMask) : bool :=
  match m_ranges rm with [] => true | _ => false end.

Definition full (rm : RangeMask) : bool :=
  ((m_all rm).1 =? (m_all rm).2) ||
  match m_ranges rm with
  | [(b, e)] => (b =? (m_all rm).1) && (e =? (m_all rm).2)
  | _ => false
  end.

Definition clear (rm : RangeMask) : RangeMask := mkRangeMask (m_all rm) [].
Definition reset (rm : RangeMask) : RangeMask := mkRangeMask (0, 0) [].

Definition extendAll (rm : RangeMask) (i : Z) : RangeMask :=
  mkRangeMask (Z.min (m_all rm).1 i, Z.max (m_all rm).2 (u32 (i + 1))) (m_ranges rm).

(** [unsigned next(unsigned _t) const] *)
Definition next (rm : RangeMask) (t : Z) : Z :=
  let t := u32 (t + 1) in
  let uit := om_upper_bound t (m_ranges rm) in
  let after := match uit with None => (m_all rm).2 | Some e => e.1 end in
  match om_floor t (m_ranges rm) with
  | Some it => if (it.1 <=? t) && (t <? it.2) then t else after
  | None => after
  end.

(** [begin()] and the elements the iterator runs through up to [end()]. *)
Definition begin_value (rm : RangeMask) : Z :=
  match m_ranges rm with [] => (m_all rm).2 | (b, _) :: _ => b end.
Fixpoint iterate (fuel : nat) (rm : RangeMask) (v : Z) : list Z :=
  match fuel with
  | O => []
  | S fuel => if v =? (m_all rm).2 then [] else v :: iterate fuel rm (next rm v)
  end.

(** [size_t size() const] *)
Definition size (rm : RangeMask) : Z :=
  foldl (λ c r, u64 (c + u32 (r.2 - r.1))) 0 (m_ranges rm).

Definition firstOut (rm : RangeMask) : Z :=
  match om_find (m_all rm).1 (m_ranges rm) with
  | Some e => e
  | None => (m_all rm).1
  end.

Definition lastIn (rm : RangeMask) : Z :=
  match last (m_ranges rm) with
  | None => (m_all rm).1
  | Some r => u32 (r.2 - 1)
  end.

(** ** Well-formed masks

    Ranges are nonempty, ascend, do not touch each other, and lie inside the
    ground range, which consists of unsigned numbers. *)

Fixpoint ranges_ok (lo hi : Z) (l : list (Z * Z)) : Prop :=
  match l with
  | [] => True
  | (b, e) :: t => lo < b ∧ b < e ∧ e ≤ hi ∧ ranges_ok e hi t
  end.

Definition wf (rm : RangeMask) : Prop :=
  0 ≤ (m_all rm).1 ∧ (m_all rm).1 ≤ (m_all rm).2 ∧ (m_all rm).2 < 2 ^ 32 ∧
  ranges_ok ((m_all rm).1 - 1) (m_all rm).2 (m_ranges rm).

(** Membership, read off the ranges. *)
Definition in_ranges (x : Z) (l : list (Z * Z)) : bool :=
  existsb (λ r, (r.1 <=? x) && (x <? r.2)) l.

(** ** The ordered map around a position *)

Arguments in_ranges : simpl never.
Definition end_of (lo : Z) (l : list (Z * Z)) : Z := foldl (λ _ r, r.2) lo l.

Lemma end_of_snoc lo l a b : end_of lo (l ++ [(a, b)]) = b.
Proof. unfold end_of. by rewrite foldl_app. Qed.

Lemma ranges_ok_app lo hi l1 l2 :
  ranges_ok lo hi (l1 ++ l2) ↔ ranges_ok lo hi l1 ∧ ranges_ok (end_of lo l1) hi l2.
Proof.
  revert lo. induction l1 as [|[b e] l1 IH]; intros lo; simpl; [tauto|].
  rewrite IH. unfold end_of. simpl. tauto.
Qed.

Lemma in_ranges_app x l1 l2 : in_ranges x (l1 ++ l2) = in_ranges x l1 || in_ranges x l2.
Proof. unfold in_ranges. by rewrite existsb_app. Qed.

Lemma in_ranges_cons x a b l :
  in_ranges x ((a, b) :: l) = (a <=? x) && (x <? b) || in_ranges x l.
Proof. done. Qed.
Lemma in_ranges_nil x : in_ranges x [] = false.
Proof. done. Qed.

(** Keys below / from a bound. *)
Definition keys_le (i : Z) (l : list (Z * Z)) : Prop := Forall (λ r, r.1 ≤ i) l.

Lemma ranges_ok_split lo hi i l :
  ranges_ok lo hi l →
  ∃ pre post, l = pre ++ post ∧ keys_le i pre ∧ Forall (λ r, i < r.1) post.
Proof.
  revert lo. induction l as [|[b e] l IH]; intros lo; simpl.
  - exists [], []. repeat constructor.
  - intros (?&?&?&Hok). destruct (decide (b ≤ i)).
    + destruct (IH _ Hok) as (pre&post&->&?&?). exists ((b,e)::pre), post.
      repeat (split || constructor); done.
    + exists [], ((b, e) :: l). split; [done|]. split; [constructor|].
      constructor; [simpl; lia|]. clear IH.
      revert e H0 H1 Hok. induction l as [|[b' e'] l IHl]; intros e ? ? Hok; [constructor|].
      destruct Hok as (?&?&?&?). constructor; [simpl; lia|]. apply (IHl e'); [lia|lia|done].
Qed.

Lemma om_upper_bound_app i pre post :
  keys_le i pre → om_upper_bound i (pre ++ post) = om_upper_bound (V:=Z) i post.
Proof.
  induction 1 as [|[a b] pre Ha ? IH]; simpl; [done|].
  destruct (Z.ltb_spec i a); [simpl in *; lia|done].
Qed.
Lemma om_upper_bound_gt i post :
  Forall (λ r, i < r.1) post → om_upper_bound i post = head (A:=Z*Z) post.
Proof. destruct 1 as [|[a b] post Ha ?]; simpl; [done|]. destruct (Z.ltb_spec i a); [done|simpl in *;lia]. Qed.
Lemma om_floor_gt i post : Forall (λ r, i < r.1) post → om_floor (V:=Z) i post = None.
Proof. destruct 1 as [|[a b] post Ha ?]; simpl; [done|]. destruct (Z.ltb_spec i a); [done|simpl in *;lia]. Qed.
Lemma om_floor_snoc i pre a b post :
  keys_le i (pre ++ [(a, b)]) → Forall (λ r, i < r.1) post →
  om_floor i ((pre ++ [(a, b)]) ++ post) = Some (a, b).
Proof.
  rewrite <-app_assoc. simpl. intros Hle Hgt. apply Forall_app in Hle as [Hpre Hab].
  inversion_clear Hab as [|? ? Hab0 _]; simpl in Hab0.
  induction Hpre as [|[c d] pre Hc ? IH]; simpl.
  - destruct (Z.ltb_spec i a); [lia|]. by rewrite om_floor_gt.
  - simpl in Hc. destruct (Z.ltb_spec i c); [lia|]. by rewrite IH.
Qed.
Lemma om_insert_app k v pre post :
  Forall (λ r, r.1 < k) pre → Forall (λ r, k < r.1) post →
  om_insert (V:=Z) k v (pre ++ post) = pre ++ (k, v) :: post.
Proof.
  intros Hpre Hpost. induction Hpre as [|[a b] pre Ha ? IH]; simpl in *.
  - destruct Hpost as [|[a b] post Ha ?]; simpl in *; [done|].
    destruct (Z.ltb_spec k a); [done|lia].
  - destruct (Z.ltb_spec k a); [lia|]. destruct (Z.eqb_spec k a); [lia|]. by rewrite IH.
Qed.
Lemma om_insert_same k v w pre post :
  Forall (λ r, r.1 < k) pre →
  om_insert (V:=Z) k v (pre ++ (k, w) :: post) = pre ++ (k, v) :: post.
Proof.
  induction 1 as [|[a b] pre Ha ? IH]; simpl in *.
  - destruct (Z.ltb_spec k k); [lia|]. by rewrite Z.eqb_refl.
  - destruct (Z.ltb_spec k a); [lia|]. destruct (Z.eqb_spec k a); [lia|]. by rewrite IH.
Qed.
Lemma om_erase_app k v pre post :
  Forall (λ r, r.1 < k) pre → om_erase (V:=Z) k (pre ++ (k, v) :: post) = pre ++ post.
Proof.
  induction 1 as [|[a b] pre Ha ? IH]; simpl in *.
  - by rewrite Z.eqb_refl.
  - destruct (Z.eqb_spec k a); [lia|]. by rewrite IH.
Qed.

(** Keys of a well-formed prefix lie below its end. *)
Lemma ranges_ok_keys_lt lo hi l : ranges_ok lo hi l → Forall (λ r, r.1 < end_of lo l) l.
Proof.
  induction l as [|[a b] l IH] using rev_ind; [constructor|].
  rewrite ranges_ok_app, end_of_snoc. simpl. intros [Hl (?&?&?&_)].
  apply Forall_app. split; [|repeat constructor; simpl; lia].
  eapply Forall_impl; [exact (IH Hl)|]. simpl. intros. lia.
Qed.
Lemma ranges_ok_weaken lo lo' hi l : lo' ≤ lo → ranges_ok lo hi l → ranges_ok lo' hi l.
Proof. destruct l as [|[a b] l]; simpl; [done|]. intros ? (?&?&?&?). repeat split; try done; lia. Qed.
Lemma ranges_ok_end_le lo hi l : lo ≤ hi → ranges_ok lo hi l → lo ≤ end_of lo l ≤ hi.
Proof.
  revert lo. induction l as [|[a b] l IH]; intros lo; unfold end_of in *; simpl; [lia|].
  intros ? (?&?&?&Hl). specialize (IH b ltac:(lia) Hl). lia.
Qed.

(** The loop's measure: the ranges that end after [i]. *)
Definition above (i : Z) (l : list (Z * Z)) : nat := length (filter (λ r, i < r.2) l).

Lemma above_app i l1 l2 : above i (l1 ++ l2) = (above i l1 + above i l2)%nat.
Proof. unfold above. by rewrite filter_app, length_app. Qed.
Lemma above_cons i a b l : above i ((a, b) :: l) = ((if decide (i < b)%Z then 1 else 0) + above i l)%nat.
Proof. unfold above. rewrite filter_cons. simpl. by case_decide. Qed.
Lemma above_nil i : above i [] = 0%nat.
Proof. done. Qed.
Lemma above_mono i j l : i ≤ j → (above j l ≤ above i l)%nat.
Proof.
  intros ?. induction l as [|[a b] l IH]; [done|]. rewrite !above_cons. repeat case_decide; lia.
Qed.
Lemma above_le_length i l : (above i l ≤ length l)%nat.
Proof. apply length_filter. Qed.

Ltac mem :=
  rewrite ?in_ranges_app, ?in_ranges_cons, ?in_ranges_nil; simpl;
  repeat match goal with |- context [in_ranges ?x ?l] => destruct (in_ranges x l) end;
  simpl; lia.

Lemma om_erase_second k v c w pre post :
  Forall (λ r, r.1 < k) pre → k < c →
  om_erase (V:=Z) c (pre ++ (k, v) :: (c, w) :: post) = pre ++ (k, v) :: post.
Proof.
  intros Hpre Hc. change (pre ++ (k, v) :: (c, w) :: post) with (pre ++ [(k, v)] ++ (c, w) :: post).
  rewrite app_assoc, om_erase_app; [by rewrite <-app_assoc|].
  apply Forall_app. split; [|repeat constructor; simpl; lia].
  eapply Forall_impl; [exact Hpre|]. simpl. lia.
Qed.
Lemma above_merge i a c d pre post :
  i < c < d → (above d (pre ++ (a, d) :: post) < above i (pre ++ (c, d) :: post))%nat.
Proof.
  intros. rewrite !above_app, !above_cons. repeat case_decide; try lia.
  pose proof (above_mono i d pre). pose proof (above_mono i d post). lia.
Qed.

(** What the loop of [unionWith] owes its caller from position [i] on. *)
Definition union_result (all m : Range) (i : Z) (rs : list (Z * Z))
    (r : result error (list (Z * Z))) : Prop :=
  ∃ rs', r = Ok rs' ∧ ranges_ok (all.1 - 1) all.2 rs' ∧
    ∀ x, in_ranges x rs' = in_ranges x rs || ((i <=? x) && (x <? m.2)).

Section LoopStep.
Context (all m : Range) (i : Z) (k : Z → list (Z * Z) → result error (list (Z * Z))).
Context (pre post : list (Z * Z)).
Hypothesis Hi : all.1 ≤ i < m.2.
Hypothesis Hm : m.2 ≤ all.2.
Hypothesis Hpost : Forall (λ r, i < r.1) post.
Hypothesis Hokpre : ranges_ok (all.1 - 1) all.2 pre.
Hypothesis Hk : ∀ j rs, i ≤ j → ranges_ok (all.1 - 1) all.2 rs →
  (above j rs < above i (pre ++ post))%nat → union_result all m j rs (k j rs).

Let tooHigh := match head post with None => true | Some ra => m.2 <? ra.1 end.

(** [i] lies in a gap: a new range starts at [i]. *)
Lemma step_gap :
  end_of (all.1 - 1) pre < i → ranges_ok (end_of (all.1 - 1) pre) all.2 post →
  union_result all m i (pre ++ post)
    match head post with
    | Some ra =>
      if tooHigh then Ok (om_insert i m.2 (pre ++ post))
      else if ra.1 =? i then k ra.2 (pre ++ post)
      else k ra.2 (om_erase ra.1 (om_insert i ra.2 (pre ++ post)))
    | None => Ok (om_insert i m.2 (pre ++ post))
    end.
Proof.
  intros Hend Hokpost. subst tooHigh.
  assert (Hlt : Forall (λ r, r.1 < i) pre).
  { eapply Forall_impl; [by eapply ranges_ok_keys_lt|]. simpl. lia. }
  destruct post as [|[c d] post']; simpl.
  - eexists. split; [done|]. rewrite om_insert_app by done. split.
    + apply ranges_ok_app. split; [done|]. simpl. lia.
    + intros x. mem.
  - simpl in Hokpost. destruct Hokpost as (?&?&?&Hokpost).
    inversion Hpost as [|? ? Hc Hpost']; subst. simpl in Hc.
    destruct (Z.ltb_spec m.2 c).
    + eexists. split; [done|]. rewrite om_insert_app by done. split.
      * apply ranges_ok_app. split; [done|]. simpl. repeat split; try done; lia.
      * intros x. mem.
    + destruct (Z.eqb_spec c i); [lia|]. rewrite om_insert_app by done.
      rewrite (om_erase_second i d c) by (done || lia).
      destruct (Hk d (pre ++ (i, d) :: post')) as (rs'&->&Hok'&Hin); [lia| | |].
      * apply ranges_ok_app. split; [done|]. simpl. repeat split; try done; lia.
      * apply above_merge; lia.
      * eexists. split; [done|]. split; [done|]. intros x. rewrite Hin. mem.
Qed.

(** A range [(a, i)] ends where the new one starts: it is extended. *)
Lemma step_touch_gap a :
  end_of (all.1 - 1) pre < a < i → ranges_ok i all.2 post →
  (∀ j, above j (pre ++ post) ≤ above j (pre ++ (a, i) :: post))%nat →
  union_result all m i (pre ++ (a, i) :: post)
    match head post with
    | Some ra =>
      if tooHigh then Ok (om_insert a m.2 (pre ++ (a, i) :: post))
      else k ra.2 (om_erase ra.1 (om_insert a ra.2 (pre ++ (a, i) :: post)))
    | None => Ok (om_insert a m.2 (pre ++ (a, i) :: post))
    end.
Proof.
  intros Ha Hokpost Hab. subst tooHigh.
  assert (Hlt : Forall (λ r, r.1 < a) pre).
  { eapply Forall_impl; [by eapply ranges_ok_keys_lt|]. simpl. lia. }
  destruct post as [|[c d] post']; simpl.
  - eexists. split; [done|]. rewrite om_insert_same by done. split.
    + apply ranges_ok_app. split; [done|]. simpl. lia.
    + intros x. mem.
  - simpl in Hokpost. destruct Hokpost as (?&?&?&Hokpost).
    rewrite !om_insert_same by done.
    destruct (Z.ltb_spec m.2 c).
    + eexists. split; [done|]. split.
      * apply ranges_ok_app. split; [done|]. simpl. repeat split; try done; lia.
      * intros x. mem.
    + rewrite (om_erase_second a d c) by (done || lia).
      destruct (Hk d (pre ++ (a, d) :: post')) as (rs'&->&Hok'&Hin); [lia| | |].
      * apply ranges_ok_app. split; [done|]. simpl. repeat split; try done; lia.
      * apply above_merge; lia.
      * eexists. split; [done|]. split; [done|]. intros x. rewrite Hin. mem.
Qed.
End LoopStep.

Lemma unionWith_Range_loop_spec fuel all m i rs :
  all.1 ≤ i → m.2 ≤ all.2 → ranges_ok (all.1 - 1) all.2 rs →
  (above i rs < fuel)%nat →
  union_result all m i rs (unionWith_Range_loop fuel all m i rs).
Proof.
  revert i rs. induction fuel as [|fuel IH]; intros i rs Hi Hm Hok Hfuel; [lia|]. simpl.
  destruct (Z.ltb_spec i m.2) as [Hlt|Hge]; simpl.
  2: { exists rs. split; [done|]. split; [done|]. intros x. mem. }
  destruct (Z.leb_spec all.1 i); simpl; [|lia].
  destruct (Z.ltb_spec i all.2); simpl; [|lia].
  destruct (ranges_ok_split _ _ i _ Hok) as (pre&post&->&Hpre&Hpost).
  rewrite om_upper_bound_app, om_upper_bound_gt by done.
  apply ranges_ok_app in Hok as [Hokpre Hokpost].
  assert (Hk : ∀ j rs, i ≤ j → ranges_ok (all.1 - 1) all.2 rs →
    (above j rs < above i (pre ++ post))%nat →
    union_result all m j rs (unionWith_Range_loop fuel all m j rs)).
  { intros. apply IH; [lia|done|done|lia]. }
  destruct pre as [|[a b] pre _] using rev_ind.
  { rewrite om_floor_gt by done. apply step_gap; try done. unfold end_of; simpl; lia. }
  rewrite om_floor_snoc by done. simpl.
  destruct (Z.ltb_spec b i); [apply step_gap; try done; by rewrite end_of_snoc|].
  rewrite end_of_snoc in Hokpost.
  apply ranges_ok_app in Hokpre as [Hokpre Hab]. simpl in Hab.
  destruct (Z.eqb_spec b i) as [->|].
  - rewrite <-app_assoc in *. simpl.
    apply step_touch_gap; try done; [|lia|].
    + intros j rs Hj Hokr Hlt'. apply Hk; [done|done|].
      rewrite !above_app, above_cons in *. case_decide; lia.
    + intros j. rewrite !above_app, above_cons. case_decide; lia.
  - destruct (Hk b ((pre ++ [(a, b)]) ++ post)) as (rs'&Hrs'&Hok'&Hin); [lia| | |].
    + rewrite !ranges_ok_app, end_of_snoc. simpl. tauto.
    + rewrite !above_app, !above_cons, ?above_nil. repeat case_decide; try lia;
      pose proof (above_mono i b pre); pose proof (above_mono i b post); lia.
    + exists rs'. split; [done|]. split; [done|]. intros x. rewrite Hin.
      apply Forall_app in Hpre as [_ Ha]. inversion_clear Ha as [|? ? Ha' _]. simpl in Ha'.
      mem.
Qed.

(** ** Membership *)

Lemma in_ranges_false_below lo hi l x :
  ranges_ok lo hi l → x ≤ lo → in_ranges x l = false.
Proof.
  revert lo. induction l as [|[a b] l IH]; intros lo; [done|]. simpl. intros (?&?&?&Hl) ?.
  rewrite in_ranges_cons, (IH b) by (done || lia). lia.
Qed.

Lemma in_ranges_false_above lo hi l x :
  ranges_ok lo hi l → end_of lo l ≤ x → lo ≤ x → in_ranges x l = false.
Proof.
  induction l as [|[a b] l IH] using rev_ind; [done|].
  rewrite ranges_ok_app, end_of_snoc, in_ranges_app. simpl. intros [Hl (?&?&?&_)] ? ?.
  rewrite IH by (done || lia). rewrite in_ranges_cons, in_ranges_nil. simpl. lia.
Qed.

Lemma contains_in_ranges rm x : wf rm → contains rm x = in_ranges x (m_ranges rm).
Proof.
  destruct rm as [all rs]. intros (?&?&?&Hok). unfold contains. simpl in *.
  destruct (ranges_ok_split _ _ x _ Hok) as (pre&post&->&Hpre&Hpost).
  apply ranges_ok_app in Hok as [Hokpre Hokpost]. rewrite in_ranges_app.
  assert (in_ranges x post = false) as ->.
  { destruct Hpost as [|[a b] post Ha ?]; [done|]. simpl in *.
    rewrite in_ranges_cons, (in_ranges_false_below b all.2) by (tauto || lia). lia. }
  rewrite orb_false_r. destruct pre as [|[a b] pre _] using rev_ind; [by rewrite om_floor_gt|].
  rewrite om_floor_snoc by done. simpl.
  apply ranges_ok_app in Hokpre as [Hokpre Hab]. simpl in Hab.
  apply Forall_app in Hpre as [_ Ha]. inversion_clear Ha as [|? ? Ha' _]. simpl in Ha'.
  rewrite in_ranges_app, in_ranges_cons, in_ranges_nil.
  pose proof (ranges_ok_end_le (all.1 - 1) all.2 pre ltac:(lia) Hokpre).
  rewrite (in_ranges_false_above _ _ pre) by (done || lia). lia.
Qed.

Lemma wf_empty_mask b e : 0 ≤ b ≤ e → e < 2 ^ 32 → wf (empty_mask (b, e)).
Proof. unfold wf; simpl; lia. Qed.

Lemma unionWith_Range_spec rm m :
  wf rm → (m_all rm).1 ≤ m.1 → m.2 ≤ (m_all rm).2 →
  ∃ rm', unionWith_Range rm m = Ok rm' ∧ wf rm' ∧ m_all rm' = m_all rm ∧
    ∀ x, contains rm' x = contains rm x || ((m.1 <=? x) && (x <? m.2)).
Proof.
  intros Hwf Hlo Hhi. pose proof Hwf as (?&?&?&Hok). unfold unionWith_Range.
  destruct (unionWith_Range_loop_spec (S (S (length (m_ranges rm)))) (m_all rm) m m.1 (m_ranges rm))
    as (rs&->&Hok'&Hin); [done..| |].
  { pose proof (above_le_length m.1 (m_ranges rm)). lia. }
  assert (wf (mkRangeMask (m_all rm) rs)) as Hwf' by done.
  eexists. split; [reflexivity|]. split; [done|]. split; [done|].
  intros x. rewrite !contains_in_ranges by done. apply Hin.
Qed.

Lemma unionWith_fold all l rm :
  wf rm → m_all rm = all → Forall (λ r, all.1 ≤ r.1 ∧ r.2 ≤ all.2) l →
  ∃ rm', foldM unionWith_Range rm l = Ok rm' ∧ wf rm' ∧ m_all rm' = all ∧
    ∀ x, contains rm' x = contains rm x || in_ranges x l.
Proof.
  intros Hwf Hall Hl. revert rm Hwf Hall. induction Hl as [|[a b] l [Ha Hb] _ IH];
    intros rm Hwf Hall; simpl in *.
  { exists rm. split; [done|]. split; [done|]. split; [done|]. intros. by rewrite orb_false_r. }
  destruct (unionWith_Range_spec rm (a, b)) as (rm1&->&Hwf1&Hall1&Hin1); [done|simpl; by subst..|].
  destruct (IH rm1) as (rm'&Hrm'&Hwf'&Hall'&Hin'); [done|congruence|].
  exists rm'. split; [done|]. split; [done|]. split; [done|].
  intros x. rewrite Hin', Hin1, in_ranges_cons, orb_assoc. done.
Qed.

Lemma ranges_ok_inside lo hi l :
  ranges_ok lo hi l → Forall (λ r, lo < r.1 ∧ r.1 < r.2 ∧ r.2 ≤ hi) l.
Proof.
  revert lo. induction l as [|[a b] l IH]; intros lo; simpl; [constructor|].
  intros (?&?&?&Hl). constructor; [simpl; lia|].
  eapply Forall_impl; [by apply IH|]. simpl. lia.
Qed.

Lemma ranges_ok_hi lo hi hi' l : hi ≤ hi' → ranges_ok lo hi l → ranges_ok lo hi' l.
Proof.
  revert lo. induction l as [|[a b] l IH]; intros lo; simpl; [done|].
  intros ? (?&?&?&?). repeat split; try done; [lia|]. by apply IH.
Qed.

(** The hull of two ground ranges. *)
Definition hull (a b : Range) : Range := (Z.min b.1 a.1, Z.max b.2 a.2).

Lemma unionWith_spec rm m :
  wf rm → wf m →
  ∃ rm', unionWith rm m = Ok rm' ∧ wf rm' ∧ m_all rm' = hull (m_all rm) (m_all m) ∧
    ∀ x, contains rm' x = contains rm x || contains m x.
Proof.
  intros Hwf (?&?&?&Hokm). pose proof Hwf as (?&?&?&Hok). unfold unionWith.
  set (rm0 := mkRangeMask (hull (m_all rm) (m_all m)) (m_ranges rm)).
  assert (wf rm0) as Hwf0.
  { unfold wf, rm0, hull; simpl. repeat split; try lia.
    eapply ranges_ok_weaken; [|eapply ranges_ok_hi; [|done]]; lia. }
  destruct (unionWith_fold (hull (m_all rm) (m_all m)) (m_ranges m) rm0) as (rm'&Hrm'&Hwf'&Hall'&Hin');
    [done|done| |].
  { eapply Forall_impl; [by eapply ranges_ok_inside|]. unfold hull; simpl. intros. lia. }
  exists rm'. split; [done|]. split; [done|]. split; [done|].
  intros x. rewrite Hin'. rewrite (contains_in_ranges rm0), (contains_in_ranges rm) by done.
  by rewrite (contains_in_ranges m).
Qed.

(** ** Complement *)

Lemma om_insert_last k v l :
  Forall (λ r, r.1 < k) l → om_insert (V:=Z) k v l = l ++ [(k, v)].
Proof. intros. rewrite <-(app_nil_r l) at 1. by apply om_insert_app. Qed.

(** The complement of the ranges between [last] and the end of the loop. *)
Lemma inverted_loop_spec lo hi l last ret :
  lo ≤ last ≤ hi → ranges_ok (lo - 1) last ret → end_of (lo - 1) ret < last →
  ranges_ok (last - 1) hi l →
  ∃ last' ret', inverted_loop l last ret = (last', ret') ∧ last ≤ last' ≤ hi ∧
    ranges_ok (lo - 1) last' ret' ∧ end_of (lo - 1) ret' < last' ∧
    (∀ x, last' ≤ x → in_ranges x l = false) ∧
    ∀ x, in_ranges x ret' =
      in_ranges x ret || ((last <=? x) && (x <? last') && negb (in_ranges x l)).
Proof.
  revert last ret. induction l as [|[b e] l IH]; intros last ret Hlast Hret Hend Hok.
  { exists last, ret. simpl. repeat (split; [done || lia|]). intros x. mem. }
  simpl. destruct Hok as (?&?&?&Hok).
  assert (Hok' : ranges_ok (e - 1) hi l) by (eapply ranges_ok_weaken; [|done]; lia).
  destruct (Z.eqb_spec b last) as [->|].
  - destruct (IH e ret) as (last'&ret'&->&?&?&?&Hab&Hin); [lia| |lia|done|].
    { eapply ranges_ok_hi; [|done]; lia. }
    exists last', ret'. repeat (split; [done || lia|]). split.
    { intros x Hx. rewrite in_ranges_cons, Hab by done. lia. }
    intros x. rewrite Hin.
    pose proof (in_ranges_false_below e hi l x Hok) as Hb.
    destruct (Z.leb_spec x e); [rewrite Hb by lia|]; mem.
  - rewrite om_insert_last.
    2: { eapply Forall_impl; [by eapply ranges_ok_keys_lt|]. simpl. lia. }
    destruct (IH e (ret ++ [(last, b)])) as (last'&ret'&->&?&?&?&Hab&Hin); [lia| | |done|].
    { apply ranges_ok_app. split; [eapply ranges_ok_hi; [|done]; lia|]. simpl. lia. }
    { rewrite end_of_snoc. lia. }
    exists last', ret'. repeat (split; [done || lia|]). split.
    { intros x Hx. rewrite in_ranges_cons, Hab by done. lia. }
    intros x. rewrite Hin.
    pose proof (in_ranges_false_below e hi l x Hok) as Hb.
    destruct (Z.leb_spec x e); [rewrite Hb by lia|]; mem.
Qed.

Lemma inverted_spec rm :
  wf rm → wf (inverted rm) ∧ m_all (inverted rm) = m_all rm ∧
  ∀ x, contains (inverted rm) x =
    ((m_all rm).1 <=? x) && (x <? (m_all rm).2) && negb (contains rm x).
Proof.
  intros Hwf. pose proof Hwf as (?&?&?&Hok). unfold inverted.
  destruct (inverted_loop_spec (m_all rm).1 (m_all rm).2 (m_ranges rm) (m_all rm).1 [])
    as (last&ret&->&?&Hret&?&Hab&Hin); [lia|done|unfold end_of; simpl; lia|done|].
  set (l := if last =? _ then _ else _).
  assert (ranges_ok ((m_all rm).1 - 1) (m_all rm).2 l ∧
    ∀ x, in_ranges x l = ((m_all rm).1 <=? x) && (x <? (m_all rm).2) && negb (contains rm x))
    as [Hl Hinl].
  { subst l. destruct (Z.eqb_spec last (m_all rm).2) as [<-|].
    - split; [done|]. intros x. rewrite Hin, contains_in_ranges by done. mem.
    - rewrite om_insert_last.
      2: { eapply Forall_impl; [by eapply ranges_ok_keys_lt|]. simpl. lia. }
      split.
      + apply ranges_ok_app. split; [eapply ranges_ok_hi; [|done]; lia|]. simpl. lia.
      + intros x. rewrite in_ranges_app, Hin, contains_in_ranges by done.
        specialize (Hab x). destruct (Z.leb_spec last x); [rewrite Hab by done|]; mem. }
  assert (wf (mkRangeMask (m_all rm) l)) as Hwf' by done.
  split; [done|]. split; [done|]. intros x. by rewrite contains_in_ranges, <-Hinl.
Qed.

Lemma contains_ground rm x :
  wf rm → contains rm x = true → (m_all rm).1 ≤ x < (m_all rm).2.
Proof.
  intros Hwf. rewrite contains_in_ranges by done. destruct Hwf as (_&_&_&Hok).
  intros ([a b]&Hin&Hx)%existsb_exists. apply ranges_ok_inside in Hok.
  rewrite Forall_forall in Hok. specialize (Hok (a, b)). rewrite list_elem_of_In in Hok.
  specialize (Hok Hin). simpl in *. lia.
Qed.

(** ** Iteration *)

Lemma next_spec rm v :
  wf rm → (m_all rm).1 - 1 ≤ v < (m_all rm).2 →
  v < next rm v ≤ (m_all rm).2 ∧
  (∀ x, v < x < next rm v → contains rm x = false) ∧
  (next rm v < (m_all rm).2 → contains rm (next rm v) = true).
Proof.
  intros Hwf Hv. pose proof Hwf as (?&?&?&Hok).
  setoid_rewrite (contains_in_ranges rm); [|done..]. clear Hwf.
  destruct rm as [all rs]. unfold next. simpl in *.
  rewrite wrap_small by (unfold in_word; lia). set (t := v + 1).
  destruct (ranges_ok_split _ _ t _ Hok) as (pre&post&->&Hpre&Hpost).
  apply ranges_ok_app in Hok as [Hokpre Hokpost].
  rewrite om_upper_bound_app, om_upper_bound_gt by done.
  set (after := match head post with None => all.2 | Some e => e.1 end).
  assert (Hafter : t ≤ after ≤ all.2 ∧ (∀ x, x < after → in_ranges x post = false) ∧
            (after < all.2 → in_ranges after post = true)).
  { subst after. destruct post as [|[a b] post]; simpl.
    { split; [lia|]. split; [done|lia]. }
    inversion_clear Hpost as [|? ? Ha _]. simpl in Ha, Hokpost.
    split; [lia|]. split.
    - intros x ?. rewrite in_ranges_cons, (in_ranges_false_below b all.2) by (tauto || lia). lia.
    - intros _. rewrite in_ranges_cons. lia. }
  setoid_rewrite in_ranges_app.
  destruct pre as [|[a b] pre _] using rev_ind.
  { rewrite om_floor_gt by done. split; [lia|]. rewrite in_ranges_nil. split.
    - intros x ?. rewrite in_ranges_nil. simpl. apply Hafter. lia.
    - simpl. apply Hafter. }
  rewrite om_floor_snoc by done. simpl.
  apply ranges_ok_app in Hokpre as [Hokpre Hab]. simpl in Hab.
  apply Forall_app in Hpre as [_ Ha]. inversion_clear Ha as [|? ? Ha' _]. simpl in Ha'.
  pose proof (ranges_ok_end_le (all.1 - 1) all.2 pre ltac:(lia) Hokpre).
  assert (Hinpre : ∀ x, a ≤ x → in_ranges x (pre ++ [(a, b)]) = (x <? b)).
  { intros x ?. rewrite in_ranges_app, in_ranges_cons, in_ranges_nil.
    rewrite (in_ranges_false_above (all.1 - 1) all.2 pre) by (done || lia). lia. }
  destruct (Z.leb_spec a t); simpl; [|lia]. destruct (Z.ltb_spec t b).
  - split; [lia|]. split; [lia|]. intros _. rewrite Hinpre by lia. lia.
  - split; [lia|]. split.
    + intros x ?. rewrite Hinpre by lia. rewrite (proj1 (proj2 Hafter)) by lia. lia.
    + intros. rewrite (proj2 (proj2 Hafter)) by lia. apply orb_true_r.
Qed.

Lemma begin_value_spec rm :
  wf rm →
  (m_all rm).1 ≤ begin_value rm ≤ (m_all rm).2 ∧
  (∀ x, x < begin_value rm → contains rm x = false) ∧
  (begin_value rm < (m_all rm).2 → contains rm (begin_value rm) = true).
Proof.
  intros Hwf. pose proof Hwf as (?&?&?&Hok).
  setoid_rewrite (contains_in_ranges rm); [|done..]. clear Hwf.
  destruct rm as [all [|[a b] rs]]; unfold begin_value; simpl in *.
  { split; [lia|]. split; [done|lia]. }
  split; [lia|]. split.
  - intros x ?. rewrite in_ranges_cons, (in_ranges_false_below b all.2) by (tauto || lia). lia.
  - intros _. rewrite in_ranges_cons. lia.
Qed.

(** The members of the mask from [v] on, in ascending order. *)
Definition members_from (rm : RangeMask) (v : Z) : list Z :=
  filter (λ x, contains rm x = true) (seqZ v ((m_all rm).2 - v)).

Lemma members_from_skip rm v w :
  v ≤ w ≤ (m_all rm).2 → (∀ x, v ≤ x < w → contains rm x = false) →
  members_from rm v = members_from rm w.
Proof.
  intros Hvw Hno. unfold members_from.
  replace ((m_all rm).2 - v) with ((w - v) + ((m_all rm).2 - w)) by lia.
  rewrite seqZ_app, filter_app by lia. replace (v + (w - v)) with w by lia.
  replace (filter _ (seqZ v (w - v))) with (@nil Z); [done|].
  symmetry. apply elem_of_nil_inv. intros x [Hx Hin]%list_elem_of_filter.
  apply elem_of_seqZ in Hin. rewrite Hno in Hx by lia. done.
Qed.

Lemma members_from_step rm v :
  v < (m_all rm).2 → contains rm v = true →
  members_from rm v = v :: members_from rm (v + 1).
Proof.
  intros Hv Hin. unfold members_from.
  rewrite seqZ_cons by lia. rewrite filter_cons_True by done.
  unfold Z.succ. do 3 f_equal. lia.
Qed.

Lemma iterate_spec fuel rm v :
  wf rm → (m_all rm).1 ≤ v ≤ (m_all rm).2 →
  (v < (m_all rm).2 → contains rm v = true) →
  (m_all rm).2 - v < Z.of_nat fuel →
  iterate fuel rm v = members_from rm v.
Proof.
  intros Hwf. revert v. induction fuel as [|fuel IH]; intros v Hv Hin Hfuel; [lia|]. simpl.
  destruct (Z.eqb_spec v (m_all rm).2) as [->|].
  { unfold members_from. rewrite Z.sub_diag. done. }
  destruct (next_spec rm v Hwf) as (?&Hgap&Hnext); [lia|].
  rewrite (members_from_step rm v) by (lia || apply Hin; lia). f_equal.
  rewrite IH by (done || lia). symmetry. apply members_from_skip; [lia|].
  intros. apply Hgap. lia.
Qed.

(** ** Properties *)

(** C36. Adding a range inside the ground range never trips the assertions,
    never runs out of rounds, keeps the ranges disjoint and ascending, keeps
    the ground range, and adds exactly the numbers of the range. *)
Theorem unionWith_Range_correct rm m :
  wf rm → (m_all rm).1 ≤ m.1 → m.2 ≤ (m_all rm).2 →
  ∃ rm', unionWith_Range rm m = Ok rm' ∧ wf rm' ∧ m_all rm' = m_all rm ∧
    ∀ x, contains rm' x = contains rm x || ((m.1 <=? x) && (x <? m.2)).
Proof. apply unionWith_Range_spec. Qed.

Lemma unionWith_Range_correct_witness :
  let rm := mkRangeMask (0, 100) [(10, 20); (30, 40)] in
  ∃ rm', unionWith_Range rm (15, 30) = Ok rm' ∧ wf rm' ∧ m_all rm' = m_all rm ∧
    ∀ x, contains rm' x = contains rm x || ((15 <=? x) && (x <? 30)).
Proof.
  intros rm. apply (unionWith_Range_correct rm (15, 30)); simpl; [|lia..].
  unfold wf; simpl; lia.
Defined.

(** The difference of two masks: over the hull of the two ground ranges,
    [a - b] holds the members of [a] that are not members of [b], and every
    number of the hull that lies outside the ground range of [a] and is not a
    member of [b].  It is the set difference exactly when the ground range of
    [b] lies in that of [a] (or [b] covers the surplus). *)
Theorem subtract_correct a b :
  wf a → wf b →
  ∃ r, subtract a b = Ok r ∧ wf r ∧ m_all r = hull (m_all a) (m_all b) ∧
    ∀ x, contains r x =
      negb (contains b x) &&
      (contains a x ||
       (((m_all r).1 <=? x) && (x <? (m_all r).2) &&
        negb (((m_all a).1 <=? x) && (x <? (m_all a).2)))).
Proof.
  intros Ha Hb. unfold subtract.
  destruct (inverted_spec a Ha) as (Hwi&Halli&Hini).
  destruct (unionWith_spec (inverted a) b Hwi Hb) as (u&->&Hwu&Hallu&Hinu). simpl.
  destruct (inverted_spec u Hwu) as (Hwr&Hallr&Hinr).
  eexists. split; [reflexivity|]. split; [done|].
  rewrite Hallr, Hallu, Halli. split; [done|].
  intros x. rewrite Hinr, Hinu, Hini, Hallu, Halli.
  pose proof (contains_ground a x Ha) as Hground.
  unfold hull; simpl.
  destruct (contains a x), (contains b x); simpl; try specialize (Hground eq_refl); lia.
Qed.

Lemma subtract_correct_witness :
  let a := mkRangeMask (0, 10) [(2, 4)] in
  let b := mkRangeMask (0, 20) [(3, 4)] in
  ∃ r, subtract a b = Ok r ∧ wf r ∧ m_all r = hull (m_all a) (m_all b) ∧
    ∀ x, contains r x =
      negb (contains b x) &&
      (contains a x ||
       (((m_all r).1 <=? x) && (x <? (m_all r).2) &&
        negb (((m_all a).1 <=? x) && (x <? (m_all a).2)))).
Proof. intros a b. apply (subtract_correct a b); unfold wf; simpl; lia. Defined.

(** Iterating from [begin()] to [end()] yields the members of the mask,
    each once, in ascending order, and stops. *)
Theorem iterate_members rm fuel :
  wf rm → (m_all rm).2 - (m_all rm).1 < Z.of_nat fuel →
  iterate fuel rm (begin_value rm) =
  filter (λ x, contains rm x = true) (seqZ (m_all rm).1 ((m_all rm).2 - (m_all rm).1)).
Proof.
  intros Hwf Hfuel. destruct (begin_value_spec rm Hwf) as (?&Hno&Hin).
  rewrite iterate_spec by (done || lia).
  symmetry. apply (members_from_skip rm (m_all rm).1); [lia|]. intros. apply Hno. lia.
Qed.

Lemma iterate_members_witness :
  iterate 21 (mkRangeMask (0, 20) [(2, 4); (7, 9)])
    (begin_value (mkRangeMask (0, 20) [(2, 4); (7, 9)])) =
  filter (λ x, contains (mkRangeMask (0, 20) [(2, 4); (7, 9)]) x = true) (seqZ 0 20).
Proof.
  apply (iterate_members (mkRangeMask (0, 20) [(2, 4); (7, 9)]) 21); unfold wf; simpl; lia.
Defined.

End RangeMask.
