(* ===== verification/CommonData.v ===== *)
(** * Byte, hex and big-endian conversions (libdevcore/CommonData)

    [CommonData.h] and [CommonData.cpp]: hex text to and from bytes, nibbles,
    big-endian numbers to and from bytes. *)
From S2P Require Import Prelude.

Module CommonData.

(** ** Hex text *)

Inductive WhenError := DontThrow | Throw.
Inductive error := BadHexCharacter.

(** The characters used, by code. *)
Definition chr_0 : Z := 48.
Definition chr_9 : Z := 57.
Definition chr_a : Z := 97.
Definition chr_f : Z := 102.
Definition chr_x : Z := 120.
Definition chr_A : Z := 65.
Definition chr_F : Z := 70.
Definition prefix_0x : bytes := [chr_0; chr_x].

(** [hexdigits[d]] *)
Definition hexdigit (d : Z) : Z := if d <? 10 then chr_0 + d else chr_a + (d - 10).

(** [toHex(_it, _end, _prefix)]: one loop round per byte writes two
    characters behind the prefix. *)
Definition toHex_with (prefix data : bytes) : bytes :=
  foldl (λ hex b, hex ++ [hexdigit (Z.land (Z.shiftr b 4) 15); hexdigit (Z.land b 15)])
    prefix data.
Definition toHex (data : bytes) : bytes := toHex_with [] data.
Definition toHexPrefixed (data : bytes) : bytes := toHex_with prefix_0x data.

(** [fromHexChar], -1 for a character that is not a hex digit *)
Definition fromHexChar (c : Z) : Z :=
  if (chr_0 <=? c) && (c <=? chr_9) then c - chr_0
  else if (chr_a <=? c) && (c <=? chr_f) then c - chr_a + 10
  else if (chr_A <=? c) && (c <=? chr_F) then c - chr_A + 10
  else -1.

Definition has_0x (s : bytes) : bool :=
  match s with c1 :: c2 :: _ => (c1 =? chr_0) && (c2 =? chr_x) | _ => false end.

(** [isHex] *)
Definition isHex (s : bytes) : bool :=
  forallb (λ c, negb (fromHexChar c =? -1)) (if has_0x s then drop 2 s else s).

(** [isHash<T>] for a hash type of [size] bytes *)
Definition isHash (size : Z) (hash : bytes) : bool :=
  ((Z.of_nat (length hash) =? size * 2) ||
   ((Z.of_nat (length hash) =? size * 2 + 2) && has_0x hash)) && isHex hash.

(** The loop of [fromHex] over pairs of characters.  [None]: the function
    returns [bytes()]. *)
Fixpoint fromHex_pairs (throw : WhenError) (s : bytes) (ret : bytes)
    : result error bytes :=
  match s with
  | c1 :: c2 :: s =>
    let h := fromHexChar c1 in
    let l := fromHexChar c2 in
    if negb (h =? -1) && negb (l =? -1) then
      fromHex_pairs throw s (ret ++ [u8 (h * 16 + l)])
    else match throw with Throw => Err BadHexCharacter | DontThrow => Ok [] end
  | _ => Ok ret
  end.

(** [fromHex]: the prefix is skipped, an odd first digit is a byte. *)
Definition fromHex (s : bytes) (throw : WhenError) : result error bytes :=
  let rest := if has_0x s then drop 2 s else s in
  if Nat.odd (length s) then
    match rest with
    | c :: rest =>
      let h := fromHexChar c in
      if negb (h =? -1) then fromHex_pairs throw rest [h]
      else match throw with Throw => Err BadHexCharacter | DontThrow => Ok [] end
    | [] => Ok []
    end
  else fromHex_pairs throw rest [].

(** [asNibbles] *)
Definition asNibbles (s : bytes) : bytes :=
  foldl (λ ret i, ret ++ [i / 16; i mod 16]) [] s.

(** ** Big-endian numbers *)

(** [toBigEndian(_val, o_out)]: fills [out] from its end. *)
Fixpoint toBigEndian_loop (i : nat) (val : Z) (out : bytes) : bytes :=
  match i with
  | O => out
  | S i' => toBigEndian_loop i' (Z.shiftr val 8) (<[i' := u8 (Z.land val 255)]> out)
  end.
Definition toBigEndian (val : Z) (out : bytes) : bytes :=
  toBigEndian_loop (length out) val out.

(** [toBigEndian(u256)], [toBigEndian(u160)] and their string versions *)
Definition toBigEndian_u256 (val : Z) : bytes := toBigEndian val (replicate 32 0).
Definition toBigEndian_u160 (val : Z) : bytes := toBigEndian val (replicate 20 0).

(** [fromBigEndian<T>]: [conv] is the conversion to [T], the identity for
    [bigint] and [wrap w] for an unsigned type of [w] bits. *)
Definition fromBigEndian (conv : Z → Z) (bs : bytes) : Z :=
  foldl (λ ret i, conv (Z.lor (Z.shiftl ret 8) (u8 i))) 0 bs.
Definition bigint (z : Z) : Z := z.

(** [for (; v; ++i, v >>= 8)]: the number of rounds.  A nonnegative [v] has
    no more than [log2 v + 1] bytes. *)
Fixpoint count_bytes (fuel : nat) (i v : Z) : Z :=
  match fuel with
  | O => i
  | S fuel => if v =? 0 then i else count_bytes fuel (i + 1) (Z.shiftr v 8)
  end.
Definition bytesRequired (i : Z) : Z := count_bytes (S (S (Z.to_nat (Z.log2 i)))) 0 i.

(** [toCompactBigEndian(_val, _min)] *)
Definition toCompactBigEndian (val min : Z) : bytes :=
  toBigEndian val (replicate (Z.to_nat (Z.max min (bytesRequired val))) 0).
(** its overload for [byte] *)
Definition toCompactBigEndian_byte (val min : Z) : bytes :=
  if negb (min =? 0) || negb (val =? 0) then [val] else [].

Definition toCompactHex (val min : Z) : bytes := toHex (toCompactBigEndian val min).
Definition toCompactHexPrefixed (val min : Z) : bytes :=
  toHexPrefixed (toCompactBigEndian val min).

(** ** Collections *)

(** [commonPrefix] *)
Fixpoint commonPrefix_loop (i : Z) (t u : bytes) : Z :=
  match t, u with
  | a :: t, b :: u => if a =? b then commonPrefix_loop (i + 1) t u else i
  | _, _ => i
  end.
Definition commonPrefix (t u : bytes) : Z := commonPrefix_loop 0 t u.

(** [trimFront] and [pushFront] *)
Definition trimFront (t : bytes) (elements : nat) : bytes := drop elements t.
Definition pushFront (t : bytes) (e : Z) : bytes := e :: t.

(** [escaped(_s, _all)]; [char] is signed, so codes from 128 on compare below
    the space character. *)
Definition prettyEscape (c : Z) : option Z :=
  if c =? 13 then Some 114 else if c =? 10 then Some 110
  else if c =? 9 then Some 116 else if c =? 11 then Some 118 else None.
Definition escaped (s : bytes) (all : bool) : bytes :=
  foldl (λ ret i, ret ++
    if (i =? 34) && negb all then [92; 34]
    else if (i =? 92) && negb all then [92; 92]
    else match prettyEscape i, all with
         | Some e, false => [92; e]
         | _, _ =>
           if (to_signed 8 i <? 32) || all
           then [92; chr_x; hexdigit (i / 16); hexdigit (i mod 16)]
           else [i]
         end) [34] s ++ [34].

(** ** Lemmas *)

Lemma length_toBigEndian_loop i val out : length (toBigEndian_loop i val out) = length out.
Proof. revert val out. induction i as [|i IH]; intros; simpl; [done|]. by rewrite IH, length_insert. Qed.

Lemma length_toBigEndian val out : length (toBigEndian val out) = length out.
Proof. apply length_toBigEndian_loop. Qed.

Lemma u8_land v : u8 (Z.land v 255) = v mod 256.
Proof. rewrite land_255. apply wrap_small, Z.mod_pos_bound. lia. Qed.

Lemma toBigEndian_loop_spec i val out :
  (i ≤ length out)%nat → 
  ∃ p, toBigEndian_loop i val out = p ++ drop i out ∧ length p = i ∧
    bytes_ok p ∧ be_val p = val mod 256 ^ Z.of_nat i.
Proof.
  revert val out. induction i as [|i IH]; intros val out Hi; simpl.
  { exists []. split; [by rewrite drop_0|]. split; [done|]. split; [constructor|].
    by rewrite Z.mod_1_r. }
  destruct (IH (Z.shiftr val 8) (<[i:=u8 (Z.land val 255)]> out)) as (p&->&Hlen&Hok&Hval).
  { rewrite length_insert. lia. }
  exists (p ++ [val mod 256]). rewrite u8_land, <-app_assoc. split_and!.
  - f_equal. rewrite (drop_S _ (val mod 256)); [|apply list_lookup_insert_eq; lia].
    simpl. f_equal. apply drop_insert_lt; lia.
  - rewrite length_app. simpl. lia.
  - apply bytes_ok_app. split; [done|]. repeat constructor; apply Z.mod_pos_bound; lia.
  - rewrite be_val_snoc, Hval, shiftr_8.
    rewrite Nat2Z.inj_succ, Z.pow_succ_r by lia.
    pose proof (pow256_pos i). rewrite (Z.rem_mul_r val 256) by lia. lia.
Qed.

Lemma toBigEndian_spec val out :
  bytes_ok (toBigEndian val out) ∧
  be_val (toBigEndian val out) = val mod 256 ^ Z.of_nat (length out).
Proof.
  unfold toBigEndian.
  destruct (toBigEndian_loop_spec (length out) val out) as (p&->&_&Hok&Hval); [lia|].
  by rewrite drop_all, app_nil_r.
Qed.

Lemma fromBigEndian_bigint bs : bytes_ok bs → fromBigEndian bigint bs = be_val bs.
Proof.
  unfold fromBigEndian. induction bs as [|b bs IH] using rev_ind; [done|].
  intros [Hbs [Hb _]%bytes_ok_cons]%bytes_ok_app.
  rewrite foldl_app. simpl. rewrite IH, be_val_snoc by done. unfold bigint.
  by rewrite lor_shiftl_add, wrap_small by (done || lia || by apply wrap_in_word).
Qed.

Lemma fromBigEndian_wrap w bs :
  0 ≤ w → bytes_ok bs → fromBigEndian (wrap w) bs = wrap w (be_val bs).
Proof.
  unfold fromBigEndian. intros Hw. induction bs as [|b bs IH] using rev_ind.
  { unfold be_val. simpl. intros. unfold wrap. by rewrite Z.mod_0_l by lia. }
  intros [Hbs [Hb _]%bytes_ok_cons]%bytes_ok_app.
  rewrite foldl_app. simpl. rewrite IH by done.
  rewrite lor_shiftl_add by (lia || by apply wrap_in_word).
  rewrite (wrap_small 8) by done. rewrite be_val_snoc. unfold wrap.
  change (2 ^ 8) with 256. rewrite <-Z.add_mod_idemp_l, Z.mul_mod_idemp_l by lia.
  by rewrite Z.add_mod_idemp_l by lia.
Qed.
Lemma count_bytes_spec fuel i v :
  0 ≤ v < 256 ^ Z.of_nat fuel →
  ∃ n : nat, count_bytes fuel i v = i + Z.of_nat n ∧ v < 256 ^ Z.of_nat n ∧
    (n ≠ 0%nat → 256 ^ (Z.of_nat n - 1) ≤ v).
Proof.
  revert i v. induction fuel as [|fuel IH]; intros i v [Hv Hlt]; simpl.
  { exists 0%nat. simpl in *. split_and!; [lia|lia|done]. }
  destruct (Z.eqb_spec v 0) as [->|Hv0].
  { exists 0%nat. split_and!; [lia|done|done]. }
  rewrite shiftr_8. destruct (IH (i + 1) (v / 256)) as (n&->&Hn&Hge).
  { rewrite Nat2Z.inj_succ, Z.pow_succ_r in Hlt by lia.
    split; [by apply Z.div_pos|apply Z.div_lt_upper_bound; lia]. }
  exists (S n). rewrite Nat2Z.inj_succ, Z.pow_succ_r by lia.
  pose proof (Z.div_mod v 256). pose proof (Z.mod_pos_bound v 256).
  split_and!; [lia|nia|].
  intros _. replace (Z.succ (Z.of_nat n) - 1) with (Z.of_nat n) by lia.
  destruct n as [|n]; [simpl; lia|]. specialize (Hge ltac:(lia)).
  replace (Z.of_nat (S n) - 1) with (Z.of_nat n) in Hge by lia.
  rewrite Nat2Z.inj_succ, Z.pow_succ_r by lia. nia.
Qed.

(** [bytesRequired] is the number of base-256 digits. *)
Lemma bytesRequired_spec v :
  0 ≤ v →
  ∃ n : nat, bytesRequired v = Z.of_nat n ∧ v < 256 ^ Z.of_nat n ∧
    (n ≠ 0%nat → 256 ^ (Z.of_nat n - 1) ≤ v).
Proof.
  intros Hv. unfold bytesRequired.
  destruct (count_bytes_spec (S (S (Z.to_nat (Z.log2 v)))) 0 v) as (n&->&H); [|by exists n].
  split; [done|]. destruct (Z.eq_dec v 0) as [->|]; [apply pow256_pos|].
  pose proof (Z.log2_spec v ltac:(lia)). pose proof (Z.log2_nonneg v).
  change 256 with (2 ^ 8). rewrite <-Z.pow_mul_r by lia.
  eapply Z.lt_le_trans; [apply H|]. apply Z.pow_le_mono_r; lia.
Qed.

Lemma bytesRequired_unique v n :
  (n ≠ 0%nat → 256 ^ (Z.of_nat n - 1) ≤ v) → 0 ≤ v < 256 ^ Z.of_nat n →
  bytesRequired v = Z.of_nat n.
Proof.
  intros Hge [Hv Hlt]. destruct (bytesRequired_spec v Hv) as (m&->&Hm&Hmge).
  assert (∀ a b : nat, (b ≠ 0%nat → 256 ^ (Z.of_nat b - 1) ≤ v) → v < 256 ^ Z.of_nat a → (b ≤ a)%nat)
    as Hle.
  { intros a b Hb Ha. destruct (decide (b = 0%nat)) as [->|Hb0]; [lia|].
    assert (256 ^ (Z.of_nat b - 1) < 256 ^ Z.of_nat a) as Hab by (specialize (Hb Hb0); lia).
    apply Z.pow_lt_mono_r_iff in Hab; lia. }
  pose proof (Hle m n Hge Hm). pose proof (Hle n m Hmge Hlt). lia.
Qed.

Lemma be_val_lead b bs :
  bytes_ok (b :: bs) → b ≠ 0 → 256 ^ Z.of_nat (length bs) ≤ be_val (b :: bs).
Proof.
  intros [Hb Hbs]%bytes_ok_cons ?. rewrite be_val_cons.
  pose proof (be_val_bound bs Hbs). pose proof (pow256_pos (length bs)).
  unfold in_word in Hb. nia.
Qed.

(** The big-endian form without leading zeros is what [bytesRequired] counts. *)
Lemma bytesRequired_be_val b bs :
  bytes_ok (b :: bs) → b ≠ 0 → bytesRequired (be_val (b :: bs)) = Z.of_nat (length (b :: bs)).
Proof.
  intros Hok Hb. apply bytesRequired_unique.
  - intros _. replace (Z.of_nat (length (b :: bs)) - 1) with (Z.of_nat (length bs)) by (simpl; lia).
    by apply be_val_lead.
  - by apply be_val_bound.
Qed.

Lemma length_toCompactBigEndian v min :
  Z.of_nat (length (toCompactBigEndian v min)) = Z.max 0 (Z.max min (bytesRequired v)).
Proof.
  unfold toCompactBigEndian. rewrite length_toBigEndian, length_replicate. lia.
Qed.

Lemma toCompactBigEndian_spec v min :
  0 ≤ v → bytes_ok (toCompactBigEndian v min) ∧ be_val (toCompactBigEndian v min) = v.
Proof.
  intros Hv. unfold toCompactBigEndian. set (out := replicate _ _).
  destruct (toBigEndian_spec v out) as [Hok Hval]. split; [done|]. rewrite Hval.
  destruct (bytesRequired_spec v Hv) as (n&Hn&Hlt&_).
  apply Z.mod_small. split; [done|]. eapply Z.lt_le_trans; [done|].
  apply Z.pow_le_mono_r; [lia|]. subst out. rewrite length_replicate. lia.
Qed.

(** Without a minimal width there is no leading zero byte. *)
Lemma toCompactBigEndian_lead v b bs :
  0 ≤ v → toCompactBigEndian v 0 = b :: bs → b ≠ 0.
Proof.
  intros Hv Heq ->. destruct (toCompactBigEndian_spec v 0 Hv) as [Hok Hval].
  pose proof (length_toCompactBigEndian v 0) as Hlen. rewrite Heq in *.
  apply bytes_ok_cons in Hok as [_ Hok]. pose proof (be_val_bound bs Hok).
  rewrite be_val_cons in Hval.
  destruct (bytesRequired_spec v Hv) as (n&Hn&_&Hge). rewrite Hn in Hlen.
  simpl length in Hlen. assert (n = S (length bs)) as -> by lia.
  specialize (Hge ltac:(lia)).
  replace (Z.of_nat (S (length bs)) - 1) with (Z.of_nat (length bs)) in Hge by lia. lia.
Qed.

(** ** Hex text *)

Lemma toHex_with_app prefix data :
  toHex_with prefix data = prefix ++ toHex data.
Proof.
  unfold toHex, toHex_with.
  induction data as [|b data IH] using rev_ind; simpl; [by rewrite app_nil_r|].
  rewrite !foldl_app. simpl. by rewrite IH, app_assoc.
Qed.

Lemma toHex_cons b data :
  toHex (b :: data) =
  hexdigit (Z.land (Z.shiftr b 4) 15) :: hexdigit (Z.land b 15) :: toHex data.
Proof. unfold toHex at 1, toHex_with. simpl. apply (toHex_with_app [_; _]). Qed.

Lemma fromHexChar_hexdigit d : 0 ≤ d < 16 → fromHexChar (hexdigit d) = d.
Proof.
  intros. unfold fromHexChar, hexdigit, chr_0, chr_9, chr_a, chr_f, chr_A, chr_F.
  destruct (Z.ltb_spec d 10).
  - destruct (Z.leb_spec 48 (48 + d)), (Z.leb_spec (48 + d) 57); simpl; lia.
  - destruct (Z.leb_spec 48 (97 + (d - 10))), (Z.leb_spec (97 + (d - 10)) 57); simpl; try lia.
    destruct (Z.leb_spec 97 (97 + (d - 10))), (Z.leb_spec (97 + (d - 10)) 102); simpl; lia.
Qed.

Lemma fromHexChar_range c : -1 ≤ fromHexChar c < 16.
Proof.
  unfold fromHexChar, chr_0, chr_9, chr_a, chr_f, chr_A, chr_F.
  repeat case_match; lia.
Qed.

Lemma land_15 v : Z.land v 15 = v mod 16.
Proof. change 15 with (Z.ones 4). by rewrite Z.land_ones by lia. Qed.
Lemma shiftr_4 v : Z.shiftr v 4 = v / 16.
Proof. by rewrite Z.shiftr_div_pow2 by lia. Qed.

(** The number a hex text denotes. *)
Definition hex_val (s : bytes) : Z := foldl (λ a c, a * 16 + fromHexChar c) 0 s.

Lemma hex_val_from a s :
  foldl (λ a c, a * 16 + fromHexChar c) a s = a * 16 ^ Z.of_nat (length s) + hex_val s.
Proof.
  revert a. induction s as [|c s IH]; intros a; [unfold hex_val; simpl; lia|].
  unfold hex_val. simpl length. simpl foldl. rewrite !IH, Nat2Z.inj_succ, Z.pow_succ_r by lia. lia.
Qed.

Definition hex_ok (s : bytes) : bool := forallb (λ c, negb (fromHexChar c =? -1)) s.

Lemma u8_digits h l : 0 ≤ h < 16 → 0 ≤ l < 16 → u8 (h * 16 + l) = h * 16 + l.
Proof. intros. apply wrap_small. unfold in_word. change (2 ^ 8) with 256. lia. Qed.

Lemma pow16_double n : 16 ^ Z.of_nat (2 * n) = 256 ^ Z.of_nat n.
Proof. change 256 with (16 ^ 2). rewrite <-Z.pow_mul_r by lia. f_equal. lia. Qed.

Lemma fromHex_pairs_spec t s ret :
  Nat.even (length s) = true → bytes_ok ret →
  if hex_ok s then
    ∃ bs, fromHex_pairs t s ret = Ok (ret ++ bs) ∧ bytes_ok bs ∧
      (length s = 2 * length bs)%nat ∧ be_val bs = hex_val s
  else fromHex_pairs t s ret = match t with Throw => Err BadHexCharacter | DontThrow => Ok [] end.
Proof.
  remember (length s) as n eqn:Hn. revert s Hn ret.
  induction (lt_wf n) as [n _ IH]; intros s -> ret Heven Hret.
  destruct s as [|c1 [|c2 s]]; simpl in *; [|done|].
  { exists []. rewrite app_nil_r. split_and!; [done|constructor|done|done]. }
  pose proof (fromHexChar_range c1). pose proof (fromHexChar_range c2).
  destruct (Z.eqb_spec (fromHexChar c1) (-1)); simpl; [done|].
  destruct (Z.eqb_spec (fromHexChar c2) (-1)); simpl; [done|].
  rewrite u8_digits by lia. set (b := fromHexChar c1 * 16 + fromHexChar c2).
  assert (in_word 8 b) as Hb by (unfold in_word, b; change (2 ^ 8) with 256; lia).
  specialize (IH (length s) ltac:(lia) s eq_refl (ret ++ [b]) Heven).
  destruct (hex_ok s).
  - destruct IH as (bs&->&Hok&Hlen&Hval); [by apply bytes_ok_snoc|].
    exists (b :: bs). rewrite <-app_assoc. split; [done|]. split; [by constructor|].
    split; [simpl; lia|]. rewrite be_val_cons, Hval. unfold hex_val at 2. simpl foldl.
    rewrite hex_val_from. replace (length s) with (2 * length bs)%nat by lia.
    rewrite pow16_double. unfold b. lia.
  - apply IH. by apply bytes_ok_snoc.
Qed.

(** ** Properties *)

(** [fromHex] accepts exactly the texts [isHex] accepts, in both error
    modes; the bytes it returns denote the number of the hex digits, and there
    is one byte per two digits, rounded up.  On any other text it throws
    [BadHexCharacter] under [Throw] and returns no bytes at all under
    [DontThrow]. *)
Theorem fromHex_isHex s t :
  let digits := if has_0x s then drop 2 s else s in
  if isHex s then
    ∃ bs, fromHex s t = Ok bs ∧ bytes_ok bs ∧
      (length digits ≤ 2 * length bs ≤ length digits + 1)%nat ∧ be_val bs = hex_val digits
  else fromHex s t = match t with Throw => Err BadHexCharacter | DontThrow => Ok [] end.
Proof.
  intros digits. unfold isHex, fromHex. fold digits. change (forallb _ digits) with (hex_ok digits).
  assert (Nat.odd (length s) = Nat.odd (length digits)) as ->.
  { unfold digits. destruct s as [|a [|b s]]; simpl; [done|done|].
    destruct (_ && _); done. }
  clearbody digits. destruct digits as [|c rest].
  { exists []. split_and!; [done|apply bytes_ok_nil|simpl; lia|simpl; lia|done]. }
  destruct (Nat.odd (length (c :: rest))) eqn:Hodd.
  - assert (Nat.even (length rest) = true) as Heven.
    { simpl length in Hodd. by rewrite Nat.odd_succ in Hodd. }
    simpl hex_ok. pose proof (fromHexChar_range c).
    destruct (Z.eqb_spec (fromHexChar c) (-1)); simpl; [done|].
    assert (in_word 8 (fromHexChar c)) by (unfold in_word; change (2 ^ 8) with 256; lia).
    pose proof (fromHex_pairs_spec t rest [fromHexChar c] Heven) as Hp. fold (hex_ok rest).
    destruct (hex_ok rest); [|by apply Hp, bytes_ok_single].
    destruct Hp as (bs&->&Hok&Hlen&Hval); [by apply bytes_ok_single|].
    exists (fromHexChar c :: bs). split; [done|]. split; [by constructor|]. split.
    + simpl length. lia.
    + rewrite be_val_cons, Hval. unfold hex_val at 2. simpl foldl. rewrite hex_val_from, Hlen, pow16_double. lia.
  - rewrite <-Nat.negb_even in Hodd. apply negb_false_iff in Hodd.
    pose proof (fromHex_pairs_spec t (c :: rest) [] Hodd ltac:(constructor)) as Hp.
    destruct (hex_ok (c :: rest)); [|done]. destruct Hp as (bs&->&Hok&Hlen&Hval).
    exists bs. split; [done|]. split; [done|]. split; [|done]. lia.
Qed.

(** Hex text round trip: [fromHex] gives back the bytes of [toHex] and of
    [toHexPrefixed], in both error modes. *)
Theorem fromHex_toHex bs t :
  bytes_ok bs → fromHex (toHex bs) t = Ok bs ∧ fromHex (toHexPrefixed bs) t = Ok bs.
Proof.
  intros Hok.
  assert (∀ ret, fromHex_pairs t (toHex bs) ret = Ok (ret ++ bs) ∧
            Nat.odd (length (toHex bs)) = false ∧ has_0x (toHex bs) = false) as Hmain.
  { induction Hok as [|b bs Hb _ IH]; intros ret.
    { simpl. by rewrite app_nil_r. }
    rewrite toHex_cons, land_15, land_15, shiftr_4. simpl.
    unfold in_word in Hb. change (2 ^ 8) with 256 in Hb.
    pose proof (Z.mod_pos_bound b 16). pose proof (Z.mod_pos_bound (b / 16) 16).
    rewrite !fromHexChar_hexdigit by lia.
    destruct (Z.eqb_spec ((b / 16) mod 16) (-1)); [lia|].
    destruct (Z.eqb_spec (b mod 16) (-1)); [lia|]. simpl.
    rewrite u8_digits by lia. destruct (IH (ret ++ [(b / 16) mod 16 * 16 + b mod 16])) as (->&Hl&_).
    rewrite <-app_assoc. simpl. 
    replace ((b / 16) mod 16 * 16 + b mod 16) with b by dlia. split_and!; [done|done|].
    apply andb_false_iff. right. unfold hexdigit, chr_x, chr_0, chr_a.
    destruct (Z.ltb_spec (b mod 16) 10); lia. }
  destruct (Hmain []) as (Hp&Hodd&H0). split.
  - unfold fromHex. by rewrite Hodd, H0.
  - unfold fromHex, toHexPrefixed. rewrite toHex_with_app. unfold prefix_0x. simpl.
    change (Nat.odd (S (S ?n))) with (Nat.odd n). by rewrite Hodd.
Qed.

Lemma fromHex_toHex_witness :
  fromHex (toHex [0; 65; 255]) Throw = Ok [0; 65; 255] ∧
  fromHex (toHexPrefixed [0; 65; 255]) Throw = Ok [0; 65; 255].
Proof. apply (fromHex_toHex [0; 65; 255] Throw), bytes_okb_spec. reflexivity. Defined.

(** Big-endian round trip: reading back what [toCompactBigEndian] wrote
    gives the number, with any minimal width; the width is the larger of the
    minimum and the number of base-256 digits, and without a minimum the first
    byte is not zero. *)
Theorem toCompactBigEndian_roundtrip v min :
  0 ≤ v →
  fromBigEndian bigint (toCompactBigEndian v min) = v ∧
  Z.of_nat (length (toCompactBigEndian v min)) = Z.max 0 (Z.max min (bytesRequired v)) ∧
  (∀ b bs, toCompactBigEndian v 0 = b :: bs → b ≠ 0).
Proof.
  intros Hv. destruct (toCompactBigEndian_spec v min Hv) as [Hok Hval].
  split; [by rewrite fromBigEndian_bigint|]. split; [apply length_toCompactBigEndian|].
  intros b bs. by apply toCompactBigEndian_lead.
Qed.

Lemma toCompactBigEndian_roundtrip_witness :
  fromBigEndian bigint (toCompactBigEndian 1027 4) = 1027 ∧
  Z.of_nat (length (toCompactBigEndian 1027 4)) = Z.max 0 (Z.max 4 (bytesRequired 1027)) ∧
  (∀ b bs, toCompactBigEndian 1027 0 = b :: bs → b ≠ 0).
Proof. apply (toCompactBigEndian_roundtrip 1027 4). lia. Defined.

End CommonData.
