(* ===== verification/Base64.v ===== *)
(** * Base64 text (libdevcore/Base64.cpp)

    The encoder and the decoder as the loops the code runs over its three and
    four byte buffers, and their round trip. *)
From S2P Require Import Prelude.

Module Base64.

(** ** Definitions *)

(** [is_base64]: [isalnum] in the C locale, '+' or '/' *)
Definition is_base64 (c : Z) : bool :=
  ((48 <=? c) && (c <=? 57)) || ((65 <=? c) && (c <=? 90)) || ((97 <=? c) && (c <=? 122))
  || (c =? 43) || (c =? 47).

(** [find_base64_char_index]; its calls on itself have constant arguments,
    whose results are 25, 51, 61, 62 and 63. *)
Definition find_base64_char_index (c : Z) : Z :=
  if (65 <=? c) && (c <=? 90) then u8 (c - 65)
  else if (97 <=? c) && (c <=? 122) then u8 (c - 97 + 1 + 25)
  else if (48 <=? c) && (c <=? 57) then u8 (c - 48 + 1 + 51)
  else if c =? 43 then u8 (1 + 61)
  else if c =? 47 then u8 (1 + 62)
  else u8 (1 + 63).

(** [base64_chars[v]] *)
Definition base64_chars : bytes := seqZ 65 26 ++ seqZ 97 26 ++ seqZ 48 10 ++ [43; 47].
Definition base64_char (v : Z) : Z := nth (Z.to_nat v) base64_chars 0.
Definition chr_eq : Z := 61.

(** The four indices of a full [char_array_3]. *)
Definition split3 (b0 b1 b2 : Z) : bytes :=
  [u8 (Z.shiftr (Z.land b0 252) 2);
   u8 (Z.shiftl (Z.land b0 3) 4 + Z.shiftr (Z.land b1 240) 4);
   u8 (Z.shiftl (Z.land b1 15) 2 + Z.shiftr (Z.land b2 192) 6);
   u8 (Z.land b2 63)].

Definition get (l : bytes) (i : nat) : Z := nth i l 0.

(** One round of the encoder's loop: [ca] holds the [i] bytes of
    [char_array_3] that are set. *)
Definition encode_step (st : bytes * bytes) (b : Z) : bytes * bytes :=
  let '(ca, ret) := st in
  let ca := ca ++ [b] in
  if (length ca =? 3)%nat
  then ([], ret ++ map base64_char (split3 (get ca 0) (get ca 1) (get ca 2)))
  else (ca, ret).

(** [toBase64] *)
Definition toBase64 (data : bytes) : bytes :=
  let '(ca, ret) := foldl encode_step ([], []) data in
  let i := length ca in
  if (i =? 0)%nat then ret
  else
    let ca := ca ++ replicate (3 - i) 0 in
    ret ++ take (i + 1) (map base64_char (split3 (get ca 0) (get ca 1) (get ca 2)))
        ++ replicate (3 - i) chr_eq.

(** The three bytes of a full [char_array_4] of indices. *)
Definition join4 (c0 c1 c2 c3 : Z) : bytes :=
  [u8 (Z.shiftl c0 2 + Z.shiftr (Z.land c1 48) 4);
   u8 (Z.shiftl (Z.land c1 15) 4 + Z.shiftr (Z.land c2 60) 2);
   u8 (Z.shiftl (Z.land c2 3) 6 + c3)].

Definition join_chars (ca : bytes) : bytes :=
  join4 (find_base64_char_index (get ca 0)) (find_base64_char_index (get ca 1))
        (find_base64_char_index (get ca 2)) (find_base64_char_index (get ca 3)).

(** The decoder's loop: it stops at the first character that is not in the
    alphabet. *)
Fixpoint decode_loop (s ca ret : bytes) : bytes * bytes :=
  match s with
  | c :: s =>
    if negb (c =? chr_eq) && is_base64 c then
      let ca := ca ++ [c] in
      if (length ca =? 4)%nat then decode_loop s [] (ret ++ join_chars ca)
      else decode_loop s ca ret
    else (ca, ret)
  | [] => (ca, ret)
  end.

(** [fromBase64] *)
Definition fromBase64 (encoded_string : bytes) : bytes :=
  let '(ca, ret) := decode_loop encoded_string [] [] in
  let i := length ca in
  if (i =? 0)%nat then ret
  else ret ++ take (i - 1) (join_chars (ca ++ replicate (4 - i) 0)).

(** ** Lemmas *)

#[local] Arguments join4 : simpl never.
#[local] Arguments split3 : simpl never.

Definition index_ok (v : Z) : bool :=
  (find_base64_char_index (base64_char v) =? v) && is_base64 (base64_char v) &&
  negb (base64_char v =? chr_eq).

Lemma index_table : forallb index_ok (seqZ 0 64) = true.
Proof. vm_compute. reflexivity. Qed.

Lemma index_spec v :
  0 ≤ v < 64 →
  find_base64_char_index (base64_char v) = v ∧
  negb (base64_char v =? chr_eq) && is_base64 (base64_char v) = true.
Proof.
  intros Hv. pose proof index_table as H. rewrite forallb_forall in H.
  specialize (H v). unfold index_ok in H. rewrite !andb_true_iff in H.
  destruct H as [[H1 H2] H3]; [apply list_elem_of_In, elem_of_seqZ; lia|].
  rewrite H2, H3. split; [by apply Z.eqb_eq|done].
Qed.

(** What the masks and shifts of the code compute. *)
Lemma mask_shift b mask m k :
  0 ≤ k → 0 ≤ m → Z.shiftl (Z.ones m) k = mask →
  Z.shiftr (Z.land b mask) k = (b / 2 ^ k) mod 2 ^ m.
Proof.
  intros ?? <-. rewrite Z.shiftr_land, Z.shiftr_shiftl_l, Z.sub_diag, Z.shiftl_0_r by lia.
  by rewrite Z.land_ones, Z.shiftr_div_pow2 by lia.
Qed.
Lemma mask_low b mask m : 0 ≤ m → Z.ones m = mask → Z.land b mask = b mod 2 ^ m.
Proof. intros ? <-. by apply Z.land_ones. Qed.

Lemma split3_spec b0 b1 b2 :
  in_word 8 b0 → in_word 8 b1 → in_word 8 b2 →
  split3 b0 b1 b2 =
    [b0 / 4; b0 mod 4 * 16 + b1 / 16; b1 mod 16 * 4 + b2 / 64; b2 mod 64].
Proof.
  unfold in_word. change (2 ^ 8) with 256. intros. unfold split3, wrap.
  rewrite (mask_shift b0 252 6 2), (mask_shift b1 240 4 4), (mask_shift b2 192 2 6) by done.
  rewrite (mask_low b0 3 2), (mask_low b1 15 4), (mask_low b2 63 6) by done.
  rewrite !Z.shiftl_mul_pow2 by lia. simpl Z.pow. change (2 ^ 8) with 256.
  f_equal; [dlia|]. f_equal; [dlia|]. f_equal; [dlia|]. f_equal. dlia.
Qed.

Lemma join4_spec c0 c1 c2 c3 :
  0 ≤ c0 < 64 → 0 ≤ c1 < 64 → 0 ≤ c2 < 65 → 0 ≤ c3 < 65 →
  join4 c0 c1 c2 c3 =
    [c0 * 4 + c1 / 16; c1 mod 16 * 16 + (c2 / 4) mod 16; (c2 mod 4 * 64 + c3) mod 256].
Proof.
  intros. unfold join4, wrap.
  rewrite (mask_shift c1 48 2 4), (mask_shift c2 60 4 2) by done.
  rewrite (mask_low c1 15 4), (mask_low c2 3 2) by done.
  rewrite !Z.shiftl_mul_pow2 by lia. simpl Z.pow.
  f_equal; [dlia|]. f_equal. dlia.
Qed.

Lemma encode_step_prefix ret ca r b :
  encode_step (ca, ret ++ r) b =
  ((encode_step (ca, r) b).1, ret ++ (encode_step (ca, r) b).2).
Proof.
  unfold encode_step. simpl.
  destruct (_ =? 3)%nat; simpl; [|done]. by rewrite app_assoc.
Qed.

Lemma encode_prefix ret data ca r :
  foldl encode_step (ca, ret ++ r) data =
  ((foldl encode_step (ca, r) data).1, ret ++ (foldl encode_step (ca, r) data).2).
Proof.
  revert ca r. induction data as [|b data IH]; intros ca r; [done|].
  cbn [foldl]. rewrite encode_step_prefix. by destruct (encode_step (ca, r) b).
Qed.

Lemma toBase64_cons3 b0 b1 b2 data :
  toBase64 (b0 :: b1 :: b2 :: data) = map base64_char (split3 b0 b1 b2) ++ toBase64 data.
Proof.
  unfold toBase64.
  change (foldl encode_step ([], []) (b0 :: b1 :: b2 :: data))
    with (foldl encode_step ([], map base64_char (split3 b0 b1 b2)) data).
  rewrite <-(app_nil_r (map _ _)), (encode_prefix _ data [] []).
  destruct (foldl encode_step ([], []) data) as [ca ret].
  cbn [fst snd]. rewrite !app_nil_r. destruct (_ =? 0)%nat; [done|]. by rewrite <-app_assoc.
Qed.

Lemma decode_prefix s ca ret :
  decode_loop s ca ret =
  ((decode_loop s ca []).1, ret ++ (decode_loop s ca []).2).
Proof.
  revert ca ret.
  induction s as [|c s IH]; intros ca ret; cbn [decode_loop fst snd]; [by rewrite app_nil_r|].
  destruct (_ && _); [|cbn [fst snd]; by rewrite app_nil_r].
  cbv zeta. destruct (_ =? 4)%nat; [|apply IH].
  rewrite (IH [] (ret ++ _)), (IH [] ([] ++ _)). cbn [fst snd]. by rewrite <-app_assoc.
Qed.

(** The decoder takes a quantum of four characters of the alphabet. *)
Lemma fromBase64_quad v0 v1 v2 v3 s :
  0 ≤ v0 < 64 → 0 ≤ v1 < 64 → 0 ≤ v2 < 64 → 0 ≤ v3 < 64 →
  fromBase64 (map base64_char [v0; v1; v2; v3] ++ s) = join4 v0 v1 v2 v3 ++ fromBase64 s.
Proof.
  intros H0 H1 H2 H3. remember (join4 v0 v1 v2 v3) as quad eqn:Hquad.
  unfold fromBase64. simpl map. simpl app.
  cbn [decode_loop]. destruct (index_spec v0 H0) as [E0 ->], (index_spec v1 H1) as [E1 ->],
    (index_spec v2 H2) as [E2 ->], (index_spec v3 H3) as [E3 ->].
  simpl app. simpl length. cbn [Nat.eqb]. rewrite decode_prefix.
  assert (join_chars [base64_char v0; base64_char v1; base64_char v2; base64_char v3] =
    quad) as -> by (unfold join_chars, get; simpl nth; by rewrite E0, E1, E2, E3, Hquad).
  destruct (decode_loop s [] []) as [ca ret]. cbn [fst snd]. cbv zeta.
  destruct (_ =? 0)%nat; [done|]. by rewrite <-app_assoc.
Qed.

(** The encoder's last, padded quantum. *)
Lemma fromBase64_tail2 v0 v1 v2 :
  0 ≤ v0 < 64 → 0 ≤ v1 < 64 → 0 ≤ v2 < 64 →
  fromBase64 (map base64_char [v0; v1; v2] ++ [chr_eq]) = take 2 (join4 v0 v1 v2 64).
Proof.
  intros H0 H1 H2. unfold fromBase64. simpl map. simpl app.
  cbn [decode_loop]. destruct (index_spec v0 H0) as [E0 ->], (index_spec v1 H1) as [E1 ->],
    (index_spec v2 H2) as [E2 ->]. simpl app. simpl length. cbn [Nat.eqb].
  change (take 2 (join_chars [base64_char v0; base64_char v1; base64_char v2; 0]) =
    take 2 (join4 v0 v1 v2 64)).
  unfold join_chars, get. cbn [nth]. by rewrite E0, E1, E2.
Qed.

Lemma fromBase64_tail1 v0 v1 :
  0 ≤ v0 < 64 → 0 ≤ v1 < 64 →
  fromBase64 (map base64_char [v0; v1] ++ [chr_eq; chr_eq]) = take 1 (join4 v0 v1 64 64).
Proof.
  intros H0 H1. unfold fromBase64. simpl map. simpl app.
  cbn [decode_loop]. destruct (index_spec v0 H0) as [E0 ->], (index_spec v1 H1) as [E1 ->].
  simpl app. simpl length. cbn [Nat.eqb].
  change (take 1 (join_chars [base64_char v0; base64_char v1; 0; 0]) =
    take 1 (join4 v0 v1 64 64)).
  unfold join_chars, get. cbn [nth]. by rewrite E0, E1.
Qed.

Lemma join4_split3 b0 b1 b2 :
  in_word 8 b0 → in_word 8 b1 → in_word 8 b2 →
  join4 (b0 / 4) (b0 mod 4 * 16 + b1 / 16) (b1 mod 16 * 4 + b2 / 64) (b2 mod 64) = [b0; b1; b2].
Proof.
  unfold in_word. change (2 ^ 8) with 256. intros.
  rewrite join4_spec by dlia. f_equal; [dlia|]. f_equal; [dlia|]. f_equal. dlia.
Qed.

(** ** Properties *)

(** Base64 round trip: decoding the encoder's text gives back the bytes,
    for inputs of every length modulo three. *)
Theorem fromBase64_toBase64 data : bytes_ok data → fromBase64 (toBase64 data) = data.
Proof.
  remember (length data) as n eqn:Hn. revert data Hn.
  induction (lt_wf n) as [n _ IH]; intros data -> Hok.
  destruct data as [|b0 [|b1 [|b2 data]]]; [done| | |].
  - apply bytes_ok_cons in Hok as [H0 _]. unfold toBase64. simpl foldl. simpl length.
    cbn [Nat.eqb]. unfold get. simpl nth. rewrite split3_spec by done.
    unfold in_word in *. change (2 ^ 8) with 256 in *.
    simpl take. simpl replicate. simpl app.
    change (fromBase64 (map base64_char [b0 / 4; b0 mod 4 * 16 + 0 / 16] ++ [chr_eq; chr_eq]) = [b0]).
    rewrite fromBase64_tail1 by dlia. rewrite join4_spec by dlia. simpl. f_equal. dlia.
  - apply bytes_ok_cons in Hok as [H0 [H1 _]%bytes_ok_cons]. unfold toBase64. simpl foldl.
    simpl length. cbn [Nat.eqb]. unfold get. simpl nth. rewrite split3_spec by done.
    unfold in_word in *. change (2 ^ 8) with 256 in *. simpl take. simpl replicate. simpl app.
    change (fromBase64 (map base64_char
      [b0 / 4; b0 mod 4 * 16 + b1 / 16; b1 mod 16 * 4 + 0 / 64] ++ [chr_eq]) = [b0; b1]).
    rewrite fromBase64_tail2 by dlia. rewrite join4_spec by dlia. simpl.
    f_equal; [dlia|]. f_equal. dlia.
  - apply bytes_ok_cons in Hok as [H0 [H1 [H2 Hok]%bytes_ok_cons]%bytes_ok_cons].
    rewrite toBase64_cons3, split3_spec by done.
    rewrite fromBase64_quad by (unfold in_word in *; change (2 ^ 8) with 256 in *; dlia).
    rewrite join4_split3 by done. simpl. by rewrite (IH (length data)) by (simpl; auto with lia).
Qed.

Lemma fromBase64_toBase64_witness :
  fromBase64 (toBase64 [0; 255; 16; 77]) = [0; 255; 16; 77].
Proof. apply fromBase64_toBase64, bytes_okb_spec. reflexivity. Defined.

End Base64.
