(* ===== verification/RLP.v ===== *)
(** * Recursive length prefix (libdevcore/RLP.h, RLP.cpp, vector_ref.h)

    The reader [RLP], a reference to bytes, is the list of these bytes; the
    cache of its [operator[]] is explicit state.  The writer [RLPStream] is a
    record.  Every exception of the code is a value; what the code would do
    with a null reference is [Undefined]. *)
From S2P Require Import Prelude CommonData.

Module RLP.
Import CommonData.

Inductive RLPError :=
| BadCast | BadRLP | OversizeRLP | UndersizeRLP | RLPException | Undefined.
#[export] Instance RLPError_eq_dec : EqDecision RLPError.
Proof. solve_decision. Defined.

Definition c_rlpMaxLengthBytes : Z := 8.
Definition c_rlpDataImmLenStart : Z := 0x80.
Definition c_rlpListStart : Z := 0xc0.
Definition c_rlpDataImmLenCount : Z := c_rlpListStart - c_rlpDataImmLenStart - c_rlpMaxLengthBytes.
Definition c_rlpDataIndLenZero : Z := c_rlpDataImmLenStart + c_rlpDataImmLenCount - 1.
Definition c_rlpListImmLenCount : Z := 256 - c_rlpListStart - c_rlpMaxLengthBytes.
Definition c_rlpListIndLenZero : Z := c_rlpListStart + c_rlpListImmLenCount - 1.

(** The flags of a conversion; [has] is [_flags & f]. *)
Definition AllowNonCanon : Z := 1.
Definition ThrowOnFail : Z := 4.
Definition FailIfTooBig : Z := 8.
Definition FailIfTooSmall : Z := 16.
Definition Strict : Z := Z.lor ThrowOnFail FailIfTooBig.
Definition VeryStrict : Z := Z.lor ThrowOnFail (Z.lor FailIfTooBig FailIfTooSmall).
Definition LaissezFaire : Z := AllowNonCanon.
Definition has (flags f : Z) : bool := negb (Z.land flags f =? 0).

(** [BOOST_THROW_EXCEPTION(e)] under [ThrowOnFail], else a default result *)
Definition fail {A} (flags : Z) (e : RLPError) (a : A) : result RLPError A :=
  if has flags ThrowOnFail then Err e else Ok a.

(** ** References to bytes *)

Definition size (d : bytes) : Z := Z.of_nat (length d).
Definition at_ (d : bytes) (i : Z) : Z := nth (Z.to_nat i) d 0.

(** [vector_ref::cropped]: a null reference when the range is not inside. *)
Definition cropped (d : bytes) (begin count : Z) : option bytes :=
  if (begin <=? size d) && (count <=? size d) && (u64 (begin + count) <=? size d)
  then Some (take (Z.to_nat count) (drop (Z.to_nat begin) d)) else None.
Definition cropped_from (d : bytes) (begin : Z) : option bytes :=
  if begin <=? size d then Some (drop (Z.to_nat begin) d) else None.

(** ** Reading the header of an item *)

Definition isNull (d : bytes) : bool := size d =? 0.
Definition isEmpty (d : bytes) : bool :=
  negb (isNull d) && ((at_ d 0 =? c_rlpDataImmLenStart) || (at_ d 0 =? c_rlpListStart)).
Definition isData (d : bytes) : bool := negb (isNull d) && (at_ d 0 <? c_rlpListStart).
Definition isList (d : bytes) : bool := negb (isNull d) && (c_rlpListStart <=? at_ d 0).
Definition isSingleByte (d : bytes) : bool := negb (isNull d) && (at_ d 0 <? c_rlpDataImmLenStart).

Definition requireGood (d : bytes) : result RLPError unit :=
  if isNull d then Err BadRLP
  else if negb (at_ d 0 =? c_rlpDataImmLenStart + 1) then Ok ()
  else if size d <? 2 then Err BadRLP
  else if at_ d 1 <? c_rlpDataImmLenStart then Err BadRLP
  else Ok ().

Definition isInt (d : bytes) : result RLPError bool :=
  if isNull d then Ok false
  else
    _ ← requireGood d;
    let n := at_ d 0 in
    if n <? c_rlpDataImmLenStart then Ok (negb (n =? 0))
    else if n =? c_rlpDataImmLenStart then Ok true
    else if n <=? c_rlpDataIndLenZero then
      if size d <=? 1 then Err BadRLP else Ok (negb (at_ d 1 =? 0))
    else if n <? c_rlpListStart then
      if size d <=? 1 + n - c_rlpDataIndLenZero then Err BadRLP
      else Ok (negb (at_ d (1 + n - c_rlpDataIndLenZero) =? 0))
    else Ok false.

(** [length] of an item whose length is given in [lengthSize] bytes, and is
    not below [limit] *)
Definition long_length (d : bytes) (lengthSize limit : Z) : result RLPError Z :=
  if size d <=? lengthSize then Err BadRLP
  else if at_ d 1 =? 0 then Err BadRLP
  else if 8 <? lengthSize then Err UndersizeRLP
  else
    let ret := foldl (λ ret b, u64 (Z.lor (Z.shiftl ret 8) b)) 0
                 (take (Z.to_nat lengthSize) (drop 1 d)) in
    if ret <? limit then Err BadRLP
    else if 2 ^ 64 - 1 - 0x100 <=? ret then Err UndersizeRLP
    else Ok ret.
Definition length_ (d : bytes) : result RLPError Z :=
  if isNull d then Ok 0
  else
    _ ← requireGood d;
    let n := at_ d 0 in
    if n <? c_rlpDataImmLenStart then Ok 1
    else if n <=? c_rlpDataIndLenZero then Ok (n - c_rlpDataImmLenStart)
    else if n <? c_rlpListStart then
      long_length d (n - c_rlpDataIndLenZero)
        (c_rlpListStart - c_rlpDataImmLenStart - c_rlpMaxLengthBytes)
    else if n <=? c_rlpListIndLenZero then Ok (n - c_rlpListStart)
    else
      long_length d (n - c_rlpListIndLenZero) (0x100 - c_rlpListStart - c_rlpMaxLengthBytes).

Definition lengthSize (d : bytes) : Z :=
  if isData d && (c_rlpDataIndLenZero <? at_ d 0) then at_ d 0 - c_rlpDataIndLenZero
  else if isList d && (c_rlpListIndLenZero <? at_ d 0) then at_ d 0 - c_rlpListIndLenZero
  else 0.
Definition payloadOffset (d : bytes) : Z := if isSingleByte d then 0 else 1 + lengthSize d.
Definition actualSize (d : bytes) : result RLPError Z :=
  if isNull d then Ok 0
  else if isSingleByte d then Ok 1
  else if isData d || isList d then l ← length_ d; Ok (payloadOffset d + l)
  else Ok 0.

(** [payload]; a length that fits, at an offset from which it does not, gives
    a null reference. *)
Definition payload (d : bytes) : result RLPError (option bytes) :=
  l ← length_ d;
  if size d <? l then Err BadRLP else Ok (cropped d (payloadOffset d) l).

(** The constructor [RLP(_d, _s)] *)
Definition construct (flags : Z) (d : bytes) : result RLPError bytes :=
  m ← (if has flags FailIfTooBig then
         a ← actualSize d;
         if a <? size d then fail flags OversizeRLP [] else Ok d
       else Ok d);
  if has flags FailIfTooSmall then
    a ← actualSize m;
    if size d <? a then fail flags UndersizeRLP [] else Ok m
  else Ok m.
Definition sizeAsEncoded (d : bytes) : result RLPError Z :=
  d ← construct (Z.lor ThrowOnFail FailIfTooSmall) d; actualSize d.

(** ** Conversions *)

Definition toBytes (flags : Z) (d : bytes) : result RLPError bytes :=
  if negb (isData d) then fail flags BadCast []
  else
    p ← payload d; l ← length_ d;
    match p with
    | Some p => Ok (take (Z.to_nat l) p)
    | None => if l =? 0 then Ok [] else Err Undefined
    end.
(** [toBytesConstRef] and [toString] crop the payload. *)
Definition toBytesConstRef (flags : Z) (d : bytes) : result RLPError bytes :=
  if negb (isData d) then fail flags BadCast []
  else
    p ← payload d; l ← length_ d;
    Ok (default [] (p ≫= λ p, cropped p 0 l)).

(** [toInt<T>] for a type [T] of [maxSize] bytes, to which [conv] converts;
    [None] is the limit of [bigint]. *)
Definition toInt (conv : Z → Z) (maxSize : option Z) (flags : Z) (d : bytes) : result RLPError Z :=
  _ ← requireGood d;
  int ← isInt d;
  if (negb int && negb (has flags AllowNonCanon)) || isList d || isNull d
  then fail flags BadCast 0
  else
    p ← payload d;
    let p := default [] p in
    if match maxSize with Some m => m <? size p | None => false end && has flags FailIfTooBig
    then fail flags BadCast 0
    else Ok (fromBigEndian conv p).
Definition toInt_u256 : Z → bytes → result RLPError Z := toInt u256 (Some 32).
Definition toInt_bigint : Z → bytes → result RLPError Z := toInt bigint None.
Definition toPositiveInt64 (flags : Z) (d : bytes) : result RLPError Z :=
  i ← toInt (to_signed 64) (Some 8) flags d;
  if has flags ThrowOnFail && (i <? 0) then Err BadCast else Ok i.

(** [toHash] for a hash of [n] bytes: shorter data is padded on the left, of
    longer data the front is taken. *)
Definition toHash (n : Z) (flags : Z) (d : bytes) : result RLPError bytes :=
  _ ← requireGood d;
  p ← payload d;
  let p := default [] p in
  let l := size p in
  if negb (isData d) || ((n <? l) && has flags FailIfTooBig) || ((l <? n) && has flags FailIfTooSmall)
  then fail flags BadCast (replicate (Z.to_nat n) 0)
  else
    let s := Z.min n l in
    Ok (replicate (Z.to_nat (n - s)) 0 ++ take (Z.to_nat s) p).

(** ** Lists *)

(** [items] *)
Fixpoint items_loop (fuel : nat) (d : bytes) (i : Z) : option (result RLPError Z) :=
  if size d =? 0 then Some (Ok i)
  else
    match fuel with
    | O => None
    | S fuel =>
      match sizeAsEncoded d with
      | Err e => Some (Err e)
      | Ok s => items_loop fuel (default [] (cropped_from d s)) (i + 1)
      end
    end.
Definition items (d : bytes) : option (result RLPError Z) :=
  if isList d then
    match payload d with
    | Err e => Some (Err e)
    | Ok p => items_loop (length d) (default [] p) 0
    end
  else Some (Ok 0).
Definition itemCount (d : bytes) : option (result RLPError Z) :=
  if isList d then items d else Some (Ok 0).

(** [RLP::iterator] into the data of a parent: [m_currentItem] is a null
    reference or a position and a length. *)
Record iterator := mkIterator { m_currentItem : option (Z * Z); m_remaining : Z }.

Definition item_at (d : bytes) (r : option (Z * Z)) : bytes :=
  match r with
  | Some (pos, len) => take (Z.to_nat len) (drop (Z.to_nat pos) d)
  | None => []
  end.
(** [_ref.cropped(0, sizeAsEncoded(_ref))] *)
Definition crop_item (d : bytes) (r : option (Z * Z)) : result RLPError (option (Z * Z)) :=
  s ← sizeAsEncoded (item_at d r);
  Ok ('(pos, len) ← r; if s <=? len then Some (pos, s) else None).

Definition begin (d : bytes) : result RLPError iterator :=
  if isList d then
    p ← payload d;
    let pl := p ← p; Some (payloadOffset d, size p) in
    item ← crop_item d pl;
    let sz (r : option (Z * Z)) := match r with Some (_, l) => l | None => 0 end in
    Ok (mkIterator item (sz pl - sz item))
  else Ok (mkIterator (Some (size d, 0)) 0).
Definition end_ (d : bytes) : iterator := mkIterator (Some (size d, 0)) 0.
Definition next (d : bytes) (it : iterator) : result RLPError iterator :=
  let target n := '(pos, len) ← m_currentItem it; Some (pos + len, n : Z) in
  if negb (m_remaining it =? 0) then
    item ← crop_item d (target (m_remaining it));
    let sz := match item with Some (_, l) => l | None => 0 end in
    Ok (mkIterator item (m_remaining it - Z.min (m_remaining it) sz))
  else Ok (mkIterator (target 0) 0).

(** [for (auto const& i: *this) ret.push_back(i)] *)
Fixpoint toList_loop (fuel : nat) (d : bytes) (it : iterator) (ret : list bytes)
    : option (result RLPError (list bytes)) :=
  if decide (m_currentItem it = m_currentItem (end_ d)) then Some (Ok ret)
  else
    match fuel with
    | O => None
    | S fuel =>
      match (i ← construct VeryStrict (item_at d (m_currentItem it)); it ← next d it; Ok (i, it)) with
      | Err e => Some (Err e)
      | Ok (i, it) => toList_loop fuel d it (ret ++ [i])
      end
    end.
Definition toList (fuel : nat) (flags : Z) (d : bytes) : option (result RLPError (list bytes)) :=
  if negb (isList d) then Some (fail flags BadCast [])
  else
    match begin d with
    | Err e => Some (Err e)
    | Ok it => toList_loop fuel d it []
    end.

(** [operator[]] with the cache of the last item; the cache is changed up to
    the point of an exception. *)
Record Cache := mkCache { m_lastIndex : Z; m_lastEnd : Z; m_lastItem : bytes }.
Definition new_cache : Cache := mkCache (2 ^ 64 - 1) 0 [].

Definition index_first (d : bytes) (c : Cache) : result RLPError Cache :=
  p ← payload d;
  e ← sizeAsEncoded (default [] p);
  Ok (mkCache 0 e (default [] (p ≫= λ p, cropped p 0 e))).
Definition index_step (d : bytes) (c : Cache) : Cache * result RLPError unit :=
  match payload d with
  | Err e => (c, Err e)
  | Ok p =>
    let item := default [] (p ≫= λ p, cropped_from p (m_lastEnd c)) in
    match sizeAsEncoded item with
    | Err e => (mkCache (m_lastIndex c) (m_lastEnd c) item, Err e)
    | Ok s =>
      let item := default [] (cropped item 0 s) in
      (mkCache (m_lastIndex c + 1) (m_lastEnd c + size item) item, Ok ())
    end
  end.
Fixpoint index_loop (fuel : nat) (d : bytes) (i : Z) (c : Cache) : Cache * result RLPError unit :=
  match fuel with
  | O => (c, Ok ())
  | S fuel =>
    if (m_lastIndex c <? i) && negb (size (m_lastItem c) =? 0) then
      match index_step d c with
      | (c, Ok _) => index_loop fuel d i c
      | (c, Err e) => (c, Err e)
      end
    else (c, Ok ())
  end.
Definition index (d : bytes) (i : Z) (c : Cache) : Cache * result RLPError bytes :=
  match (if i <? m_lastIndex c then index_first d c else Ok c) with
  | Err e => (c, Err e)
  | Ok c =>
    let '(c, r) := index_loop (S (length d)) d i c in
    (c, _ ← r; construct (Z.lor ThrowOnFail FailIfTooSmall) (m_lastItem c))
  end.

(** ** Writing *)

(** [RLPStream]; the back of [m_listStack] is the head of the list. *)
Record RLPStream := mkStream { m_out : bytes; m_listStack : list (Z * Z) }.
Definition empty_stream : RLPStream := mkStream [] [].

Definition push_back (b : Z) (s : RLPStream) : RLPStream := mkStream (m_out s ++ [b]) (m_listStack s).
(** [pushInt]: [br] bytes at the end, written from the back *)
Definition pushInt (i br : Z) (s : RLPStream) : RLPStream :=
  mkStream (m_out s ++ toBigEndian i (replicate (Z.to_nat br) 0)) (m_listStack s).
Definition pushCount (count base : Z) (s : RLPStream) : result RLPError RLPStream :=
  let br := bytesRequired count in
  if 0xff <? br + base then Err RLPException
  else Ok (pushInt count br (push_back (u8 (br + base)) s)).

(** [noteAppended]: a list that is complete gets its header, and counts as an
    item of the list around it. *)
Definition list_header (s : Z) : result RLPError bytes :=
  let brs := bytesRequired s in
  if s <? c_rlpListImmLenCount then Ok [u8 (c_rlpListStart + s)]
  else if c_rlpListIndLenZero + brs <=? 0xff
  then Ok (u8 (c_rlpListIndLenZero + brs) :: toBigEndian s (replicate (Z.to_nat brs) 0))
  else Err RLPException.
Fixpoint noteAppended_loop (stack : list (Z * Z)) (itemCount : Z) (out : bytes)
    : result RLPError RLPStream :=
  match stack with
  | [] => Ok (mkStream out [])
  | (n, p) :: stack =>
    if n <? itemCount then Err RLPException
    else if negb (n - itemCount =? 0) then Ok (mkStream out ((n - itemCount, p) :: stack))
    else
      h ← list_header (size out - p);
      noteAppended_loop stack 1 (take (Z.to_nat p) out ++ h ++ drop (Z.to_nat p) out)
  end.
Definition noteAppended (itemCount : Z) (s : RLPStream) : result RLPError RLPStream :=
  if itemCount =? 0 then Ok s else noteAppended_loop (m_listStack s) itemCount (m_out s).

Definition appendRaw (rlp : bytes) (itemCount : Z) (s : RLPStream) : result RLPError RLPStream :=
  noteAppended itemCount (mkStream (m_out s ++ rlp) (m_listStack s)).
Definition appendList_raw (rlp : bytes) (s : RLPStream) : result RLPError RLPStream :=
  s ← (if size rlp <? c_rlpListImmLenCount then Ok (push_back (u8 (size rlp + c_rlpListStart)) s)
       else pushCount (size rlp) c_rlpListIndLenZero s);
  appendRaw rlp 1 s.
Definition appendList (items : Z) (s : RLPStream) : result RLPError RLPStream :=
  if negb (items =? 0) then Ok (mkStream (m_out s) ((items, size (m_out s)) :: m_listStack s))
  else appendList_raw [] s.

(** [append] of bytes; [compact] drops leading zeros. *)
Fixpoint drop_zeros (d : bytes) : bytes :=
  match d with 0 :: d => drop_zeros d | _ => d end.
Definition append (d : bytes) (compact : bool) (s : RLPStream) : result RLPError RLPStream :=
  let d := if compact then drop_zeros d else d in
  s ← (if (size d =? 1) && (at_ d 0 <? c_rlpDataImmLenStart) then Ok (push_back (at_ d 0) s)
       else
         s ← (if size d <? c_rlpDataImmLenCount then Ok (push_back (u8 (size d + c_rlpDataImmLenStart)) s)
              else pushCount (size d) c_rlpDataIndLenZero s);
         appendRaw d 0 s);
  noteAppended 1 s.
(** [append] of an integer *)
Definition append_int (i : Z) (s : RLPStream) : result RLPError RLPStream :=
  s ← (if i =? 0 then Ok (push_back c_rlpDataImmLenStart s)
       else if i <? c_rlpDataImmLenStart then Ok (push_back (u8 i) s)
       else
         let br := bytesRequired i in
         s ← (if br <? c_rlpDataImmLenCount then Ok (push_back (u8 (br + c_rlpDataImmLenStart)) s)
              else
                let brbr := bytesRequired br in
                if 0xff <? c_rlpDataIndLenZero + brbr then Err RLPException
                else Ok (pushInt br brbr (push_back (u8 (c_rlpDataIndLenZero + brbr)) s)));
         Ok (pushInt i br s));
  noteAppended 1 s.
(** [append] of a hash *)
Definition append_hash (h : bytes) (compact allOrNothing : bool) (s : RLPStream)
    : result RLPError RLPStream :=
  if allOrNothing && forallb (Z.eqb 0) h then append [] false s else append h compact s.

Definition out (s : RLPStream) : result RLPError bytes :=
  match m_listStack s with [] => Ok (m_out s) | _ => Err RLPException end.
(** [rlp(_t)] of bytes and of an integer *)
Definition rlp (d : bytes) : result RLPError bytes := s ← append d false empty_stream; out s.
Definition rlp_int (i : Z) : result RLPError bytes := s ← append_int i empty_stream; out s.

Example rlp_dog : rlp [100; 111; 103] = Ok [131; 100; 111; 103].
Proof. reflexivity. Qed.
Example rlp_1024 : rlp_int 1024 = Ok [130; 4; 0].
Proof. reflexivity. Qed.
Example list_cat_dog :
  (s ← appendList 2 empty_stream; s ← append [99; 97; 116] false s;
   s ← append [100; 111; 103] false s; out s) = Ok [200; 131; 99; 97; 116; 131; 100; 111; 103].
Proof. reflexivity. Qed.
Example toList_cat_dog :
  toList 9 Strict [200; 131; 99; 97; 116; 131; 100; 111; 103] =
  Some (Ok [[131; 99; 97; 116]; [131; 100; 111; 103]]).
Proof. reflexivity. Qed.

End RLP.
