(* ===== verification/RLPCodec.v ===== *)
(** * Canonical encodings (libdevcore/RLP.h, RLP.cpp)

    The reference encoding of trees of byte strings; the reader accepts
    exactly these encodings, and the writer produces them. *)
From S2P Require Import Prelude CommonData RLP.

Module RLPCodec.
Import CommonData RLP.

(** ** The reference encoding *)

Inductive item :=
| Data (bs : bytes)
| List (l : list item).

Definition header (base n : Z) : bytes :=
  if n <? 56 then [base + n] else (base + 55 + bytesRequired n) :: toCompactBigEndian n 0.
Definition encode_data (bs : bytes) : bytes :=
  match bs with
  | [b] => if b <? 0x80 then [b] else header 0x80 1 ++ bs
  | _ => header 0x80 (size bs) ++ bs
  end.
Fixpoint encode (t : item) : bytes :=
  match t with
  | Data bs => encode_data bs
  | List l => let p := concat (map encode l) in header 0xc0 (size p) ++ p
  end.

(** ** Frames: a header and the payload it announces *)

Inductive frame : bool → bytes → bytes → Prop :=
| frame_byte b : in_word 8 b → b < 0x80 → frame false [] [b]
| frame_data p : (∀ b, p = [b] → 0x80 ≤ b) → frame false (header 0x80 (size p)) p
| frame_list p : frame true (header 0xc0 (size p)) p.

Lemma size_nonneg d : 0 ≤ size d.
Proof. unfold size. lia. Qed.
Lemma size_app d1 d2 : size (d1 ++ d2) = size d1 + size d2.
Proof. unfold size. rewrite length_app. lia. Qed.
Lemma size_cons b d : size (b :: d) = 1 + size d.
Proof. unfold size. simpl. lia. Qed.
Lemma size_nil : size [] = 0.
Proof. done. Qed.
Lemma take_size d1 d2 : take (Z.to_nat (size d1)) (d1 ++ d2) = d1.
Proof. unfold size. rewrite Nat2Z.id. apply take_app_length. Qed.
Lemma drop_size d1 d2 : drop (Z.to_nat (size d1)) (d1 ++ d2) = d2.
Proof. unfold size. rewrite Nat2Z.id. apply drop_app_length. Qed.
Lemma size_take n d : 0 ≤ n ≤ size d → size (take (Z.to_nat n) d) = n.
Proof. unfold size. rewrite length_take. lia. Qed.

Lemma bytesRequired_u64 n : 0 ≤ n < 2 ^ 64 → 0 ≤ bytesRequired n ≤ 8.
Proof.
  intros Hn. destruct (bytesRequired_spec n ltac:(lia)) as (k&->&_&Hge).
  split; [lia|]. destruct (decide (k = 0%nat)); [lia|].
  specialize (Hge ltac:(lia)). assert (256 ^ (Z.of_nat k - 1) < 256 ^ 8) as Hlt by lia.
  apply Z.pow_lt_mono_r_iff in Hlt; lia.
Qed.

(** The number of a long header: a list of bytes with no leading zero is
    determined by its number. *)
Lemma compact_unique b bs :
  bytes_ok (b :: bs) → b ≠ 0 → toCompactBigEndian (be_val (b :: bs)) 0 = b :: bs.
Proof.
  intros Hok Hb. pose proof (be_val_bound _ Hok).
  destruct (toCompactBigEndian_spec (be_val (b :: bs)) 0) as [Hok' Hval]; [lia|].
  apply be_val_inj; [done|done| |done].
  pose proof (length_toCompactBigEndian (be_val (b :: bs)) 0) as Hlen.
  rewrite (bytesRequired_be_val b bs) in Hlen by done. lia.
Qed.

Lemma fold_length bs :
  bytes_ok bs → (length bs ≤ 8)%nat →
  foldl (λ ret b, u64 (Z.lor (Z.shiftl ret 8) b)) 0 bs = be_val bs.
Proof.
  intros Hok Hlen. transitivity (fromBigEndian u64 bs).
  - unfold fromBigEndian. generalize 0. revert Hok. clear Hlen.
    induction bs as [|b bs IH]; intros Hok a; [done|]. simpl.
    apply bytes_ok_cons in Hok as [Hb Hok]. rewrite (wrap_small 8 b) by done. by apply IH.
  - rewrite fromBigEndian_wrap by (done || lia). apply wrap_small.
    pose proof (be_val_bound bs Hok). split; [lia|].
    eapply Z.lt_le_trans; [apply H|]. change (2 ^ 64) with (256 ^ 8).
    apply Z.pow_le_mono_r; lia.
Qed.

(** What the reader sees of the first byte, and of a long header. *)
Lemma at_0 b d : at_ (b :: d) 0 = b.
Proof. done. Qed.
Lemma at_1 a b d : at_ (a :: b :: d) 1 = b.
Proof. done. Qed.
Lemma isNull_cons b d : isNull (b :: d) = false.
Proof. unfold isNull. rewrite size_cons. pose proof (size_nonneg d). lia. Qed.

Lemma long_length_header a n p limit :
  limit ≤ n → 0 < n < 2 ^ 63 →
  long_length (a :: toCompactBigEndian n 0 ++ p) (bytesRequired n) limit = Ok n.
Proof.
  intros Hlim Hn. pose proof (bytesRequired_u64 n ltac:(lia)) as Hbr.
  pose proof (length_toCompactBigEndian n 0) as Hlen.
  destruct (toCompactBigEndian_spec n 0 ltac:(lia)) as [Hok Hval].
  pose proof (toCompactBigEndian_lead n) as Hlead.
  destruct (toCompactBigEndian n 0) as [|b bs] eqn:E; [unfold be_val in Hval; simpl in Hval; lia|].
  specialize (Hlead b bs ltac:(lia) eq_refl).
  unfold long_length. rewrite size_cons, size_app. unfold size at 1. simpl drop.
  pose proof (size_nonneg p). change ((b :: bs) ++ p) with (b :: bs ++ p). rewrite at_1.
  replace (take (Z.to_nat (bytesRequired n)) (b :: bs ++ p)) with (b :: bs).
  2:{ change (b :: bs ++ p) with ((b :: bs) ++ p). rewrite take_app_length'; [done|lia]. }
  rewrite fold_length, Hval by (done || lia).
  repeat (case_match; try lia). done.
Qed.

(** Decide a chain of comparisons by arithmetic. *)
Ltac step_if :=
  match goal with
  | |- context [if ?b then _ else _] =>
    first [ replace b with true by lia | replace b with false by lia ]; cbv beta iota
  end.
Ltac crush :=
  repeat step_if; cbn [mbind result_bind]; repeat step_if;
  split_and?; try reflexivity; try lia; try (f_equal; lia).
Ltac unfold_rlp :=
  unfold actualSize, payloadOffset, length_, lengthSize, requireGood, isSingleByte, isData, isList,
    c_rlpDataIndLenZero, c_rlpListIndLenZero, c_rlpListImmLenCount, c_rlpDataImmLenCount,
    c_rlpDataImmLenStart, c_rlpListStart, c_rlpMaxLengthBytes in *.

Lemma size_header base n : 0 ≤ n < 2 ^ 63 →
  size (header base n) = if n <? 56 then 1 else 1 + bytesRequired n.
Proof.
  intros Hn. unfold header. destruct (n <? 56); [done|].
  rewrite size_cons. unfold size. rewrite length_toCompactBigEndian.
  pose proof (bytesRequired_u64 n). lia.
Qed.

Lemma frame_read k h p rest :
  frame k h p → size (h ++ p) < 2 ^ 63 →
  let d := h ++ p ++ rest in
  isNull d = false ∧ isList d = k ∧ isData d = negb k ∧
  length_ d = Ok (size p) ∧ payloadOffset d = size h ∧ actualSize d = Ok (size (h ++ p)).
Proof.
  intros Hf Hsz. rewrite size_app in *. pose proof (size_nonneg p). pose proof (size_nonneg h).
  assert (size p < 2 ^ 63) by lia. clear Hsz.
  destruct Hf as [b Hb Hlt|p Hp|p]; cbv zeta.
  - unfold in_word in Hb. simpl app. unfold_rlp. rewrite isNull_cons, at_0. simpl. rewrite size_cons, size_nil.
    crush.
  - rewrite size_header by lia. unfold header. destruct (Z.ltb_spec (size p) 56) as [Hn|Hn].
    + simpl app. unfold_rlp. rewrite isNull_cons, at_0. cbn [negb andb].
      assert ((if negb (0x80 + size p =? 0x80 + 1) then Ok ()
               else if size (0x80 + size p :: p ++ rest) <? 2 then Err BadRLP
               else if at_ (0x80 + size p :: p ++ rest) 1 <? 0x80 then Err BadRLP else Ok ())
              = Ok () :> result RLPError unit) as ->.
      { destruct (Z.eqb_spec (0x80 + size p) (0x80 + 1)); [|done]. cbn [negb].
        destruct p as [|b [|]]; rewrite ?size_cons, ?size_nil in *; try lia.
        { pose proof (size_nonneg []). pose proof (size_nonneg rest). specialize (Hp b eq_refl). simpl app.
          rewrite !size_cons, at_1. by repeat step_if. }
        match goal with |- context [_ :: _ :: ?q] => pose proof (size_nonneg q) end. lia. }
      crush.
    + pose proof (bytesRequired_u64 (size p)) as Hbr. 
      assert (bytesRequired (size p) ≠ 0) as Hbr0.
      { destruct (bytesRequired_spec (size p)) as (m&->&Hm&_); [lia|]. intros Hm0.
        rewrite Hm0 in Hm. simpl in Hm. lia. }
      simpl app. unfold_rlp. rewrite isNull_cons, at_0. cbn [negb andb].
      replace (0x80 + 55 + bytesRequired (size p) - (0x80 + (0xc0 - 0x80 - 8) - 1))
        with (bytesRequired (size p)) by lia.
      rewrite long_length_header by lia.
      crush.
  - rewrite size_header by lia. unfold header. destruct (Z.ltb_spec (size p) 56) as [Hn|Hn].
    + simpl app. unfold_rlp. rewrite isNull_cons, at_0. cbn [negb andb]. crush.
    + pose proof (bytesRequired_u64 (size p)) as Hbr. 
      assert (bytesRequired (size p) ≠ 0) as Hbr0.
      { destruct (bytesRequired_spec (size p)) as (m&->&Hm&_); [lia|]. intros Hm0.
        rewrite Hm0 in Hm. simpl in Hm. lia. }
      simpl app. unfold_rlp. rewrite isNull_cons, at_0. cbn [negb andb].
      replace (0xc0 + 55 + bytesRequired (size p) - (0xc0 + (256 - 0xc0 - 8) - 1))
        with (bytesRequired (size p)) by lia.
      rewrite long_length_header by lia.
      crush.
Qed.

Lemma long_length_inv a d ls limit l :
  bytes_ok d → 1 ≤ ls ≤ 8 → long_length (a :: d) ls limit = Ok l →
  ∃ d', d = toCompactBigEndian l 0 ++ d' ∧ bytesRequired l = ls ∧ limit ≤ l.
Proof.
  intros Hok Hls. unfold long_length. rewrite size_cons. change (drop 1 (a :: d)) with (drop 0 d).
  rewrite drop_0.
  destruct (Z.leb_spec (1 + size d) ls) as [|Hsz]; [done|].
  destruct (Z.eqb_spec (at_ (a :: d) 1) 0) as [|H1]; [done|].
  destruct (Z.ltb_spec 8 ls); [lia|].
  assert (length (take (Z.to_nat ls) d) = Z.to_nat ls) as Hlen
    by (rewrite length_take; unfold size in Hsz; lia).
  pose proof Hok as Hok'. rewrite <-(take_drop (Z.to_nat ls) d) in Hok'.
  apply bytes_ok_app in Hok' as [Hok' _].
  rewrite fold_length by (done || lia).
  destruct (Z.ltb_spec (be_val (take (Z.to_nat ls) d)) limit); [done|].
  destruct (Z.leb_spec (2 ^ 64 - 1 - 0x100) (be_val (take (Z.to_nat ls) d))); [done|].
  intros Hl. injection Hl as <-. exists (drop (Z.to_nat ls) d).
  assert (∃ b bs, take (Z.to_nat ls) d = b :: bs ∧ b ≠ 0) as (b&bs&E&Hb).
  { destruct d as [|b d]; [rewrite take_nil in Hlen; simpl in Hlen; lia|]. rewrite at_1 in H1.
    replace (Z.to_nat ls) with (S (Z.to_nat (ls - 1))) by lia. simpl. eauto. }
  rewrite E in *. rewrite compact_unique, bytesRequired_be_val by done.
  split_and!; [|lia|done]. by rewrite <-E, take_drop.
Qed.

Lemma split_payload d l : 0 ≤ l ≤ size d → ∃ p rest, d = p ++ rest ∧ size p = l.
Proof.
  intros Hl. exists (take (Z.to_nat l) d), (drop (Z.to_nat l) d).
  by rewrite take_drop, size_take.
Qed.

(** What the reader takes for an item is a frame. *)
Lemma frame_inv d a :
  bytes_ok d → isNull d = false → actualSize d = Ok a → a ≤ size d →
  ∃ k h p rest, d = h ++ p ++ rest ∧ frame k h p ∧ a = size (h ++ p).
Proof.
  intros Hok Hnull. destruct d as [|n d]; [done|]. clear Hnull.
  apply bytes_ok_cons in Hok as [Hn Hok]. unfold in_word in Hn.
  rewrite size_cons. pose proof (size_nonneg d).
  assert (∀ k base l, base + l = n → 0 ≤ l < 56 → 1 + l ≤ 1 + size d →
    (∀ p rest, d = p ++ rest → size p = l → frame k (header base (size p)) p) →
    ∃ k h p rest, n :: d = h ++ p ++ rest ∧ frame k h p ∧ 1 + l = size (h ++ p)) as Hshort.
  { intros k base l Hbase Hl Hle Hf. destruct (split_payload d l ltac:(lia)) as (p&rest&->&Hp).
    exists k, (header base (size p)), p, rest. rewrite size_app, size_header by lia.
    split; [|split; [by eapply Hf|]]; unfold header; repeat step_if; [|lia]. simpl. f_equal; lia. }
  assert (∀ k base l, base + 55 + bytesRequired l = n → 56 ≤ l → bytesRequired l ≤ 8 →
    (∃ d', d = toCompactBigEndian l 0 ++ d') → 1 + bytesRequired l + l ≤ 1 + size d →
    (∀ p, size p = l → frame k (header base (size p)) p) →
    ∃ k h p rest, n :: d = h ++ p ++ rest ∧ frame k h p ∧ 1 + bytesRequired l + l = size (h ++ p))
    as Hlong.
  { intros k base l Hbase Hl Hbr (d'&->) Hle Hf. rewrite size_app in Hle.
    assert (size (toCompactBigEndian l 0) = bytesRequired l) as Hc.
    { unfold size. rewrite length_toCompactBigEndian. pose proof (bytesRequired_spec l). 
      destruct (bytesRequired_spec l) as (?&?&_); lia. }
    destruct (split_payload d' l ltac:(lia)) as (p&rest&->&Hp).
    exists k, (header base (size p)), p, rest. split; [|split; [by apply Hf|]].
    - rewrite Hp. unfold header. replace (l <? 56) with false by lia. by rewrite Hbase.
    - rewrite size_app, Hp. unfold header. replace (l <? 56) with false by lia.
      rewrite size_cons. lia. }
  unfold_rlp. rewrite isNull_cons, at_0. cbn [negb andb].
  destruct (Z.ltb_spec n 0x80).
  { intros Ha. injection Ha as <-. exists false, [], [n], d. 
    split; [done|]. split; [by constructor|done]. }
  destruct (Z.leb_spec n (0x80 + (0xc0 - 0x80 - 8) - 1)).
  { repeat step_if. destruct (Z.eqb_spec n (0x80 + 1)) as [->|Hn1]; cbn [negb].
    - destruct (Z.ltb_spec (size (0x80 + 1 :: d)) 2) as [|H2]; [done|].
      destruct (Z.ltb_spec (at_ (0x80 + 1 :: d) 1) 0x80) as [|Hb1]; [done|].
      cbn [mbind result_bind]. repeat step_if. intros Ha Hle. injection Ha as <-.
      apply (Hshort false 0x80 (0x80 + 1 - 0x80)); [lia..|]. intros p rest -> Hp. constructor.
      intros b ->. simpl app in Hb1. rewrite at_1 in Hb1. lia.
    - cbn [mbind result_bind]. repeat step_if. intros Ha Hle. injection Ha as <-.
      apply (Hshort false 0x80 (n - 0x80)); [lia..|]. intros p rest -> Hp. constructor.
      intros b ->. change (size [b]) with 1 in Hp. lia. }
  replace (negb (n =? 0x80 + 1)) with true by lia. cbn [mbind result_bind].
  destruct (Z.ltb_spec n 0xc0).
  { repeat step_if. destruct (long_length _ _ _) as [l|] eqn:El; [|done].
    cbn [mbind result_bind]. intros Ha Hle. injection Ha as <-.
    apply long_length_inv in El as (d'&->&Hbr&Hlim); [|done|lia].
    rewrite <-Hbr in Hle |- *. apply (Hlong false 0x80); [lia..|by eexists|lia|].
    intros p Hp. constructor. intros b ->. change (size [b]) with 1 in Hp. lia. }
  destruct (Z.leb_spec n (0xc0 + (256 - 0xc0 - 8) - 1)).
  { repeat step_if. cbn [mbind result_bind]. repeat step_if. intros Ha Hle. injection Ha as <-.
    apply (Hshort true 0xc0 (n - 0xc0)); [lia..|]. intros p rest -> Hp. constructor. }
  repeat step_if. destruct (long_length _ _ _) as [l|] eqn:El; [|done].
  cbn [mbind result_bind]. intros Ha Hle. injection Ha as <-.
  apply long_length_inv in El as (d'&->&Hbr&Hlim); [|done|lia].
  rewrite <-Hbr in Hle |- *. apply (Hlong true 0xc0); [lia..|by eexists|lia|].
  intros p Hp. constructor.
Qed.

(** ** Items and lists of items *)

Definition framed (d : bytes) : Prop := ∃ k h p, d = h ++ p ∧ frame k h p.

Lemma frame_nonempty k h p : frame k h p → 0 < size (h ++ p).
Proof.
  intros Hf. rewrite size_app. pose proof (size_nonneg p).
  destruct Hf as [b _ _|p _|p]; [done|..]; unfold header; destruct (size p <? 56);
    rewrite size_cons; try rewrite size_nil; pose proof (size_nonneg (toCompactBigEndian (size p) 0)); lia.
Qed.

Lemma framed_size x rest :
  framed x → size x < 2 ^ 63 → actualSize (x ++ rest) = Ok (size x) ∧ 0 < size x.
Proof.
  intros (k&h&p&->&Hf) Hsz. split; [|by eapply frame_nonempty].
  rewrite <-app_assoc. by destruct (frame_read k h p rest Hf Hsz) as (_&_&_&_&_&?).
Qed.
Lemma framed_prefix x y rx ry :
  framed x → framed y → size x < 2 ^ 63 → size y < 2 ^ 63 → x ++ rx = y ++ ry → x = y ∧ rx = ry.
Proof.
  intros Hx Hy Hsx Hsy Heq.
  destruct (framed_size x rx Hx Hsx) as [Ha _], (framed_size y ry Hy Hsy) as [Hb _].
  rewrite Heq in Ha. rewrite Ha in Hb. injection Hb as Hlen.
  apply app_inj_1 in Heq; [done|]. unfold size in Hlen. lia.
Qed.

(** Evaluate tests of constant flags. *)
Ltac flags :=
  unfold fail;
  repeat match goal with
  | |- context [has ?a ?b] =>
    let v := eval vm_compute in (has a b) in
    match v with true => idtac | false => idtac end; change (has a b) with v; cbv beta iota
  end.

Lemma sizeAsEncoded_eq d :
  sizeAsEncoded d = (a ← actualSize d; if size d <? a then Err UndersizeRLP else Ok a).
Proof.
  unfold sizeAsEncoded, construct. flags. cbn [mbind result_bind]. destruct (actualSize d) as [a|e] eqn:E; [|done].
  cbn. destruct (size d <? a); [done|]. cbn. by rewrite E.
Qed.
Lemma construct_strict d :
  construct VeryStrict d =
  (a ← actualSize d; if a <? size d then Err OversizeRLP
                     else if size d <? a then Err UndersizeRLP else Ok d).
Proof.
  unfold construct. flags. cbn [mbind result_bind]. destruct (actualSize d) as [a|e] eqn:E; [|done].
  cbn. destruct (a <? size d); [done|]. cbn. rewrite E. cbn. by destruct (size d <? a).
Qed.
Lemma construct_framed d : framed d → size d < 2 ^ 63 → construct VeryStrict d = Ok d.
Proof.
  intros Hf Hsz. destruct (framed_size d [] Hf Hsz) as [Ha _]. rewrite app_nil_r in Ha.
  rewrite construct_strict, Ha. cbn. by rewrite Z.ltb_irrefl.
Qed.

Lemma payload_frame k h p rest :
  frame k h p → size (h ++ p) < 2 ^ 63 → size (h ++ p ++ rest) < 2 ^ 63 →
  payload (h ++ p ++ rest) = Ok (Some p).
Proof.
  intros Hf Hsz Hsz'. destruct (frame_read k h p rest Hf Hsz) as (_&_&_&Hl&Ho&_).
  unfold payload. rewrite Hl, Ho. cbn. unfold cropped. rewrite !size_app in *.
  pose proof (size_nonneg h). pose proof (size_nonneg p). pose proof (size_nonneg rest).
  rewrite (wrap_small 64) by (split; lia). repeat step_if.
  by rewrite drop_size, take_size.
Qed.

(** The iterator at the item with which [rest] begins, or at the end *)
Definition iter_of (d rest : bytes) : result RLPError iterator :=
  s ← sizeAsEncoded rest; Ok (mkIterator (Some (size d - size rest, s)) (size rest - s)).

Lemma item_at_app pre x rest : item_at (pre ++ x ++ rest) (Some (size pre, size x)) = x.
Proof. unfold item_at. by rewrite drop_size, take_size. Qed.

Lemma crop_item_iter pre rest :
  crop_item (pre ++ rest) (Some (size pre, size rest)) =
  (s ← sizeAsEncoded rest; Ok (Some (size pre, s))).
Proof.
  unfold crop_item. pose proof (item_at_app pre rest []) as H. rewrite app_nil_r in H. rewrite H.
  rewrite sizeAsEncoded_eq. destruct (actualSize rest) as [a|]; [|done]. cbn.
  destruct (Z.ltb_spec (size rest) a); [done|]. cbn. by repeat step_if.
Qed.

Lemma begin_iter h p :
  frame true h p → size (h ++ p) < 2 ^ 63 → begin (h ++ p) = iter_of (h ++ p) p.
Proof.
  intros Hf Hsz. destruct (frame_read true h p [] Hf Hsz) as (_&Hl&_&_&Ho&_).
  pose proof (payload_frame true h p [] Hf Hsz) as Hp. rewrite app_nil_r in *.
  unfold begin, iter_of. rewrite Hl, Ho, Hp by done. cbn. rewrite crop_item_iter.
  destruct (sizeAsEncoded p) as [s|]; [|done]. cbn. rewrite size_app. do 2 f_equal.
  f_equal. f_equal. lia.
Qed.

Lemma next_iter pre x rest :
  next (pre ++ x ++ rest) (mkIterator (Some (size pre, size x)) (size rest)) =
  iter_of (pre ++ x ++ rest) rest.
Proof.
  unfold next, iter_of. cbn. pose proof (size_nonneg rest).
  rewrite !size_app. replace (size pre + (size x + size rest) - size rest) with (size pre + size x) by lia.
  destruct (Z.eqb_spec (size rest) 0) as [H0|H0]; cbn.
  - destruct rest; [|rewrite size_cons in H0; pose proof (size_nonneg rest); lia]. done.
  - pose proof (crop_item_iter (pre ++ x) rest) as Hc. rewrite size_app, <-app_assoc in Hc.
    rewrite Hc. destruct (sizeAsEncoded rest) as [s|] eqn:E; [|done]. cbn. 
    rewrite sizeAsEncoded_eq in E. destruct (actualSize rest); [|done]. cbn in E.
    destruct (Z.ltb_spec (size rest) a); [done|]. injection E as ->. by rewrite Z.min_r by lia.
Qed.

(** A payload is tiled by items, in one way at most. *)
Definition tiles (ls : list bytes) (p : bytes) : Prop := Forall framed ls ∧ concat ls = p.

Definition toList_from (fuel : nat) (d rest : bytes) (ret : list bytes) :=
  match iter_of d rest with
  | Err e => Some (Err e)
  | Ok it => toList_loop fuel d it ret
  end.

Lemma tiles_cons_inv x rest ls :
  framed x → size x < 2 ^ 63 → size (x ++ rest) < 2 ^ 63 → tiles ls (x ++ rest) →
  ∃ ls', ls = x :: ls' ∧ tiles ls' rest.
Proof.
  intros Hx Hsx Hsz [Hf Hc]. pose proof (framed_size x [] Hx Hsx) as [_ Hpos].
  destruct ls as [|y ls]; simpl in Hc.
  { destruct x; [done|]. by destruct rest. }
  apply Forall_cons in Hf as [Hy Hf].
  assert (size y < 2 ^ 63) as Hsy.
  { rewrite <-Hc, size_app in Hsz. pose proof (size_nonneg (concat ls)). lia. }
  destruct (framed_prefix y x (concat ls) rest) as [-> Hrest]; [done..|]. by exists ls.
Qed.

Lemma toList_from_spec fuel pre rest ret :
  bytes_ok rest → size (pre ++ rest) < 2 ^ 63 → size rest < Z.of_nat fuel →
  (∃ ls, tiles ls rest ∧ toList_from fuel (pre ++ rest) rest ret = Some (Ok (ret ++ ls))) ∨
  ((∀ ls, ¬ tiles ls rest) ∧ ∃ e, toList_from fuel (pre ++ rest) rest ret = Some (Err e)).
Proof.
  revert pre rest ret. induction fuel as [|fuel IH]; intros pre rest ret Hok Hsz Hfuel;
    [pose proof (size_nonneg rest); lia|].
  unfold toList_from, iter_of. rewrite sizeAsEncoded_eq.
  destruct (isNull rest) eqn:Hnull.
  { destruct rest; [|by rewrite isNull_cons in Hnull]. left. exists []. split; [by split|].
    change (actualSize []) with (Ok 0 : result RLPError Z).
    rewrite !app_nil_r, size_nil, Z.sub_0_r. cbn [mbind result_bind].
    change (0 <? 0) with false. cbn [mbind result_bind toList_loop m_currentItem m_remaining end_].
    by rewrite decide_True. }
  rewrite size_app in Hsz. pose proof (size_nonneg pre). pose proof (size_nonneg rest).
  assert (∀ ls, tiles ls rest → ∃ a, actualSize rest = Ok a ∧ a ≤ size rest) as Htile.
  { intros [|x ls] [Hf <-]; [by rewrite isNull_cons in Hnull || done|].
    apply Forall_cons in Hf as [Hx _]. simpl in *. rewrite size_app in *.
    pose proof (size_nonneg (concat ls)). exists (size x). split; [apply framed_size; [done|lia]|lia]. }
  destruct (actualSize rest) as [a|e] eqn:Ha.
  2:{ right. split; [|by exists e]. intros ls Hls. by destruct (Htile ls Hls) as (?&?&_). }
  cbn [mbind result_bind]. destruct (Z.ltb_spec (size rest) a) as [Hlt|Hle].
  { right. split; [|by eexists]. intros ls Hls. destruct (Htile ls Hls) as (?&[= ->]&?). lia. }
  destruct (frame_inv rest a) as (k&h&p&rest'&->&Hf&->); [done..|].
  rewrite (app_assoc h p rest') in *. set (x := h ++ p) in *.
  assert (framed x) as Hx by (exists k, h, p; done).
  pose proof (size_nonneg x). pose proof (size_nonneg rest'). rewrite size_app in *.
  destruct (framed_size x [] Hx) as [_ Hpos]; [lia|].
  cbn [mbind result_bind]. cbn [toList_loop m_currentItem m_remaining end_].
  rewrite !size_app.
  rewrite decide_False by (intros [= ?]; lia).
  replace (size pre + (size x + size rest') - (size x + size rest')) with (size pre) by lia.
  replace (size x + size rest' - size x) with (size rest') by lia.
  rewrite item_at_app, construct_framed by (done || lia). cbn [mbind result_bind].
  rewrite next_iter.
  destruct (IH (pre ++ x) rest' (ret ++ [x])) as [(ls&Hls&Hrun)|(Hno&e&Hrun)].
  { by apply bytes_ok_app in Hok as [_ Hok']. } { rewrite !size_app. lia. } { lia. }
  - left. exists (x :: ls). split.
    { destruct Hls as [Hfl <-]. split; [by constructor|done]. }
    unfold toList_from in Hrun. rewrite <-app_assoc in Hrun.
    destruct (iter_of (pre ++ x ++ rest') rest'); [|done]. cbn [mbind result_bind].
    rewrite Hrun. by rewrite <-app_assoc.
  - right. split.
    { intros ls Hls. apply tiles_cons_inv in Hls as (ls'&_&Hls'); [|done|lia|rewrite size_app; lia].
      by apply (Hno ls'). }
    unfold toList_from in Hrun. rewrite <-app_assoc in Hrun.
    destruct (iter_of (pre ++ x ++ rest') rest') as [it|e']; cbn [mbind result_bind]; eauto.
Qed.

(** [toList] of a framed list *)
Lemma toList_spec fuel flags h p :
  frame true h p → bytes_ok p → size (h ++ p) < 2 ^ 63 → size p < Z.of_nat fuel →
  (∃ ls, tiles ls p ∧ toList fuel flags (h ++ p) = Some (Ok ls)) ∨
  ((∀ ls, ¬ tiles ls p) ∧ ∃ e, toList fuel flags (h ++ p) = Some (Err e)).
Proof.
  intros Hf Hok Hsz Hfuel. destruct (frame_read true h p [] Hf Hsz) as (_&Hl&_).
  rewrite app_nil_r in Hl. unfold toList. rewrite Hl, begin_iter by done. cbn [negb].
  apply (toList_from_spec fuel h p [] Hok Hsz Hfuel).
Qed.

Lemma tiles_unique ls ls' p : size p < 2 ^ 63 → tiles ls p → tiles ls' p → ls = ls'.
Proof.
  revert ls' p. induction ls as [|x ls IH]; intros ls' p Hsz [Hf <-] Hls'.
  - destruct ls' as [|y ls']; [done|]. destruct Hls' as [[Hy _]%Forall_cons Hc]. simpl in Hc.
    apply app_nil in Hc as [-> _]. destruct Hy as (k&h&p&Heq&Hfr%frame_nonempty).
    by rewrite <-Heq in Hfr.
  - apply Forall_cons in Hf as [Hx Hf]. simpl in *. pose proof (size_nonneg (concat ls)).
    pose proof (size_nonneg x). rewrite size_app in Hsz.
    apply tiles_cons_inv in Hls' as (ls''&->&Hls''); [|done|lia|rewrite size_app; lia].
    f_equal. apply (IH ls'' (concat ls)); [lia|done|done].
Qed.

Lemma encode_data_frame bs :
  bytes_ok (encode_data bs) → ∃ h, encode_data bs = h ++ bs ∧ frame false h bs.
Proof.
  unfold encode_data. intros Hok. destruct bs as [|b [|b' bs]].
  - exists (header 0x80 (size [])). split; [done|]. by constructor.
  - destruct (Z.ltb_spec b 0x80).
    + exists []. split; [done|]. constructor; [|done]. by apply bytes_ok_cons in Hok as [? _].
    + exists (header 0x80 (size [b])). split; [done|]. constructor. intros ? [= ->]. lia.
  - eexists. split; [done|]. by constructor.
Qed.
Lemma frame_encode_data h p : frame false h p → h ++ p = encode_data p.
Proof.
  inversion 1 as [b Hb Hlt|p' Hp|]; subst.
  - simpl. by replace (b <? 0x80) with true by lia.
  - destruct p as [|b [|b' p]]; [done| |done]. simpl. specialize (Hp b eq_refl).
    by replace (b <? 0x80) with false by lia.
Qed.

Lemma encode_framed t : bytes_ok (encode t) → framed (encode t).
Proof.
  intros Hok. destruct t as [bs|l].
  - destruct (encode_data_frame bs Hok) as (h&Heq&Hf). exists false, h, bs. done.
  - eexists true, _, _. split; [done|]. constructor.
Qed.
Lemma tiles_encode ts : bytes_ok (concat (map encode ts)) → tiles (map encode ts) (concat (map encode ts)).
Proof.
  intros Hok. split; [|done]. induction ts as [|t ts IH]; simpl in *; [done|].
  apply bytes_ok_app in Hok as [Ht Hts]. constructor; [by apply encode_framed|by apply IH].
Qed.

(** Reading a whole tree with the operations of the reader *)
Fixpoint read (fuel : nat) (d : bytes) : option item :=
  match fuel with
  | O => None
  | S fuel =>
    if isData d then
      match toBytes VeryStrict d with Ok bs => Some (Data bs) | Err _ => None end
    else
      match toList (S (length d)) VeryStrict d with
      | Some (Ok ls) => ts ← mapM (read fuel) ls; Some (List ts)
      | _ => None
      end
  end.
Definition parse (d : bytes) : option item :=
  match construct VeryStrict d with
  | Ok d => read (S (length d)) d
  | Err _ => None
  end.

Lemma toBytes_frame flags h p :
  frame false h p → size (h ++ p) < 2 ^ 63 → toBytes flags (h ++ p) = Ok p.
Proof.
  intros Hf Hsz. destruct (frame_read false h p [] Hf Hsz) as (_&_&Hd&Hl&_).
  pose proof (payload_frame false h p [] Hf Hsz) as Hp. rewrite app_nil_r in *.
  unfold toBytes. rewrite Hd, Hp, Hl by done. cbn. unfold size. by rewrite Nat2Z.id, firstn_all.
Qed.

(** The kind and the payload are determined by the bytes. *)
Lemma frame_unique k k' h h' p p' :
  frame k h p → frame k' h' p' → size (h ++ p) < 2 ^ 63 → h ++ p = h' ++ p' → k = k' ∧ p = p'.
Proof.
  intros Hf Hf' Hsz Heq. pose proof Hsz as Hsz'. rewrite Heq in Hsz'.
  destruct (frame_read k h p [] Hf Hsz) as (_&Hl&_).
  destruct (frame_read k' h' p' [] Hf' Hsz') as (_&Hl'&_).
  pose proof (payload_frame k h p [] Hf Hsz) as Hp.
  pose proof (payload_frame k' h' p' [] Hf' Hsz') as Hp'.
  rewrite app_nil_r in *. rewrite Heq in Hl, Hp. split; [congruence|].
  rewrite Hp in Hp' by done. specialize (Hp' Hsz'). congruence.
Qed.

Lemma encode_kind t k h p :
  frame k h p → bytes_ok (h ++ p) → size (h ++ p) < 2 ^ 63 → encode t = h ++ p →
  match t with
  | Data bs => k = false ∧ bs = p
  | List l => k = true ∧ tiles (map encode l) p
  end.
Proof.
  intros Hf Hok Hsz Ht. rewrite <-Ht in Hok. destruct t as [bs|l].
  - destruct (encode_data_frame bs Hok) as (h'&Heq&Hf'). simpl in Ht. rewrite Heq in Ht.
    by destruct (frame_unique k false h h' p bs) as [-> ->].
  - simpl in Ht, Hok. apply bytes_ok_app in Hok as [_ Hok].
    destruct (frame_unique k true h _ p _ Hf (frame_list (concat (map encode l))) Hsz) as [-> ->]; [done|].
    split; [done|]. by apply tiles_encode.
Qed.

Lemma mapM_read (f : bytes → option item) ls ts :
  (∀ x, x ∈ ls → ∀ t, f x = Some t ↔ encode t = x) →
  mapM f ls = Some ts ↔ map encode ts = ls.
Proof.
  intros Hx. rewrite mapM_Some. split.
  - intros H2. induction H2 as [|x t ls ts Hxt H2 IH]; [done|]. simpl. f_equal.
    + apply Hx; [constructor|done].
    + apply IH. intros y Hy. apply Hx. by constructor.
  - intros <-. induction ts as [|t ts IH]; [constructor|]. simpl. constructor.
    + by apply Hx; [constructor|].
    + apply IH. intros y Hy. apply Hx. by constructor.
Qed.

(** The items of a list are shorter than the list. *)
Lemma tiles_item ls p x :
  tiles ls p → bytes_ok p → x ∈ ls → framed x ∧ bytes_ok x ∧ size x ≤ size p.
Proof.
  intros [Hf <-] Hok Hx. apply list_elem_of_split in Hx as (l1&l2&->).
  rewrite concat_app in *. simpl in *. rewrite !size_app.
  apply bytes_ok_app in Hok as [_ [Hokx _]%bytes_ok_app].
  apply Forall_app in Hf as [_ [Hx _]%Forall_cons].
  pose proof (size_nonneg (concat l1)). pose proof (size_nonneg (concat l2)). split_and!; [done|done|lia].
Qed.

Lemma list_header_pos h p : frame true h p → 0 < size h.
Proof.
  inversion 1. unfold header. destruct (size p <? 56); rewrite size_cons; [rewrite size_nil; lia|].
  pose proof (size_nonneg (toCompactBigEndian (size p) 0)). lia.
Qed.

Lemma read_spec fuel d t :
  framed d → bytes_ok d → size d < 2 ^ 63 → (length d < fuel)%nat →
  read fuel d = Some t ↔ encode t = d.
Proof.
  revert d t. induction fuel as [|fuel IH]; intros d t Hfr Hok Hsz Hfuel; [lia|].
  destruct Hfr as (k&h&p&->&Hf). cbn [read]. pose proof (encode_kind t k h p Hf Hok Hsz) as Hkind.
  destruct (frame_read k h p [] Hf Hsz) as (_&Hl&Hd&_). rewrite app_nil_r in Hl, Hd. rewrite Hd.
  destruct k; cbn [negb].
  - pose proof (list_header_pos h p Hf) as Hh. pose proof Hok as [_ Hokp]%bytes_ok_app.
    assert (∀ ls ts, tiles ls p → mapM (read fuel) ls = Some ts ↔ map encode ts = ls) as Hmap.
    { intros ls ts Hls. apply mapM_read. intros x Hx t'.
      destruct (tiles_item ls p x Hls Hokp Hx) as (?&?&?).
      rewrite size_app in Hsz. rewrite length_app in Hfuel. unfold size in *. apply IH; [done|done|..]; lia. }
    rewrite size_app in *.
    destruct (toList_spec (S (length (h ++ p))) VeryStrict h p) as [(ls&Hls&->)|(Hno&e&->)];
      [done|done|by rewrite size_app|rewrite length_app; unfold size in *; lia| |].
    + split.
      * destruct (mapM (read fuel) ls) as [ts|] eqn:Hts; [|done]. intros [= <-].
        apply Hmap in Hts as <-; [|done]. destruct Hls as [_ Hc]. simpl. rewrite Hc. by inversion Hf.
      * intros Ht. specialize (Hkind Ht). destruct t as [bs|l]; [by destruct Hkind|].
        destruct Hkind as [_ Hl']. assert (map encode l = ls) as Hll.
        { apply (tiles_unique _ _ p); [pose proof (size_nonneg p); lia|done|done]. }
        apply Hmap in Hll; [|done]. by rewrite Hll.
    + split; [done|]. intros Ht. specialize (Hkind Ht). destruct t as [bs|l]; [by destruct Hkind|].
      destruct Hkind as [_ Hl']. by destruct (Hno (map encode l)).
  - rewrite toBytes_frame by done. split.
    + intros [= <-]. symmetry. by apply frame_encode_data.
    + intros Ht. specialize (Hkind Ht). destruct t as [bs|l]; [|by destruct Hkind].
      by destruct Hkind as [_ ->].
Qed.

Lemma parse_spec d t :
  bytes_ok d → size d < 2 ^ 63 → parse d = Some t ↔ encode t = d.
Proof.
  intros Hok Hsz. unfold parse. destruct (isNull d) eqn:Hnull.
  { destruct d; [|by rewrite isNull_cons in Hnull]. split; [done|]. intros Ht.
    destruct (encode_framed t) as (k&h&p&Heq&Hf%frame_nonempty); [by rewrite Ht; constructor|].
    rewrite <-Heq, Ht in Hf. done. }
  assert (framed d → parse d = Some t ↔ encode t = d) as Hfr.
  { intros Hf. unfold parse. rewrite construct_framed by done. apply read_spec; [done..|lia]. }
  split.
  - rewrite construct_strict. destruct (actualSize d) as [a|e] eqn:Ha; [|done]. cbn [mbind result_bind].
    destruct (Z.ltb_spec a (size d)); [done|]. destruct (Z.ltb_spec (size d) a); [done|].
    destruct (frame_inv d a) as (k&h&p&rest&->&Hf&Hsize); [done|done|done|lia|].
    intros Hr. assert (rest = []) as ->.
    { rewrite !size_app in *. destruct rest; [done|]. rewrite size_cons in *.
      pose proof (size_nonneg rest). lia. }
    rewrite app_nil_r in *. eapply read_spec; [| | | |exact Hr]; [by eexists _, _, _|done|done|lia].
  - intros Ht. apply Hfr; [|done]. rewrite <-Ht. apply encode_framed. by rewrite Ht.
Qed.

(** ** The writer *)

(** Writing a whole tree with the operations of the writer *)
Fixpoint write (t : item) (s : RLPStream) : result RLPError RLPStream :=
  match t with
  | Data bs => append bs false s
  | List l => s ← appendList (Z.of_nat (length l)) s; foldM (λ s t, write t s) s l
  end.

Lemma u8_small z : 0 ≤ z < 256 → u8 z = z.
Proof. intros. apply wrap_small. unfold in_word. lia. Qed.

Lemma toCompact_0 n : 0 ≤ n → toBigEndian n (replicate (Z.to_nat (bytesRequired n)) 0) = toCompactBigEndian n 0.
Proof.
  intros Hn. unfold toCompactBigEndian. do 3 f_equal.
  destruct (bytesRequired_spec n Hn) as (k&->&_). lia.
Qed.

Lemma pushCount_header base n s :
  56 ≤ n < 2 ^ 63 → 0 ≤ base ≤ 0xc0 →
  pushCount n (base + 55) s = Ok (mkStream (m_out s ++ header base n) (m_listStack s)).
Proof.
  intros Hn Hbase. pose proof (bytesRequired_u64 n ltac:(lia)).
  unfold pushCount, header. replace (n <? 56) with false by lia.
  replace (0xff <? bytesRequired n + (base + 55)) with false by lia.
  unfold pushInt, push_back. cbn [m_out m_listStack]. rewrite toCompact_0, u8_small by lia.
  rewrite <-app_assoc. do 3 f_equal. cbn. f_equal. lia.
Qed.

Lemma list_header_spec n : 0 ≤ n < 2 ^ 63 → list_header n = Ok (header 0xc0 n).
Proof.
  intros Hn. pose proof (bytesRequired_u64 n ltac:(lia)).
  unfold list_header, header, c_rlpListImmLenCount, c_rlpListIndLenZero, c_rlpListImmLenCount,
    c_rlpListStart, c_rlpMaxLengthBytes in *.
  destruct (Z.ltb_spec n 56); repeat step_if; [by rewrite u8_small by lia|].
  rewrite toCompact_0, u8_small by lia. by do 2 f_equal.
Qed.

Lemma append_spec bs s :
  bytes_ok bs → size bs < 2 ^ 63 →
  append bs false s = noteAppended 1 (mkStream (m_out s ++ encode_data bs) (m_listStack s)).
Proof.
  intros Hok Hsz. pose proof (size_nonneg bs). unfold append, encode_data.
  assert (∀ out, appendRaw bs 0 (mkStream out (m_listStack s)) = Ok (mkStream (out ++ bs) (m_listStack s)))
    as Hraw by done.
  assert ((if size bs <? c_rlpDataImmLenCount
           then Ok (push_back (u8 (size bs + c_rlpDataImmLenStart)) s)
           else pushCount (size bs) c_rlpDataIndLenZero s)
          = Ok (mkStream (m_out s ++ header 0x80 (size bs)) (m_listStack s))) as Hh.
  { change c_rlpDataImmLenCount with 56. change c_rlpDataIndLenZero with (0x80 + 55).
    destruct (Z.ltb_spec (size bs) 56); [|by rewrite pushCount_header by lia].
    change c_rlpDataImmLenStart with 0x80. unfold push_back, header.
    rewrite u8_small by lia. repeat step_if. do 4 f_equal. lia. }
  destruct bs as [|b [|b' bs]]; [| |].
  - change (size [] =? 1) with false. cbn [andb]. rewrite Hh. cbn. by rewrite <-app_assoc.
  - change (size [b] =? 1) with true. rewrite at_0. change c_rlpDataImmLenStart with 0x80 in *.
    cbn [andb]. destruct (b <? 0x80); [done|]. rewrite Hh. cbn. by rewrite <-app_assoc.
  - pose proof (size_nonneg bs). replace (size (b :: b' :: bs) =? 1) with false
      by (rewrite !size_cons; lia). cbn [andb]. rewrite Hh. cbn. by rewrite <-app_assoc.
Qed.

Lemma item_induction (P : item → Prop) :
  (∀ bs, P (Data bs)) → (∀ l, Forall P l → P (List l)) → ∀ t, P t.
Proof.
  intros Hd Hl. fix IH 1. intros [bs|l]; [apply Hd|]. apply Hl.
  induction l as [|t l IHl]; constructor; [apply IH|exact IHl].
Qed.

Definition writes (t : item) : Prop := ∀ s,
  bytes_ok (encode t) → size (encode t) < 2 ^ 63 →
  write t s = noteAppended 1 (mkStream (m_out s ++ encode t) (m_listStack s)).

(** The items of a list, of which [q] is already written *)
Lemma write_items l out q stack :
  Forall writes l → l ≠ [] → bytes_ok (concat (map encode l)) →
  size (q ++ concat (map encode l)) < 2 ^ 63 →
  foldM (λ s t, write t s) (mkStream (out ++ q) ((Z.of_nat (length l), size out) :: stack)) l =
  noteAppended_loop stack 1
    (out ++ header 0xc0 (size (q ++ concat (map encode l))) ++ q ++ concat (map encode l)).
Proof.
  revert q. induction l as [|t l IH]; intros q Hl Hne Hok Hsz; [done|]. clear Hne.
  apply Forall_cons in Hl as [Ht Hl]. simpl in Hok, Hsz. apply bytes_ok_app in Hok as [Hokt Hok].
  pose proof (size_nonneg q). pose proof (size_nonneg (encode t)).
  pose proof (size_nonneg (concat (map encode l))). rewrite !size_app in Hsz.
  cbn [foldM]. rewrite Ht by (done || lia). cbn [m_out m_listStack].
  change (noteAppended 1 ?s) with (noteAppended_loop (m_listStack s) 1 (m_out s)).
  cbn [m_out m_listStack noteAppended_loop].
  cbn [length]. rewrite Nat2Z.inj_succ.
  destruct (Z.ltb_spec (Z.succ (Z.of_nat (length l))) 1); [lia|].
  replace (Z.succ (Z.of_nat (length l)) - 1) with (Z.of_nat (length l)) by lia.
  destruct l as [|t' l].
  - cbn [length Z.of_nat Z.eqb negb]. rewrite <-app_assoc.
    rewrite size_app. replace (size out + size (q ++ encode t) - size out) with (size (q ++ encode t)) by lia.
    rewrite list_header_spec by (rewrite size_app; lia). cbn [mbind result_bind].
    rewrite take_size, drop_size. simpl. rewrite app_nil_r.
    by destruct (noteAppended_loop _ _ _).
  - destruct (Z.eqb_spec (Z.of_nat (length (t' :: l))) 0); [done|].
    cbn [negb mbind result_bind]. rewrite <-app_assoc, IH; [|done|done|done|rewrite !size_app; lia].
    change (concat (map encode (t :: t' :: l))) with (encode t ++ concat (map encode (t' :: l))).
    by rewrite <-!app_assoc.
Qed.

Lemma write_spec t : writes t.
Proof.
  induction t as [bs|l IH] using item_induction; intros s Hok Hsz; simpl in Hok, Hsz.
  - simpl. destruct (encode_data_frame bs Hok) as (h&Heq&_). rewrite Heq in Hok, Hsz.
    apply bytes_ok_app in Hok as [_ Hok]. rewrite size_app in Hsz.
    pose proof (size_nonneg h). apply append_spec; [done|lia].
  - apply bytes_ok_app in Hok as [_ Hok]. rewrite size_app in Hsz.
    pose proof (size_nonneg (header 0xc0 (size (concat (map encode l))))).
    cbn [write]. destruct l as [|t l]; [|].
    { change (appendList (Z.of_nat (length [])) s)
        with (noteAppended 1 (mkStream ((m_out s ++ [0xc0]) ++ []) (m_listStack s))).
      rewrite <-app_assoc. by destruct (noteAppended _ _). }
    unfold appendList. destruct (Z.eqb_spec (Z.of_nat (length (t :: l))) 0); [done|].
    cbn [negb mbind result_bind]. pose proof (write_items (t :: l) (m_out s) [] (m_listStack s)) as Hw.
    rewrite app_nil_r in Hw. rewrite Hw; [done|done|done|done|rewrite app_nil_l; lia].
Qed.

(** Encodings are bytes, with at most 9 of them in front of the payload. *)
Lemma header_ok base n :
  0 ≤ n < 2 ^ 63 → 0x80 ≤ base ≤ 0xc0 → bytes_ok (header base n) ∧ size (header base n) ≤ 9.
Proof.
  intros Hn Hb. pose proof (bytesRequired_u64 n ltac:(lia)) as Hr. split.
  - unfold header. destruct (Z.ltb_spec n 56); [apply bytes_ok_single; unfold in_word; lia|].
    destruct (toCompactBigEndian_spec n 0 ltac:(lia)) as [Hok _].
    apply bytes_ok_cons. split; [unfold in_word; lia|done].
  - rewrite size_header by done. destruct (n <? 56); lia.
Qed.
Lemma encode_data_ok bs :
  bytes_ok bs → size bs < 2 ^ 63 →
  bytes_ok (encode (Data bs)) ∧ size (encode (Data bs)) ≤ 9 + size bs.
Proof.
  intros Hok Hs. pose proof (size_nonneg bs) as H0.
  destruct (header_ok 0x80 (size bs) ltac:(lia) ltac:(lia)) as [Hh Hhs].
  assert (bytes_ok (header 0x80 (size bs) ++ bs) ∧ size (header 0x80 (size bs) ++ bs) ≤ 9 + size bs).
  { split; [by apply bytes_ok_app|rewrite size_app; lia]. }
  cbn [encode]. unfold encode_data. destruct bs as [|b [|b' bs]]; [done| |done].
  destruct (b <? 128); [|done]. split; [done|lia].
Qed.
Lemma encode_list_ok l :
  Forall (λ t, bytes_ok (encode t)) l → size (concat (map encode l)) < 2 ^ 63 →
  bytes_ok (encode (List l)) ∧ size (encode (List l)) ≤ 9 + size (concat (map encode l)).
Proof.
  intros Hl Hs. cbn [encode]. pose proof (size_nonneg (concat (map encode l))).
  destruct (header_ok 0xc0 (size (concat (map encode l))) ltac:(lia) ltac:(lia)) as [Hh Hhs].
  split; [|rewrite size_app; lia]. apply bytes_ok_app. split; [done|].
  clear -Hl. induction Hl; [apply bytes_ok_nil|]. cbn. by apply bytes_ok_app.
Qed.

(** C38. The bytes a client gets for a tree are the reference encoding, and the
    reader gives the tree back. *)
Theorem stream_roundtrip t :
  bytes_ok (encode t) → size (encode t) < 2 ^ 63 →
  (s ← write t empty_stream; out s) = Ok (encode t) ∧ parse (encode t) = Some t.
Proof. intros Hok Hsz. rewrite write_spec by done. split; [done|by apply parse_spec]. Qed.

(** ** Integers *)

Lemma requireGood_ok d l : length_ d = Ok l → isNull d = false → requireGood d = Ok ().
Proof.
  unfold length_. intros Hl Hn. rewrite Hn in Hl. by destruct (requireGood d) as [[]|].
Qed.

Lemma isInt_data h p :
  frame false h p → size (h ++ p) < 2 ^ 63 →
  isInt (h ++ p) = Ok (match p with [] => true | b :: _ => negb (b =? 0) end).
Proof.
  intros Hf Hsz. destruct (frame_read false h p [] Hf Hsz) as (Hn&_&_&Hl&_). rewrite app_nil_r in *.
  unfold isInt. rewrite Hn, (requireGood_ok _ _ Hl Hn). cbn [mbind result_bind].
  rewrite size_app in Hsz. pose proof (size_nonneg h). pose proof (size_nonneg p).
  inversion Hf as [b Hb Hlt|p' Hp|]; subst.
  - simpl app. rewrite at_0. unfold_rlp. repeat step_if. done.
  - unfold header in *. destruct (Z.ltb_spec (size p) 56).
    + simpl app. rewrite at_0. unfold_rlp. rewrite size_cons.
      destruct p as [|b p]; [done|]. rewrite size_cons in *. pose proof (size_nonneg p).
      repeat step_if. by rewrite at_1.
    + destruct p as [|b p]; [done|]. set (n := size (b :: p)) in *.
      pose proof (bytesRequired_u64 n ltac:(lia)) as Hbr.
      assert (bytesRequired n ≠ 0) as Hbr0.
      { destruct (bytesRequired_spec n) as (m&->&Hm&_); [lia|]. intros Hm0.
        rewrite Hm0 in Hm. simpl in Hm. lia. }
      assert (size (toCompactBigEndian n 0) = bytesRequired n) as Hc
        by (unfold size; rewrite length_toCompactBigEndian; lia).
      simpl app. rewrite at_0. unfold_rlp. rewrite size_cons, size_app, Hc.
      fold n. repeat step_if. do 2 f_equal. unfold at_.
      replace (1 + (128 + 55 + bytesRequired n) - (128 + (192 - 128 - 8) - 1)) with
        (1 + size (toCompactBigEndian n 0)) by lia.
      unfold size. replace (Z.to_nat (1 + Z.of_nat (length (toCompactBigEndian n 0))))
        with (S (length (toCompactBigEndian n 0))) by lia. cbn [nth].
      by rewrite app_nth2, Nat.sub_diag by lia.
Qed.

Lemma isInt_list h p : frame true h p → size (h ++ p) < 2 ^ 63 → isInt (h ++ p) = Ok false.
Proof.
  intros Hf Hsz. destruct (frame_read true h p [] Hf Hsz) as (Hn&Hli&_&Hl&_). rewrite app_nil_r in *.
  unfold isInt. rewrite Hn, (requireGood_ok _ _ Hl Hn). cbn [mbind result_bind].
  unfold isList in Hli. rewrite Hn in Hli. cbn [negb andb] in Hli. unfold_rlp. by repeat step_if.
Qed.

(** C39. The strict reader of integers accepts exactly the encodings without
    leading zeros, in particular not the byte 0x00. *)
Theorem toInt_canonical d i :
  bytes_ok d → framed d → size d < 2 ^ 63 →
  toInt_u256 Strict d = Ok i ↔ in_word 256 i ∧ d = encode (Data (toCompactBigEndian i 0)).
Proof.
  intros Hok (k&h&p&->&Hf) Hsz.
  destruct (frame_read k h p [] Hf Hsz) as (Hn&Hli&Hd&Hl&_).
  pose proof (payload_frame k h p [] Hf Hsz) as Hp. rewrite app_nil_r in *.
  unfold toInt_u256, toInt. rewrite (requireGood_ok _ _ Hl Hn), Hli, Hn, Hp by done. flags.
  destruct k; cbn [negb andb orb mbind result_bind].
  - rewrite isInt_list by done. cbn. split; [done|]. intros [Hi Heq].
    destruct (encode_kind (Data (toCompactBigEndian i 0)) true h p) as [? _]; done.
  - rewrite isInt_data by done. cbn [mbind result_bind].
    apply bytes_ok_app in Hok as [Hokh Hokp]. pose proof (be_val_bound p Hokp) as Hbound.
    assert (∀ i, h ++ p = encode (Data (toCompactBigEndian i 0)) → p = toCompactBigEndian i 0) as Hkind.
    { intros j Heq. symmetry. refine (proj2 (encode_kind (Data _) false h p Hf _ Hsz _)); [|done].
      by apply bytes_ok_app. }
    assert (p = [] ∨ (∃ b q, p = b :: q ∧ b ≠ 0) → p = toCompactBigEndian (be_val p) 0) as Hcan.
    { intros [->|(b&q&->&Hb)]; [done|]. by rewrite compact_unique. }
    cbn [default from_option]. unfold id. rewrite fromBigEndian_wrap by (done || lia).
    assert (in_word 256 i ∧ h ++ p = encode (Data (toCompactBigEndian i 0)) →
      size p ≤ 32 ∧ u256 (be_val p) = i ∧ match p with [] => True | b :: _ => b ≠ 0 end) as Hback.
    { intros [Hi Heq%Hkind]. unfold in_word in Hi.
      destruct (toCompactBigEndian_spec i 0) as [_ Hv]; [lia|]. 
      split_and!.
      - rewrite Heq. unfold size. rewrite length_toCompactBigEndian.
        destruct (bytesRequired_spec i) as (m&->&_&Hge); [lia|].
        destruct (decide (m = 0%nat)); [lia|]. specialize (Hge ltac:(lia)).
        assert (256 ^ (Z.of_nat m - 1) < 256 ^ 32) as Hlt by lia.
        apply Z.pow_lt_mono_r_iff in Hlt; lia.
      - rewrite Heq, Hv. by apply wrap_small.
      - destruct p as [|b p]; [done|]. apply (toCompactBigEndian_lead i b p); [lia|done]. }
    split.
    + intros Hr. assert (p = toCompactBigEndian (be_val p) 0 ∧ size p ≤ 32 ∧ i = u256 (be_val p))
        as (Hc&H32&->).
      { destruct p as [|b p]; [injection Hr as <-; split_and!; [by apply Hcan; left|done|done]|].
        destruct (Z.eqb_spec b 0); cbn [negb andb orb] in Hr; [done|].
        destruct (Z.ltb_spec 32 (size (b :: p))); cbn [andb] in Hr; [done|]. injection Hr as <-.
        split_and!; [apply Hcan; right; by exists b, p|done|done]. }
      assert (in_word 256 (be_val p)) as Hw.
      { split; [lia|]. eapply Z.lt_le_trans; [apply Hbound|]. change (2 ^ 256) with (256 ^ 32).
        apply Z.pow_le_mono_r; unfold size in H32; lia. }
      rewrite (wrap_small 256) by done. split; [done|]. rewrite <-Hc. by apply frame_encode_data.
    + intros H. destruct (Hback H) as (H32&<-&Hlead). clear Hback.
      destruct p as [|b p]; [done|].
      destruct (Z.eqb_spec b 0); [done|]. cbn [negb andb orb].
      by destruct (Z.ltb_spec 32 (size (b :: p))); [lia|].
Qed.

(** The writer of integers writes them without leading zeros. *)
Lemma append_int_spec i s :
  0 ≤ i → bytesRequired i < 2 ^ 63 →
  append_int i s = append (toCompactBigEndian i 0) false s.
Proof.
  intros Hi Hbr. destruct (toCompactBigEndian_spec i 0 Hi) as [Hok Hval].
  assert (size (toCompactBigEndian i 0) = bytesRequired i) as Hc.
  { unfold size. rewrite length_toCompactBigEndian. destruct (bytesRequired_spec i Hi) as (?&?&_). lia. }
  pose proof (size_nonneg (toCompactBigEndian i 0)).
  rewrite append_spec by (done || lia). unfold append_int.
  destruct (Z.eqb_spec i 0) as [->|Hi0]; [done|].
  change c_rlpDataImmLenStart with 0x80.
  destruct (toCompactBigEndian i 0) as [|b bs] eqn:E; [unfold be_val in Hval; simpl in Hval; lia|].
  pose proof (toCompactBigEndian_lead i b bs Hi E) as Hb.
  pose proof (be_val_lead b bs Hok Hb) as Hlead. rewrite Hval in Hlead.
  apply bytes_ok_cons in Hok as [Hbw Hokbs]. unfold in_word in Hbw.
  destruct (Z.ltb_spec i 0x80).
  - assert (bs = []) as ->.
    { destruct bs as [|b' bs]; [done|]. cbn [length] in Hlead.
      rewrite Nat2Z.inj_succ, Z.pow_succ_r in Hlead by lia. pose proof (pow256_pos (length bs)). lia. }
    unfold be_val in Hval. simpl in Hval. assert (b = i) as -> by lia.
    cbn [encode_data]. destruct (Z.ltb_spec i 0x80); [|lia].
    unfold push_back. rewrite u8_small by lia. done.
  - assert (encode_data (b :: bs) = header 0x80 (bytesRequired i) ++ b :: bs) as ->.
    { destruct bs as [|b' bs]; cbn [encode_data]; [|by rewrite <-Hc].
      unfold be_val in Hval. simpl in Hval. destruct (Z.ltb_spec b 0x80); [lia|]. by rewrite <-Hc. }
    rewrite <-E. change c_rlpDataImmLenCount with 56. change c_rlpDataIndLenZero with 183.
    unfold header. destruct (Z.ltb_spec (bytesRequired i) 56).
    + unfold pushInt, push_back. cbn [m_out m_listStack mbind result_bind].
      rewrite toCompact_0, u8_small by (done || lia). rewrite <-app_assoc. do 4 f_equal. f_equal. lia.
    + pose proof (bytesRequired_u64 (bytesRequired i) ltac:(lia)).
      destruct (Z.ltb_spec 0xff (183 + bytesRequired (bytesRequired i))); [lia|].
      unfold pushInt, push_back. cbn [m_out m_listStack mbind result_bind].
      rewrite !toCompact_0, u8_small by (done || lia). rewrite <-!app_assoc. do 4 f_equal.
Qed.

(** ** The cached subscript operator *)

(** What the cache holds: nothing yet, or an item and the position behind it,
    or the end of the list. *)
Inductive cache_ok (ls : list bytes) : Cache → Prop :=
| cache_new : cache_ok ls new_cache
| cache_item l1 x l2 :
    ls = l1 ++ x :: l2 →
    cache_ok ls (mkCache (Z.of_nat (length l1)) (size (concat l1 ++ x)) x)
| cache_end : cache_ok ls (mkCache (Z.of_nat (length ls)) (size (concat ls)) []).

Section Index.
Context (h p : bytes) (ls : list bytes).
Hypothesis Hf : frame true h p.
Hypothesis Hsz : size (h ++ p) < 2 ^ 63.
Hypothesis Hls : tiles ls p.

Lemma index_payload : payload (h ++ p) = Ok (Some p).
Proof. pose proof (payload_frame true h p [] Hf Hsz) as Hp. rewrite app_nil_r in Hp. by apply Hp. Qed.

Lemma tiled_framed l1 x l2 : ls = l1 ++ x :: l2 → framed x ∧ 0 < size x < 2 ^ 63.
Proof.
  intros ->. destruct Hls as [[_ [Hx _]%Forall_cons]%Forall_app Hc].
  rewrite concat_app in Hc. simpl in Hc. rewrite <-Hc, !size_app in Hsz.
  pose proof (size_nonneg h). pose proof (size_nonneg (concat l1)). pose proof (size_nonneg (concat l2)).
  split; [done|]. split; [|lia]. apply (framed_size x []); [done|lia].
Qed.

Lemma sizeAsEncoded_framed x rest :
  framed x → size x < 2 ^ 63 → sizeAsEncoded (x ++ rest) = Ok (size x).
Proof.
  intros Hx Hsx. rewrite sizeAsEncoded_eq. destruct (framed_size x rest Hx Hsx) as [-> _].
  cbn [mbind result_bind]. rewrite size_app. pose proof (size_nonneg rest).
  by destruct (Z.ltb_spec (size x + size rest) (size x)); [lia|].
Qed.
Lemma cropped_front x rest : size (x ++ rest) < 2 ^ 63 → cropped (x ++ rest) 0 (size x) = Some x.
Proof.
  intros Hs. unfold cropped. rewrite size_app in *. pose proof (size_nonneg x).
  pose proof (size_nonneg rest). rewrite (wrap_small 64) by (unfold in_word; lia).
  repeat step_if. change (Z.to_nat 0) with 0%nat. by rewrite drop_0, take_size.
Qed.

(** Reset to the first item *)
Lemma index_first_ok c : ∃ c', index_first (h ++ p) c = Ok c' ∧ cache_ok ls c' ∧ m_lastIndex c' = 0.
Proof.
  unfold index_first. rewrite index_payload. cbn [mbind result_bind option_bind default from_option].
  unfold id. pose proof Hsz as Hs. rewrite size_app in Hs. pose proof (size_nonneg h).
  pose proof Hls as [_ Hc].
  assert (ls = [] ∨ ∃ x l2, ls = x :: l2) as [E|(x&l2&E)] by (destruct ls; eauto);
    rewrite E in Hc; simpl in Hc.
  - rewrite <-Hc. eexists. split; [done|]. split; [|done]. rewrite E. apply (cache_end []).
  - destruct (tiled_framed [] x l2 E) as [Hx Hsx]. rewrite <-Hc in Hs |- *.
    rewrite sizeAsEncoded_framed by (done || lia). cbn [mbind result_bind].
    rewrite cropped_front by lia. eexists. split; [done|]. split; [|done].
    apply (cache_item _ [] x l2 E).
Qed.

(** A step from an item to the next *)
Lemma index_step_ok l1 x l2 :
  ls = l1 ++ x :: l2 →
  let c := mkCache (Z.of_nat (length l1)) (size (concat l1 ++ x)) x in
  index_step (h ++ p) c =
  (match l2 with
   | [] => mkCache (Z.of_nat (length ls)) (size (concat ls)) []
   | y :: _ => mkCache (Z.of_nat (length (l1 ++ [x]))) (size (concat (l1 ++ [x]) ++ y)) y
   end, Ok ()).
Proof.
  intros E c. unfold index_step. rewrite index_payload. cbn [mbind option_bind m_lastEnd m_lastIndex c].
  assert (p = (concat l1 ++ x) ++ concat l2) as Hpe.
  { pose proof Hls as [_ <-]. rewrite E, concat_app. simpl. by rewrite app_assoc. }
  pose proof Hsz as Hs. rewrite Hpe in Hs |- *. rewrite !size_app in Hs. pose proof (size_nonneg h). 
  pose proof (size_nonneg (concat l1)). pose proof (size_nonneg x). pose proof (size_nonneg (concat l2)).
  unfold cropped_from. rewrite (size_app (concat l1 ++ x)).
  destruct (Z.leb_spec (size (concat l1 ++ x)) (size (concat l1 ++ x) + size (concat l2))); [|lia].
  rewrite drop_size. cbn [default from_option]. unfold id. destruct l2 as [|y l2].
  - change (sizeAsEncoded (concat [])) with (Ok 0 : result RLPError Z). cbn beta iota.
    change (cropped (concat []) 0 0) with (Some [] : option bytes). cbn [from_option].
    rewrite E, !length_app, concat_app. cbn [concat length].
    rewrite !app_nil_r, size_nil, Z.add_0_r. do 2 f_equal. lia.
  - simpl concat. destruct (tiled_framed (l1 ++ [x]) y l2) as [Hy Hsy]; [by rewrite E, <-app_assoc|].
    rewrite sizeAsEncoded_framed by (done || lia).
    rewrite cropped_front by (change (concat (y :: l2)) with (y ++ concat l2) in *; lia). cbn [default from_option].
    rewrite concat_app, length_app. cbn [concat length]. rewrite app_nil_r, (size_app _ y).
    do 2 f_equal. lia.
Qed.

Lemma index_loop_ok fuel i c :
  0 ≤ i < 2 ^ 64 - 1 → cache_ok ls c → m_lastIndex c ≤ i →
  Z.of_nat (length ls) - m_lastIndex c < Z.of_nat fuel →
  ∃ c', index_loop fuel (h ++ p) i c = (c', Ok ()) ∧ cache_ok ls c' ∧
    m_lastItem c' = default [] (ls !! Z.to_nat i).
Proof.
  revert c. induction fuel as [|fuel IH]; intros c Hi Hc Hle Hfuel.
  - exfalso. destruct Hc as [|l1 x l2 E|]; cbn [m_lastIndex new_cache] in *; [lia| |lia].
    rewrite E, length_app in Hfuel. cbn [length] in Hfuel. lia.
  - cbn [index_loop]. destruct Hc as [|l1 x l2 E|];
      cbn [m_lastIndex m_lastItem new_cache] in *; [lia| |].
    + destruct (tiled_framed l1 x l2 E) as [_ Hsx].
      destruct (Z.eqb_spec (size x) 0); [lia|]. cbn [negb]. rewrite andb_true_r.
      destruct (Z.ltb_spec (Z.of_nat (length l1)) i) as [Hlt|Hge].
      * rewrite (index_step_ok l1 x l2 E).
        assert (length ls = S (length l1 + length l2)) as Hlen by (rewrite E, length_app; cbn; lia).
        destruct l2 as [|y l2].
        -- apply IH; [done|constructor|..]; cbn [m_lastIndex length] in *; lia.
        -- apply IH; [done| |..]; cbn [m_lastIndex length] in *; [|rewrite length_app; cbn; lia..].
           apply (cache_item _ (l1 ++ [x]) y l2). by rewrite E, <-app_assoc.
      * eexists. split; [done|]. split; [by eapply cache_item|]. cbn [m_lastItem].
        rewrite E. replace (Z.to_nat i) with (length l1) by lia.
        by rewrite lookup_app_r, Nat.sub_diag by lia.
    + change (size [] =? 0) with true. cbn [negb]. rewrite andb_false_r.
      eexists. split; [done|]. split; [constructor|]. cbn [m_lastItem].
      by rewrite lookup_ge_None_2 by lia.
Qed.

Lemma tiles_length : Z.of_nat (length ls) ≤ size p.
Proof.
  assert (∀ l, (∀ l1 x l2, l = l1 ++ x :: l2 → 0 < size x) → Z.of_nat (length l) ≤ size (concat l)) as Hlen.
  { induction l as [|x l IH]; intros Hpos; [done|]. simpl concat. rewrite size_app. cbn [length].
    specialize (IH (λ l1 y l2 E, Hpos (x :: l1) y l2 (f_equal (cons x) E))).
    specialize (Hpos [] x l eq_refl). lia. }
  pose proof Hls as [_ Hc]. rewrite <-Hc. apply Hlen. intros l1 x l2 E. by destruct (tiled_framed l1 x l2 E) as [_ [? _]].
Qed.

Lemma items_loop_tiles l fuel n :
  (∀ l1 x l2, l = l1 ++ x :: l2 → framed x ∧ 0 < size x < 2 ^ 63) → (length l ≤ fuel)%nat →
  items_loop fuel (concat l) n = Some (Ok (n + Z.of_nat (length l))).
Proof.
  revert fuel n. induction l as [|x l IH]; intros fuel n Hx Hfuel.
  { rewrite Z.add_0_r. by destruct fuel. }
  destruct fuel as [|fuel]; [cbn in Hfuel; lia|].
  destruct (Hx [] x l eq_refl) as [Hxf Hxs]. cbn [items_loop concat]. rewrite size_app.
  pose proof (size_nonneg (concat l)).
  destruct (Z.eqb_spec (size x + size (concat l)) 0); [lia|].
  rewrite sizeAsEncoded_framed by (done || lia). unfold cropped_from. rewrite size_app.
  destruct (Z.leb_spec (size x) (size x + size (concat l))); [|lia].
  rewrite drop_size. cbn [default from_option]. unfold id.
  rewrite IH; [cbn [length]; do 2 f_equal; lia| |cbn in Hfuel; lia].
  intros l1 y l2 ->. by apply (Hx (x :: l1) y l2).
Qed.
Lemma itemCount_ok : itemCount (h ++ p) = Some (Ok (Z.of_nat (length ls))).
Proof.
  destruct (frame_read true h p [] Hf Hsz) as (_&Hl&_). rewrite app_nil_r in Hl.
  unfold itemCount, items. rewrite Hl, index_payload. cbn [default from_option]. unfold id.
  pose proof Hls as [_ Hc]. rewrite <-Hc at 2.
  rewrite (items_loop_tiles ls _ 0 tiled_framed); [done|].
  pose proof tiles_length. rewrite length_app. unfold size in *. lia.
Qed.

Lemma index_ok i c :
  0 ≤ i < 2 ^ 64 - 1 → cache_ok ls c →
  ∃ c', index (h ++ p) i c = (c', Ok (default [] (ls !! Z.to_nat i))) ∧ cache_ok ls c'.
Proof.
  intros Hi Hc. unfold index.
  assert (∃ c1, (if i <? m_lastIndex c then index_first (h ++ p) c else Ok c) = Ok c1 ∧
            cache_ok ls c1 ∧ 0 ≤ m_lastIndex c1 ≤ i) as (c1&->&Hc1&Hle).
  { destruct (Z.ltb_spec i (m_lastIndex c)).
    - destruct (index_first_ok c) as (c1&?&?&?). exists c1. split_and!; [done|done|lia|lia].
    - exists c. split_and!; [done|done| |lia]. destruct Hc; cbn; lia. }
  destruct (index_loop_ok (S (length (h ++ p))) i c1) as (c2&->&Hc2&Hitem); [done|done|lia| |].
  { pose proof tiles_length. rewrite length_app. unfold size in *. lia. }
  cbn [mbind result_bind]. exists c2. split; [|done]. rewrite Hitem. f_equal.
  destruct (ls !! Z.to_nat i) as [x|] eqn:E; [|done]. cbn [default from_option]. unfold id.
  apply list_elem_of_split_length in E as (l1&l2&E&_). destruct (tiled_framed l1 x l2 E) as [Hx Hsx].
  unfold construct. flags. cbn [mbind result_bind].
  destruct (framed_size x [] Hx ltac:(lia)) as [Ha _]. rewrite app_nil_r in Ha. rewrite Ha.
  cbn [mbind result_bind]. by rewrite Z.ltb_irrefl.
Qed.
End Index.

(** A sequence of accesses with the subscript operator on one reader *)
Definition accesses (d : bytes) (ixs : list Z) : list (result RLPError bytes) :=
  snd (foldl (λ '(c, rs) i, let '(c, r) := index d i c in (c, rs ++ [r])) (new_cache, []) ixs).

(** The items of a list are counted by [itemCount]; a sequence of accesses
    with the subscript operator, in any order, gives what indexing the list of
    the items gives - with [RLP()] behind the end -, although each access
    starts from the item the last one left in the cache. *)
Theorem index_cached d ls ixs :
  bytes_ok d → size d < 2 ^ 63 → construct VeryStrict d = Ok d →
  toList (S (length d)) Strict d = Some (Ok ls) →
  Forall (λ i, 0 ≤ i < 2 ^ 64 - 1) ixs →
  itemCount d = Some (Ok (Z.of_nat (length ls))) ∧
  accesses d ixs = map (λ i, Ok (default [] (ls !! Z.to_nat i))) ixs.
Proof.
  intros Hok Hsz Hcon Hlist His.
  assert (∃ h p, d = h ++ p ∧ frame true h p ∧ tiles ls p) as (h&p&->&Hf&Hls).
  { unfold toList in Hlist. destruct (isList d) eqn:Hl; [|done].
    assert (isNull d = false) as Hn by (unfold isList in Hl; by destruct (isNull d)).
    rewrite construct_strict in Hcon. destruct (actualSize d) as [a|] eqn:Ha; [|done].
    cbn [mbind result_bind] in Hcon.
    destruct (Z.ltb_spec a (size d)); [done|]. destruct (Z.ltb_spec (size d) a); [done|].
    destruct (frame_inv d a) as (k&h&p&rest&->&Hf&Hsize); [done|done|done|lia|].
    assert (rest = []) as ->.
    { rewrite !size_app in *. destruct rest as [|b rest]; [done|]. rewrite size_cons in *.
      pose proof (size_nonneg rest). lia. }
    rewrite app_nil_r in *. pose proof (frame_read k h p [] Hf Hsz) as (_&Hk&_).
    rewrite app_nil_r, Hl in Hk. subst k. exists h, p. split_and!; [done|done|].
    destruct (toList_spec (S (length (h ++ p))) Strict h p) as [(ls'&Hls'&Hr)|(_&e&Hr)];
      [done|by apply bytes_ok_app in Hok as [_ ?]|done|rewrite length_app; unfold size; lia| |];
      unfold toList in Hr; rewrite Hl in Hr; cbn [negb] in Hr, Hlist; rewrite Hr in Hlist;
      first [discriminate Hlist | by injection Hlist as ->]. }
  split; [by apply itemCount_ok|]. unfold accesses.
  assert (∀ c rs, cache_ok ls c →
    (foldl (λ '(c, rs) i, let '(c, r) := index (h ++ p) i c in (c, rs ++ [r])) (c, rs) ixs).2 =
    rs ++ map (λ i, Ok (default [] (ls !! Z.to_nat i))) ixs) as Hfold.
  { induction His as [|i ixs Hi His IH]; intros c rs Hc; [by rewrite app_nil_r|]. cbn [foldl].
    destruct (index_ok h p ls Hf Hsz Hls i c Hi Hc) as (c'&->&Hc'). rewrite IH by done.
    by rewrite <-app_assoc. }
  apply Hfold. constructor.
Qed.

(** C37. The reader that is strict about sizes accepts exactly the reference
    encodings: each tree has one encoding, every other text - truncated, with
    bytes left over, with a length in too many bytes, with a single byte
    written with a header - is refused, also inside lists. *)
Theorem parse_canonical d t :
  bytes_ok d → size d < 2 ^ 63 → parse d = Some t ↔ encode t = d.
Proof. apply parse_spec. Qed.

(** Reading without the strict flags: the iteration over a list that is
    followed by other bytes never reaches [end()], the bytes of an item that is
    cut off within its header's length are read through a null reference, and
    the subscript operator reads inside the payload of an item that is not a
    list. *)
Theorem lax_reader :
  (∀ fuel, toList fuel LaissezFaire [0xc1; 1; 2] = None) ∧
  toBytes LaissezFaire [0x83; 1; 2] = Err Undefined ∧
  accesses [0x83; 1; 2; 3] [1] = [Ok [2]].
Proof.
  split; [|split; reflexivity]. intros fuel.
  assert (∀ fuel ret, toList_loop fuel [0xc1; 1; 2] (mkIterator (Some (2, 0)) 0) ret = None) as Hloop.
  { clear fuel. induction fuel as [|fuel IH]; intros ret; [done|]. exact (IH (ret ++ [[]])). }
  destruct fuel as [|fuel]; [done|]. exact (Hloop fuel [[1]]).
Qed.

(** ** Witnesses *)

Definition example_tree : item := List [Data [99; 97; 116]; List []; Data (replicate 60 7)].

Lemma stream_roundtrip_witness :
  (s ← write example_tree empty_stream; out s) = Ok (encode example_tree) ∧
  parse (encode example_tree) = Some example_tree.
Proof. apply stream_roundtrip; [by apply bytes_okb_spec|vm_compute; reflexivity]. Defined.

Lemma parse_canonical_witness : parse [0x81; 5] = None.
Proof.
  destruct (parse [0x81; 5]) as [t|] eqn:E; [|reflexivity].
  apply parse_canonical in E; [|by apply bytes_okb_spec|vm_compute; reflexivity].
  assert (parse (encode t) = None) as Hn by (rewrite E; reflexivity).
  assert (parse (encode t) = Some t) as Hs.
  { apply parse_spec; [rewrite E; by apply bytes_okb_spec|rewrite E; vm_compute; reflexivity|done]. }
  rewrite Hn in Hs. discriminate Hs.
Defined.

Lemma toInt_canonical_witness : toInt_u256 Strict [0x82; 4; 0] = Ok 1024.
Proof.
  apply toInt_canonical;
    [by apply bytes_okb_spec| |vm_compute; reflexivity|split; [split; vm_compute; congruence|reflexivity]].
  exists false, [0x82], [4; 0]. split; [reflexivity|]. apply (frame_data [4; 0]). intros b [=].
Defined.

Lemma index_cached_witness :
  accesses [0xc3; 1; 2; 0x80] [2; 0; 1; 7] = [Ok [0x80]; Ok [1]; Ok [2]; Ok []].
Proof.
  apply (index_cached [0xc3; 1; 2; 0x80] [[1]; [2]; [0x80]] [2; 0; 1; 7]);
    [by apply bytes_okb_spec|vm_compute; reflexivity|reflexivity|reflexivity|].
  repeat constructor; lia.
Defined.

End RLPCodec.
