(* ===== verification/RLPFields.v ===== *)
(** * Lists of fields in RLP

    Transactions and block headers are lists of numbers, hashes and byte
    strings, written with the stream operators and read back with the cached
    subscript operator: the bytes are the reference encoding of the list of
    the fields, and every field reads back. *)
From S2P Require Import Prelude CommonData RLP RLPCodec.

Module RLPFields.
Import CommonData RLP RLPCodec.

(** A number, without leading zeros; a hash of [n] bytes *)
Definition num (i : Z) : item := Data (toCompactBigEndian i 0).
Definition hash_bytes (n : nat) (h : Z) : bytes := toBigEndian h (replicate n 0).

Lemma hash_bytes_spec n h :
  in_word (8 * Z.of_nat n) h →
  bytes_ok (hash_bytes n h) ∧ length (hash_bytes n h) = n ∧ be_val (hash_bytes n h) = h.
Proof.
  intros [H0 H1]. unfold hash_bytes. destruct (toBigEndian_spec h (replicate n 0)) as [Hok Hv].
  rewrite length_toBigEndian, length_replicate in *. split_and!; [done|done|]. rewrite Hv.
  apply Z.mod_small. split; [done|]. change 256 with (2 ^ 8). rewrite <-Z.pow_mul_r by lia. done.
Qed.

(** ** Writing *)

Lemma write_num i s : 0 ≤ i → bytesRequired i < 2 ^ 63 → append_int i s = write (num i) s.
Proof. intros. by apply append_int_spec. Qed.
Lemma write_hash n h s : append_hash (hash_bytes n h) false false s = write (Data (hash_bytes n h)) s.
Proof. done. Qed.

(** The bytes of a list of fields *)
Lemma write_fields ts :
  bytes_ok (encode (List ts)) → size (encode (List ts)) < 2 ^ 63 →
  (s ← appendList (Z.of_nat (length ts)) empty_stream; s ← foldM (λ s t, write t s) s ts; out s) =
  Ok (encode (List ts)).
Proof.
  intros Hok Hsz. pose proof (write_spec (List ts) empty_stream Hok Hsz) as Hw.
  cbn [write] in Hw. destruct (appendList _ _) as [s|]; [|done]. cbn [mbind result_bind] in *.
  by rewrite Hw.
Qed.

(** ** Reading *)

(** What a field may be, in a list of fewer than [2^32] of them *)
Definition field_good (t : item) : Prop := bytes_ok (encode t) ∧ size (encode t) < 2 ^ 62.

Lemma num_good i w : in_word w i → 0 ≤ w < 2 ^ 32 → field_good (num i) ∧ bytesRequired i ≤ w / 8 + 1.
Proof.
  intros [H0 H1] Hw. destruct (toCompactBigEndian_spec i 0 H0) as [Hok _].
  assert (bytesRequired i ≤ w / 8 + 1) as Hbr.
  { destruct (bytesRequired_spec i H0) as (n&->&_&Hge). destruct (decide (n = 0%nat)) as [->|Hn].
    - pose proof (Z.div_pos w 8). simpl. lia.
    - specialize (Hge ltac:(lia)). assert (2 ^ (8 * (Z.of_nat n - 1)) < 2 ^ w) as Hlt.
      { eapply Z.le_lt_trans; [|done]. rewrite Z.pow_mul_r by lia. exact Hge. }
      apply Z.pow_lt_mono_r_iff in Hlt; [|lia..]. 
      assert (Z.of_nat n - 1 ≤ w / 8); [|lia]. apply Z.div_le_lower_bound; lia. }
  split; [|done]. assert (size (toCompactBigEndian i 0) = bytesRequired i) as Hc.
  { unfold size. rewrite length_toCompactBigEndian. destruct (bytesRequired_spec i H0) as (n&->&_). lia. }
  assert (w / 8 ≤ 2 ^ 32) as Hd by (apply Z.div_le_upper_bound; lia).
  change (2 ^ 32) with 4294967296 in *.
  destruct (encode_data_ok (toCompactBigEndian i 0) Hok) as [He Hs]; [lia|].
  split; [done|]. unfold num. lia.
Qed.
Lemma num_size i w : in_word w i → 0 ≤ w < 2 ^ 32 → size (encode (num i)) ≤ w / 8 + 10.
Proof.
  intros Hi Hw. destruct (num_good i w Hi Hw) as [_ Hbr]. destruct Hi as [H0 _].
  destruct (toCompactBigEndian_spec i 0 H0) as [Hok _].
  assert (size (toCompactBigEndian i 0) = bytesRequired i) as Hc.
  { unfold size. rewrite length_toCompactBigEndian. destruct (bytesRequired_spec i H0) as (n&->&_). lia. }
  assert (w / 8 ≤ 2 ^ 32) as Hd by (apply Z.div_le_upper_bound; lia).
  change (2 ^ 32) with 4294967296 in *.
  destruct (encode_data_ok (toCompactBigEndian i 0) Hok) as [He Hs]; [lia|]. unfold num. lia.
Qed.
Lemma hash_size n h : in_word (8 * Z.of_nat n) h → (n < 1000)%nat →
  size (encode (Data (hash_bytes n h))) ≤ Z.of_nat n + 9.
Proof.
  intros Hh Hn. destruct (hash_bytes_spec n h Hh) as (Hok&Hl&_).
  destruct (encode_data_ok _ Hok) as [_ Hs]; unfold size in *; lia.
Qed.
Lemma write_word w i s : in_word w i → 0 ≤ w < 2 ^ 32 → append_int i s = write (num i) s.
Proof.
  intros Hi Hw. destruct (num_good i w Hi Hw) as [_ Hbr]. apply write_num; [apply Hi|].
  assert (w / 8 ≤ 2 ^ 32) by (apply Z.div_le_upper_bound; lia).
  change (2 ^ 32) with 4294967296 in *. change (2 ^ 63) with 9223372036854775808. lia.
Qed.
Lemma bytes_good bs : bytes_ok bs → size bs < 2 ^ 61 → field_good (Data bs).
Proof.
  intros Hok Hs. destruct (encode_data_ok bs Hok) as [He Hse]; [lia|]. split; [done|]. lia.
Qed.
Lemma hash_good n h : in_word (8 * Z.of_nat n) h → (n < 1000)%nat → field_good (Data (hash_bytes n h)).
Proof.
  intros Hh Hn. destruct (hash_bytes_spec n h Hh) as (Hok&Hl&_). apply bytes_good; [done|].
  unfold size. lia.
Qed.

(** An item that is data *)
Lemma data_frame bs :
  bytes_ok (encode (Data bs)) → ∃ h, encode (Data bs) = h ++ bs ∧ frame false h bs.
Proof. apply encode_data_frame. Qed.

(** Reading a number into a type that holds it: every prefix fits. *)
Lemma fromBigEndian_exact conv bs :
  bytes_ok bs → (∀ v, 0 ≤ v ≤ be_val bs → conv v = v) → fromBigEndian conv bs = be_val bs.
Proof.
  unfold fromBigEndian. induction bs as [|b bs IH] using rev_ind; intros Hok Hc; [done|].
  apply bytes_ok_app in Hok as [Hok Hb]. apply bytes_ok_cons in Hb as [Hb _].
  rewrite foldl_app. cbn [foldl]. rewrite be_val_snoc in *.
  pose proof (be_val_bound bs Hok) as [? _]. destruct Hb as [? ?].
  rewrite IH; [|done|intros v Hv; apply Hc; lia].
  rewrite (wrap_small 8) by (split; done). rewrite lor_shiftl_add; [|done|split; done]. apply Hc. lia.
Qed.

Lemma toInt_num conv m i :
  field_good (num i) → 0 ≤ i → bytesRequired i ≤ m → (∀ v, 0 ≤ v ≤ i → conv v = v) →
  toInt conv (Some m) Strict (encode (num i)) = Ok i.
Proof.
  intros [Hok Hsz] Hi Hm Hc. destruct (toCompactBigEndian_spec i 0 Hi) as [Hokc Hval].
  destruct (data_frame _ Hok) as (h&He&Hf). unfold num in *. rewrite He in *.
  destruct (frame_read false h _ [] Hf ltac:(lia)) as (Hn&Hli&Hd&Hl&_).
  pose proof (payload_frame false h _ [] Hf) as Hp. rewrite app_nil_r in *.
  unfold toInt. rewrite (requireGood_ok _ _ Hl Hn), isInt_data, Hli, Hn, Hp by (done || lia). flags.
  cbn [mbind result_bind default from_option]. unfold id.
  assert (size (toCompactBigEndian i 0) = bytesRequired i) as Hs.
  { unfold size. rewrite length_toCompactBigEndian. destruct (bytesRequired_spec i Hi) as (n&->&_). lia. }
  rewrite Hs. destruct (Z.ltb_spec m (bytesRequired i)); [lia|].
  assert (match toCompactBigEndian i 0 with [] => true | b :: _ => negb (b =? 0) end = true) as ->.
  { destruct (toCompactBigEndian i 0) as [|b q] eqn:E; [done|].
    pose proof (toCompactBigEndian_lead i b q Hi E). by apply negb_true_iff, Z.eqb_neq. }
  cbn. f_equal. rewrite fromBigEndian_exact, Hval; [done|done|by rewrite Hval].
Qed.
Lemma toInt_u256_num i : in_word 256 i → toInt_u256 Strict (encode (num i)) = Ok i.
Proof.
  intros Hi. destruct (num_good i 256 Hi) as [Hg _]; [done|]. destruct Hi as [? ?].
  apply toInt_num; [done|done| |intros v Hv; apply wrap_small; split; lia].
  destruct (bytesRequired_spec i) as (n&->&_&Hge); [done|]. destruct (decide (n = 0%nat)); [lia|].
  specialize (Hge ltac:(lia)). assert (256 ^ (Z.of_nat n - 1) < 256 ^ 32) as Hlt.
  { eapply Z.le_lt_trans; [exact Hge|done]. }
  apply Z.pow_lt_mono_r_iff in Hlt; lia.
Qed.

Lemma to_signed_small w z : 1 < w → in_word (w - 1) z → to_signed w z = z.
Proof.
  intros Hw [H0 H1]. unfold to_signed. rewrite wrap_small.
  - destruct (Z.ltb_spec z (2 ^ (w - 1))); lia.
  - split; [done|]. eapply Z.lt_trans; [exact H1|]. apply Z.pow_lt_mono_r; lia.
Qed.
Lemma toPositiveInt64_num i : in_word 63 i → toPositiveInt64 Strict (encode (num i)) = Ok i.
Proof.
  intros Hi. destruct (num_good i 63 Hi) as [Hg Hb]; [done|]. change (63 / 8 + 1) with 8 in Hb.
  unfold toPositiveInt64. rewrite toInt_num; [|done|apply Hi|exact Hb|].
  - cbn [mbind result_bind]. destruct Hi as [H0 _]. destruct (Z.ltb_spec i 0); [lia|].
    by rewrite andb_false_r.
  - intros v [Hv0 Hv]. apply to_signed_small; [done|]. split; [done|].
    eapply Z.le_lt_trans; [exact Hv|apply Hi].
Qed.

Lemma isInt_num i : field_good (num i) → 0 ≤ i → isInt (encode (num i)) = Ok true.
Proof.
  intros [Hok Hsz] Hi. destruct (data_frame _ Hok) as (h&He&Hf). unfold num in *. rewrite He in *.
  rewrite isInt_data by (done || lia). f_equal.
  destruct (toCompactBigEndian i 0) as [|b q] eqn:E; [done|].
  pose proof (toCompactBigEndian_lead i b q Hi E). by apply negb_true_iff, Z.eqb_neq.
Qed.
(** The size of the data of an item *)
Lemma length_data bs : field_good (Data bs) → length_ (encode (Data bs)) = Ok (size bs).
Proof.
  intros [Hok Hsz]. destruct (data_frame _ Hok) as (h&He&Hf). rewrite He in *.
  destruct (frame_read false h _ [] Hf ltac:(lia)) as (_&_&_&Hl&_). by rewrite app_nil_r in Hl.
Qed.

(** Reading a hash, or data *)
Lemma toHash_data n flags bs :
  field_good (Data bs) → size bs = n → toHash n flags (encode (Data bs)) = Ok bs.
Proof.
  intros [Hok Hsz] Hs. destruct (data_frame _ Hok) as (h&He&Hf). rewrite He in *.
  destruct (frame_read false h _ [] Hf ltac:(lia)) as (Hn&Hli&Hd&Hl&_).
  pose proof (payload_frame false h _ [] Hf) as Hp. rewrite app_nil_r in *.
  unfold toHash. rewrite (requireGood_ok _ _ Hl Hn), Hp, Hd by (done || lia).
  cbn [mbind result_bind default from_option negb orb]. unfold id.
  destruct (Z.ltb_spec n (size bs)); [lia|]. destruct (Z.ltb_spec (size bs) n); [lia|]. cbn.
  rewrite Hs, Z.min_id, Z.sub_diag. cbn. f_equal. rewrite <-Hs. unfold size. by rewrite Nat2Z.id, firstn_all.
Qed.
Lemma toBytes_data flags bs : field_good (Data bs) → toBytes flags (encode (Data bs)) = Ok bs.
Proof.
  intros [Hok Hsz]. destruct (data_frame _ Hok) as (h&He&Hf). rewrite He in *. apply toBytes_frame; [done|lia].
Qed.
Lemma isData_data bs : field_good (Data bs) → isData (encode (Data bs)) = true.
Proof.
  intros [Hok Hsz]. destruct (data_frame _ Hok) as (h&He&Hf). rewrite He in *.
  destruct (frame_read false h _ [] Hf ltac:(lia)) as (_&_&Hd&_).
  by rewrite app_nil_r in Hd.
Qed.
(** Empty data, and only that and the empty list, is empty. *)
Lemma isEmpty_hash bs : 1 < size bs < 56 → isEmpty (encode (Data bs)) = false.
Proof.
  intros Hs. destruct bs as [|b [|b' bs]]; [destruct Hs; done|destruct Hs; done|]. cbn [encode encode_data].
  unfold header. destruct (Z.ltb_spec (size (b :: b' :: bs)) 56); [|lia].
  unfold isEmpty. cbn [app]. rewrite isNull_cons, at_0. unfold c_rlpDataImmLenStart, c_rlpListStart. cbn [negb andb].
  apply orb_false_iff. split; apply Z.eqb_neq; lia.
Qed.

(** Writing one field more, with the bytes that the hypothesis says are written *)
Ltac step_write H :=
  match type of H with context [write ?x ?s] => destruct (write x s); [|done] end;
  cbn [mbind result_bind] in *.

(** ** The fields of a list *)

Section Fields.
Context (ts : list item).
Notation d := (encode (List ts)).
Context (Hgood : Forall field_good ts) (Hlen : size (concat (map encode ts)) < 2 ^ 62).

Lemma fields_ok : bytes_ok d ∧ size d < 2 ^ 63.
Proof.
  destruct (encode_list_ok ts) as [Hok Hs]; [|lia|].
  - eapply Forall_impl; [done|]. by intros t [? _].
  - split; [done|lia].
Qed.
Lemma fields_frame :
  ∃ h, d = h ++ concat (map encode ts) ∧ frame true h (concat (map encode ts)) ∧
    tiles (map encode ts) (concat (map encode ts)).
Proof.
  destruct fields_ok as [Hok _]. eexists. split; [done|]. split; [constructor|]. apply tiles_encode.
  simpl in Hok. by apply bytes_ok_app in Hok as [_ ?].
Qed.
Lemma fields_construct : construct VeryStrict d = Ok d.
Proof. destruct fields_ok as [Hok Hs]. apply construct_framed; [by apply encode_framed|done]. Qed.
Lemma fields_isList : isList d = true.
Proof.
  destruct fields_ok as [Hok Hs]. destruct fields_frame as (h&Hd&Hf&_). rewrite Hd in *.
  destruct (frame_read true h _ [] Hf Hs) as (_&Hl&_).
  by rewrite app_nil_r in Hl.
Qed.
Lemma fields_index i t c :
  ts !! i = Some t → cache_ok (map encode ts) c →
  ∃ c', index d (Z.of_nat i) c = (c', Ok (encode t)) ∧ cache_ok (map encode ts) c'.
Proof.
  intros Ht Hc. destruct fields_ok as [Hok Hs]. destruct fields_frame as (h&Hd&Hf&Htl). rewrite Hd in *.
  pose proof (lookup_lt_Some _ _ _ Ht) as Hlt.
  pose proof (tiles_length h _ (map encode ts) Hs Htl) as Hsz. rewrite length_map in Hsz.
  destruct (index_ok h _ (map encode ts) Hf Hs Htl (Z.of_nat i) c) as (c'&Hi&Hc'); [lia|done|].
  exists c'. split; [|done]. rewrite Hi. do 2 f_equal. rewrite Nat2Z.id, list_lookup_fmap, Ht. done.
Qed.
Lemma fields_count : itemCount d = Some (Ok (Z.of_nat (length ts))).
Proof.
  destruct fields_ok as [Hok Hs]. destruct fields_frame as (h&Hd&Hf&Htl). rewrite Hd in *.
  rewrite (itemCount_ok h _ (map encode ts) Hf Hs Htl). by rewrite length_map.
Qed.
Lemma fields_toList fuel flags :
  size (concat (map encode ts)) < Z.of_nat fuel → toList fuel flags d = Some (Ok (map encode ts)).
Proof.
  intros Hfuel. destruct fields_ok as [Hok Hs]. destruct fields_frame as (h&Hd&Hf&Htl). rewrite Hd in *.
  apply bytes_ok_app in Hok as [_ Hok].
  destruct (toList_spec fuel flags h _ Hf Hok Hs Hfuel) as [(ls&Hls&->)|[Hno _]].
  - do 2 f_equal. apply (tiles_unique _ _ (concat (map encode ts))); [|done|done].
    eapply Z.lt_trans; [exact Hlen|done].
  - by destruct (Hno (map encode ts)).
Qed.
End Fields.

(** The size of a few fields *)
Lemma fields_size ts n :
  Forall (λ t, size (encode t) ≤ n) ts → size (concat (map encode ts)) ≤ Z.of_nat (length ts) * n.
Proof.
  induction 1 as [|t ts Ht _ IH]; [done|]. cbn [map concat length]. rewrite size_app. lia.
Qed.

End RLPFields.
