(* ===== verification/TrieCommon.v ===== *)
(** * Nibbles and hex-prefix notation (libdevcore/TrieCommon.h, TrieCommon.cpp)

    Lengths and offsets in nibbles are below [2^32], the range of the code's
    [unsigned]. *)
From S2P Require Import Prelude CommonData.

Module TrieCommon.
Import CommonData.

(** ** Nibbles *)

Definition nibble (data : bytes) (i : nat) : Z :=
  let b := nth (i / 2) data 0 in
  if Nat.odd i then Z.land b 15 else Z.shiftr b 4.

Fixpoint sharedNibbles_loop (fuel : nat) (d1 : bytes) (b1 e1 : nat) (d2 : bytes) (b2 e2 : nat)
    (ret : nat) : nat :=
  match fuel with
  | O => ret
  | S fuel =>
    if (b1 <? e1)%nat && (b2 <? e2)%nat && (nibble d1 b1 =? nibble d2 b2)
    then sharedNibbles_loop fuel d1 (S b1) e1 d2 (S b2) e2 (S ret) else ret
  end.
Definition sharedNibbles (d1 : bytes) (b1 e1 : nat) (d2 : bytes) (b2 e2 : nat) : nat :=
  sharedNibbles_loop (e1 - b1) d1 b1 e1 d2 b2 e2 0.

(** [NibbleSlice] *)
Record NibbleSlice := mkSlice { data : bytes; offset : nat }.

Definition at_ (s : NibbleSlice) (i : nat) : Z := nibble (data s) (offset s + i).
Definition size (s : NibbleSlice) : nat := 2 * length (data s) - offset s.
Definition empty (s : NibbleSlice) : bool := (size s =? 0)%nat.
Definition mid (s : NibbleSlice) (i : nat) : NibbleSlice := mkSlice (data s) (offset s + i).
Definition shared (s k : NibbleSlice) : nat :=
  sharedNibbles (data s) (offset s) (offset s + size s) (data k) (offset k) (offset k + size k).
Definition contains (s k : NibbleSlice) : bool := (shared s k =? size k)%nat.
Definition equal (s k : NibbleSlice) : bool := (size k =? size s)%nat && (shared s k =? size k)%nat.

Fixpoint isEarlierThan_loop (n i : nat) (s k : NibbleSlice) : bool :=
  match n with
  | O => negb (size k <=? i)%nat
  | S n =>
    if (i <? size k)%nat && (i <? size s)%nat then
      if at_ s i <? at_ k i then true
      else if at_ k i <? at_ s i then false
      else isEarlierThan_loop n (S i) s k
    else negb (size k <=? i)%nat
  end.
Definition isEarlierThan (s k : NibbleSlice) : bool := isEarlierThan_loop (size k) 0 s k.

(** ** Hex-prefix notation *)

(** [ret[ret.size() - 1] |= n] *)
Fixpoint or_back (ret : bytes) (n : Z) : bytes :=
  match ret with
  | [] => []
  | [b] => [Z.lor b n]
  | b :: ret => b :: or_back ret n
  end.
Definition flag_byte (leaf odd : bool) : Z :=
  Z.lor (if leaf then 2 else 0) (if odd then 1 else 0) * 16.

(** The loop over the nibbles [i] of [data]; [d] is odd when the last byte is
    half full. *)
Fixpoint append_nibbles (n i d : nat) (data : bytes) (ret : bytes) : bytes * nat :=
  match n with
  | O => (ret, d)
  | S n =>
    let x := nibble data i in
    append_nibbles n (S i) (S d) data
      (if Nat.odd d then or_back ret x else ret ++ [u8 (Z.shiftl x 4)])
  end.

(** [hexPrefixEncode(_data, _leaf, _beginNibble, _endNibble, _offset)] *)
Definition hexPrefixEncode_range (data : bytes) (leaf : bool) (beginNibble endNibble : Z)
    (offset : nat) : bytes :=
  let begin := beginNibble + Z.of_nat offset in
  let end_ := (if endNibble <? 0 then Z.of_nat (2 * length data) - Z.of_nat offset + 1 + endNibble
               else endNibble) + Z.of_nat offset in
  let odd := Z.odd (end_ - begin) in
  (append_nibbles (Z.to_nat (end_ - begin)) (Z.to_nat begin) (if odd then 1 else 2) data
     [flag_byte leaf odd]).1.
(** [hexPrefixEncode(_s, _leaf, _begin, _end)] of a slice *)
Definition hexPrefixEncode (s : NibbleSlice) (leaf : bool) (begin end_ : Z) : bytes :=
  hexPrefixEncode_range (data s) leaf begin end_ (offset s).
(** [hexPrefixEncode(_s1, _s2, _leaf)]: the nibbles of two slices *)
Definition hexPrefixEncode2 (s1 s2 : NibbleSlice) (leaf : bool) : bytes :=
  let n1 := (2 * length (data s1) - offset s1)%nat in
  let n2 := (2 * length (data s2) - offset s2)%nat in
  let odd := Nat.odd (n1 + n2) in
  let '(ret, d) := append_nibbles n1 (offset s1) (if odd then 1 else 2) (data s1)
                     [flag_byte leaf odd] in
  (append_nibbles n2 (offset s2) d (data s2) ret).1.
(** [hexPrefixEncode(_hexVector, _leaf, _begin, _end)] of a vector with a
    nibble in each byte *)
Fixpoint pack_loop (v : bytes) : bytes :=
  match v with
  | a :: b :: v => u8 (a * 16 + b) :: pack_loop v
  | _ => []
  end.
Definition hexPrefixEncode_vector (hexVector : bytes) (leaf : bool) (begin end_ : Z) : bytes :=
  let end_ := if end_ <? 0 then Z.of_nat (length hexVector) + 1 + end_ else end_ in
  let odd := Z.odd (end_ - begin) in
  let v := take (Z.to_nat (end_ - begin)) (drop (Z.to_nat begin) hexVector) in
  if odd then Z.lor (flag_byte leaf odd) (hd 0 v) :: pack_loop (tl v)
  else flag_byte leaf odd :: pack_loop v.

(** [isLeaf], [keyOf] of the first item of a node *)
Definition isLeaf (hpe : bytes) : bool := negb (Z.land (nth 0 hpe 0) 0x20 =? 0).
Definition keyOf (hpe : bytes) : NibbleSlice :=
  match hpe with
  | [] => mkSlice hpe 0
  | b :: _ => if negb (Z.land b 0x10 =? 0) then mkSlice hpe 1 else mkSlice hpe 2
  end.

Example hp_odd_leaf : hexPrefixEncode (mkSlice [0x01; 0x23; 0x45] 1) true 0 (-1) = [0x31; 0x23; 0x45].
Proof. reflexivity. Qed.
Example hp_even : hexPrefixEncode (mkSlice [0x01; 0x23; 0x45] 0) false 0 (-1) = [0x00; 0x01; 0x23; 0x45].
Proof. reflexivity. Qed.
Example hp_two : hexPrefixEncode2 (mkSlice [0x01] 1) (mkSlice [0x23; 0x45] 0) false = [0x11; 0x23; 0x45].
Proof. reflexivity. Qed.

(** ** Slices as lists of nibbles *)

Definition nibs (s : NibbleSlice) : list Z := drop (offset s) (asNibbles (data s)).
Definition nib (n : Z) : Prop := 0 ≤ n < 16.

(** The reference form: the flags and the nibbles, two in each byte *)
Fixpoint pack (ns : list Z) : bytes :=
  match ns with
  | a :: b :: ns => a * 16 + b :: pack ns
  | _ => []
  end.
Definition hex_prefix (ns : list Z) (leaf : bool) : bytes :=
  let f := if leaf then 2 else 0 in
  pack (if Nat.odd (length ns) then f + 1 :: ns else f :: 0 :: ns).

Definition slice_ok (s : NibbleSlice) : Prop :=
  bytes_ok (data s) ∧ (offset s ≤ 2 * length (data s))%nat.

Lemma asNibbles_cons b d : asNibbles (b :: d) = b / 16 :: b mod 16 :: asNibbles d.
Proof.
  unfold asNibbles. simpl foldl.
  assert (∀ l a, foldl (λ ret i, ret ++ [i / 16; i mod 16]) a l =
                 a ++ foldl (λ ret i, ret ++ [i / 16; i mod 16]) [] l) as Hacc.
  { induction l as [|x l IH]; intros a; simpl; [by rewrite app_nil_r|].
    rewrite IH, (IH [_; _]). by rewrite <-app_assoc. }
  by rewrite Hacc.
Qed.
Lemma length_asNibbles d : length (asNibbles d) = (2 * length d)%nat.
Proof. induction d as [|b d IH]; [done|]. rewrite asNibbles_cons. cbn [length]. lia. Qed.
Lemma asNibbles_nib d : bytes_ok d → Forall nib (asNibbles d).
Proof.
  induction d as [|b d IH]; [constructor|]. intros [Hb Hd]%bytes_ok_cons. rewrite asNibbles_cons.
  unfold in_word in Hb. change (2 ^ 8) with 256 in Hb.
  constructor; [split; dlia|]. constructor; [split; dlia|by apply IH].
Qed.

Lemma half_SS n : (S (S n) / 2)%nat = S (n / 2).
Proof. replace (S (S n)) with (n + 1 * 2)%nat by lia. rewrite Nat.div_add by lia. lia. Qed.

Lemma nibble_lookup d i :
  bytes_ok d → (i < 2 * length d)%nat → asNibbles d !! i = Some (nibble d i).
Proof.
  revert i. induction d as [|b d IH]; intros i Hok Hi; [cbn in Hi; lia|].
  apply bytes_ok_cons in Hok as [Hb Hok]. rewrite asNibbles_cons. cbn [length] in Hi.
  unfold nibble. destruct i as [|[|i]].
  - cbn. by rewrite Z.shiftr_div_pow2.
  - cbn. f_equal. symmetry. apply land_15.
  - change ((b / 16 :: b mod 16 :: asNibbles d) !! S (S i)) with (asNibbles d !! i).
    rewrite IH by (done || lia). unfold nibble. rewrite Nat.odd_succ_succ.
    by rewrite half_SS.
Qed.

Lemma length_nibs s : length (nibs s) = size s.
Proof. unfold nibs, size. by rewrite length_drop, length_asNibbles. Qed.
Lemma nibs_nib s : slice_ok s → Forall nib (nibs s).
Proof. intros [Hok _]. by apply Forall_drop, asNibbles_nib. Qed.
Lemma nibs_mid s i : nibs (mid s i) = drop i (nibs s).
Proof. unfold nibs, mid. cbn. by rewrite drop_drop. Qed.
Lemma mid_ok s i : slice_ok s → (i ≤ size s)%nat → slice_ok (mid s i).
Proof. intros [Hok Ho] Hi. split; [done|]. unfold size in Hi. cbn. lia. Qed.
Lemma at_nibs s i : slice_ok s → (i < size s)%nat → nibs s !! i = Some (at_ s i).
Proof.
  intros [Hok Ho] Hi. unfold nibs, at_, size in *. rewrite lookup_drop. apply nibble_lookup; [done|lia].
Qed.


(** ** Comparisons *)

(** The length of the longest common prefix *)
Fixpoint common (l k : list Z) : nat :=
  match l, k with
  | a :: l, b :: k => if a =? b then S (common l k) else 0
  | _, _ => 0
  end.

Lemma common_prefix_of l k : common l k = length k ↔ k `prefix_of` l.
Proof.
  revert k. induction l as [|a l IH]; intros [|b k]; cbn.
  - split; [intros; exists []; done|done].
  - split; [done|intros [? [=]]].
  - split; [intros; by exists (a :: l)|done].
  - destruct (Z.eqb_spec a b) as [->|Hne].
    + split.
      * intros [= H]. by apply prefix_cons, IH.
      * intros H%prefix_cons_inv_2. f_equal. by apply IH.
    + split; [done|]. intros [? [= ? ?]]. by subst.
Qed.
Lemma common_le_l l k : (common l k ≤ length l)%nat.
Proof. revert k. induction l as [|a l IH]; intros [|b k]; cbn; try lia. case_match; [|lia]. specialize (IH k). lia. Qed.
Lemma common_sym l k : common l k = common k l.
Proof.
  revert k. induction l as [|a l IH]; intros [|b k]; cbn; try done.
  rewrite (Z.eqb_sym b a). by rewrite IH.
Qed.
Lemma common_le_r l k : (common l k ≤ length k)%nat.
Proof. rewrite common_sym. apply common_le_l. Qed.
Lemma common_take l k : take (common l k) l = take (common l k) k.
Proof.
  revert k. induction l as [|a l IH]; intros [|b k]; cbn; try done.
  destruct (Z.eqb_spec a b) as [->|]; [|done]. cbn. by rewrite IH.
Qed.
(** Behind the common prefix the lists differ. *)
Lemma common_drop l k : common (drop (common l k) l) (drop (common l k) k) = 0%nat.
Proof.
  revert k. induction l as [|a l IH]; intros [|b k]; cbn; try done.
  destruct (Z.eqb_spec a b) as [->|Hne]; cbn; [apply IH|].
  by destruct (Z.eqb_spec a b).
Qed.

Lemma shared_loop_nibs fuel d1 b1 e1 d2 b2 e2 ret :
  bytes_ok d1 → bytes_ok d2 → (e1 = 2 * length d1)%nat → (e2 = 2 * length d2)%nat →
  (e1 - b1 ≤ fuel)%nat →
  sharedNibbles_loop fuel d1 b1 e1 d2 b2 e2 ret =
  (ret + common (drop b1 (asNibbles d1)) (drop b2 (asNibbles d2)))%nat.
Proof.
  intros Hd1 Hd2 He1 He2. revert b1 b2 ret. induction fuel as [|fuel IH]; intros b1 b2 ret Hf; cbn [sharedNibbles_loop].
  - rewrite (drop_ge (asNibbles d1)) by (rewrite length_asNibbles; lia). cbn. lia.
  - destruct (Nat.ltb_spec b1 e1) as [H1|H1]; cbn [andb].
    2:{ rewrite (drop_ge (asNibbles d1)) by (rewrite length_asNibbles; lia). cbn. lia. }
    destruct (Nat.ltb_spec b2 e2) as [H2|H2]; cbn [andb].
    2:{ rewrite (drop_ge (asNibbles d2)) by (rewrite length_asNibbles; lia).
        rewrite common_sym. cbn. lia. }
    rewrite (drop_S (asNibbles d1) (nibble d1 b1) b1), (drop_S (asNibbles d2) (nibble d2 b2) b2)
      by (apply nibble_lookup; [done|lia]).
    cbn [common]. case_match; [|lia]. rewrite IH by lia. lia.
Qed.

Lemma shared_nibs s k : slice_ok s → slice_ok k → shared s k = common (nibs s) (nibs k).
Proof.
  intros [Hs Hso] [Hk Hko]. unfold shared, sharedNibbles, size.
  rewrite shared_loop_nibs by (done || lia). done.
Qed.

Lemma contains_nibs s k :
  slice_ok s → slice_ok k → contains s k = bool_decide (nibs k `prefix_of` nibs s).
Proof.
  intros Hs Hk. unfold contains. rewrite shared_nibs, <-length_nibs by done.
  apply eq_bool_prop_intro. rewrite bool_decide_spec, Is_true_true, Nat.eqb_eq. apply common_prefix_of.
Qed.
Lemma equal_nibs s k : slice_ok s → slice_ok k → equal s k = bool_decide (nibs s = nibs k).
Proof.
  intros Hs Hk. unfold equal. rewrite shared_nibs, <-!length_nibs by done.
  apply eq_bool_prop_intro.
  rewrite bool_decide_spec, Is_true_true, andb_true_iff, !Nat.eqb_eq, common_prefix_of.
  split; [|intros ->; done]. intros [Hl [l Heq]]. rewrite Heq, length_app in Hl.
  destruct l; [by rewrite app_nil_r in Heq|cbn in Hl; lia].
Qed.

(** [isEarlierThan] is the lexicographic order, below the prefix. *)
Fixpoint earlier (l k : list Z) : bool :=
  match l, k with
  | _, [] => false
  | [], _ => true
  | a :: l, b :: k => if a <? b then true else if b <? a then false else earlier l k
  end.
Lemma isEarlierThan_loop_nibs n i s k :
  slice_ok s → slice_ok k → (size k - i ≤ n)%nat →
  isEarlierThan_loop n i s k = earlier (drop i (nibs s)) (drop i (nibs k)).
Proof.
  intros Hs Hk. revert i. induction n as [|n IH]; intros i Hn; cbn [isEarlierThan_loop].
  - rewrite (drop_ge (nibs k)) by (rewrite length_nibs; lia).
    destruct (Nat.leb_spec (size k) i); [|lia]. by destruct (drop i (nibs s)).
  - destruct (Nat.ltb_spec i (size k)) as [Hik|Hik]; cbn [andb].
    2:{ rewrite (drop_ge (nibs k)) by (rewrite length_nibs; lia).
        destruct (Nat.leb_spec (size k) i); [|lia]. by destruct (drop i (nibs s)). }
    rewrite (drop_S (nibs k) (at_ k i) i) by by apply at_nibs.
    destruct (Nat.ltb_spec i (size s)) as [His|His].
    + rewrite (drop_S (nibs s) (at_ s i) i) by by apply at_nibs. cbn [earlier].
      by rewrite IH by lia.
    + rewrite (drop_ge (nibs s)) by (rewrite length_nibs; lia).
      destruct (Nat.leb_spec (size k) i); [lia|]. done.
Qed.
Lemma isEarlierThan_nibs s k :
  slice_ok s → slice_ok k → isEarlierThan s k = earlier (nibs s) (nibs k).
Proof. intros Hs Hk. unfold isEarlierThan. by rewrite isEarlierThan_loop_nibs by (done || lia). Qed.

(** ** The encodings *)

(** The bytes of a list of nibbles; the last one half full when their number
    is odd *)
Definition half_pack (l : list Z) : bytes :=
  if Nat.odd (length l) then pack (l ++ [0]) else pack l.

Lemma pack_app_even l k : Nat.even (length l) = true → pack (l ++ k) = pack l ++ pack k.
Proof.
  revert l. refine (fix IH l := match l with [] => _ | [a] => _ | a :: b :: l => _ end); intros He.
  - done.
  - done.
  - cbn. f_equal. by apply IH.
Qed.
Lemma or_back_app l b n : or_back (l ++ [b]) n = l ++ [Z.lor b n].
Proof. induction l as [|a l IH]; [done|]. cbn. rewrite IH. by destruct l. Qed.

Lemma lor_nib a x : 0 ≤ a → nib x → Z.lor (a * 16) x = a * 16 + x.
Proof.
  intros Ha Hx. unfold nib in Hx. change 16 with (2 ^ 4) in *. rewrite <-Z.shiftl_mul_pow2 by lia.
  rewrite <-Z.lxor_lor, <-Z.add_nocarry_lxor; [done| |]; apply Z.bits_inj'; intros i Hi;
    rewrite Z.land_spec, Z.bits_0; destruct (Z.ltb_spec i 4) as [H4|H4].
  1,3: rewrite Z.shiftl_spec_low by lia; done.
  all: rewrite (Z.bits_above_log2 x), andb_false_r; [done|lia|]; destruct (decide (x = 0)) as [->|];
       [cbn; lia|]; apply Z.log2_lt_pow2; [lia|]; assert (2 ^ 4 ≤ 2 ^ i) by (apply Z.pow_le_mono_r; lia); lia.
Qed.

Lemma half_pack_snoc l x :
  Forall nib l → nib x →
  half_pack (l ++ [x]) = if Nat.odd (length l) then or_back (half_pack l) x else half_pack l ++ [u8 (Z.shiftl x 4)].
Proof.
  intros Hl Hx. unfold half_pack. rewrite length_app. cbn [length]. rewrite Nat.add_1_r, Nat.odd_succ.
  rewrite <-Nat.negb_odd. destruct (Nat.odd (length l)) eqn:Ho; cbn [negb].
  - destruct (exists_last (l := l)) as (l' & y & ->); [by intros ->|].
    rewrite length_app in Ho. cbn [length] in Ho. rewrite Nat.add_1_r, Nat.odd_succ in Ho.
    rewrite <-!app_assoc. cbn [app]. rewrite !pack_app_even by done. cbn [pack].
    rewrite Z.add_0_r, or_back_app. apply Forall_app in Hl as [_ Hy]. inversion Hy as [|?? Hy']; subst.
    rewrite lor_nib; [done|unfold nib in Hy'; lia|done].
  - rewrite <-app_assoc. cbn [app]. rewrite pack_app_even by (by rewrite <-Nat.negb_odd, Ho).
    cbn [pack]. rewrite Z.add_0_r. do 2 f_equal. unfold nib in Hx.
    rewrite Z.shiftl_mul_pow2 by lia. rewrite wrap_small; [done|]. unfold in_word. change (2 ^ 8) with 256. change (2 ^ 4) with 16. lia.
Qed.

Lemma append_nibbles_pack n i d data l :
  bytes_ok data → (i + n ≤ 2 * length data)%nat → Forall nib l → Nat.odd d = Nat.odd (length l) →
  append_nibbles n i d data (half_pack l) =
  (half_pack (l ++ take n (drop i (asNibbles data))), (d + n)%nat).
Proof.
  intros Hok. revert i d l. induction n as [|n IH]; intros i d l Hi Hl Hd; cbn [append_nibbles].
  - by rewrite take_0, app_nil_r, Nat.add_0_r.
  - pose proof (nibble_lookup data i Hok ltac:(lia)) as Hx.
    assert (nib (nibble data i)) as Hn by exact (Forall_lookup_1 _ _ _ _ (asNibbles_nib data Hok) Hx).
    rewrite Hd, <-half_pack_snoc by done. rewrite IH.
    + rewrite (drop_S _ _ _ Hx). cbn [take]. rewrite <-app_assoc. cbn [app]. f_equal. lia.
    + lia.
    + apply Forall_app. split; [done|]. by constructor.
    + rewrite length_app, Nat.add_1_r. cbn [length]. by rewrite !Nat.odd_succ, <-!Nat.negb_odd, Hd.
Qed.

(** The first nibbles of a node: the flags *)
Definition flags (leaf odd : bool) : list Z :=
  let f := if leaf then 2 else 0 in if odd then [f + 1] else [f; 0].
Lemma flag_byte_pack leaf odd : [flag_byte leaf odd] = half_pack (flags leaf odd).
Proof. by destruct leaf, odd. Qed.
Lemma flags_nib leaf odd : Forall nib (flags leaf odd).
Proof. destruct leaf, odd; repeat constructor; unfold nib; lia. Qed.
Lemma flags_odd (leaf odd : bool) : Nat.odd (if odd then 1 else 2) = Nat.odd (length (flags leaf odd)).
Proof. by destruct odd. Qed.
Lemma hex_prefix_half ns leaf :
  hex_prefix ns leaf = half_pack (flags leaf (Nat.odd (length ns)) ++ ns).
Proof.
  unfold hex_prefix, half_pack, flags. destruct (Nat.odd (length ns)) eqn:Ho; cbn [length app];
    rewrite !Nat.odd_succ, <-?Nat.negb_odd, ?Nat.odd_succ, <-?Nat.negb_odd, Ho; done.
Qed.

Lemma hexPrefixEncode_range_spec d leaf b e n o :
  bytes_ok d → (o + b + n ≤ 2 * length d)%nat →
  (if e <? 0 then Z.of_nat (2 * length d - o) + 1 + e else e) = Z.of_nat (b + n) →
  hexPrefixEncode_range d leaf (Z.of_nat b) e o = hex_prefix (take n (drop (o + b) (asNibbles d))) leaf.
Proof.
  intros Hok Hl He. unfold hexPrefixEncode_range.
  replace (if e <? 0 then Z.of_nat (2 * length d) - Z.of_nat o + 1 + e else e)
    with (Z.of_nat (b + n)) by (destruct (Z.ltb_spec e 0); lia).
  replace (Z.of_nat (b + n) + Z.of_nat o - (Z.of_nat b + Z.of_nat o)) with (Z.of_nat n) by lia.
  rewrite Nat2Z.id. replace (Z.to_nat (Z.of_nat b + Z.of_nat o)) with (o + b)%nat by lia.
  assert (length (take n (drop (o + b) (asNibbles d))) = n) as Hn
    by (rewrite length_take, length_drop, length_asNibbles; lia).
  replace (Z.odd (Z.of_nat n)) with (Nat.odd n).
  2:{ rewrite <-Nat.negb_even, <-Z.negb_even. f_equal. apply eq_bool_prop_intro. rewrite !Is_true_true.
      rewrite Nat.even_spec, Z.even_spec. split; intros [m Hm]; [exists (Z.of_nat m); lia|exists (Z.to_nat m); lia]. }
  rewrite flag_byte_pack, append_nibbles_pack; [|done|lia|apply flags_nib|apply flags_odd].
  cbn [fst]. by rewrite hex_prefix_half, Hn.
Qed.

Lemma hexPrefixEncode_all s leaf :
  slice_ok s → hexPrefixEncode s leaf 0 (-1) = hex_prefix (nibs s) leaf.
Proof.
  intros [Hok Ho]. unfold hexPrefixEncode.
  rewrite (hexPrefixEncode_range_spec _ _ 0 _ (size s)) by (done || (cbn [Z.ltb]; unfold size; cbn; lia)).
  rewrite Nat.add_0_r. f_equal. apply take_ge. by rewrite <-length_nibs.
Qed.
Lemma hexPrefixEncode_from s leaf b :
  slice_ok s → (b ≤ size s)%nat → hexPrefixEncode s leaf (Z.of_nat b) (-1) = hex_prefix (drop b (nibs s)) leaf.
Proof.
  intros [Hok Ho] Hb. unfold hexPrefixEncode, size in *.
  rewrite (hexPrefixEncode_range_spec _ _ b _ (2 * length (data s) - offset s - b)) by (done || cbn; lia).
  unfold nibs. rewrite drop_drop. f_equal. apply take_ge. rewrite length_drop, length_asNibbles. lia.
Qed.
Lemma hexPrefixEncode_to s leaf e :
  slice_ok s → (e ≤ size s)%nat → hexPrefixEncode s leaf 0 (Z.of_nat e) = hex_prefix (take e (nibs s)) leaf.
Proof.
  intros [Hok Ho] Hb. unfold hexPrefixEncode, size in *.
  rewrite (hexPrefixEncode_range_spec _ _ 0 _ e).
  - by rewrite Nat.add_0_r.
  - done.
  - lia.
  - destruct (Z.ltb_spec (Z.of_nat e) 0); lia.
Qed.
Lemma hexPrefixEncode2_spec s1 s2 leaf :
  slice_ok s1 → slice_ok s2 → hexPrefixEncode2 s1 s2 leaf = hex_prefix (nibs s1 ++ nibs s2) leaf.
Proof.
  intros Hs1 Hs2. pose proof (length_nibs s1) as Hl1. pose proof (length_nibs s2) as Hl2.
  pose proof (nibs_nib s1 Hs1) as Hn1. destruct Hs1 as [H1 Ho1], Hs2 as [H2 Ho2].
  unfold hexPrefixEncode2. unfold size in *. rewrite <-Hl1, <-Hl2, <-length_app.
  set (odd := Nat.odd (length (nibs s1 ++ nibs s2))).
  rewrite flag_byte_pack, append_nibbles_pack; [|done|lia|apply flags_nib|apply flags_odd].
  rewrite take_ge by done. fold (nibs s1).
  rewrite append_nibbles_pack; [|done|lia| |].
  - cbn [fst]. rewrite take_ge by done. fold (nibs s2). rewrite hex_prefix_half. fold odd. by rewrite app_assoc.
  - apply Forall_app. split; [apply flags_nib|done].
  - by rewrite length_app, !Nat.odd_add, flags_odd with (leaf := leaf).
Qed.

(** ** Reading *)

Lemma pack_even l : Forall nib l → Nat.even (length l) = true → bytes_ok (pack l) ∧ asNibbles (pack l) = l.
Proof.
  revert l. refine (fix IH l := match l with [] => _ | [a] => _ | a :: b :: l => _ end); intros Hl He.
  - split; [constructor|done].
  - done.
  - inversion Hl as [|?? Ha Hl']; subst. inversion Hl' as [|?? Hb Hl2]; subst.
    destruct (IH l Hl2 He) as [Hok Has]. unfold nib in *. cbn [pack]. split.
    + apply bytes_ok_cons. split; [|done]. unfold in_word. change (2 ^ 8) with 256. lia.
    + rewrite asNibbles_cons, Has. repeat f_equal; [dlia|dlia].
Qed.
Lemma length_pack l : length (pack l) = (length l / 2)%nat.
Proof.
  revert l. refine (fix IH l := match l with [] => _ | [a] => _ | a :: b :: l => _ end); [done|done|].
  cbn [pack length]. by rewrite IH, half_SS.
Qed.

Lemma hex_prefix_flags ns leaf :
  hex_prefix ns leaf = pack (flags leaf (Nat.odd (length ns)) ++ ns).
Proof. unfold hex_prefix, flags. by destruct (Nat.odd _). Qed.
Lemma hex_prefix_even ns leaf : Nat.even (length (flags leaf (Nat.odd (length ns)) ++ ns)) = true.
Proof.
  unfold flags. destruct (Nat.odd (length ns)) eqn:Ho; cbn [length app]; rewrite ?Nat.even_succ, ?Nat.odd_succ;
    [done|]. by rewrite <-Nat.negb_odd, Ho.
Qed.
Lemma hex_prefix_ok ns leaf : Forall nib ns → bytes_ok (hex_prefix ns leaf).
Proof.
  intros Hns. rewrite hex_prefix_flags. apply pack_even; [|apply hex_prefix_even].
  apply Forall_app. split; [apply flags_nib|done].
Qed.
Lemma length_hex_prefix ns leaf : length (hex_prefix ns leaf) = S (length ns / 2).
Proof.
  unfold hex_prefix. rewrite length_pack. destruct (Nat.odd (length ns)) eqn:Ho; cbn [length].
  - apply Nat.odd_spec in Ho as [m ->]. replace (S (2 * m + 1)) with ((m + 1) * 2)%nat by lia.
    replace (2 * m + 1)%nat with (1 + m * 2)%nat by lia. rewrite Nat.div_add, Nat.div_mul by lia. cbn. lia.
  - by rewrite half_SS.
Qed.

Lemma keyOf_hex_prefix ns leaf :
  Forall nib ns →
  slice_ok (keyOf (hex_prefix ns leaf)) ∧ nibs (keyOf (hex_prefix ns leaf)) = ns ∧
  isLeaf (hex_prefix ns leaf) = leaf.
Proof.
  intros Hns. pose proof (hex_prefix_ok ns leaf Hns) as Hok.
  assert (asNibbles (hex_prefix ns leaf) = flags leaf (Nat.odd (length ns)) ++ ns) as Has.
  { rewrite hex_prefix_flags. apply pack_even; [|apply hex_prefix_even].
    apply Forall_app. split; [apply flags_nib|done]. }
  destruct (hex_prefix ns leaf) as [|b h] eqn:Hh; [by pose proof (length_hex_prefix ns leaf) as Hl; rewrite Hh in Hl|].
  assert (b = if leaf then (if Nat.odd (length ns) then 48 + hd 0 ns else 32)
              else (if Nat.odd (length ns) then 16 + hd 0 ns else 0)) as Hb.
  { rewrite hex_prefix_flags in Hh. unfold flags in Hh. destruct (Nat.odd (length ns)) eqn:Ho.
    - destruct ns as [|n ns]; [done|]. destruct leaf; cbn in Hh; injection Hh as <- _; done.
    - destruct leaf; cbn in Hh; by injection Hh as <- _. }
  assert (∀ n, nib n → n ∈ [0;1;2;3;4;5;6;7;8;9;10;11;12;13;14;15]) as Hcase.
  { intros n [Hn1 Hn2]. assert (n = Z.of_nat (Z.to_nat n)) as -> by lia.
    remember (Z.to_nat n) as m. assert (m < 16)%nat as Hm by lia. clear -Hm.
    do 16 (destruct m as [|m]; [set_solver|]). lia. }
  assert (negb (Z.land b 16 =? 0) = Nat.odd (length ns) ∧ negb (Z.land b 32 =? 0) = leaf) as [H16 H32].
  { subst b. destruct (Nat.odd (length ns)) eqn:Ho; [|by destruct leaf].
    destruct ns as [|n ns]; [done|]. inversion Hns as [|?? Hn _]; subst. cbn [hd].
    apply Hcase in Hn. rewrite !elem_of_cons in Hn.
    destruct leaf; repeat destruct Hn as [->|Hn]; try done; by apply not_elem_of_nil in Hn. }
  unfold isLeaf, keyOf. cbn [nth]. rewrite H16, H32. unfold slice_ok, nibs.
  destruct (Nat.odd (length ns)); cbn [data offset]; rewrite Has; (split; [split; [done|cbn [length]; lia]|]); done.
Qed.

(** ** Properties *)

(** The slices are lists of nibbles: the size, the elements, the tail, the
    common prefix and the comparisons are those of the lists. *)
Theorem slices_are_lists s k :
  slice_ok s → slice_ok k →
  length (nibs s) = size s ∧
  (∀ i, (i < size s)%nat → nibs s !! i = Some (at_ s i)) ∧
  (∀ i, nibs (mid s i) = drop i (nibs s)) ∧
  (∃ l1 l2, nibs s = take (shared s k) (nibs s) ++ l1 ∧ nibs k = take (shared s k) (nibs s) ++ l2 ∧
     (shared s k ≤ size s)%nat ∧ ∀ a b l1' l2', l1 = a :: l1' → l2 = b :: l2' → a ≠ b) ∧
  contains s k = bool_decide (nibs k `prefix_of` nibs s) ∧
  equal s k = bool_decide (nibs s = nibs k) ∧
  isEarlierThan s k = earlier (nibs s) (nibs k).
Proof.
  intros Hs Hk. split; [apply length_nibs|]. split; [by auto using at_nibs|].
  split; [apply nibs_mid|]. rewrite contains_nibs, equal_nibs, isEarlierThan_nibs by done.
  split; [|done].
  rewrite shared_nibs by done. set (c := common _ _).
  exists (drop c (nibs s)), (drop c (nibs k)). split; [by rewrite take_drop|].
  split; [unfold c; rewrite common_take; by rewrite take_drop|].
  split; [rewrite <-length_nibs; apply common_le_l|].
  intros a b l1 l2 H1 H2 ->. pose proof (common_drop (nibs s) (nibs k)) as Hc.
  fold c in Hc. rewrite H1, H2 in Hc. cbn in Hc. by rewrite Z.eqb_refl in Hc.
Qed.
Lemma slices_are_lists_witness :
  let s := mkSlice [0x12; 0x34] 1 in let k := mkSlice [0x02; 0x35] 1 in
  slice_ok s ∧ slice_ok k ∧ shared s k = 2%nat ∧
  equal s k = bool_decide (nibs s = nibs k).
Proof.
  intros s k. assert (slice_ok s) as Hs by (split; [repeat constructor; done|cbn; lia]).
  assert (slice_ok k) as Hk by (split; [repeat constructor; done|cbn; lia]).
  split; [exact Hs|split; [exact Hk|split; [reflexivity|]]].
  apply (slices_are_lists s k Hs Hk).
Defined.

(** The encodings of a part of a slice and of two slices are bytes, and
    reading them back gives the nibbles and the leaf flag; there is one byte
    more than pairs of nibbles. *)
Theorem hexPrefix_roundtrip s1 s2 leaf b :
  slice_ok s1 → slice_ok s2 → (b ≤ size s1)%nat →
  let good h ns :=
    bytes_ok h ∧ length h = S (length ns / 2) ∧ slice_ok (keyOf h) ∧ nibs (keyOf h) = ns ∧
    isLeaf h = leaf in
  good (hexPrefixEncode s1 leaf (Z.of_nat b) (-1)) (drop b (nibs s1)) ∧
  good (hexPrefixEncode s1 leaf 0 (Z.of_nat b)) (take b (nibs s1)) ∧
  good (hexPrefixEncode2 s1 s2 leaf) (nibs s1 ++ nibs s2).
Proof.
  intros Hs1 Hs2 Hb good. pose proof (nibs_nib s1 Hs1) as H1. pose proof (nibs_nib s2 Hs2) as H2.
  assert (∀ ns, Forall nib ns → good (hex_prefix ns leaf) ns) as Hgood.
  { intros ns Hns. destruct (keyOf_hex_prefix ns leaf Hns) as (? & ? & ?).
    split; [by apply hex_prefix_ok|]. split; [apply length_hex_prefix|done]. }
  split; [|split].
  - rewrite hexPrefixEncode_from by done. apply Hgood. by apply Forall_drop.
  - rewrite hexPrefixEncode_to by done. apply Hgood. by apply Forall_take.
  - rewrite hexPrefixEncode2_spec by done. apply Hgood. by apply Forall_app.
Qed.
Lemma hexPrefix_roundtrip_witness :
  let s := mkSlice [0x12; 0x34] 1 in
  slice_ok s ∧ hexPrefixEncode s true (Z.of_nat 1) (-1) = [0x20; 0x34] ∧
  nibs (keyOf (hexPrefixEncode s true (Z.of_nat 1) (-1))) = [3; 4].
Proof.
  intros s. assert (slice_ok s) as Hs by (split; [repeat constructor; done|cbn; lia]).
  split; [exact Hs|split; [reflexivity|]].
  apply (hexPrefix_roundtrip s s true 1 Hs Hs). cbn. lia.
Defined.

End TrieCommon.
