(* ===== verification/NodeDB.v ===== *)
(** * Stores of trie nodes (libdevcore/MemoryDB.h, MemoryDB.cpp, OverlayDB.h,
    OverlayDB.cpp)

    Hashes and values are lists of bytes.  The database behind an [OverlayDB]
    (db.h, LevelDB) is a parameter with laws: a commit of a batch that succeeds
    makes the batch visible, one that throws changes nothing, and the commit of
    a null batch throws (LevelDB.cpp). *)
From S2P Require Import Prelude CommonData.

(** What a trie needs of a store: an inserted value is found until another
    one is inserted under its hash; a kill only drops a reference. *)
Class NodeDB (DB : Type) := {
  lookup_node : DB → bytes → bytes;
  exists_node : DB → bytes → bool;
  insert_node : DB → bytes → bytes → DB;
  kill_node : DB → bytes → DB;
}.
Class NodeDBLaws (DB : Type) `{NodeDB DB} := {
  db_valid : DB → Prop;
  valid_insert d h v : db_valid d → db_valid (insert_node d h v);
  valid_kill d h : db_valid d → db_valid (kill_node d h);
  lookup_insert_node d h v h' :
    db_valid d → v ≠ [] →
    lookup_node (insert_node d h v) h' = if decide (h' = h) then v else lookup_node d h';
  lookup_kill_node d h h' : db_valid d → lookup_node (kill_node d h) h' = lookup_node d h';
  exists_lookup d h : db_valid d → exists_node d h = false → lookup_node d h = [];
}.

Module MemoryDB.

(** [m_main] holds values with counts of references (32 bits), [m_aux] values
    with a flag. *)
Record MemoryDB := mkMemoryDB {
  m_main : gmap bytes (bytes * Z);
  m_aux : gmap bytes (bytes * bool);
  m_enforceRefs : bool;
}.
Definition empty_db : MemoryDB := mkMemoryDB ∅ ∅ false.
Definition with_main (m : gmap bytes (bytes * Z)) (d : MemoryDB) : MemoryDB :=
  mkMemoryDB m (m_aux d) (m_enforceRefs d).
Definition with_aux (m : gmap bytes (bytes * bool)) (d : MemoryDB) : MemoryDB :=
  mkMemoryDB (m_main d) m (m_enforceRefs d).

Definition clear (d : MemoryDB) : MemoryDB := with_aux ∅ (with_main ∅ d).
(** [MemoryDB::operator=]: [m_enforceRefs] is not copied. *)
Definition assign (c d : MemoryDB) : MemoryDB := mkMemoryDB (m_main c) (m_aux c) (m_enforceRefs d).
Definition get (d : MemoryDB) : gmap bytes bytes :=
  fst <$> filter (λ e, negb (m_enforceRefs d) || (0 <? e.2.2) = true) (m_main d).
Definition lookup (d : MemoryDB) (h : bytes) : bytes :=
  match m_main d !! h with
  | Some (v, n) => if negb (m_enforceRefs d) || (0 <? n) then v else []
  | None => []
  end.
Definition exists_ (d : MemoryDB) (h : bytes) : bool :=
  match m_main d !! h with
  | Some (_, n) => negb (m_enforceRefs d) || (0 <? n)
  | None => false
  end.
Definition insert (d : MemoryDB) (h v : bytes) : MemoryDB :=
  match m_main d !! h with
  | Some (_, n) => with_main (<[h := (v, u32 (n + 1))]> (m_main d)) d
  | None => with_main (<[h := (v, 1)]> (m_main d)) d
  end.
Definition kill (d : MemoryDB) (h : bytes) : MemoryDB * bool :=
  match m_main d !! h with
  | Some (v, n) => if 0 <? n then (with_main (<[h := (v, n - 1)]> (m_main d)) d, true) else (d, false)
  | None => (d, false)
  end.
Definition lookupAux (d : MemoryDB) (h : bytes) : bytes :=
  match m_aux d !! h with
  | Some (v, b) => if negb (m_enforceRefs d) || b then v else []
  | None => []
  end.
(** [m_aux[_h].second = false] makes an entry when there is none. *)
Definition removeAux (d : MemoryDB) (h : bytes) : MemoryDB :=
  with_aux (<[h := (default [] (fst <$> m_aux d !! h), false)]> (m_aux d)) d.
Definition insertAux (d : MemoryDB) (h v : bytes) : MemoryDB :=
  with_aux (<[h := (v, true)]> (m_aux d)) d.
Definition purge (d : MemoryDB) : MemoryDB :=
  with_aux (filter (λ e, e.2.2 = true) (m_aux d))
    (with_main (filter (λ e, negb (e.2.2 =? 0) = true) (m_main d)) d).
Definition keys (d : MemoryDB) : gset bytes :=
  dom (filter (λ e, negb (e.2.2 =? 0) = true) (m_main d)).

#[export] Instance MemoryDB_node_db : NodeDB MemoryDB := {|
  lookup_node := lookup;
  exists_node := exists_;
  insert_node := insert;
  kill_node d h := (kill d h).1;
|}.

Lemma lookup_insert d h v h' :
  m_enforceRefs d = false → lookup (insert d h v) h' = if decide (h' = h) then v else lookup d h'.
Proof.
  intros He. unfold lookup, insert.
  destruct (m_main d !! h) as [[w n]|]; cbn [m_main m_enforceRefs with_main]; rewrite He; cbn [negb orb];
    case_decide; subst; by rewrite ?lookup_insert_eq, ?lookup_insert_ne.
Qed.
Lemma insert_enforceRefs d h v : m_enforceRefs (insert d h v) = m_enforceRefs d.
Proof. unfold insert. by destruct (m_main d !! h) as [[]|]. Qed.
Lemma kill_enforceRefs d h : m_enforceRefs (kill d h).1 = m_enforceRefs d.
Proof. unfold kill. destruct (m_main d !! h) as [[w n]|]; [|done]. by destruct (0 <? n). Qed.
Lemma lookup_kill d h h' : m_enforceRefs d = false → lookup (kill d h).1 h' = lookup d h'.
Proof.
  intros He. unfold lookup, kill. destruct (m_main d !! h) as [[w n]|] eqn:Hh; [|done].
  destruct (0 <? n); [|done]. cbn [fst m_main m_enforceRefs with_main]. rewrite He.
  destruct (decide (h' = h)) as [->|]; [by rewrite lookup_insert_eq, Hh|by rewrite lookup_insert_ne].
Qed.

#[export] Program Instance MemoryDB_laws : NodeDBLaws MemoryDB := {|
  db_valid d := m_enforceRefs d = false;
|}.
Next Obligation. intros d h v He. cbn. by rewrite insert_enforceRefs. Qed.
Next Obligation. intros d h He. cbn. by rewrite kill_enforceRefs. Qed.
Next Obligation. intros d h v h' He _. by apply lookup_insert. Qed.
Next Obligation. intros d h h' He. by apply lookup_kill. Qed.
Next Obligation.
  intros d h He. cbn. unfold exists_, lookup. destruct (m_main d !! h) as [[w n]|]; [|done].
  by rewrite He.
Qed.

End MemoryDB.

Module OverlayDB.
Import MemoryDB.

(** [DatabaseFace]: the exceptions of [commit] are [boost::exception]s. *)
Class DatabaseFace (D : Type) := {
  db_lookup : D → bytes → bytes;
  db_exists : D → bytes → bool;
  db_commit : D → option (list (bytes * bytes)) → D * bool;
}.
Definition apply_batch (b : list (bytes * bytes)) (f : bytes → bytes) : bytes → bytes :=
  foldl (λ f e h, if decide (h = e.1) then e.2 else f h) f b.
Class DatabaseLaws (D : Type) `{DatabaseFace D} := {
  commit_ok d b d' :
    db_commit d (Some b) = (d', true) → ∀ h, db_lookup d' h = apply_batch b (db_lookup d) h;
  commit_fails d b d' : db_commit d b = (d', false) → db_lookup d' = db_lookup d;
  commit_null d : (db_commit d None).2 = false;
  not_exists d h : db_exists d h = false → db_lookup d h = [];
}.

Section Overlay.
Context {D : Type} `{DatabaseLaws D}.

Record OverlayDB := mkOverlayDB { memory : MemoryDB; m_db : option D }.

Definition lookup (o : OverlayDB) (h : bytes) : bytes :=
  let ret := MemoryDB.lookup (memory o) h in
  match ret, m_db o with
  | [], Some d => db_lookup d h
  | _, _ => ret
  end.
Definition exists_ (o : OverlayDB) (h : bytes) : bool :=
  MemoryDB.exists_ (memory o) h || match m_db o with Some d => db_exists d h | None => false end.
(** The queries of the database only lead to a message. *)
Definition kill (o : OverlayDB) (h : bytes) : OverlayDB :=
  mkOverlayDB (MemoryDB.kill (memory o) h).1 (m_db o).
Definition insert (o : OverlayDB) (h v : bytes) : OverlayDB :=
  mkOverlayDB (MemoryDB.insert (memory o) h v) (m_db o).
Definition lookupAux (o : OverlayDB) (h : bytes) : bytes :=
  let ret := MemoryDB.lookupAux (memory o) h in
  match ret, m_db o with
  | [], Some d => db_lookup d (h ++ [255])
  | _, _ => ret
  end.
Definition rollback (o : OverlayDB) : OverlayDB := mkOverlayDB (with_main ∅ (memory o)) (m_db o).

(** The batch that [commit] fills; the order of the keys of a map does not
    matter. *)
Definition write_batch (d : MemoryDB) : list (bytes * bytes) :=
  map (λ e, (e.1, e.2.1)) (filter (λ e, negb (e.2.2 =? 0) = true) (map_to_list (m_main d))) ++
  map (λ e, (e.1 ++ [255], e.2.1)) (filter (λ e, e.2.2 = true) (map_to_list (m_aux d))).
(** The attempts to commit: the batch is moved into the first one and is null
    from then on.  [None] is the exit of the process. *)
Fixpoint commit_loop (n : nat) (batch : option (list (bytes * bytes))) (d : D) : option D :=
  match n with
  | O => None
  | S n =>
    match db_commit d batch with
    | (d, true) => Some d
    | (d, false) => commit_loop n None d
    end
  end.
Definition commit (o : OverlayDB) : option OverlayDB :=
  match m_db o with
  | Some d =>
    d ← commit_loop 10 (Some (write_batch (memory o))) d;
    Some (mkOverlayDB (clear (memory o)) (Some d))
  | None => Some o
  end.

#[export] Instance OverlayDB_node_db : NodeDB OverlayDB := {|
  lookup_node := lookup;
  exists_node := exists_;
  insert_node := insert;
  kill_node := kill;
|}.
#[export] Program Instance OverlayDB_laws : NodeDBLaws OverlayDB := {|
  db_valid o := m_enforceRefs (memory o) = false;
|}.
Next Obligation. intros o h v He. cbn. by rewrite insert_enforceRefs. Qed.
Next Obligation. intros o h He. cbn. by rewrite kill_enforceRefs. Qed.
Next Obligation.
  intros o h v h' He Hv. cbn. unfold lookup, insert. cbn [memory m_db]. rewrite lookup_insert by done.
  case_decide; [by destruct v|done].
Qed.
Next Obligation. intros o h h' He. cbn. unfold lookup, kill. cbn [memory m_db]. by rewrite lookup_kill. Qed.
Next Obligation.
  intros o h He. cbn. unfold exists_, lookup. intros [Hm Hd]%orb_false_iff.
  pose proof (exists_lookup (memory o) h He Hm) as Hl. cbn in Hl. rewrite Hl.
  destruct (m_db o); [by apply not_exists|done].
Qed.

Lemma apply_batch_cons e b f h :
  apply_batch (e :: b) f h = apply_batch b (λ h, if decide (h = e.1) then e.2 else f h) h.
Proof. done. Qed.
Lemma apply_batch_notin b f h : h ∉ b.*1 → apply_batch b f h = f h.
Proof.
  revert f. induction b as [|[k v] b IH]; intros f Hh; [done|]. cbn in Hh.
  rewrite apply_batch_cons, IH by set_solver. case_decide; [|done]. cbn in *. set_solver.
Qed.
Lemma apply_batch_in b f h v : NoDup b.*1 → (h, v) ∈ b → apply_batch b f h = v.
Proof.
  revert f. induction b as [|[k w] b IH]; intros f Hnd Hin; [by apply elem_of_nil in Hin|].
  cbn in Hnd. apply NoDup_cons in Hnd as [Hk Hnd]. rewrite apply_batch_cons.
  apply elem_of_cons in Hin as [[= -> ->]|Hin]; [|by apply IH].
  rewrite apply_batch_notin by done. by case_decide.
Qed.
Lemma apply_batch_app b1 b2 f : apply_batch (b1 ++ b2) f = apply_batch b2 (apply_batch b1 f).
Proof. apply foldl_app. Qed.

(** The part of the batch from [m_main] *)
Lemma apply_batch_map {A} (m : gmap bytes (bytes * A)) (P : bytes * (bytes * A) → Prop)
    `{∀ e, Decision (P e)} (g : bytes → bytes) f h :
  Inj (=) (=) g →
  apply_batch (map (λ e, (g e.1, e.2.1)) (filter P (map_to_list m))) f (g h) =
  match m !! h with
  | Some e => if decide (P (h, e)) then e.1 else f (g h)
  | None => f (g h)
  end.
Proof.
  intros Hg. set (l := map _ _).
  assert (NoDup l.*1) as Hnd.
  { unfold l. rewrite <-list_fmap_compose. change (fst ∘ λ e : bytes * (bytes * A), (g e.1, e.2.1)) with (g ∘ fst : bytes * (bytes * A) → bytes).
    rewrite list_fmap_compose. apply NoDup_fmap_2; [done|].
    apply NoDup_fmap_fst; [|apply NoDup_filter, NoDup_map_to_list].
    intros k e1 e2 [_ Hk1%elem_of_map_to_list]%list_elem_of_filter [_ Hk2%elem_of_map_to_list]%list_elem_of_filter.
    congruence. }
  assert (∀ e, (h, e) ∈ filter P (map_to_list m) ↔ P (h, e) ∧ m !! h = Some e) as Hel.
  { intros e. rewrite list_elem_of_filter, elem_of_map_to_list. done. }
  assert (g h ∈ l.*1 → ∃ e, P (h, e) ∧ m !! h = Some e) as Hin.
  { unfold l. rewrite <-list_fmap_compose. intros ([k e]&Heq&Hk)%list_elem_of_fmap.
    apply Hg in Heq. cbn in Heq. subst k. exists e. by apply Hel. }
  destruct (m !! h) as [e|] eqn:Hm; [case_decide as HP|].
  - apply apply_batch_in; [done|]. unfold l. apply list_elem_of_fmap. exists (h, e). split; [done|]. by apply Hel.
  - apply apply_batch_notin. intros (e'&HP'&[= <-])%Hin. done.
  - apply apply_batch_notin. by intros (e'&HP'&?)%Hin.
Qed.
Lemma write_batch_main d f h :
  length h = 32%nat → map_Forall (λ k _, length k = 32%nat) (m_aux d) →
  apply_batch (write_batch d) f h =
  match m_main d !! h with
  | Some (v, n) => if n =? 0 then f h else v
  | None => f h
  end.
Proof.
  intros Hh Haux. unfold write_batch. rewrite apply_batch_app, apply_batch_notin.
  - pose proof (apply_batch_map (m_main d) (λ e, negb (e.2.2 =? 0) = true) id f h _) as Hm.
    unfold id in Hm. rewrite Hm. destruct (m_main d !! h) as [[v n]|]; [|done]. cbn. by destruct (n =? 0).
  - intros ([k v]&Heq&Hk)%list_elem_of_fmap. apply list_elem_of_fmap in Hk as ([k' [v' b]]&[= -> ->]&Hk').
    apply list_elem_of_filter in Hk' as [_ Hk'%elem_of_map_to_list]. cbn in *. subst h.
    rewrite length_app, (Haux k') in Hh by eauto. done.
Qed.
Lemma write_batch_aux d f h :
  length h = 32%nat → map_Forall (λ k _, length k = 32%nat) (m_main d) →
  apply_batch (write_batch d) f (h ++ [255]) =
  match m_aux d !! h with
  | Some (v, true) => v
  | _ => f (h ++ [255])
  end.
Proof.
  intros Hh Hmain. unfold write_batch. rewrite apply_batch_app.
  rewrite (apply_batch_map (m_aux d) _ (λ k, k ++ [255])) by apply _.
  rewrite apply_batch_notin.
  - destruct (m_aux d !! h) as [[v [|]]|]; done.
  - intros ([k v]&Heq&Hk)%list_elem_of_fmap. apply list_elem_of_fmap in Hk as ([k' [v' b]]&[= -> ->]&Hk').
    apply list_elem_of_filter in Hk' as [_ Hk'%elem_of_map_to_list]. cbn in *. subst k'.
    pose proof (Hmain _ _ Hk') as Hl. cbn in Hl. rewrite length_app in Hl. cbn in Hl. lia.
Qed.

Lemma commit_loop_null n d : commit_loop n None d = None.
Proof.
  revert d. induction n as [|n IH]; intros d; [done|]. cbn.
  pose proof (commit_null d) as Hn. destruct (db_commit d None) as [d' []]; [done|]. apply IH.
Qed.

(** Hashes have 32 bytes. *)
Definition hashes_ok (d : MemoryDB) : Prop :=
  map_Forall (λ k _, length k = 32%nat) (m_main d) ∧ map_Forall (λ k _, length k = 32%nat) (m_aux d).

(** C40. [commit] with a database that takes the batch: a node with references is
    then found in the database, one without any is forgotten, and the auxiliary
    values that were not removed are found.  The memory is empty afterwards, so
    that [rollback] changes nothing. *)
Theorem overlay_commit_spec o d d' :
  m_db o = Some d → hashes_ok (memory o) → m_enforceRefs (memory o) = false →
  db_commit d (Some (write_batch (memory o))) = (d', true) →
  ∃ o', commit o = Some o' ∧ rollback o' = o' ∧
    (∀ h, length h = 32%nat →
       lookup o' h = match m_main (memory o) !! h with
                     | Some (v, n) => if n =? 0 then db_lookup d h else v
                     | None => db_lookup d h
                     end) ∧
    (∀ h, length h = 32%nat →
       lookupAux o' h = match m_aux (memory o) !! h with
                        | Some (v, true) => v
                        | _ => db_lookup d (h ++ [255])
                        end).
Proof.
  intros Hd [Hmain Haux] He Hc. exists (mkOverlayDB (clear (memory o)) (Some d')).
  pose proof (commit_ok _ _ _ Hc) as Hl. unfold commit. rewrite Hd. cbn [commit_loop]. rewrite Hc.
  split; [done|]. split; [done|]. split; intros h Hh; unfold lookup, lookupAux, MemoryDB.lookup, MemoryDB.lookupAux.
  - cbn [memory clear with_aux with_main m_main m_db]. rewrite lookup_empty, Hl. by apply write_batch_main.
  - cbn [memory clear with_aux with_main m_aux m_db]. rewrite lookup_empty, Hl. by apply write_batch_aux.
Qed.

(** When the first attempt throws, [commit] never succeeds: the nine others
    pass the null batch and the process exits, whatever the database would
    accept. *)
Theorem overlay_commit_no_retry o d d' :
  m_db o = Some d → db_commit d (Some (write_batch (memory o))) = (d', false) → commit o = None.
Proof.
  intros Hd Hc. unfold commit. rewrite Hd. change 10%nat with (S 9). remember 9%nat as n.
  cbn [commit_loop]. rewrite Hc. by rewrite commit_loop_null.
Qed.

End Overlay.

(** ** Witnesses: a database with a number of writes that fail *)

Record TestDB := mkTestDB { content : gmap bytes bytes; failures : nat }.
Definition insert_batch (l : list (bytes * bytes)) (m : gmap bytes bytes) : gmap bytes bytes :=
  foldl (λ m e, <[e.1 := e.2]> m) m l.
#[export] Instance TestDB_face : DatabaseFace TestDB := {|
  db_lookup d h := default [] (content d !! h);
  db_exists d h := bool_decide (is_Some (content d !! h));
  db_commit d b :=
    match b, failures d with
    | Some b, O => (mkTestDB (insert_batch b (content d)) 0, true)
    | Some _, S n => (mkTestDB (content d) n, false)
    | None, _ => (d, false)
    end;
|}.
Lemma TestDB_batch l m h :
  default [] (insert_batch l m !! h) = apply_batch l (λ h, default [] (m !! h)) h.
Proof.
  induction l as [|[k v] l IH] using rev_ind; [done|].
  unfold apply_batch, insert_batch in *. rewrite !foldl_app. cbn [foldl].
  case_decide; subst; [by rewrite lookup_insert_eq|]. rewrite lookup_insert_ne by done. apply IH.
Qed.
#[export] Program Instance TestDB_laws : DatabaseLaws TestDB.
Next Obligation.
  intros d b d'. cbn. destruct (failures d); [|done]. intros [= <-] h. apply TestDB_batch.
Qed.
Next Obligation.
  intros d [b|] d'; cbn; [|by intros [= <-]]. destruct (failures d); [done|]. by intros [= <-].
Qed.
Next Obligation. done. Qed.
Next Obligation.
  intros d h. cbn. rewrite bool_decide_eq_false. destruct (content d !! h); [|done]. intros []. eauto.
Qed.

Definition test_hash (b : Z) : bytes := replicate 32 b.
Definition test_overlay (failures : nat) : OverlayDB :=
  mkOverlayDB
    (MemoryDB.kill (MemoryDB.insert (MemoryDB.insert empty_db (test_hash 1) [1]) (test_hash 2) [2])
       (test_hash 2)).1
    (Some (mkTestDB ∅ failures)).


Lemma overlay_commit_spec_witness :
  hashes_ok (memory (test_overlay 0)) ∧
  ∃ o', commit (test_overlay 0) = Some o' ∧ rollback o' = o' ∧
    lookup o' (test_hash 1) = [1] ∧ lookup o' (test_hash 2) = [].
Proof.
  assert (hashes_ok (memory (test_overlay 0))) as Hok.
  { split; apply (bool_decide_unpack _); vm_compute; exact I. }
  split; [exact Hok|].
  destruct (overlay_commit_spec (test_overlay 0) (mkTestDB ∅ 0)
              (mkTestDB {[test_hash 1 := [1]]} 0) eq_refl Hok eq_refl) as (o'&Hc&Hr&Hl&_).
  { reflexivity. }
  exists o'. split; [exact Hc|split; [exact Hr|]]. rewrite !Hl by reflexivity.
  split; reflexivity.
Defined.
Lemma overlay_commit_no_retry_witness : commit (test_overlay 1) = None.
Proof. apply (overlay_commit_no_retry (test_overlay 1) (mkTestDB ∅ 1) (mkTestDB ∅ 0)); reflexivity. Defined.

End OverlayDB.
