(* ===== verification/TrieDB.v ===== *)
(** * The Merkle trie (libdevcore/TrieDB.h, TrieCommon.cpp)

    The operations of [GenericTrieDB] on a store of nodes.  A value of type
    [RLP] is the tree that RLPCodec reads from its bytes ([None]: the null
    [RLP()]); its [data()] is the encoding of the tree, and what an [RLPStream]
    writes is the tree of the items.  Keys are the slices of TrieCommon.

    An operation passes the store along and collects, as its third result,
    the strings it hands to [forceInsertNode]: a collision of the hash is a
    statement about these.  A failed [assert] is an exception of the model. *)
From S2P Require Import Prelude CommonData RLP RLPCodec TrieCommon NodeDB.

Module TrieDB.
Import RLPCodec TrieCommon.

Inductive TrieError := Assertion | RootNotFound | BadRoot | Rlp (e : RLP.RLPError) | OutOfFuel | Undefined.

Section Trie.
Context {DB : Type} `{NodeDB DB} (sha3 : bytes → bytes).

Definition M (A : Type) : Type := DB → result TrieError A * DB * list bytes.

#[export] Instance M_ret : MRet M := λ A a d, (Ok a, d, []).
#[export] Instance M_bind : MBind M := λ A B f m d,
  match m d with
  | (Ok a, d, w) => let '(r, d, w') := f a d in (r, d, w ++ w')
  | (Err e, d, w) => (Err e, d, w)
  end.
Definition throw {A} (e : TrieError) : M A := λ d, (Err e, d, []).
Definition assert (b : bool) : M () := if b then mret () else throw Assertion.

(** ** Items *)

Definition isEmpty (t : item) : bool :=
  match t with Data [] | List [] => true | _ => false end.
Definition isList (t : item) : bool := match t with List _ => true | Data _ => false end.
Definition data (t : item) : bytes := encode t.
Definition payload (t : item) : bytes :=
  match t with Data bs => bs | List l => concat (map encode l) end.
(** [toString()], which does not throw by default *)
Definition toString (t : item) : M bytes :=
  match t with Data bs => mret bs | List _ => mret [] end.
(** [toHash<h256>()] with [Strict]: shorter data is padded, longer data throws. *)
Definition toHash (t : item) : M bytes :=
  match t with
  | Data bs =>
    if (32 <? length bs)%nat then throw (Rlp RLP.BadCast)
    else mret (replicate (32 - length bs) 0 ++ bs)
  | List _ => throw (Rlp RLP.BadCast)
  end.
Definition toRLP (s : bytes) : M (option item) :=
  match s with
  | [] => mret None
  | _ => match parse s with Some t => mret (Some t) | None => throw (Rlp RLP.BadRLP) end
  end.
Definition itemCount (t : option item) : nat :=
  match t with Some (List l) => length l | _ => 0 end.
Definition two_items (l : list item) : option (item * item) :=
  match l with [a; b] => Some (a, b) | _ => None end.
Definition item_ (l : list item) (i : nat) : item := nth i l (Data []).

(** [isLeaf], [keyOf] of the first of the two items of a node; without a
    payload [isLeaf] reads out of bounds. *)
Definition isLeaf_ (first : item) : M bool :=
  match payload first with [] => throw Undefined | pl => mret (isLeaf pl) end.
Definition keyOf_ (first : item) : NibbleSlice := keyOf (payload first).

Fixpoint uniqueInUse_loop (l : list item) (except i used : Z) : Z :=
  match l with
  | [] => used
  | t :: l =>
    if negb (i =? except) && negb (isEmpty t) then
      if used =? 255 then uniqueInUse_loop l except (i + 1) i else 255
    else uniqueInUse_loop l except (i + 1) used
  end.
Definition uniqueInUse (orig : list item) (except : Z) : Z := uniqueInUse_loop orig except 0 255.

(** ** Nodes *)

Definition node (h : bytes) : M bytes := λ d, (Ok (lookup_node d h), d, []).
Definition nodeExists (h : bytes) : M bool := λ d, (Ok (exists_node d h), d, []).
Definition forceInsertNode (v : bytes) : M bytes :=
  λ d, (Ok (sha3 v), insert_node d (sha3 v) v, [v]).
Definition forceKillNode (h : bytes) : M () := λ d, (Ok (), kill_node d h, []).
Definition killNode (t : item) (h : bytes) : M () :=
  if 32 <=? RLP.size (data t) then forceKillNode h else mret ().
Definition killNode_ (t : item) : M () := killNode t (sha3 (data t)).
(** [streamNode]: the item that is appended *)
Definition streamNode (b : item) : M item :=
  if RLP.size (data b) <? 32 then mret b else h ← forceInsertNode (data b); mret (Data h).

(** [_r.isList() ? _r : RLP(node(_r.toHash<h256>()))] *)
Definition derefRLP (t : item) : M (option item) :=
  if isList t then mret (Some t) else h ← toHash t; s ← node h; toRLP s.
Definition isTwoItemNode (n : item) : M bool :=
  match n with
  | Data _ => h ← toHash n; s ← node h; r ← toRLP s; mret (itemCount r =? 2)%nat
  | List l => mret (length l =? 2)%nat
  end.

(** ** Lookup *)

Fixpoint atAux (fuel : nat) (here : option item) (key : NibbleSlice) : M bytes :=
  match fuel with
  | O => throw OutOfFuel
  | S fuel =>
    match here with
    | None => mret []
    | Some here =>
      if isEmpty here then mret []
      else
        match here with
        | Data _ => throw Assertion
        | List l =>
          match two_items l with
          | Some (a, b) =>
            leaf ← isLeaf_ a;
            let k := keyOf_ a in
            if equal key k && leaf then toString b
            else if contains key k && negb leaf then
              n ← derefRLP b;
              atAux fuel n (mid key (size k))
            else mret []
          | None =>
            assert (length l =? 17)%nat;;
            if (size key =? 0)%nat then toString (item_ l 16)
            else
              let n := item_ l (Z.to_nat (at_ key 0)) in
              if isEmpty n then mret []
              else n ← derefRLP n; atAux fuel n (mid key 1)
          end
        end
    end
  end.

(** ** Insertion *)

Definition place (orig : item) (k : NibbleSlice) (s : bytes) : M item :=
  killNode_ orig;;
  if isEmpty orig then mret (List [Data (hexPrefixEncode k true 0 (-1)); Data s])
  else
    match orig with
    | Data _ => throw Assertion
    | List l =>
      match two_items l with
      | Some (a, _) => mret (List [a; Data s])
      | None => assert (length l =? 17)%nat;; mret (List (take 16 l ++ [Data s]))
      end
    end.

Definition cleve (orig : item) (s : nat) : M item :=
  killNode_ orig;;
  match orig with
  | List [a; b] =>
    let k := keyOf_ a in
    assert (negb (s =? 0)%nat && (s <=? size k)%nat);;
    leaf ← isLeaf_ a;
    let bottom := List [Data (hexPrefixEncode k leaf (Z.of_nat s) (-1)); b] in
    n ← streamNode bottom;
    mret (List [Data (hexPrefixEncode k false 0 (Z.of_nat s)); n])
  | _ => throw Assertion
  end.

(** The loop over the 16 slots of [branch] leaves [""] in the others. *)
Definition branch (orig : item) : M item :=
  match orig with
  | List [a; b] =>
    killNode_ orig;;
    let k := keyOf_ a in
    leaf ← isLeaf_ a;
    if (size k =? 0)%nat then
      assert leaf;; mret (List (replicate 16 (Data []) ++ [b]))
    else
      n ← (if leaf || (1 <? size k)%nat
           then streamNode (List [Data (hexPrefixEncode (mid k 1) leaf 0 (-1)); b])
           else mret b);
      mret (List (<[Z.to_nat (at_ k 0) := n]> (replicate 16 (Data [])) ++ [Data []]))
  | _ => throw Assertion
  end.

(** [mergeAtAux], given [mergeAt] *)
Definition mergeAtAux (mergeAt : option item → bytes → bool → M item) (orig : item) : M item :=
  b ← (if negb (isList orig) && negb (isEmpty orig) then
         h ← toHash orig;
         s ← node h;
         r ← toRLP s;
         assert (match r with Some _ => true | None => false end);;
         mergeAt r (sha3 (default [] (data <$> r))) false
       else mergeAt (Some orig) (sha3 (data orig)) true);
  streamNode b.

Fixpoint mergeAt (fuel : nat) (orig : option item) (origHash : bytes) (k : NibbleSlice) (v : bytes)
    (inLine : bool) : M item :=
  match fuel with
  | O => throw OutOfFuel
  | S fuel =>
    match orig with
    | None => throw Assertion
    | Some o =>
      if isEmpty o then place o k v
      else
        match o with
        | Data _ => throw Assertion
        | List l =>
          match two_items l with
          | Some (a, b) =>
            let k' := keyOf_ a in
            leaf ← isLeaf_ a;
            if equal k' k && leaf then place o k v
            else if contains k k' && negb leaf then
              (if inLine then mret () else killNode o origHash);;
              n ← mergeAtAux (λ o h i, mergeAt fuel o h (mid k (size k')) v i) b;
              mret (List [a; n])
            else
              let sh := shared k k' in
              if negb (sh =? 0)%nat then
                cleved ← cleve o sh;
                mergeAt fuel (Some cleved) (sha3 (data cleved)) k v true
              else
                branched ← branch o;
                mergeAt fuel (Some branched) (sha3 (data branched)) k v true
          | None =>
            assert (length l =? 17)%nat;;
            if (size k =? 0)%nat then place o k v
            else
              (if inLine then mret () else killNode o origHash);;
              let i := Z.to_nat (at_ k 0) in
              n ← mergeAtAux (λ o h i, mergeAt fuel o h (mid k 1) v i) (item_ l i);
              mret (List (<[i := n]> l))
          end
        end
    end
  end.

(** ** Removal *)

Definition merge (orig : list item) (i : Z) : M item :=
  assert (length orig =? 17)%nat;;
  let o := item_ orig (Z.to_nat i) in
  if negb (i =? 16) then
    assert (negb (isEmpty o));;
    mret (List [Data (hexPrefixEncode_range [i] false 1 2 0); o])
  else mret (List [Data (hexPrefixEncode_vector [] true 0 (-1)); o]).

Definition graft (orig : item) : M item :=
  match orig with
  | List [a; b] =>
    n ← (if isList b then mret (Some b)
         else lh ← toHash b; s ← node lh; forceKillNode lh;; toRLP s);
    match n with
    | Some (List [a'; b']) =>
      leaf ← isLeaf_ a';
      mret (List [Data (hexPrefixEncode2 (keyOf_ a) (keyOf_ a') leaf); b'])
    | _ => throw Assertion
    end
  | _ => throw Assertion
  end.

(** A branch with one slot in use becomes a node of two items. *)
Definition merge_used (orig : list item) (used : Z) : M item :=
  two ← isTwoItemNode (item_ orig (Z.to_nat used));
  merged ← merge orig used;
  if two : bool then graft merged else mret merged.

(** [deleteAtAux], given [deleteAt]; [None]: not found, no change *)
Definition deleteAtAux (deleteAt : option item → M (option item)) (orig : item) : M (option item) :=
  b ← (if isEmpty orig then mret None else r ← derefRLP orig; deleteAt r);
  match b with
  | None => mret None
  | Some b => n ← streamNode b; mret (Some n)
  end.

Fixpoint deleteAt (fuel : nat) (orig : option item) (k : NibbleSlice) : M (option item) :=
  match fuel with
  | O => throw OutOfFuel
  | S fuel =>
    match orig with
    | None => throw Assertion
    | Some o =>
      if isEmpty o then mret None
      else
        match o with
        | Data _ => throw Assertion
        | List l =>
          match two_items l with
          | Some (a, b) =>
            let k' := keyOf_ a in
            leaf ← isLeaf_ a;
            if equal k' k && leaf then killNode_ o;; mret (Some (Data []))
            else if contains k k' then
              n ← deleteAtAux (λ o, deleteAt fuel o (mid k (size k'))) b;
              match n with
              | None => mret None
              | Some n =>
                killNode_ o;;
                two ← isTwoItemNode n;
                if two : bool then b ← graft (List [a; n]); mret (Some b)
                else mret (Some (List [a; n]))
              end
            else mret None
          | None =>
            assert (length l =? 17)%nat;;
            if (size k =? 0)%nat && negb (isEmpty (item_ l 16)) then
              killNode_ o;;
              let used := uniqueInUse l 16 in
              if negb (used =? 255) then b ← merge_used l used; mret (Some b)
              else mret (Some (List (take 16 l ++ [Data []])))
            else if (size k =? 0)%nat then throw Undefined
            else
              let i := Z.to_nat (at_ k 0) in
              n ← deleteAtAux (λ o, deleteAt fuel o (mid k 1)) (item_ l i);
              match n with
              | None => mret None
              | Some n =>
                killNode_ o;;
                let rlp := <[i := n]> l in
                let used := uniqueInUse rlp 255 in
                if used =? 255 then mret (Some (List rlp))
                else b ← merge_used rlp used; mret (Some b)
              end
          end
        end
    end
  end.

(** ** The trie *)

Definition RLPNull : bytes := encode (Data []).
Definition EmptyTrie : bytes := sha3 RLPNull.
(** A path takes at most three calls for each nibble of the key. *)
Definition fuel_of (key : bytes) : nat := S (S (S (2 * (2 * length key)))).

(** The operations take the root and return the new one. *)
Definition verifyRoot (root : bytes) : M bytes :=
  s ← node root;
  if RLP.size s =? 0 then throw RootNotFound else mret root.
(** [init] sets the root to the empty trie it has inserted; a store that does
    not show the node would make the code call itself again. *)
Definition init : M bytes :=
  root ← forceInsertNode RLPNull;
  e ← nodeExists root;
  (if e : bool then mret () else throw Undefined);;
  root ← verifyRoot root;
  s ← node root;
  assert (negb (RLP.size s =? 0));; mret root.
Definition setRoot (verify : bool) (root : bytes) : M bytes :=
  if verify then
    e ← nodeExists root;
    root ← (if bool_decide (root = EmptyTrie) && negb e then init else mret root);
    verifyRoot root
  else mret root.
Definition isNull (root : bytes) : M bool := s ← node root; mret (RLP.size s =? 0).
Definition isEmptyTrie (root : bytes) : M bool :=
  s ← node root; mret (bool_decide (root = EmptyTrie) && negb (RLP.size s =? 0)).
Definition root_ (root : bytes) : M bytes :=
  s ← node root; match s with [] => throw BadRoot | _ => mret root end.

Definition at_key (root key : bytes) : M bytes :=
  s ← node root; r ← toRLP s; atAux (fuel_of key) r (mkSlice key 0).
Definition contains_key (root key : bytes) : M bool :=
  v ← at_key root key; mret (match v with [] => false | _ => true end).
Definition insert (root key value : bytes) : M bytes :=
  rootValue ← node root;
  assert (negb (RLP.size rootValue =? 0));;
  r ← toRLP rootValue;
  b ← mergeAt (fuel_of key) r root (mkSlice key 0) value false;
  (if RLP.size rootValue <? 32 then forceKillNode root else mret ());;
  forceInsertNode (data b).
Definition remove (root key : bytes) : M bytes :=
  rv ← node root;
  r ← toRLP rv;
  b ← deleteAt (fuel_of key) r (mkSlice key 0);
  match b with
  | None => mret root
  | Some b =>
    (if RLP.size rv <? 32 then forceKillNode root else mret ());;
    forceInsertNode (data b)
  end.

(** [HashedGenericTrieDB]: the keys are hashed. *)
Definition hashed_at (root key : bytes) : M bytes := at_key root (sha3 key).
Definition hashed_contains (root key : bytes) : M bool := contains_key root (sha3 key).
Definition hashed_insert (root key value : bytes) : M bytes := insert root (sha3 key) value.
Definition hashed_remove (root key : bytes) : M bytes := remove root (sha3 key).

End Trie.
End TrieDB.
