(* ===== verification/TrieSpec.v ===== *)
(** * Tries and their contents

    The specification of the trie: trees with nibbles on the paths, in the
    normal form that the operations of TrieDB keep, and the items that
    represent them in the store.  A tree in normal form is determined by its
    contents. *)
From S2P Require Import Prelude CommonData RLP RLPCodec TrieCommon.

Module TrieSpec.
Import CommonData RLP RLPCodec TrieCommon.
#[local] Notation size := RLP.size.

Inductive trie :=
| Empty
| Leaf (k : list Z) (v : bytes)
| Ext (k : list Z) (c : trie)
| Branch (cs : list trie) (v : bytes).

Lemma trie_induction (P : trie → Prop) :
  P Empty → (∀ k v, P (Leaf k v)) → (∀ k c, P c → P (Ext k c)) →
  (∀ cs v, Forall P cs → P (Branch cs v)) → ∀ t, P t.
Proof.
  intros He Hl Hx Hb. fix IH 1. intros [|k v|k c|cs v]; [exact He|apply Hl|apply Hx, IH|].
  apply Hb. induction cs as [|c cs IHcs]; constructor; [apply IH|exact IHcs].
Qed.

(** The value under a key; [[]]: none *)
Definition strip (p k : list Z) : option (list Z) :=
  if decide (take (length p) k = p) then Some (drop (length p) k) else None.
Fixpoint get (t : trie) (k : list Z) : bytes :=
  match t with
  | Empty => []
  | Leaf k' v => if decide (k = k') then v else []
  | Ext p c => match strip p k with Some k => get c k | None => [] end
  | Branch cs v =>
    match k with
    | [] => v
    | n :: k =>
      match (if 0 <=? n then map get cs !! Z.to_nat n else None) with
      | Some f => f k
      | None => []
      end
    end
  end.

(** ** Normal form *)

Definition is_branch (t : trie) : bool := match t with Branch _ _ => true | _ => false end.
Definition value_ok (v : bytes) : Prop := v ≠ [] ∧ bytes_ok v ∧ Z.of_nat (length v) < 2 ^ 32.
Definition used_child (t : trie) : bool := match t with Empty => false | _ => true end.
Definition used_value (v : bytes) : bool := match v with [] => false | _ => true end.
Definition occupied (cs : list trie) (v : bytes) : list bool :=
  map used_child cs ++ [used_value v].
Definition two_used (l : list bool) : Prop :=
  ∃ i j, i ≠ j ∧ l !! i = Some true ∧ l !! j = Some true.

(** [wf n t]: no path is longer than [n] nibbles; a path is not empty above a
    branch and is not followed by another one; a branch has two slots in use. *)
Inductive wf : nat → trie → Prop :=
| wf_Empty n : wf n Empty
| wf_Leaf n k v : Forall nib k → (length k ≤ n)%nat → value_ok v → wf n (Leaf k v)
| wf_Ext n m k cs v :
    Forall nib k → k ≠ [] → (length k + m ≤ n)%nat → wf m (Branch cs v) → wf n (Ext k (Branch cs v))
| wf_Branch n cs v :
    length cs = 16%nat → Forall (wf n) cs → (v = [] ∨ value_ok v) → two_used (occupied cs v) →
    wf (S n) (Branch cs v).

Lemma strip_app p k : strip p (p ++ k) = Some k.
Proof. unfold strip. rewrite take_app_length, drop_app_length. by case_decide. Qed.
Lemma strip_Some p k k' : strip p k = Some k' → k = p ++ k'.
Proof.
  unfold strip. case_decide as Hd; intros [= <-]. rewrite <-Hd at 1. by rewrite take_drop.
Qed.
Lemma strip_None p k : strip p k = None → ¬ p `prefix_of` k.
Proof.
  unfold strip. case_decide as Hd; [done|]. intros _ [k' ->]. by rewrite take_app_length in Hd.
Qed.

Lemma get_Leaf k v : get (Leaf k v) k = v.
Proof. cbn. by case_decide. Qed.
Lemma get_Ext p c k : get (Ext p c) (p ++ k) = get c k.
Proof. cbn. by rewrite strip_app. Qed.
Lemma get_Ext_inv p c k : get (Ext p c) k ≠ [] → ∃ k', k = p ++ k' ∧ get c k' ≠ [].
Proof. cbn. destruct (strip p k) eqn:Hs; [|done]. apply strip_Some in Hs as ->. eauto. Qed.
Lemma get_Branch_cons cs v n k :
  get (Branch cs v) (n :: k) =
  if 0 <=? n then match cs !! Z.to_nat n with Some c => get c k | None => [] end else [].
Proof.
  cbn. destruct (0 <=? n); [|done]. rewrite list_lookup_fmap. by destruct (cs !! Z.to_nat n).
Qed.
Lemma get_child cs v i c k : cs !! i = Some c → get (Branch cs v) (Z.of_nat i :: k) = get c k.
Proof.
  intros Hc. rewrite get_Branch_cons. destruct (Z.leb_spec 0 (Z.of_nat i)); [|lia]. by rewrite Nat2Z.id, Hc.
Qed.

(** The keys of a tree in normal form are nibbles, at most [n] of them, and
    a tree that is not empty has one. *)
Lemma wf_key n t k : wf n t → get t k ≠ [] → Forall nib k ∧ (length k ≤ n)%nat.
Proof.
  revert n k. induction t as [|k' v|p c IH|cs v IH] using trie_induction; intros n k Hwf Hk.
  - done.
  - inversion Hwf; subst. cbn in Hk. case_decide; [|done]. by subst.
  - inversion Hwf as [| |? m ? cs v Hp _ Hn Hc|]; subst. apply get_Ext_inv in Hk as (k'&->&Hk).
    destruct (IH m k' Hc Hk). split; [by apply Forall_app|]. rewrite length_app. lia.
  - inversion Hwf as [| | |m ? ? Hl Hcs _ _]; subst. destruct k as [|i k]; [split; [done|cbn; lia]|].
    rewrite get_Branch_cons in Hk. destruct (Z.leb_spec 0 i); [|done].
    destruct (cs !! Z.to_nat i) as [c|] eqn:Hc; [|done].
    rewrite Forall_lookup in Hcs, IH. destruct (IH _ _ Hc m k (Hcs _ _ Hc) Hk).
    apply lookup_lt_Some in Hc. split; [constructor; [unfold nib; lia|done]|cbn; lia].
Qed.

Lemma occupied_lookup cs v i :
  length cs = 16%nat → occupied cs v !! i = Some true →
  (i = 16%nat ∧ v ≠ []) ∨ (∃ c, cs !! i = Some c ∧ c ≠ Empty).
Proof.
  intros Hl. unfold occupied. intros [Hi|[Hi Hv]]%lookup_app_Some.
  - right. rewrite list_lookup_fmap in Hi. destruct (cs !! i) as [c|]; [|done]. exists c. split; [done|].
    by destruct c.
  - left. rewrite length_map, Hl in *. destruct (i - 16)%nat as [|j] eqn:Hj; [|by destruct j].
    split; [lia|]. by destruct v.
Qed.

Lemma wf_inhabited n t : wf n t → t ≠ Empty → ∃ k, get t k ≠ [].
Proof.
  revert n. induction t as [|k v|p c IH|cs v IH] using trie_induction; intros n Hwf Hne.
  - done.
  - inversion Hwf as [|? ? ? _ _ Hv| |]; subst. exists k. rewrite get_Leaf. apply Hv.
  - inversion Hwf as [| |? m ? cs v Hp _ Hn Hc|]; subst. destruct (IH m Hc) as [k Hk]; [done|].
    exists (p ++ k). by rewrite get_Ext.
  - inversion Hwf as [| | |m ? ? Hl Hcs _ (i&j&_&Hi&_)]; subst.
    apply occupied_lookup in Hi as [[_ Hv]|(c&Hc&Hce)]; [by exists []| |done].
    rewrite Forall_lookup in Hcs, IH. destruct (IH _ _ Hc m (Hcs _ _ Hc) Hce) as [k Hk].
    exists (Z.of_nat i :: k). by rewrite (get_child cs v i c).
Qed.

(** A branch has two keys that differ at once. *)
Definition split_at_once (k1 k2 : list Z) : Prop := k1 ≠ k2 ∧ common k1 k2 = 0%nat.
Lemma branch_split n cs v :
  wf n (Branch cs v) →
  ∃ k1 k2, get (Branch cs v) k1 ≠ [] ∧ get (Branch cs v) k2 ≠ [] ∧ split_at_once k1 k2.
Proof.
  inversion 1 as [| | |m ? ? Hl Hcs _ (i&j&Hij&Hi&Hj)]; subst.
  assert (∀ i, occupied cs v !! i = Some true →
    ∃ k, get (Branch cs v) k ≠ [] ∧ (i = 16%nat ∧ k = [] ∨ ∃ k', k = Z.of_nat i :: k')) as Hkey.
  { intros x Hx. apply occupied_lookup in Hx as [[-> Hv]|(c&Hc&Hce)]; [|rewrite Forall_lookup in Hcs|done].
    - exists []. split; [done|]. by left.
    - destruct (wf_inhabited m c) as [k Hk]; [by eapply Hcs|done|]. exists (Z.of_nat x :: k).
      rewrite (get_child cs v x c) by done. split; [done|]. right. eauto. }
  destruct (Hkey i Hi) as (k1&Hk1&H1), (Hkey j Hj) as (k2&Hk2&H2).
  exists k1, k2. split; [done|]. split; [done|]. unfold split_at_once.
  destruct H1 as [[-> ->]|[k1' ->]], H2 as [[-> ->]|[k2' ->]]; try done. cbn.
  destruct (Z.eqb_spec (Z.of_nat i) (Z.of_nat j)); [lia|]. split; [congruence|done].
Qed.

(** A path in front of both: the longest common prefix of two keys *)
Lemma split_prefix p q k1 k2 :
  split_at_once k1 k2 → q `prefix_of` p ++ k1 → q `prefix_of` p ++ k2 → q `prefix_of` p.
Proof.
  intros [Hne Hc]. revert q. induction p as [|a p IH]; intros q [r1 H1] [r2 H2]; cbn in *.
  - destruct q as [|b q]; [done|]. destruct k1 as [|a1 k1], k2 as [|a2 k2]; try done.
    cbn in *. injection H1 as -> _. injection H2 as -> _. by rewrite Z.eqb_refl in Hc.
  - destruct q as [|b q]; [apply prefix_nil|]. injection H1 as -> H1. injection H2 as H2.
    apply prefix_cons, IH; eexists; eauto.
Qed.

(** What is neither empty nor a leaf is a branch below a path. *)
Definition under (p : list Z) (t : trie) : trie := match p with [] => t | _ => Ext p t end.
Lemma get_under p t k : get (under p t) (p ++ k) = get t k.
Proof. destruct p; [done|]. apply get_Ext. Qed.
Lemma get_under_inv p t k : get (under p t) k ≠ [] → p `prefix_of` k.
Proof. destruct p; [intros _; apply prefix_nil|]. intros (k'&->&_)%get_Ext_inv. by exists k'. Qed.

Lemma wf_cases n t :
  wf n t →
  t = Empty ∨ (∃ k v, t = Leaf k v ∧ value_ok v) ∨
  ∃ p cs v m, t = under p (Branch cs v) ∧ (m < n)%nat ∧ wf (S m) (Branch cs v).
Proof.
  destruct 1 as [n|n k v _ _ Hv|n m k cs v Hk Hne Hn Hb|n cs v Hl Hcs Hv Htwo]; [by left|right; left; eauto|..];
    right; right.
  - inversion Hb as [| | |m' ? ? Hl Hcs _ _]; subst.
    exists k, cs, v, m'. destruct k; [done|]. cbn in Hn. split; [done|]. split; [lia|done].
  - exists [], cs, v, n. split; [done|]. split; [lia|by constructor].
Qed.

Lemma under_split n p cs v :
  wf n (Branch cs v) →
  ∃ k1 k2, get (under p (Branch cs v)) (p ++ k1) ≠ [] ∧ get (under p (Branch cs v)) (p ++ k2) ≠ [] ∧
    split_at_once k1 k2.
Proof.
  intros Hb. destruct (branch_split n cs v Hb) as (k1&k2&H1&H2&Hs). exists k1, k2. by rewrite !get_under.
Qed.

Lemma under_prefix n p cs v q t :
  wf n (Branch cs v) → (∀ k, get (under p (Branch cs v)) k = get (under q t) k) → q `prefix_of` p.
Proof.
  intros Hb Heq. destruct (under_split n p cs v Hb) as (k1&k2&H1&H2&Hs). rewrite Heq in H1, H2.
  apply get_under_inv in H1, H2. by eapply split_prefix.
Qed.
Lemma under_not_leaf n p cs v k w :
  wf n (Branch cs v) → ¬ (∀ k', get (under p (Branch cs v)) k' = get (Leaf k w) k').
Proof.
  intros Hb Heq. destruct (under_split n p cs v Hb) as (k1&k2&H1&H2&Hs&_). rewrite Heq in H1, H2.
  cbn in H1, H2. repeat case_decide; [|done..]. apply Hs, (app_inv_head p). congruence.
Qed.
Lemma wf_empty n t : wf n t → (∀ k, get t k = []) → t = Empty.
Proof.
  intros Hwf Heq. destruct (decide (used_child t = true)) as [Ht|Ht]; [|by destruct t].
  destruct (wf_inhabited n t Hwf) as [k []]; [by intros ->|apply Heq].
Qed.

(** Two trees in normal form with the same contents are the same. *)
Lemma wf_unique n1 n2 t1 t2 : wf n1 t1 → wf n2 t2 → (∀ k, get t1 k = get t2 k) → t1 = t2.
Proof.
  revert n2 t1 t2. induction n1 as [n1 IH] using lt_wf_ind. intros n2 t1 t2 H1 H2 Heq.
  destruct (wf_cases n1 t1 H1) as [->|[(k1&v1&->&Hv1)|(p1&cs1&v1&m1&->&Hm1&Hb1)]].
  { symmetry. eapply wf_empty; [done|]. intros k. by rewrite <-Heq. }
  all: destruct (wf_cases n2 t2 H2) as [->|[(k2&v2&->&Hv2)|(p2&cs2&v2&m2&->&Hm2&Hb2)]].
  - eapply wf_empty; [done|]. intros k. by rewrite Heq.
  - pose proof (Heq k1) as Hk. rewrite get_Leaf in Hk. cbn in Hk.
    case_decide; [congruence|]. by destruct Hv1.
  - exfalso. eapply under_not_leaf; [done|]. intros k. symmetry. apply Heq.
  - eapply wf_empty; [done|]. intros k. by rewrite Heq.
  - exfalso. by eapply under_not_leaf.
  - assert (p1 = p2) as ->.
    { pose proof (under_prefix _ _ _ _ p2 _ Hb1 Heq) as Hp1.
      pose proof (under_prefix _ _ _ _ p1 _ Hb2 (λ k, eq_sym (Heq k))) as Hp2.
      symmetry. apply prefix_length_eq; [done|]. by apply prefix_length. }
    assert (∀ k, get (Branch cs1 v1) k = get (Branch cs2 v2) k) as Hb
      by (intros k; by rewrite <-(get_under p2), Heq, get_under).
    f_equal. f_equal; [|exact (Hb [])].
    inversion Hb1 as [| | |? ? ? Hl1 Hcs1 _ _]; inversion Hb2 as [| | |? ? ? Hl2 Hcs2 _ _]; subst.
    apply list_eq_same_length with 16%nat; [done|done|]. intros i c1 c2 Hi Hc1 Hc2.
    rewrite Forall_lookup in Hcs1, Hcs2. apply (IH m1 Hm1 m2); [eauto|eauto|].
    intros k. by rewrite <-(get_child cs1 v1 i c1), <-(get_child cs2 v2 i c2).
Qed.

(** ** Items *)

Section Items.
Context (sha3 : bytes → bytes).

Definition ref_item (i : item) : item :=
  if size (encode i) <? 32 then i else Data (sha3 (encode i)).
Fixpoint node_item (t : trie) : item :=
  match t with
  | Empty => Data []
  | Leaf k v => List [Data (hex_prefix k true); Data v]
  | Ext k c => List [Data (hex_prefix k false); ref_item (node_item c)]
  | Branch cs v => List (map (λ c, ref_item (node_item c)) cs ++ [Data v])
  end.
Definition ref (t : trie) : item := ref_item (node_item t).

Hypothesis sha3_ok : ∀ b, bytes_ok (sha3 b) ∧ length (sha3 b) = 32%nat.

Lemma encode_ref_item i :
  bytes_ok (encode i) → bytes_ok (encode (ref_item i)) ∧ size (encode (ref_item i)) ≤ 41.
Proof.
  intros Hi. unfold ref_item. destruct (Z.ltb_spec (size (encode i)) 32); [split; [done|lia]|].
  destruct (sha3_ok (encode i)) as [Hok Hl].
  assert (size (sha3 (encode i)) = 32) as Hs by (unfold size; lia).
  destruct (encode_data_ok (sha3 (encode i))); [done|lia|]. split; [done|lia].
Qed.

Definition item_good (i : item) : Prop := bytes_ok (encode i) ∧ size (encode i) < 2 ^ 63.
Lemma parse_encode i : item_good i → parse (encode i) = Some i.
Proof. intros [Hok Hs]. by apply parse_spec. Qed.
Lemma two_items_good a b :
  item_good (Data a) → item_good b → bytes_ok a → size a < 2 ^ 40 → size (encode b) < 2 ^ 40 →
  item_good (List [Data a; b]).
Proof.
  intros [Ha _] [Hb _] Hok Hs Hs'. destruct (encode_data_ok a) as [_ Has]; [done|lia|].
  destruct (encode_list_ok [Data a; b]) as [H1 H2]; [by repeat constructor| |].
  - cbn [map concat]. rewrite app_nil_r, size_app. lia.
  - split; [done|]. cbn [map concat] in H2. rewrite app_nil_r, size_app in H2. lia.
Qed.
Lemma data_good bs : bytes_ok bs → size bs < 2 ^ 40 → item_good (Data bs).
Proof. intros Hok Hs. destruct (encode_data_ok bs); [done|lia|]. split; [done|lia]. Qed.
Lemma size_hex_prefix k leaf : size (hex_prefix k leaf) ≤ 1 + Z.of_nat (length k).
Proof.
  unfold size. rewrite length_hex_prefix. pose proof (Nat.div_le_upper_bound (length k) 2 (length k)). lia.
Qed.
Lemma hex_prefix_good k leaf :
  Forall nib k → Z.of_nat (length k) < 2 ^ 32 →
  item_good (Data (hex_prefix k leaf)) ∧ bytes_ok (hex_prefix k leaf) ∧ size (hex_prefix k leaf) < 2 ^ 40.
Proof.
  intros Hk Hl. pose proof (size_hex_prefix k leaf). pose proof (hex_prefix_ok k leaf Hk).
  split; [apply data_good; [done|lia]|]. split; [done|lia].
Qed.
Lemma concat_small l :
  Forall (λ t, size (encode t) ≤ 41) l → size (concat (map encode l)) ≤ 41 * Z.of_nat (length l).
Proof.
  induction 1 as [|t l Ht Hl IH]; [done|]. cbn [map concat length]. rewrite size_app. lia.
Qed.

(** The items of a node whose parts are good *)
Lemma leaf_item_good k v :
  Forall nib k → Z.of_nat (length k) < 2 ^ 32 → (v = [] ∨ value_ok v) →
  item_good (List [Data (hex_prefix k true); Data v]).
Proof.
  intros Hk Hl Hv. destruct (hex_prefix_good k true Hk Hl) as (Hg&Hok&Hs).
  assert (bytes_ok v ∧ size v < 2 ^ 32) as [Hv1 Hv2]
    by (destruct Hv as [->|(_&?&?)]; [split; [apply bytes_ok_nil|done]|done]).
  destruct (encode_data_ok v); [done|lia|]. apply two_items_good; [done|apply data_good; [done|lia]|done|done|lia].
Qed.
Lemma ext_item_good k leaf i :
  Forall nib k → Z.of_nat (length k) < 2 ^ 32 → bytes_ok (encode i) →
  item_good (List [Data (hex_prefix k leaf); ref_item i]).
Proof.
  intros Hk Hl Hi. destruct (hex_prefix_good k leaf Hk Hl) as (Hg&Hok&Hs).
  destruct (encode_ref_item i Hi). apply two_items_good; [done|split; [done|lia]|done|done|lia].
Qed.
Lemma branch_item_good l v :
  Forall (λ t, bytes_ok (encode t) ∧ size (encode t) ≤ 41) l → length l = 16%nat → (v = [] ∨ value_ok v) →
  item_good (List (l ++ [Data v])).
Proof.
  intros [Hl Hls]%Forall_and Hlen Hv.
  assert (bytes_ok v ∧ size v < 2 ^ 32) as [Hv1 Hv2]
    by (destruct Hv as [->|(_&?&?)]; [split; [apply bytes_ok_nil|done]|done]).
  destruct (encode_data_ok v) as [Hd Hds]; [done|lia|]. pose proof (concat_small l Hls) as Hc.
  destruct (encode_list_ok (l ++ [Data v])) as [H1 H2]; [apply Forall_app; by repeat constructor| |];
    rewrite map_app, concat_app in *; cbn [map concat] in *; rewrite app_nil_r, size_app in *; [lia|].
  split; [done|lia].
Qed.

Lemma node_item_good n t : wf n t → Z.of_nat n < 2 ^ 32 → item_good (node_item t).
Proof.
  revert n. induction t as [|k v|k c IH|cs v IH] using trie_induction; intros n Hwf Hn; cbn [node_item].
  - split; [by apply bytes_okb_spec|done].
  - inversion Hwf as [|? ? ? Hk Hl Hv| |]; subst. apply leaf_item_good; [done|lia|by right].
  - inversion Hwf as [| |? m ? cs v Hk _ Hm Hb|]; subst. destruct (IH m Hb ltac:(lia)) as [Hc _].
    apply ext_item_good; [done|lia|done].
  - inversion Hwf as [| | |m ? ? Hl Hcs Hv _]; subst. apply branch_item_good; [|by rewrite length_map|done].
    rewrite Forall_map. rewrite Forall_lookup in *. intros i c Hc.
    destruct (IH i c Hc m (Hcs i c Hc) ltac:(lia)). by apply encode_ref_item.
Qed.

End Items.
End TrieSpec.
