(* ===== verification/TrieRefine.v ===== *)
(** * The trie operations and the contents of the trie

    The operations of TrieDB, run on a store that holds a tree in normal form,
    compute with its contents.  The hash is not injective: the statements ask
    that no two of the strings that the store holds or that the run inserts
    have the same hash. *)
From S2P Require Import Prelude CommonData RLP RLPCodec TrieCommon NodeDB TrieDB TrieSpec.

Module TrieRefine.
Import CommonData RLPCodec TrieCommon TrieDB TrieSpec.

Section Refine.
Context {DB : Type} `{NodeDBLaws DB} (sha3 : bytes → bytes).
Hypothesis sha3_ok : ∀ b, bytes_ok (sha3 b) ∧ length (sha3 b) = 32%nat.
(** The strings among which the hash has no collision *)
Context (N : bytes → Prop).
Hypothesis no_collision : ∀ x y, N x → N y → sha3 x = sha3 y → x = y.

Notation M := (@M DB).
Notation node_item := (node_item sha3).
Notation ref := (ref sha3).
Notation ref_item := (ref_item sha3).

(** ** Triples *)

(** The store finds strings under their hashes, and all of them are in [N]. *)
Definition inv (d : DB) : Prop :=
  db_valid d ∧
  ∀ h, length h = 32%nat → lookup_node d h ≠ [] → sha3 (lookup_node d h) = h ∧ N (lookup_node d h).
Definition extends (d d' : DB) : Prop :=
  ∀ h, length h = 32%nat → lookup_node d h ≠ [] → lookup_node d' h = lookup_node d h.
Definition wp {A} (m : M A) (d : DB) (Q : A → DB → Prop) : Prop :=
  inv d → ∀ r d' w, m d = (r, d', w) → Forall N w →
  ∃ a, r = Ok a ∧ inv d' ∧ extends d d' ∧ Q a d'.

Lemma extends_refl d : extends d d.
Proof. done. Qed.
Lemma extends_trans d1 d2 d3 : extends d1 d2 → extends d2 d3 → extends d1 d3.
Proof. intros H1 H2 h Hl Hh. rewrite H2, H1; try done. by rewrite H1. Qed.

Lemma tr_ret {A} (a : A) d (Q : A → DB → Prop) : Q a d → wp (mret a) d Q.
Proof. intros HQ Hi r d' w [= <- <- <-] _. exists a. auto using extends_refl. Qed.
Lemma tr_bind {A B} (m : M A) (f : A → M B) d Q1 (Q : B → DB → Prop) :
  wp m d Q1 → (∀ a d', extends d d' → Q1 a d' → wp (f a) d' Q) → wp (m ≫= f) d Q.
Proof.
  intros Hm Hf Hi r d' w. unfold mbind, M_bind. destruct (m d) as [[rm dm] wm] eqn:Hmd.
  intros Heq Hw.
  assert (Forall N wm) as Hwm.
  { destruct rm; [|by injection Heq as <- <- <-]. destruct (f a dm) as [[r2 d2] w2].
    injection Heq as <- <- <-. by apply Forall_app in Hw as [? _]. }
  destruct (Hm Hi _ _ _ Hmd Hwm) as (a&->&Hid&Hext&HQ).
  destruct (f a dm) as [[r2 d2] w2] eqn:Hfd. injection Heq as <- <- <-.
  apply Forall_app in Hw as [_ Hw2].
  destruct (Hf a dm Hext HQ Hid _ _ _ Hfd Hw2) as (b&->&?&?&?). exists b. eauto using extends_trans.
Qed.
Lemma tr_bind_ret {A B} (a : A) (f : A → M B) d Q : wp (f a) d Q → wp (mret a ≫= f) d Q.
Proof. intros Hf. eapply (tr_bind _ _ _ (λ x d', x = a ∧ d' = d)); [by apply tr_ret|]. by intros ? ? _ [-> ->]. Qed.
Lemma tr_mono {A} (m : M A) d (Q1 Q : A → DB → Prop) :
  wp m d Q1 → (∀ a d', extends d d' → Q1 a d' → Q a d') → wp m d Q.
Proof. intros Hm HQ Hi r d' w Hmd Hw. destruct (Hm Hi _ _ _ Hmd Hw) as (a&->&?&?&?). exists a. auto. Qed.
Lemma wp_assert b d : b = true → wp (assert b) d (λ _ d', d' = d).
Proof. intros ->. by apply tr_ret. Qed.
(** [assert b;; m] for [b] that holds *)
Lemma wp_assert_bind {B} b (m : M B) d Q : b = true → wp m d Q → wp (assert b;; m) d Q.
Proof. intros Hb Hm. eapply tr_bind; [by apply wp_assert|]. by intros ? ? _ ->. Qed.

Lemma wp_node h d : wp (node h) d (λ s d', d' = d ∧ s = lookup_node d h).
Proof. intros Hi r d' w [= <- <- <-] _. eexists. auto using extends_refl. Qed.
Lemma wp_kill h d : wp (forceKillNode h) d (λ _ _, True).
Proof.
  intros [Hv Hh] r d' w [= <- <- <-] _. eexists. split; [done|].
  assert (∀ h', lookup_node (kill_node d h) h' = lookup_node d h') as Heq by (intros; by apply lookup_kill_node).
  split; [|split; [|done]].
  - split; [by apply valid_kill|]. intros h'. rewrite Heq. apply Hh.
  - intros h' _ _. apply Heq.
Qed.
Lemma wp_insert v d : v ≠ [] → wp (forceInsertNode sha3 v) d (λ h d', h = sha3 v ∧ lookup_node d' (sha3 v) = v).
Proof.
  intros Hne [Hv Hh] r d' w [= <- <- <-] Hw. inversion Hw as [|? ? HNv _]; subst. eexists. split; [done|].
  assert (∀ h', lookup_node (insert_node d (sha3 v) v) h' = if decide (h' = sha3 v) then v else lookup_node d h') as Heq
    by (intros; by apply lookup_insert_node).
  split; [|split; [|split; [done|rewrite Heq; by case_decide]]].
  - split; [by apply valid_insert|]. intros h'. rewrite Heq. case_decide; [by subst|apply Hh].
  - intros h' Hl Hh'. rewrite Heq. case_decide; [subst|done]. destruct (Hh _ Hl Hh') as [Hs HN].
    symmetry. by apply no_collision.
Qed.
Lemma wp_killNode t h d : wp (killNode t h) d (λ _ _, True).
Proof. unfold killNode. destruct (32 <=? _); [apply wp_kill|by apply tr_ret]. Qed.
Lemma wp_killNode_bind {B} t (m : M B) d Q :
  (∀ d', extends d d' → wp m d' Q) → wp (killNode_ sha3 t;; m) d Q.
Proof. intros Hm. eapply tr_bind; [apply wp_killNode|]. intros _ d' He _. by apply Hm. Qed.

(** ** Stored trees *)

(** The reference to [c] can be followed. *)
Definition resolves (d : DB) (c : trie) : Prop :=
  RLP.size (encode (node_item c)) < 32 ∨
  lookup_node d (sha3 (encode (node_item c))) = encode (node_item c).
Inductive stored (d : DB) : trie → Prop :=
| stored_Empty : stored d Empty
| stored_Leaf k v : stored d (Leaf k v)
| stored_Ext k c : resolves d c → stored d c → stored d (Ext k c)
| stored_Branch cs v :
    Forall (resolves d) cs → Forall (stored d) cs → stored d (Branch cs v).

Lemma encode_not_nil i : encode i ≠ [].
Proof.
  destruct i as [bs|l]; cbn.
  - unfold encode_data, header. destruct bs as [|b [|b' bs]]; [done| |by destruct (_ <? 56)].
    by destruct (b <? 128).
  - unfold header. by destruct (_ <? 56).
Qed.
Lemma resolves_mono d d' c : extends d d' → resolves d c → resolves d' c.
Proof.
  intros He [Hs|Hl]; [by left|right]. rewrite He; [done|apply sha3_ok|]. rewrite Hl. apply encode_not_nil.
Qed.
Lemma stored_mono d d' t : extends d d' → stored d t → stored d' t.
Proof.
  intros He. induction t as [|k v|k c IH|cs v IH] using trie_induction; intros Hs; inversion Hs; subst.
  - constructor.
  - constructor.
  - constructor; [by eapply resolves_mono|by apply IH].
  - constructor; rewrite Forall_lookup in *; intros i c Hc; [eapply resolves_mono; eauto|by eapply IH; eauto].
Qed.

Lemma toRLP_encode i d : item_good i → wp (toRLP (encode i)) d (λ r d', r = Some i ∧ d' = d).
Proof.
  intros Hg. unfold toRLP. destruct (encode i) as [|b s] eqn:Hi; [by apply encode_not_nil in Hi|].
  rewrite <-Hi, parse_encode by done. by apply tr_ret.
Qed.
Lemma wp_streamNode i d :
  wp (streamNode sha3 i) d (λ n d', n = ref_item i ∧
    (RLP.size (encode i) < 32 ∨ lookup_node d' (sha3 (encode i)) = encode i)).
Proof.
  unfold streamNode, data, TrieSpec.ref_item. destruct (Z.ltb_spec (RLP.size (encode i)) 32).
  - apply tr_ret. auto.
  - eapply tr_bind; [apply wp_insert, encode_not_nil|]. intros h d' _ [-> Hl]. apply tr_ret. auto.
Qed.
Lemma wp_stream t d :
  wp (streamNode sha3 (node_item t)) d (λ n d', n = ref t ∧ resolves d' t).
Proof. apply wp_streamNode. Qed.

Lemma node_item_list t : t ≠ Empty → ∃ a l, node_item t = List (a :: l).
Proof. destruct t as [| | |cs v]; [done|cbn; eauto..]. intros _. destruct cs; cbn; eauto. Qed.
Lemma ref_empty t : isEmpty (ref t) = negb (used_child t).
Proof.
  assert (t = Empty ∨ t ≠ Empty) as [->|Hne] by (destruct t; auto); [done|].
  destruct (node_item_list t Hne) as (a&l&Hi). unfold TrieSpec.ref, TrieSpec.ref_item. rewrite Hi.
  destruct (_ <? 32); [by destruct t|]. cbn. destruct (sha3_ok (encode (List (a :: l)))) as [_ Hl].
  destruct (sha3 _); [done|by destruct t].
Qed.
Lemma toHash_sha3 b : toHash (DB:=DB) (Data (sha3 b)) = mret (sha3 b).
Proof. unfold toHash. destruct (sha3_ok b) as [_ Hl]. rewrite Hl. done. Qed.

Lemma wp_deref n t d :
  wf n t → Z.of_nat n < 2 ^ 32 → t ≠ Empty → resolves d t →
  wp (derefRLP (ref t)) d (λ r d', r = Some (node_item t) ∧ d' = d).
Proof.
  intros Hwf Hn Hne Hr. pose proof (node_item_good sha3 sha3_ok n t Hwf Hn) as Hg.
  destruct (node_item_list t Hne) as (a&l&Hi). unfold derefRLP, TrieSpec.ref, TrieSpec.ref_item.
  destruct (Z.ltb_spec (RLP.size (encode (node_item t))) 32) as [Hs|Hs].
  - rewrite Hi. cbn [isList]. by apply tr_ret.
  - cbn [isList]. rewrite toHash_sha3. apply tr_bind_ret. eapply tr_bind; [apply wp_node|].
    intros s d' _ [-> ->]. destruct Hr as [?|Hr]; [lia|]. rewrite Hr. by apply toRLP_encode.
Qed.

(** ** Keys and items *)

Definition key_is (k : NibbleSlice) (ks : list Z) : Prop := slice_ok k ∧ nibs k = ks.
Lemma key_size k ks : key_is k ks → size k = length ks.
Proof. intros [_ <-]. by rewrite length_nibs. Qed.
Lemma key_mid k p ks : key_is k (p ++ ks) → key_is (mid k (length p)) ks.
Proof.
  intros [Hok Hk]. split; [|by rewrite nibs_mid, Hk, drop_app_length].
  apply mid_ok; [done|]. rewrite <-length_nibs, Hk, length_app. lia.
Qed.
Lemma key_at k n ks : key_is k (n :: ks) → at_ k 0 = n.
Proof.
  intros [Hok Hk]. assert (nibs k !! 0%nat = Some (at_ k 0)) as Ha
    by (apply at_nibs; [done|rewrite <-length_nibs, Hk; cbn; lia]).
  rewrite Hk in Ha. by injection Ha as ->.
Qed.
Lemma key_nib k ks : key_is k ks → Forall nib ks.
Proof. intros [Hok <-]. by apply nibs_nib. Qed.

Lemma key_of_first k leaf : Forall nib k → key_is (keyOf_ (Data (hex_prefix k leaf))) k.
Proof. intros Hk. destruct (keyOf_hex_prefix k leaf Hk) as (?&?&_). done. Qed.
Lemma isLeaf_first k leaf :
  Forall nib k → isLeaf_ (DB:=DB) (Data (hex_prefix k leaf)) = mret leaf.
Proof.
  intros Hk. destruct (keyOf_hex_prefix k leaf Hk) as (_&_&Hl). unfold isLeaf_, payload.
  destruct (hex_prefix k leaf) eqn:Hh; [by pose proof (length_hex_prefix k leaf) as Hn; rewrite Hh in Hn|].
  by rewrite Hl.
Qed.
Lemma key_equal k ks k' ks' : key_is k ks → key_is k' ks' → equal k k' = bool_decide (ks = ks').
Proof. intros [Hk <-] [Hk' <-]. by apply equal_nibs. Qed.
Lemma key_contains k ks k' ks' :
  key_is k ks → key_is k' ks' → contains k k' = bool_decide (ks' `prefix_of` ks).
Proof. intros [Hk <-] [Hk' <-]. by apply contains_nibs. Qed.
Lemma key_shared k ks k' ks' : key_is k ks → key_is k' ks' → shared k k' = common ks ks'.
Proof. intros [Hk <-] [Hk' <-]. by apply shared_nibs. Qed.

Definition slots (cs : list trie) (v : bytes) : list item := map ref cs ++ [Data v].
Lemma node_Leaf k v : node_item (Leaf k v) = List [Data (hex_prefix k true); Data v].
Proof. done. Qed.
Lemma node_Ext k c : node_item (Ext k c) = List [Data (hex_prefix k false); ref c].
Proof. done. Qed.
Lemma node_Branch cs v : node_item (Branch cs v) = List (slots cs v).
Proof. done. Qed.
Lemma length_slots cs v : length cs = 16%nat → length (slots cs v) = 17%nat.
Proof. intros Hl. unfold slots. by rewrite length_app, length_map, Hl. Qed.
Lemma two_items_slots cs v : length cs = 16%nat → two_items (slots cs v) = None.
Proof. intros Hl. destruct cs as [|c1 [|c2 [|c3 cs]]]; done. Qed.
Lemma isEmpty_slots cs v : isEmpty (List (slots cs v)) = false.
Proof. by destruct cs. Qed.
Lemma item_child cs v i c : cs !! i = Some c → item_ (slots cs v) i = ref c.
Proof.
  intros Hc. unfold item_, slots. apply nth_lookup_Some. rewrite lookup_app_l.
  - by rewrite list_lookup_fmap, Hc.
  - rewrite length_map. by eapply lookup_lt_Some.
Qed.
Lemma item_value cs v : length cs = 16%nat → item_ (slots cs v) 16 = Data v.
Proof.
  intros Hl. unfold item_, slots. rewrite app_nth2; rewrite length_map, Hl; [done|lia].
Qed.
Lemma slots_insert cs v i c :
  (i < length cs)%nat → <[i := ref c]> (slots cs v) = slots (<[i := c]> cs) v.
Proof.
  intros Hi. unfold slots. rewrite insert_app_l by by rewrite length_map.
  f_equal. symmetry. apply (list_fmap_insert ref).
Qed.

Lemma child_at n cs v i :
  wf n (Branch cs v) → nib i → ∃ c, cs !! Z.to_nat i = Some c ∧ wf (n - 1) c ∧ (0 < n)%nat.
Proof.
  inversion 1 as [| | |m ? ? Hl Hcs _ _]; subst. unfold nib. intros Hi.
  destruct (lookup_lt_is_Some_2 cs (Z.to_nat i)) as [c Hc]; [lia|]. exists c. split; [done|].
  rewrite Forall_lookup in Hcs. replace (S m - 1)%nat with m by lia. split; [by eapply Hcs|lia].
Qed.
Lemma get_nib cs v i c k :
  nib i → cs !! Z.to_nat i = Some c → get (Branch cs v) (i :: k) = get c k.
Proof. intros Hi Hc. rewrite get_Branch_cons, Hc. unfold nib in Hi. by destruct (Z.leb_spec 0 i); [|lia]. Qed.
Lemma stored_child d cs v i c :
  stored d (Branch cs v) → cs !! i = Some c → resolves d c ∧ stored d c.
Proof. inversion 1 as [| | |? ? Hr Hs]; subst. rewrite Forall_lookup in Hr, Hs. eauto. Qed.
Lemma get_Ext_None p c k : ¬ p `prefix_of` k → get (Ext p c) k = [].
Proof.
  intros Hp. cbn. destruct (strip p k) eqn:Hs; [|done]. apply strip_Some in Hs as ->.
  destruct Hp. by eexists.
Qed.

(** ** Lookup *)

Lemma atAux_spec n t k ks fuel d :
  wf n t → Z.of_nat n < 2 ^ 32 → stored d t → key_is k ks → (length ks < fuel)%nat →
  wp (atAux fuel (Some (node_item t)) k) d (λ v d', v = get t ks ∧ d' = d).
Proof.
  revert n k ks fuel. induction t as [|lk v|p c IH|cs v IH] using trie_induction;
    intros n k ks fuel Hwf Hn Hst Hk Hf; (destruct fuel as [|fuel]; [lia|]); cbn [atAux].
  - by apply tr_ret.
  - inversion Hwf as [|? ? ? Hlk _ _| |]; subst. cbn [TrieSpec.node_item isEmpty two_items].
    rewrite isLeaf_first by done. apply tr_bind_ret.
    pose proof (key_of_first lk true Hlk) as Hf1. rewrite (key_equal _ _ _ _ Hk Hf1), !andb_true_r.
    cbn [get]. repeat case_bool_decide; subst; case_decide; try done; cbn [negb andb];
      rewrite ?andb_false_r; by apply tr_ret.
  - inversion Hwf as [| |? m ? cs v Hp Hpne Hm Hc|]; subst. inversion Hst as [| |? ? Hr Hsc|]; subst.
    rewrite node_Ext. cbn [isEmpty two_items].
    rewrite isLeaf_first by done. apply tr_bind_ret.
    pose proof (key_of_first p false Hp) as Hf1.
    rewrite (key_contains _ _ _ _ Hk Hf1), andb_false_r, andb_true_r. cbn [negb].
    case_bool_decide as Hpre; cbn [andb].
    + destruct Hpre as [ks' ->]. eapply tr_bind; [eapply (wp_deref m); [done|lia|done|done]|].
      intros r d' _ [-> ->]. rewrite (key_size _ _ Hf1), get_Ext. apply (IH m); [done|lia|done|by apply key_mid|].
      rewrite length_app in Hf. destruct p; [done|]. cbn in Hf. lia.
    + apply tr_ret. split; [|done]. symmetry. by apply get_Ext_None.
  - pose proof Hwf as Hwf'. inversion Hwf as [| | |m ? ? Hl Hcs Hv _]; subst. 
    rewrite node_Branch, isEmpty_slots, two_items_slots by done.
    apply wp_assert_bind; [by rewrite length_slots|]. rewrite (key_size _ _ Hk).
    destruct ks as [|i ks]; cbn [length Nat.eqb].
    { rewrite item_value by done. by apply tr_ret. }
    pose proof (key_nib _ _ Hk) as [Hi _]%Forall_cons. rewrite (key_at _ _ _ Hk).
    destruct (child_at _ _ _ _ Hwf' Hi) as (c&Hc&Hwc&_). rewrite (item_child _ _ _ _ Hc).
    rewrite (get_nib _ _ _ _ _ Hi Hc), ref_empty. destruct (stored_child _ _ _ _ _ Hst Hc) as [Hr Hsc].
    assert (c = Empty ∨ c ≠ Empty) as [->|Hne] by (destruct c; auto); [by apply tr_ret|].
    replace (negb (used_child c)) with false by by destruct c.
    replace (S m - 1)%nat with m in Hwc by lia.
    eapply tr_bind; [eapply (wp_deref m); [done|lia|done|done]|]. intros r d' _ [-> ->].
    rewrite Forall_lookup in IH. apply (IH _ _ Hc m); [done|lia|done|by apply (key_mid k [i] ks)|cbn in Hf; lia].
Qed.

(** ** Insertion *)

(** [t'] has the contents of [t] with [v] under [ks]. *)
Definition added (t : trie) (ks : list Z) (v : bytes) (t' : trie) : Prop :=
  ∀ k, get t' k = if decide (k = ks) then v else get t k.
(** The item is a node of a tree in the store that satisfies [φ]. *)
Definition node_of (φ : trie → Prop) (it : item) (d : DB) : Prop :=
  ∃ t, it = node_item t ∧ stored d t ∧ φ t.

Lemma wp_mergeAtAux n c f d φ :
  wf n c → Z.of_nat n < 2 ^ 32 → resolves d c → stored d c →
  (∀ h inl d', extends d d' → stored d' c → wp (f (Some (node_item c)) h inl) d' (node_of φ)) →
  wp (mergeAtAux sha3 f (ref c)) d (λ it d', ∃ c', it = ref c' ∧ resolves d' c' ∧ stored d' c' ∧ φ c').
Proof.
  intros Hwf Hn Hr Hs Hf. unfold mergeAtAux.
  eapply (tr_bind _ _ _ (node_of φ)).
  2:{ intros b d1 _ (c'&->&Hs'&Hφ). eapply tr_mono; [apply wp_stream|].
      intros it d2 He [-> Hr']. exists c'. eauto using stored_mono. }
  rewrite ref_empty. assert (c = Empty ∨ c ≠ Empty) as [->|Hne] by (destruct c; auto).
  { rewrite andb_false_r. by apply Hf. }
  replace (used_child c) with true by by destruct c. rewrite andb_true_r.
  pose proof (node_item_good sha3 sha3_ok n c Hwf Hn) as Hg.
  destruct (node_item_list c Hne) as (a&l&Hi). unfold TrieSpec.ref, TrieSpec.ref_item.
  destruct (Z.ltb_spec (RLP.size (encode (node_item c))) 32) as [Hsz|Hsz].
  { rewrite Hi. cbn [isList negb]. rewrite <-Hi. by apply Hf. }
  cbn [isList negb]. rewrite toHash_sha3. apply tr_bind_ret. eapply tr_bind; [apply wp_node|].
  intros s d' _ [-> ->]. destruct Hr as [?|Hr]; [lia|]. rewrite Hr.
  eapply tr_bind; [by apply toRLP_encode|]. intros r d' _ [-> ->].
  apply wp_assert_bind; [done|]. by apply Hf.
Qed.

Lemma encode_key_all k ks leaf : key_is k ks → hexPrefixEncode k leaf 0 (-1) = hex_prefix ks leaf.
Proof. intros [Hok <-]. by apply hexPrefixEncode_all. Qed.

Lemma wp_place_Empty k ks v d :
  key_is k ks → wp (place sha3 (Data []) k v) d (λ it _, it = node_item (Leaf ks v)).
Proof.
  intros Hk. apply wp_killNode_bind. intros d' _. cbn [isEmpty]. rewrite (encode_key_all _ _ _ Hk).
  by apply tr_ret.
Qed.
Lemma wp_place_Leaf k lk w v d :
  wp (place sha3 (node_item (Leaf lk w)) k v) d (λ it _, it = node_item (Leaf lk v)).
Proof. apply wp_killNode_bind. intros d' _. by apply tr_ret. Qed.
Lemma wp_place_Branch k cs w v d :
  length cs = 16%nat →
  wp (place sha3 (node_item (Branch cs w)) k v) d (λ it _, it = node_item (Branch cs v)).
Proof.
  intros Hl. apply wp_killNode_bind. intros d' _. rewrite !node_Branch, isEmpty_slots, two_items_slots by done.
  apply wp_assert_bind; [by rewrite length_slots|]. apply tr_ret. unfold slots.
  by rewrite take_app_length' by by rewrite length_map.
Qed.

(** Descending into a slot *)
Lemma wp_merge_child fuel n cs w i ks c k v h inl d φ :
  length cs = 16%nat → key_is k (i :: ks) → cs !! Z.to_nat i = Some c → wf n c → Z.of_nat n < 2 ^ 32 →
  stored d (Branch cs w) →
  (∀ h inl d', extends d d' → stored d' c →
     wp (mergeAt sha3 fuel (Some (node_item c)) h (mid k 1) v inl) d' (node_of φ)) →
  wp (mergeAt sha3 (S fuel) (Some (node_item (Branch cs w))) h k v inl) d
    (node_of (λ t, ∃ c', t = Branch (<[Z.to_nat i := c']> cs) w ∧ φ c')).
Proof.
  intros Hl Hk Hc Hwf Hn Hst Hrec. cbn [mergeAt]. rewrite node_Branch, isEmpty_slots, two_items_slots by done.
  apply wp_assert_bind; [by rewrite length_slots|]. rewrite (key_size _ _ Hk). cbn [length Nat.eqb].
  assert (∀ d', extends d d' → wp (n0 ← mergeAtAux sha3 (λ o h i0, mergeAt sha3 fuel o h (mid k 1) v i0)
      (item_ (slots cs w) (Z.to_nat (at_ k 0))); mret (List (<[Z.to_nat (at_ k 0) := n0]> (slots cs w)))) d'
      (node_of (λ t, ∃ c', t = Branch (<[Z.to_nat i := c']> cs) w ∧ φ c'))) as Hgo.
  { intros d' He. rewrite (key_at _ _ _ Hk), (item_child _ _ _ _ Hc).
    destruct (stored_child _ _ _ _ _ (stored_mono _ _ _ He Hst) Hc) as [Hr Hsc].
    eapply tr_bind.
    { eapply (wp_mergeAtAux n); [done|done|done|done|]. intros h' inl' d2 He2. apply Hrec. by eapply extends_trans. }
    intros it d2 He2 (c'&->&Hr'&Hs'&Hφ). apply tr_ret. exists (Branch (<[Z.to_nat i := c']> cs) w).
    rewrite slots_insert by by eapply lookup_lt_Some. split; [done|]. split; [|eauto].
    assert (stored d2 (Branch cs w)) as Hst2 by exact (stored_mono _ _ _ (extends_trans _ _ _ He He2) Hst).
    inversion Hst2; subst. constructor; by apply Forall_insert. }
  destruct inl; [apply tr_bind_ret, Hgo, extends_refl|].
  eapply tr_bind; [apply wp_killNode|]. intros _ d' He _. by apply Hgo.
Qed.

(** ** Contents of changed trees *)

Lemma get_insert cs v i c k :
  length cs = 16%nat → nib i →
  get (Branch (<[Z.to_nat i := c]> cs) v) k =
  match k with
  | j :: k' => if decide (j = i) then get c k' else get (Branch cs v) k
  | [] => v
  end.
Proof.
  unfold nib. intros Hl Hi. destruct k as [|j k]; [done|]. rewrite !get_Branch_cons.
  destruct (decide (j = i)) as [->|Hne].
  - rewrite list_lookup_insert_eq by lia. by destruct (Z.leb_spec 0 i); [|lia].
  - destruct (Z.leb_spec 0 j); [|done]. by rewrite list_lookup_insert_ne by lia.
Qed.
Lemma added_child cs w i ks v c c' :
  length cs = 16%nat → nib i → cs !! Z.to_nat i = Some c → added c ks v c' →
  added (Branch cs w) (i :: ks) v (Branch (<[Z.to_nat i := c']> cs) w).
Proof.
  intros Hl Hi Hc Ha k. rewrite get_insert by done. destruct k as [|j k]; [done|].
  case_decide as Hj; [subst|case_decide; [congruence|done]]. rewrite Ha.
  repeat case_decide; try congruence. by rewrite (get_nib cs w i c).
Qed.
Lemma added_Ext p ks v c c' : added c ks v c' → added (Ext p c) (p ++ ks) v (Ext p c').
Proof.
  intros Ha k. cbn [get]. destruct (strip p k) as [k'|] eqn:Hs.
  - apply strip_Some in Hs as ->. rewrite Ha.
    destruct (decide (k' = ks)) as [->|Hne], (decide (p ++ _ = p ++ ks)) as [Heq|]; try done.
    by apply app_inv_head in Heq.
  - case_decide; [subst; by rewrite strip_app in Hs|done].
Qed.

Lemma value_used v : value_ok v → used_value v = true.
Proof. intros [Hv _]. by destruct v. Qed.
Lemma occupied_insert cs v i c :
  (i < length cs)%nat → occupied (<[i := c]> cs) v = <[i := used_child c]> (occupied cs v).
Proof.
  intros Hi. unfold occupied. rewrite insert_app_l by by rewrite length_map. f_equal.
  apply (list_fmap_insert used_child).
Qed.
Lemma two_used_insert l i : two_used l → two_used (<[i := true]> l).
Proof.
  intros (x&y&Hxy&Hx&Hy).
  assert (∀ z, l !! z = Some true → <[i := true]> l !! z = Some true) as Hz.
  { intros z Hz. destruct (decide (i = z)) as [->|]; [|by rewrite list_lookup_insert_ne].
    rewrite list_lookup_insert_eq; [done|by eapply lookup_lt_Some]. }
  exists x, y. auto.
Qed.
Lemma two_used_value cs v w : two_used (occupied cs w) → used_value v = true → two_used (occupied cs v).
Proof.
  intros Hu Hv. assert (occupied cs v = <[length cs := true]> (occupied cs w)) as ->; [|by apply two_used_insert].
  unfold occupied. rewrite Hv, <-(length_map used_child). by rewrite insert_app_r_alt, Nat.sub_diag by lia.
Qed.
Lemma wf_set_child n cs w i c :
  wf (S n) (Branch cs w) → (i < 16)%nat → wf n c → c ≠ Empty → wf (S n) (Branch (<[i := c]> cs) w).
Proof.
  inversion 1 as [| | |m ? ? Hl Hcs Hv Htwo]; subst. intros Hi Hc Hne. constructor.
  - by rewrite length_insert.
  - by apply Forall_insert.
  - done.
  - rewrite occupied_insert by lia. replace (used_child c) with true by by destruct c. by apply two_used_insert.
Qed.
Lemma wf_mono n m t : wf n t → (n ≤ m)%nat → wf m t.
Proof.
  revert n m. induction t as [|k v|k c IH|cs v IH] using trie_induction; intros n m Hwf Hnm.
  - constructor.
  - inversion Hwf; subst. constructor; [done|lia|done].
  - inversion Hwf as [| |? m' ? cs v Hk Hne Hm Hb|]; subst. apply (wf_Ext m m'); [done|done|lia|done].
  - inversion Hwf as [| | |n' ? ? Hl Hcs Hv Htwo]; subst. destruct m as [|m]; [lia|]. constructor; try done.
    rewrite Forall_lookup in *. intros i c Hc. eapply IH; [done|by eapply Hcs|lia].
Qed.

(** ** Nodes of two items *)

Definition pair (t : trie) : bool := match t with Leaf _ _ | Ext _ _ => true | _ => false end.
Definition path (t : trie) : list Z := match t with Leaf k _ | Ext k _ => k | _ => [] end.
Definition is_leaf (t : trie) : bool := match t with Leaf _ _ => true | _ => false end.
Definition second (t : trie) : item :=
  match t with Leaf _ v => Data v | Ext _ c => ref c | _ => Data [] end.
Definition with_path (k : list Z) (t : trie) : trie :=
  match t with Leaf _ v => Leaf k v | Ext _ c => Ext k c | _ => t end.

Lemma node_pair t :
  pair t = true → node_item t = List [Data (hex_prefix (path t) (is_leaf t)); second t].
Proof. by destruct t. Qed.
Lemma node_with_path k t :
  pair t = true → node_item (with_path k t) = List [Data (hex_prefix k (is_leaf t)); second t].
Proof. by destruct t. Qed.
Lemma stored_with_path d k t : stored d t → stored d (with_path k t).
Proof. destruct 1; by constructor. Qed.
Lemma pair_path n t :
  wf n t → pair t = true → Forall nib (path t) ∧ (length (path t) ≤ n)%nat ∧ (is_leaf t = false → path t ≠ []).
Proof. destruct 1; intros [=]; (split; [done|split; [cbn; lia|done]]). Qed.
Lemma wf_with_path n t p q :
  wf n t → pair t = true → path t = p ++ q → (is_leaf t = false → q ≠ []) →
  wf (n - length p) (with_path q t).
Proof.
  destruct 1 as [| n k v Hk Hl Hv|n m k cs v Hk Hne Hm Hb|]; intros [=] Hp Hq; cbn in *; subst k;
    apply Forall_app in Hk as [_ Hk]; rewrite length_app in *.
  - constructor; [done|lia|done].
  - apply (wf_Ext _ m); [done|by apply Hq|lia|done].
Qed.
Lemma get_with_path p q t k :
  pair t = true → get (Ext p (with_path q t)) k = get (with_path (p ++ q) t) k.
Proof.
  destruct t as [|k' v|k' c|]; intros [=]; cbn [with_path].
  - cbn [get]. destruct (strip p k) as [k1|] eqn:Hs.
    + apply strip_Some in Hs as ->. cbn [get]. destruct (decide (k1 = q)) as [->|Hne], (decide (p ++ _ = p ++ q)) as [Heq|]; try done.
      by apply app_inv_head in Heq.
    + case_decide; [subst; by rewrite strip_app in Hs|done].
  - destruct (decide (get (Ext (p ++ q) c) k = [])) as [He|He].
    + rewrite He. destruct (decide (get (Ext p (Ext q c)) k = [])) as [|Hn]; [done|].
      apply get_Ext_inv in Hn as (k1&->&Hn). apply get_Ext_inv in Hn as (k2&->&Hn).
      rewrite app_assoc, get_Ext in He. done.
    + apply get_Ext_inv in He as (k1&->&He). rewrite get_Ext, <-app_assoc, !get_Ext. done.
Qed.

Lemma encode_key_from k ks leaf b :
  key_is k ks → (b ≤ length ks)%nat → hexPrefixEncode k leaf (Z.of_nat b) (-1) = hex_prefix (drop b ks) leaf.
Proof. intros [Hok <-] Hb. rewrite length_nibs in Hb. by apply hexPrefixEncode_from. Qed.
Lemma encode_key_to k ks leaf b :
  key_is k ks → (b ≤ length ks)%nat → hexPrefixEncode k leaf 0 (Z.of_nat b) = hex_prefix (take b ks) leaf.
Proof. intros [Hok <-] Hb. rewrite length_nibs in Hb. by apply hexPrefixEncode_to. Qed.

Lemma wp_cleve n t s d :
  wf n t → pair t = true → stored d t → (0 < s ≤ length (path t))%nat →
  wp (cleve sha3 (node_item t) s) d (λ it d',
    it = List [Data (hex_prefix (take s (path t)) false); ref (with_path (drop s (path t)) t)] ∧
    resolves d' (with_path (drop s (path t)) t)).
Proof.
  intros Hwf Hp Hst Hs. destruct (pair_path n t Hwf Hp) as (Hnib&_&_).
  apply wp_killNode_bind. intros d' He. rewrite node_pair by done.
  pose proof (key_of_first (path t) (is_leaf t) Hnib) as Hk.
  apply wp_assert_bind.
  { rewrite (key_size _ _ Hk). destruct (Nat.eqb_spec s 0), (Nat.leb_spec s (length (path t))); done || lia. }
  rewrite isLeaf_first by done. apply tr_bind_ret.
  rewrite (encode_key_from _ _ _ _ Hk), (encode_key_to _ _ _ _ Hk), <-node_with_path by (done || lia).
  eapply tr_bind; [apply wp_stream|]. intros n' d2 _ [-> Hr]. by apply tr_ret.
Qed.

(** What [branch] makes of a node of two items *)
Definition empty_slots : list trie := replicate 16 Empty.
Definition branch_of (t : trie) : list trie * bytes :=
  match t with
  | Leaf [] v => (empty_slots, v)
  | Leaf (i :: k) v => (<[Z.to_nat i := Leaf k v]> empty_slots, [])
  | Ext (i :: k) c => (<[Z.to_nat i := under k c]> empty_slots, [])
  | _ => (empty_slots, [])
  end.
Lemma length_branch_of t : length (branch_of t).1 = 16%nat.
Proof. destruct t as [|[|i k] v|[|i k] c|]; cbn [branch_of fst]; by rewrite ?length_insert. Qed.
Lemma empty_slots_items v : slots empty_slots v = replicate 16 (Data []) ++ [Data v].
Proof. done. Qed.
Lemma nib_lt i : nib i → (Z.to_nat i < 16)%nat.
Proof. unfold nib. lia. Qed.

Lemma stored_branch_one d i c v :
  resolves d c → stored d c → stored d (Branch (<[i := c]> empty_slots) v).
Proof.
  intros Hr Hs. assert (resolves d Empty) as HE by by left.
  constructor; apply Forall_insert; try done; apply Forall_replicate; [done|constructor].
Qed.
Lemma wp_branch n t d :
  wf n t → pair t = true → stored d t →
  wp (branch sha3 (node_item t)) d (λ it d',
    it = node_item (Branch (branch_of t).1 (branch_of t).2) ∧ stored d' (Branch (branch_of t).1 (branch_of t).2)).
Proof.
  intros Hwf Hp Hst. destruct (pair_path n t Hwf Hp) as (Hnib&_&Hne). rewrite node_pair by done.
  apply wp_killNode_bind. intros d' He. apply (stored_mono _ _ _ He) in Hst. rewrite isLeaf_first by done.
  apply tr_bind_ret. pose proof (key_of_first (path t) (is_leaf t) Hnib) as Hk. rewrite (key_size _ _ Hk).
  assert (path t = [] ∨ ∃ i k, path t = i :: k) as [Hpt|(i&k&Hpt)] by (destruct (path t); eauto).
  { destruct t as [|k v|k c|]; try done; cbn in Hpt; subst k; [|by destruct (Hne eq_refl)].
    cbn [path length Nat.eqb is_leaf]. apply wp_assert_bind; [done|]. apply tr_ret. split; [done|].
    constructor; apply Forall_replicate; [by left|constructor]. }
  rewrite Hpt in *. cbn [length Nat.eqb]. rewrite (key_at _ _ _ Hk).
  apply Forall_cons in Hnib as [Hi _]. pose proof (nib_lt _ Hi) as Hi'.
  rewrite (encode_key_all _ k) by by apply (key_mid _ [i]). rewrite <-node_with_path by done.
  set (child := match t with Ext _ c => under k c | _ => with_path k t end).
  assert (branch_of t = (<[Z.to_nat i := child]> empty_slots, [])) as ->.
  { unfold child. destruct t; try done; cbn in Hpt; by subst. }
  cbn [fst snd].
  assert (stored d' child) as Hsc.
  { unfold child. destruct t as [|k' v|k' c|]; try done; [constructor|].
    inversion Hst; subst. destruct k; [done|]. by constructor. }
  eapply (tr_bind _ _ _ (λ it d2, it = ref child ∧ resolves d2 child)).
  - unfold child. destruct t as [|k' v|k' c|]; try done; cbn [is_leaf orb with_path]; [apply wp_stream|].
    destruct k as [|j k]; cbn [length Nat.ltb Nat.leb]; [|apply wp_stream]. apply tr_ret.
    split; [done|]. by inversion Hst.
  - intros it d2 He2 [-> Hr]. apply tr_ret. split; [|by apply stored_branch_one; [|eapply stored_mono]].
    rewrite node_Branch. unfold slots. f_equal. f_equal. symmetry. apply (list_fmap_insert ref).
Qed.

Lemma get_empty_slots v k : get (Branch empty_slots v) k = match k with [] => v | _ => [] end.
Proof.
  destruct k as [|i k]; [done|]. rewrite get_Branch_cons. destruct (0 <=? i); [|done].
  destruct (empty_slots !! Z.to_nat i) as [c|] eqn:Hc; [|done]. by apply lookup_replicate_1 in Hc as [-> _].
Qed.
Lemma get_branch_of n t k :
  wf n t → pair t = true → get (Branch (branch_of t).1 (branch_of t).2) k = get t k.
Proof.
  intros Hwf Hp. destruct (pair_path n t Hwf Hp) as (Hnib&_&Hne).
  destruct t as [|[|i lk] v|[|i p] c|]; try done; cbn [branch_of fst snd path] in *.
  - rewrite get_empty_slots. cbn. by destruct k.
  - apply Forall_cons in Hnib as [Hi _]. rewrite get_insert by done. destruct k as [|j k]; [done|].
    case_decide as Hj; [subst|rewrite get_empty_slots; cbn [get]; case_decide; congruence].
    cbn [get]. repeat case_decide; congruence.
  - by destruct (Hne eq_refl).
  - apply Forall_cons in Hnib as [Hi _]. rewrite get_insert by done. destruct k as [|j k]; [done|].
    case_decide as Hj.
    + subst j. pose proof (get_with_path [i] p (Ext [] c) (i :: k) eq_refl) as Hg. cbn [with_path app] in Hg.
      rewrite <-Hg. change (i :: k) with ([i] ++ k). rewrite get_Ext. destruct p; [|done].
      change k with ([] ++ k) at 2. by rewrite get_Ext.
    + rewrite get_empty_slots. symmetry. apply get_Ext_None. intros [r [= -> _]]. done.
Qed.

(** The slot of a branch for a path *)
Definition slot (k : list Z) : nat := match k with [] => 16 | i :: _ => Z.to_nat i end.
Lemma slot_ne k k' : Forall nib k → Forall nib k' → common k k' = 0%nat → k ≠ k' → slot k ≠ slot k'.
Proof.
  intros Hk Hk' Hc Hne. destruct k as [|i k], k' as [|j k']; try done; cbn [slot].
  - apply Forall_cons in Hk' as [Hj _]. apply nib_lt in Hj. lia.
  - apply Forall_cons in Hk as [Hj _]. apply nib_lt in Hj. lia.
  - apply Forall_cons in Hk as [Hi _], Hk' as [Hj _]. cbn in Hc. unfold nib in *.
    destruct (Z.eqb_spec i j); [done|]. lia.
Qed.
Lemma under_used k c : used_child c = true → used_child (under k c) = true.
Proof. by destruct k. Qed.
Lemma occupied_branch_of n t :
  wf n t → pair t = true → occupied (branch_of t).1 (branch_of t).2 !! slot (path t) = Some true.
Proof.
  intros Hwf Hp. destruct (pair_path n t Hwf Hp) as (Hnib&_&Hne).
  destruct t as [|[|i lk] v|[|i p] c|]; try done; cbn [branch_of fst snd path slot] in *.
  - inversion Hwf as [|? ? ? _ _ Hv| |]; subst. cbn. by rewrite (value_used v).
  - apply Forall_cons in Hnib as [Hi%nib_lt _]. rewrite occupied_insert by done.
    apply list_lookup_insert_eq. cbn. lia.
  - by destruct (Hne eq_refl).
  - apply Forall_cons in Hnib as [Hi%nib_lt _]. rewrite occupied_insert by done.
    rewrite under_used by by inversion Hwf. apply list_lookup_insert_eq. cbn. lia.
Qed.
Lemma wf_empty_slots n : Forall (wf n) empty_slots.
Proof. apply Forall_replicate. constructor. Qed.
Lemma wf_branch_of n t :
  wf n t → pair t = true →
  Forall (wf (n - 1)) (branch_of t).1 ∧ ((branch_of t).2 = [] ∨ value_ok (branch_of t).2).
Proof.
  intros Hwf Hp. destruct Hwf as [n|n [|i k] v Hk Hl Hv|n m [|i k] cs v Hk Hne Hm Hb|]; try done;
    cbn [branch_of fst snd length] in *; (split; [|by auto]).
  - apply wf_empty_slots.
  - apply Forall_insert; [apply wf_empty_slots|]. apply Forall_cons in Hk as [_ Hk]. constructor; [done|lia|done].
  - apply Forall_insert; [apply wf_empty_slots|]. apply Forall_cons in Hk as [_ Hk].
    destruct k as [|j k]; [apply (wf_mono m); [done|cbn in Hm; lia]|].
    apply (wf_Ext _ m); [done|done|cbn in *; lia|done].
Qed.
Lemma branch_of_free t i :
  nib i → slot (path t) ≠ Z.to_nat i → (branch_of t).1 !! Z.to_nat i = Some Empty.
Proof.
  intros Hi%nib_lt Hs. destruct t as [|[|j lk] v|[|j p] c|]; cbn [branch_of fst path slot] in *;
    rewrite ?list_lookup_insert_ne by done; by apply lookup_replicate_2.
Qed.

(** Insertion of a key that parts from the path of the node at once *)
Lemma wp_merge_empty fuel h k ks v inl d :
  key_is k ks →
  wp (mergeAt sha3 (S fuel) (Some (Data [])) h k v inl) d (node_of (λ t, t = Leaf ks v)).
Proof.
  intros Hk. cbn [mergeAt isEmpty]. eapply tr_mono; [by apply wp_place_Empty|].
  intros it d' _ ->. exists (Leaf ks v). split; [done|]. split; [constructor|done].
Qed.
Lemma wp_merge_branch_of fuel n t ks k v h inl d :
  wf n t → pair t = true → Z.of_nat n < 2 ^ 32 → key_is k ks → slot ks ≠ slot (path t) →
  stored d (Branch (branch_of t).1 (branch_of t).2) →
  wp (mergeAt sha3 (S (S fuel)) (Some (node_item (Branch (branch_of t).1 (branch_of t).2))) h k v inl) d
    (node_of (λ t', t' = match ks with
                         | [] => Branch (branch_of t).1 v
                         | i :: ks => Branch (<[Z.to_nat i := Leaf ks v]> (branch_of t).1) (branch_of t).2
                         end)).
Proof.
  intros Hwf Hp Hn Hk Hs Hst. destruct ks as [|i ks].
  - cbn [mergeAt]. rewrite node_Branch, isEmpty_slots, two_items_slots by apply length_branch_of.
    apply wp_assert_bind; [by rewrite length_slots by apply length_branch_of|].
    rewrite (key_size _ _ Hk). cbn [length Nat.eqb]. rewrite <-node_Branch.
    eapply tr_mono; [apply wp_place_Branch, length_branch_of|]. intros it d' He ->. eexists. split; [done|].
    split; [|done]. apply (stored_mono _ _ _ He) in Hst. inversion Hst; subst. by constructor.
  - pose proof (key_nib _ _ Hk) as [Hi _]%Forall_cons.
    eapply tr_mono; [eapply (wp_merge_child _ n _ _ i ks Empty k v h inl d (λ c', c' = Leaf ks v))|].
    + apply length_branch_of.
    + done.
    + apply branch_of_free; [done|]. by intros ?%eq_sym.
    + constructor.
    + done.
    + done.
    + intros h' inl' d' _ _. apply wp_merge_empty. by apply (key_mid k [i]).
    + intros it d' _ (t'&->&Hs'&c'&->&->). eexists. eauto.
Qed.

Definition inserted (n : nat) (t : trie) (ks : list Z) (v : bytes) (t' : trie) : Prop :=
  wf n t' ∧ t' ≠ Empty ∧ (is_branch t = true → is_branch t' = true) ∧ added t ks v t'.

Lemma branch_of_inserted n t ks v :
  wf n t → pair t = true → Forall nib ks → (length ks ≤ n)%nat → value_ok v →
  common ks (path t) = 0%nat → ks ≠ path t →
  let t' := match ks with
            | [] => Branch (branch_of t).1 v
            | i :: ks => Branch (<[Z.to_nat i := Leaf ks v]> (branch_of t).1) (branch_of t).2
            end in
  is_branch t' = true ∧ inserted n t ks v t'.
Proof.
  intros Hwf Hp Hks Hl Hv Hc Hne t'. destruct (pair_path n t Hwf Hp) as (Hnib&Hlp&_).
  pose proof (slot_ne ks (path t) Hks Hnib Hc Hne) as Hsl.
  pose proof (occupied_branch_of n t Hwf Hp) as Ho. destruct (wf_branch_of n t Hwf Hp) as [Hcs Hbv].
  pose proof (length_branch_of t) as Hl16. destruct n as [|n].
  { destruct ks; [|cbn in Hl; lia]. destruct (path t); [done|cbn in Hlp; lia]. }
  cbn [Nat.sub] in Hcs. rewrite Nat.sub_0_r in Hcs.
  assert (is_branch t' = true) as Hb by by destruct ks. split; [done|].
  split; [|split; [by destruct ks|split; [done|]]]; unfold t' in *; clear t'.
  - destruct ks as [|i ks].
    + constructor; [done|done|by right|]. exists 16%nat, (slot (path t)). split; [done|].
      assert (length (map used_child (branch_of t).1) = 16%nat) as Hm by by rewrite length_map.
      unfold occupied in *. rewrite (value_used v) by done. split.
      * rewrite lookup_app_r, Hm by lia. done.
      * pose proof (lookup_lt_Some _ _ _ Ho) as Hlt. rewrite length_app, Hm in Hlt. cbn in Hlt, Hsl.
        rewrite lookup_app_l in Ho |- * by lia. done.
    + apply Forall_cons in Hks as [Hi%nib_lt Hks]. cbn in Hl. constructor.
      * by rewrite length_insert.
      * apply Forall_insert; [done|]. constructor; [done|lia|done].
      * done.
      * rewrite occupied_insert by lia. cbn [used_child slot] in *. exists (Z.to_nat i), (slot (path t)).
        split; [done|]. split; [|by rewrite list_lookup_insert_ne].
        apply list_lookup_insert_eq. unfold occupied. rewrite length_app, length_map. lia.
  - intros k. pose proof (get_branch_of (S n) t k Hwf Hp) as Hg. destruct ks as [|i ks].
    + destruct k as [|j k]; [done|]. rewrite decide_False by done. by rewrite <-Hg.
    + apply Forall_cons in Hks as [Hi Hks]. rewrite get_insert by done.
      destruct k as [|j k]; [rewrite decide_False by done; by rewrite <-Hg|].
      case_decide as Hj; [subst j|rewrite decide_False by congruence; by rewrite <-Hg].
      cbn [get]. destruct (decide (k = ks)) as [->|Hk]; [by rewrite decide_True|].
      rewrite decide_False by congruence. rewrite <-Hg, (get_nib _ _ i Empty); [done|done|].
      apply branch_of_free; [done|]. cbn in Hsl. by intros ?%eq_sym.
Qed.

Lemma wp_merge_diverge fuel n t ks k v h inl d :
  wf n t → pair t = true → Z.of_nat n < 2 ^ 32 → stored d t → key_is k ks → (length ks ≤ n)%nat →
  value_ok v → common ks (path t) = 0%nat → ks ≠ path t →
  wp (mergeAt sha3 (S (S (S fuel))) (Some (node_item t)) h k v inl) d
    (node_of (λ t', is_branch t' = true ∧ inserted n t ks v t')).
Proof.
  intros Hwf Hp Hn Hst Hk Hl Hv Hc Hne. destruct (pair_path n t Hwf Hp) as (Hnib&_&Hnl).
  pose proof (key_nib _ _ Hk) as Hks. remember (S (S fuel)) as fuel' eqn:Hfuel. cbn [mergeAt].
  pose proof (key_of_first (path t) (is_leaf t) Hnib) as Hkp.
  assert (∀ d', extends d d' → wp (branched ← branch sha3 (node_item t);
    mergeAt sha3 fuel' (Some branched) (sha3 (data branched)) k v true) d'
    (node_of (λ t', is_branch t' = true ∧ inserted n t ks v t'))) as Hgo.
  { intros d' He. eapply tr_bind; [eapply wp_branch; [done|done|by eapply stored_mono]|].
    intros it d2 He2 [-> Hs2]. subst fuel'. eapply tr_mono.
    - eapply wp_merge_branch_of; [done|done|done|done|by apply slot_ne|done].
    - intros it d3 _ (t'&->&Hs3&->). eexists. split; [done|]. split; [done|]. by apply branch_of_inserted. }
  rewrite node_pair in * by done. cbn [isEmpty two_items].
  rewrite isLeaf_first by done. apply tr_bind_ret.
  rewrite (key_equal _ _ _ _ Hkp Hk), (key_contains _ _ _ _ Hk Hkp), (key_shared _ _ _ _ Hk Hkp), Hc.
  rewrite bool_decide_false by by intros ?%eq_sym. cbn [andb].
  assert (bool_decide (path t `prefix_of` ks) && negb (is_leaf t) = false) as ->.
  { destruct (is_leaf t) eqn:Hlf; [by rewrite andb_false_r|]. rewrite andb_true_r.
    apply bool_decide_eq_false. intros Hpre%common_prefix_of. rewrite Hc in Hpre.
    destruct (path t); [by apply Hnl|done]. }
  cbn [Nat.eqb negb]. apply Hgo, extends_refl.
Qed.

Lemma wp_merge_ext fuel n p c k ks v h inl d φ :
  Forall nib p → wf n c → Z.of_nat n < 2 ^ 32 → resolves d c → stored d c → key_is k (p ++ ks) →
  (∀ h inl d', extends d d' → stored d' c →
     wp (mergeAt sha3 fuel (Some (node_item c)) h (mid k (length p)) v inl) d' (node_of φ)) →
  wp (mergeAt sha3 (S fuel) (Some (List [Data (hex_prefix p false); ref c])) h k v inl) d
    (node_of (λ t, ∃ c', t = Ext p c' ∧ φ c')).
Proof.
  intros Hp Hwf Hn Hr Hst Hk Hrec. cbn [mergeAt isEmpty two_items].
  rewrite isLeaf_first by done. apply tr_bind_ret. rewrite andb_false_r.
  pose proof (key_of_first p false Hp) as Hkp. rewrite (key_contains _ _ _ _ Hk Hkp), (key_size _ _ Hkp).
  rewrite bool_decide_true by by eexists. cbn [andb negb].
  eapply (tr_bind _ _ _ (λ _ _, True)).
  { destruct inl; [by apply tr_ret|apply wp_killNode]. }
  intros _ d' He _. eapply tr_bind.
  - eapply (wp_mergeAtAux n); [done|done|by eapply resolves_mono|by eapply stored_mono|].
    intros h' inl' d2 He2 Hs2. apply Hrec; [by eapply extends_trans|done].
  - intros it d2 He2 (c'&->&Hr'&Hs'&Hφ). apply tr_ret. exists (Ext p c'). split; [done|].
    split; [by constructor|eauto].
Qed.

(** A node whose path agrees with the key for a while *)
Lemma wp_merge_cleve fuel n t ks k v d :
  wf n t → pair t = true → Z.of_nat n < 2 ^ 32 → stored d t → key_is k ks → (length ks ≤ n)%nat →
  value_ok v → (0 < common ks (path t))%nat → ks ≠ path t →
  (is_leaf t = false → ¬ path t `prefix_of` ks) →
  wp (cleved ← cleve sha3 (node_item t) (common ks (path t));
      mergeAt sha3 (S (S (S (S fuel)))) (Some cleved) (sha3 (data cleved)) k v true) d (node_of (inserted n t ks v)).
Proof.
  intros Hwf Hp Hn Hst Hk Hl Hv Hc Hne Hpre. destruct (pair_path n t Hwf Hp) as (Hnib&Hlp&_).
  set (s := common ks (path t)) in *. pose proof (common_take ks (path t)) as Htake. fold s in Htake.
  pose proof (common_le_l ks (path t)) as Hs1. pose proof (common_le_r ks (path t)) as Hs2. fold s in Hs1, Hs2.
  set (p := take s (path t)) in *. set (q := drop s (path t)).
  assert (path t = p ++ q) as Hpq by (unfold p, q; by rewrite take_drop).
  assert (ks = p ++ drop s ks) as Hks by (rewrite <-(take_drop s ks) at 1; by rewrite Htake).
  assert (length p = s) as Hlps by (unfold p; rewrite length_take; lia).
  assert (is_leaf t = false → q ≠ []) as Hq.
  { intros Hlf Hq. apply (Hpre Hlf). rewrite Hpq, Hq, app_nil_r. by eexists. }
  pose proof (wf_with_path n t p q Hwf Hp Hpq Hq) as Hwq.
  eapply tr_bind; [apply (wp_cleve n); [done|done|done|lia]|]. intros it d1 He1 [-> Hr1]. fold p q in Hr1 |- *.
  rewrite Hks in Hk. remember (S (S (S fuel))) as fuel' eqn:Hfuel.
  assert (pair (with_path q t) = true ∧ path (with_path q t) = q) as [Hpw Hpath] by by destruct t.
  eapply tr_mono.
  { apply (wp_merge_ext _ (n - length p) _ _ _ (drop s ks) _ _ _ _
             (λ b, is_branch b = true ∧ inserted (n - length p) (with_path q t) (drop s ks) v b)).
    - rewrite Hpq in Hnib. by apply Forall_app in Hnib as [? _].
    - done.
    - lia.
    - done.
    - apply stored_with_path. by eapply stored_mono.
    - done.
    - intros h' inl' d2 He2 Hs2'. subst fuel'. apply wp_merge_diverge; try done.
      + lia.
      + by apply key_mid.
      + rewrite length_drop. lia.
      + rewrite Hpath. apply common_drop.
      + rewrite Hpath. intros Heq. apply Hne. by rewrite Hks, Heq, <-Hpq. }
  intros it d2 He2 (t'&->&Hs'&b&->&Hb&Hwb&_&_&Hab). exists (Ext p b). split; [done|]. split; [done|].
  assert (Forall nib p ∧ p ≠ []) as [Hpn Hpne].
  { split; [rewrite Hpq in Hnib; by apply Forall_app in Hnib as [? _]|]. intros Hp0. rewrite Hp0 in Hlps. cbn in Hlps. lia. }
  split; [destruct b; try done; apply (wf_Ext n (n - length p)); [done|done|lia|done]|].
  split; [done|]. split; [by destruct t|]. intros k'. rewrite Hks.
  rewrite (added_Ext p _ _ _ _ Hab). rewrite get_with_path, <-Hpq by done. by destruct t.
Qed.

Lemma wp_merge_mismatch fuel n t ks k v h inl d :
  wf n t → pair t = true → Z.of_nat n < 2 ^ 32 → stored d t → key_is k ks → (length ks ≤ n)%nat →
  value_ok v → ks ≠ path t → (is_leaf t = false → ¬ path t `prefix_of` ks) →
  (2 * length ks + 3 ≤ fuel)%nat →
  wp (mergeAt sha3 fuel (Some (node_item t)) h k v inl) d (node_of (inserted n t ks v)).
Proof.
  intros Hwf Hp Hn Hst Hk Hl Hv Hne Hpre Hf. destruct (pair_path n t Hwf Hp) as (Hnib&_&_).
  pose proof (common_le_l ks (path t)) as Hcl.
  destruct (decide (common ks (path t) = 0%nat)) as [Hc|Hc].
  { destruct fuel as [|[|[|fuel]]]; [lia..|].
    eapply tr_mono; [by apply (wp_merge_diverge _ n)|]. intros it d' _ (t'&->&Hs'&_&Hi). by exists t'. }
  destruct fuel as [|[|[|[|[|fuel]]]]]; [lia..|].
  assert (wp (cleved ← cleve sha3 (node_item t) (common ks (path t));
      mergeAt sha3 (S (S (S (S fuel)))) (Some cleved) (sha3 (data cleved)) k v true) d
      (node_of (inserted n t ks v))) as Hgo by (apply wp_merge_cleve; done || lia).
  remember (S (S (S (S fuel)))) as fuel' eqn:Hfuel. cbn [mergeAt].
  rewrite node_pair in * by done. cbn [isEmpty two_items]. rewrite isLeaf_first by done. apply tr_bind_ret.
  pose proof (key_of_first (path t) (is_leaf t) Hnib) as Hf1.
  rewrite (key_equal _ _ _ _ Hf1 Hk), bool_decide_false by by intros ?%eq_sym.
  cbn [andb]. rewrite (key_contains _ _ _ _ Hk Hf1), (key_shared _ _ _ _ Hk Hf1).
  assert (bool_decide (path t `prefix_of` ks) && negb (is_leaf t) = false) as ->.
  { destruct (is_leaf t); [by rewrite andb_false_r|]. rewrite bool_decide_false by auto. done. }
  destruct (Nat.eqb_spec (common ks (path t)) 0); [done|]. exact Hgo.
Qed.

Lemma merge_spec fuel n t ks k v h inl d :
  wf n t → Z.of_nat n < 2 ^ 32 → stored d t → key_is k ks → (length ks ≤ n)%nat → value_ok v →
  (2 * length ks + 3 ≤ fuel)%nat →
  wp (mergeAt sha3 fuel (Some (node_item t)) h k v inl) d (node_of (inserted n t ks v)).
Proof.
  revert fuel n ks k h inl d. induction t as [|lk lv|p c IH|cs w IH] using trie_induction;
    intros fuel n ks k h inl d Hwf Hn Hst Hk Hl Hv Hf.
  - destruct fuel as [|fuel]; [lia|]. eapply tr_mono; [by apply wp_merge_empty|].
    intros it d' _ (t'&->&Hs'&->).
    eexists. split; [done|]. split; [done|]. split; [constructor; [by eapply key_nib|done|done]|]. done.
  - destruct (decide (ks = lk)) as [->|Hne]; [|by apply wp_merge_mismatch].
    destruct fuel as [|fuel]; [lia|]. cbn [mergeAt]. rewrite node_Leaf. cbn [isEmpty two_items].
    inversion Hwf as [|? ? ? Hlk _ _| |]; subst. rewrite isLeaf_first by done. apply tr_bind_ret.
    pose proof (key_of_first lk true Hlk) as Hf1. rewrite (key_equal _ _ _ _ Hf1 Hk), bool_decide_true by done.
    cbn [andb]. rewrite <-node_Leaf. eapply tr_mono; [apply wp_place_Leaf|]. intros it d' _ ->.
    exists (Leaf lk v). split; [done|]. split; [constructor|]. split; [by constructor|]. split; [done|].
    split; [done|]. intros k'. cbn. by case_decide.
  - inversion Hwf as [| |? m ? cs w Hp Hpne Hm Hc|]; subst. inversion Hst as [| |? ? Hr Hsc|]; subst.
    destruct (decide (p `prefix_of` ks)) as [[ks' ->]|Hpre].
    2:{ apply wp_merge_mismatch; try done. intros ->. by apply Hpre. }
    rewrite length_app in Hl, Hf. destruct p as [|i p]; [done|]. cbn [length] in *.
    destruct fuel as [|fuel]; [lia|]. rewrite node_Ext. eapply tr_mono.
    { eapply (wp_merge_ext _ m _ _ _ ks' _ _ _ _ (inserted (n - S (length p)) (Branch cs w) ks' v)); try done; [lia|].
      intros h' inl' d' He Hs'. apply IH; try done; [|lia|by apply (key_mid k (i :: p))|lia|lia].
      apply (wf_mono m); [done|lia]. }
    intros it d' He (t'&->&Hs'&b&->&Hwb&_&Hb&Hab). eexists. split; [done|]. split; [done|].
    specialize (Hb eq_refl). split; [|split; [done|split; [done|by apply (added_Ext (i :: p))]]].
    destruct b; try done. apply (wf_Ext n (n - S (length p))); [done|done|cbn; lia|done].
  - inversion Hwf as [| | |m ? ? Hlen Hcs Hvw Htwo]; subst. destruct ks as [|i ks]; destruct fuel as [|fuel]; try lia.
    + cbn [mergeAt]. rewrite node_Branch, isEmpty_slots, two_items_slots by done.
      apply wp_assert_bind; [by rewrite length_slots|]. rewrite (key_size _ _ Hk). cbn [length Nat.eqb].
      rewrite <-node_Branch. eapply tr_mono; [by apply wp_place_Branch|]. intros it d' He ->.
      exists (Branch cs v). split; [done|]. split.
      { apply (stored_mono _ _ _ He) in Hst. inversion Hst; subst. by constructor. }
      split; [|split; [done|split; [done|]]].
      * constructor; [done|done|by right|]. by apply (two_used_value _ _ w), value_used.
      * intros [|j k']; [done|]. by rewrite decide_False.
    + pose proof (key_nib _ _ Hk) as [Hi _]%Forall_cons. cbn [length] in *.
      destruct (child_at _ _ _ _ Hwf Hi) as (c&Hc&Hwc&_). replace (S m - 1)%nat with m in Hwc by lia.
      eapply tr_mono.
      { eapply (wp_merge_child _ m _ _ i ks c _ _ _ _ _ (inserted m c ks v)); try done; [lia|].
        intros h' inl' d' He Hs'. rewrite Forall_lookup in IH.
        apply (IH _ _ Hc); try done; [lia|by apply (key_mid k [i])|lia|lia]. }
      intros it d' He (t'&->&Hs'&c'&->&Hwc'&Hne'&_&Hac). eexists. split; [done|]. split; [done|].
      split; [by apply wf_set_child; [|apply nib_lt|..]|]. split; [done|]. split; [done|].
      by eapply added_child.
Qed.

(** ** Removal *)

Lemma path_with t : with_path (path t) t = t.
Proof. by destruct t. Qed.
Lemma added_keys t ks t' k : added t ks [] t' → get t' k ≠ [] → get t k ≠ [] ∧ k ≠ ks.
Proof. intros Ha. rewrite Ha. by case_decide. Qed.

Lemma wp_isTwoItemNode n c d :
  wf n c → Z.of_nat n < 2 ^ 32 → c ≠ Empty → resolves d c →
  wp (isTwoItemNode (ref c)) d (λ b d', b = pair c ∧ d' = d).
Proof.
  intros Hwf Hn Hne Hr. pose proof (node_item_good sha3 sha3_ok n c Hwf Hn) as Hg.
  assert (∃ l, node_item c = List l ∧ (length l =? 2)%nat = pair c) as (l&Hi&Hl).
  { destruct c as [|k v|k c|cs v]; [done|eauto..|]. rewrite node_Branch. eexists. split; [done|].
    inversion Hwf; subst. by rewrite length_slots. }
  unfold TrieSpec.ref, TrieSpec.ref_item. destruct (Z.ltb_spec (RLP.size (encode (node_item c))) 32) as [Hs|Hs].
  - rewrite Hi. cbn [isTwoItemNode]. by apply tr_ret.
  - cbn [isTwoItemNode]. rewrite toHash_sha3. apply tr_bind_ret. eapply tr_bind; [apply wp_node|].
    intros s d' _ [-> ->]. destruct Hr as [?|Hr]; [lia|]. rewrite Hr.
    eapply tr_bind; [by apply toRLP_encode|]. intros r d' _ [-> ->]. apply tr_ret. rewrite Hi. done.
Qed.

Lemma wp_graft n p c d :
  wf n c → Z.of_nat n < 2 ^ 32 → pair c = true → resolves d c → Forall nib p →
  wp (graft (List [Data (hex_prefix p false); ref c])) d
    (λ it _, it = node_item (with_path (p ++ path c) c)).
Proof.
  intros Hwf Hn Hp Hr Hpn. assert (c ≠ Empty) as Hne by by destruct c.
  pose proof (node_item_good sha3 sha3_ok n c Hwf Hn) as Hg. destruct (pair_path n c Hwf Hp) as (Hcn&_&_).
  destruct (node_item_list c Hne) as (a&l&Hi). unfold graft.
  eapply (tr_bind _ _ _ (λ r _, r = Some (node_item c))).
  - unfold TrieSpec.ref, TrieSpec.ref_item.
    destruct (Z.ltb_spec (RLP.size (encode (node_item c))) 32) as [Hs|Hs].
    { rewrite Hi. cbn [isList]. by apply tr_ret. }
    cbn [isList]. rewrite toHash_sha3. apply tr_bind_ret. eapply tr_bind; [apply wp_node|].
    intros s d' _ [-> ->]. destruct Hr as [?|Hr]; [lia|]. rewrite Hr.
    eapply tr_bind; [apply wp_kill|]. intros _ d' _ _.
    eapply tr_mono; [by apply toRLP_encode|]. by intros r d2 _ [-> _].
  - intros r d' _ ->. rewrite node_pair by done. rewrite isLeaf_first by done. apply tr_bind_ret. apply tr_ret.
    rewrite node_with_path by done. repeat f_equal.
    destruct (key_of_first p false Hpn) as [Hok1 Hk1], (key_of_first (path c) (is_leaf c) Hcn) as [Hok2 Hk2].
    rewrite hexPrefixEncode2_spec by done. by rewrite Hk1, Hk2.
Qed.

(** A path in front of what is left *)
Definition join (p : list Z) (c : trie) : trie := if pair c then with_path (p ++ path c) c else Ext p c.
Lemma get_join p c k : get (join p c) k = get (Ext p c) k.
Proof.
  unfold join. destruct (pair c) eqn:Hp; [|done]. rewrite <-get_with_path by done. by rewrite path_with.
Qed.
Lemma stored_join d p c : stored d c → resolves d c → stored d (join p c).
Proof. intros Hs Hr. unfold join. destruct (pair c); [by apply stored_with_path|by constructor]. Qed.
Lemma wf_join n m p c :
  wf m c → c ≠ Empty → Forall nib p → p ≠ [] → (length p + m ≤ n)%nat → wf n (join p c).
Proof.
  intros Hwf Hne Hp Hpne Hn. destruct Hwf as [|m k v Hk Hl Hv|m m' k cs v Hk Hkne Hm Hb|m cs v Hl Hcs Hv Htwo]; [done|..];
    unfold join; cbn [pair with_path path].
  - constructor; [by apply Forall_app|rewrite length_app; lia|done].
  - apply (wf_Ext n m'); [by apply Forall_app|by destruct p|rewrite length_app; lia|done].
  - apply (wf_Ext n (S m)); [done|done|lia|by constructor].
Qed.
Lemma join_not_empty p c : join p c ≠ Empty.
Proof. unfold join. destruct c; cbn; by destruct p. Qed.

Lemma wp_join n p c d :
  wf n c → Z.of_nat n < 2 ^ 32 → c ≠ Empty → resolves d c → Forall nib p →
  wp (two ← isTwoItemNode (ref c);
      if two : bool then b ← graft (List [Data (hex_prefix p false); ref c]); mret (Some b)
      else mret (Some (List [Data (hex_prefix p false); ref c]))) d
    (λ it _, it = Some (node_item (join p c))).
Proof.
  intros Hwf Hn Hne Hr Hp. eapply tr_bind; [by eapply wp_isTwoItemNode|]. intros b d' _ [-> ->].
  unfold join. destruct (pair c) eqn:Hpc; [|by apply tr_ret].
  eapply tr_bind; [by eapply wp_graft|]. intros it d' _ ->. by apply tr_ret.
Qed.

(** The slot that [uniqueInUse] finds *)
Lemma uniqueInUse_loop_spec l i u :
  0 ≤ i → i + Z.of_nat (length l) ≤ 255 → (u = 255 ∨ 0 ≤ u < i) →
  let used j := ∃ t, l !! j = Some t ∧ isEmpty t = false in
  let r := uniqueInUse_loop l 255 i u in
  (r = 255 ∧ ((u = 255 ∧ ∀ j, ¬ used j) ∨ (u ≠ 255 ∧ ∃ j, used j) ∨ ∃ j1 j2, j1 ≠ j2 ∧ used j1 ∧ used j2)) ∨
  (r ≠ 255 ∧ r = u ∧ (∀ j, ¬ used j)) ∨
  (r ≠ 255 ∧ u = 255 ∧ ∃ j, r = i + Z.of_nat j ∧ used j ∧ ∀ j', used j' → j' = j).
Proof.
  revert i u. induction l as [|t l IH]; intros i u Hi Hl Hu used r; cbn [uniqueInUse_loop] in r.
  { subst r. assert (∀ j, ¬ used j) as Hno by by intros j (t&Hj&_).
    destruct (decide (u = 255)) as [->|]; [left; auto|right; left; auto]. }
  cbn [length] in Hl. destruct (Z.eqb_spec i 255); [lia|]. cbn [negb andb] in r.
  assert (∀ j, used (S j) ↔ ∃ t, l !! j = Some t ∧ isEmpty t = false) as HS by done.
  destruct (isEmpty t) eqn:Ht; cbn [negb] in r.
  - assert (¬ used 0%nat) as H0' by (intros (t'&[= <-]&Ht'); congruence).
    destruct (IH (i + 1) u ltac:(lia) ltac:(lia) ltac:(lia)) as [[Hr Hc]|[(Hr&Hru&Hno)|(Hr&Hu'&j&Hj&Huj&Hun)]]; fold r in Hr.
    + left. split; [done|]. destruct Hc as [[Hu1 Hno]|[[Hu1 [j Hj]]|(j1&j2&Hj&Hj1&Hj2)]].
      * left. split; [done|]. intros [|j]; [done|]. apply Hno.
      * right; left. split; [done|]. exists (S j). by apply HS.
      * right; right. exists (S j1), (S j2). split; [lia|]. split; by apply HS.
    + right; left. split; [done|]. split; [done|]. intros [|j]; [done|]. apply Hno.
    + right; right. split; [done|]. split; [done|]. exists (S j). split; [fold r in Hj; lia|]. split; [by apply HS|].
      intros [|j'] Hj'; [done|]. f_equal. by apply Hun.
  - assert (used 0%nat) as H0' by by exists t.
    destruct (Z.eqb_spec u 255) as [->|Hne].
    + destruct (IH (i + 1) i ltac:(lia) ltac:(lia) ltac:(lia)) as [[Hr Hc]|[(Hr&Hru&Hno)|(Hr&Hu'&_)]]; fold r in Hr.
      * left. split; [done|]. right; right. destruct Hc as [[Hu1 _]|[[_ [j Hj]]|(j1&j2&Hj&Hj1&Hj2)]]; [lia|..].
        -- exists 0%nat, (S j). split; [lia|]. split; [done|by apply HS].
        -- exists (S j1), (S j2). split; [lia|]. split; by apply HS.
      * right; right. split; [done|]. split; [done|]. exists 0%nat. split; [fold r in Hru; lia|]. split; [done|].
        intros [|j'] Hj'; [done|]. by destruct (Hno j').
      * lia.
    + left. split; [done|]. right; left. split; [done|]. by exists 0%nat.
Qed.

Lemma slots_used cs v j :
  length cs = 16%nat →
  (∃ t, slots cs v !! j = Some t ∧ isEmpty t = false) ↔ occupied cs v !! j = Some true.
Proof.
  intros Hl. unfold slots, occupied. destruct (Nat.ltb_spec j 16) as [Hj|Hj].
  - rewrite !lookup_app_l by (rewrite length_map; lia). rewrite !list_lookup_fmap.
    destruct (lookup_lt_is_Some_2 cs j) as [c Hc]; [lia|]. rewrite Hc. cbn. split.
    + intros (t&[= <-]&Ht). rewrite ref_empty in Ht. by destruct (used_child c).
    + intros [= Hu]. eexists. split; [done|]. by rewrite ref_empty, Hu.
  - rewrite !lookup_app_r by (rewrite length_map; lia). rewrite !length_map, Hl.
    destruct (j - 16)%nat as [|j']; cbn; [|split; [by intros (t&?&_)|by destruct j']].
    split; [intros (t&[= <-]&Ht); by destruct v|intros [= Hu]; eexists; split; [done|by destruct v]].
Qed.
Lemma uniqueInUse_slots cs v :
  length cs = 16%nat → (∃ j, occupied cs v !! j = Some true) →
  let u := uniqueInUse (slots cs v) 255 in
  (u = 255 ∧ two_used (occupied cs v)) ∨
  (∃ j, u = Z.of_nat j ∧ (j < 17)%nat ∧ occupied cs v !! j = Some true ∧
     ∀ j', occupied cs v !! j' = Some true → j' = j).
Proof.
  intros Hl [j0 Hj0] u. pose proof (length_slots cs v Hl) as Hls.
  destruct (uniqueInUse_loop_spec (slots cs v) 0 255 ltac:(lia) ltac:(lia) ltac:(by left))
    as [[Hr Hc]|[(Hr&Hru&_)|(Hr&_&j&Hj&Huj&Hun)]]; [|done|].
  - left. split; [done|]. destruct Hc as [[_ Hno]|[[? _]|(j1&j2&Hj&Hj1&Hj2)]]; [|done|].
    + destruct (Hno j0). by apply slots_used.
    + exists j1, j2. split; [done|]. by split; apply slots_used.
  - right. exists j. split; [done|]. split; [destruct Huj as (t&Ht%lookup_lt_Some&_); lia|].
    split; [by apply slots_used|]. intros j' Hj'. apply Hun. by apply slots_used.
Qed.

(** What is left of a branch when one slot of it is in use *)
Lemma wp_merge_used n cs u c d :
  length cs = 16%nat → cs !! u = Some c → wf n c → Z.of_nat n < 2 ^ 32 → c ≠ Empty → resolves d c →
  wp (b ← merge_used (slots cs []) (Z.of_nat u); mret (Some b)) d
    (λ it _, it = Some (node_item (join [Z.of_nat u] c))).
Proof.
  intros Hl Hc Hwf Hn Hne Hr. pose proof (lookup_lt_Some _ _ _ Hc) as Hu. rewrite Hl in Hu.
  assert (Forall nib [Z.of_nat u]) as Hnib by (repeat constructor; lia).
  eapply (tr_bind _ _ _ (λ it _, it = node_item (join [Z.of_nat u] c))); [|intros it d' _ ->; by apply tr_ret].
  unfold merge_used. rewrite Nat2Z.id, (item_child _ _ _ _ Hc).
  eapply tr_bind; [by eapply wp_isTwoItemNode|]. intros b d' _ [-> ->].
  eapply (tr_bind _ _ _ (λ it d2, it = List [Data (hex_prefix [Z.of_nat u] false); ref c] ∧ resolves d2 c)).
  - unfold merge. apply wp_assert_bind; [by rewrite length_slots|].
    destruct (Z.eqb_spec (Z.of_nat u) 16); [lia|]. cbn [negb]. rewrite Nat2Z.id, (item_child _ _ _ _ Hc), ref_empty.
    apply wp_assert_bind; [by destruct c|]. apply tr_ret. split; [|done]. repeat f_equal.
    pose proof (hexPrefixEncode_range_spec [Z.of_nat u] false 1 2 1 0) as Hx. change (Z.of_nat 1) with 1 in Hx.
    rewrite Hx; clear Hx; [|repeat constructor; change (2 ^ 8) with 256; lia|cbn; lia|done].
    rewrite asNibbles_cons. cbn. by rewrite Z.mod_small by lia.
  - intros it d' _ [-> Hr']. unfold join. destruct (pair c) eqn:Hp; [by eapply wp_graft|by apply tr_ret].
Qed.

(** No key of the tree is a prefix of another one, or of [ks]. *)
Definition prefix_free (t : trie) : Prop :=
  ∀ k1 k2, get t k1 ≠ [] → get t k2 ≠ [] → k1 `prefix_of` k2 → k1 = k2.
Definition apart (t : trie) (ks : list Z) : Prop :=
  ∀ k, get t k ≠ [] → k `prefix_of` ks ∨ ks `prefix_of` k → k = ks.
Lemma prefix_free_Ext p c : prefix_free (Ext p c) → prefix_free c.
Proof.
  intros Hp k1 k2 H1 H2 Hk. apply (app_inv_head p), Hp; rewrite ?get_Ext; try done. by apply prefix_app.
Qed.
Lemma apart_Ext p c ks : apart (Ext p c) (p ++ ks) → apart c ks.
Proof.
  intros Ha k Hk Hpre. apply (app_inv_head p), Ha; [by rewrite get_Ext|].
  destruct Hpre; [left|right]; by apply prefix_app.
Qed.
Lemma prefix_free_child cs v i c : nib i → cs !! Z.to_nat i = Some c → prefix_free (Branch cs v) → prefix_free c.
Proof.
  intros Hi Hc Hp k1 k2 H1 H2 Hk. apply (app_inv_head [i]), Hp; cbn [app]; rewrite ?(get_nib _ _ _ _ _ Hi Hc); try done.
  by apply prefix_cons.
Qed.
Lemma apart_child cs v i c ks :
  nib i → cs !! Z.to_nat i = Some c → apart (Branch cs v) (i :: ks) → apart c ks.
Proof.
  intros Hi Hc Ha k Hk Hpre. apply (app_inv_head [i]), Ha; cbn [app]; [by rewrite (get_nib _ _ _ _ _ Hi Hc)|].
  destruct Hpre; [left|right]; by apply prefix_cons.
Qed.
(** A branch holds no value then, and the key goes on. *)
Lemma branch_apart n cs v ks :
  wf n (Branch cs v) → prefix_free (Branch cs v) → apart (Branch cs v) ks → v = [] ∧ ks ≠ [].
Proof.
  intros Hwf Hp Ha. destruct (branch_split n cs v Hwf) as (k1&k2&H1&H2&Hne&_). split.
  - destruct (decide (v = [])) as [|Hv]; [done|]. destruct Hne.
    transitivity (@nil Z); [symmetry|]; by apply Hp; [..|apply prefix_nil].
  - intros ->. apply Hne. rewrite (Ha k1), (Ha k2); try done; right; apply prefix_nil.
Qed.
Lemma branch_not_emptied n cs v ks c :
  wf n (Branch cs v) → added (Branch cs v) ks [] c → c ≠ Empty.
Proof.
  intros Hwf Ha ->. destruct (branch_split n cs v Hwf) as (k1&k2&H1&H2&Hne&_).
  assert (∀ k, get (Branch cs v) k ≠ [] → k = ks) as Hall.
  { intros k Hk. destruct (decide (k = ks)) as [|Hne']; [done|]. destruct Hk. specialize (Ha k).
    by rewrite decide_False in Ha. }
  apply Hne. by rewrite (Hall k1), (Hall k2).
Qed.

Definition deleted (n : nat) (t : trie) (ks : list Z) (r : option item) (d : DB) : Prop :=
  match r with
  | None => get t ks = []
  | Some it => get t ks ≠ [] ∧ node_of (λ t', wf n t' ∧ added t ks [] t') it d
  end.

Lemma wp_deleteAtAux m n c ks f d :
  wf n c → Z.of_nat n < 2 ^ 32 → resolves d c → stored d c →
  (c ≠ Empty → wp (f (Some (node_item c))) d (deleted m c ks)) →
  wp (deleteAtAux sha3 f (ref c)) d (λ r d',
    match r with
    | None => get c ks = []
    | Some it => get c ks ≠ [] ∧
        ∃ c', it = ref c' ∧ resolves d' c' ∧ stored d' c' ∧ wf m c' ∧ added c ks [] c'
    end).
Proof.
  intros Hwf Hn Hr Hs Hf. unfold deleteAtAux.
  eapply (tr_bind _ _ _ (deleted m c ks)).
  - rewrite ref_empty. assert (c = Empty ∨ c ≠ Empty) as [->|Hne] by (destruct c; auto); [by apply tr_ret|].
    replace (used_child c) with true by by destruct c. cbn [negb].
    eapply tr_bind; [by eapply wp_deref|]. intros r d' _ [-> ->]. by apply Hf.
  - intros [it|] d' _; [|intros Hg; by apply tr_ret]. intros (Hg&c'&->&Hs'&Hwf'&Ha).
    eapply tr_bind; [apply wp_stream|]. intros it d2 He [-> Hr']. apply tr_ret. split; [done|].
    exists c'. split; [done|]. split; [done|]. split; [by eapply stored_mono|]. done.
Qed.

(** One slot is left in use: the branch with this child only *)
Lemma get_one_child cs u c k :
  length cs = 16%nat → cs !! u = Some c →
  (∀ j, occupied cs [] !! j = Some true → j = u) →
  get (Branch cs []) k = get (Ext [Z.of_nat u] c) k.
Proof.
  intros Hl Hc Hun. pose proof (lookup_lt_Some _ _ _ Hc) as Hu.
  destruct k as [|j k]; [done|]. destruct (decide (j = Z.of_nat u)) as [->|Hne].
  { rewrite (get_child _ _ _ _ _ Hc). change (Z.of_nat u :: k) with ([Z.of_nat u] ++ k). by rewrite get_Ext. }
  rewrite (get_Ext_None [Z.of_nat u]) by (intros [r [= ?]]; done). rewrite get_Branch_cons.
  destruct (Z.leb_spec 0 j); [|done]. destruct (cs !! Z.to_nat j) as [c'|] eqn:Hc'; [|done].
  destruct c'; [done|..]; exfalso; assert (Z.to_nat j = u); try lia; apply Hun; unfold occupied;
    (rewrite lookup_app_l by (rewrite length_map; by eapply lookup_lt_Some)); by rewrite list_lookup_fmap, Hc'.
Qed.

(** The branch after one of its slots has changed *)
Lemma wp_rejig n cs i c' d :
  wf (S n) (Branch cs []) → (i < 16)%nat → wf n c' → Z.of_nat (S n) < 2 ^ 32 →
  resolves d c' → stored d c' → stored d (Branch cs []) →
  let rlp := <[i := ref c']> (slots cs []) in
  let used := uniqueInUse rlp 255 in
  wp (if used =? 255 then mret (Some (List rlp)) else b ← merge_used rlp used; mret (Some b)) d
    (λ r d', ∃ it, r = Some it ∧
       node_of (λ t', wf (S n) t' ∧ ∀ k, get t' k = get (Branch (<[i := c']> cs) []) k) it d').
Proof.
  intros Hwf Hi Hwc Hn Hr Hs Hst rlp used. inversion Hwf as [| | |? ? ? Hl Hcs _ (x&y&Hxy&Hx&Hy)]; subst.
  inversion Hst as [| | |? ? Hra Hsa]; subst.
  assert (stored d (Branch (<[i:=c']> cs) [])) as Hst' by (constructor; by apply Forall_insert).
  assert (Forall (wf n) (<[i:=c']> cs)) as Hcs' by by apply Forall_insert.
  assert (length (<[i:=c']> cs) = 16%nat) as Hl' by by rewrite length_insert.
  unfold used, rlp. rewrite slots_insert by lia.
  destruct (uniqueInUse_slots (<[i:=c']> cs) []) as [[-> Htwo]|(u&->&Hu&Huo&Hun)]; [done| |..].
  { assert (∃ z, z ≠ i ∧ occupied cs [] !! z = Some true) as (z&Hz&Hzo)
      by (destruct (decide (x = i)) as [->|]; [exists y|exists x]; auto).
    exists z. by rewrite occupied_insert, list_lookup_insert_ne by (done || lia). }
  - rewrite Z.eqb_refl. apply tr_ret. eexists. split; [done|]. exists (Branch (<[i:=c']> cs) []).
    split; [done|]. split; [done|]. split; [|done]. constructor; [done|done|by left|done].
  - destruct (Z.eqb_spec (Z.of_nat u) 255); [lia|]. apply occupied_lookup in Huo as [[_ ?]|(cu&Hcu&Hne)]; [done| |done].
    inversion Hst' as [| | |? ? Hra' Hsa']; subst. rewrite Forall_lookup in Hcs', Hra', Hsa'.
    eapply tr_mono; [apply (wp_merge_used n _ _ cu); eauto; lia|].
    intros it d' He ->. eexists. split; [done|]. exists (join [Z.of_nat u] cu). split; [done|].
    split; [apply stored_join; [eapply stored_mono|eapply resolves_mono]; eauto|].
    pose proof (lookup_lt_Some _ _ _ Hcu) as Hul. rewrite Hl' in Hul. split.
    + apply (wf_join _ n); [by eapply Hcs'|done| |done|cbn; lia]. repeat constructor; lia.
    + intros k. rewrite get_join. symmetry. by apply get_one_child.
Qed.

Lemma delete_spec n t ks k fuel d :
  wf n t → Z.of_nat n < 2 ^ 32 → stored d t → key_is k ks → (length ks < fuel)%nat →
  prefix_free t → apart t ks →
  wp (deleteAt sha3 fuel (Some (node_item t)) k) d (deleted n t ks).
Proof.
  revert n ks k fuel d. induction t as [|lk v|p c IH|cs v IH] using trie_induction;
    intros n ks k fuel d Hwf Hn Hst Hk Hf Hp Ha; (destruct fuel as [|fuel]; [lia|]); cbn [deleteAt].
  - by apply tr_ret.
  - inversion Hwf as [|? ? ? Hlk _ Hv| |]; subst. rewrite node_Leaf. cbn [isEmpty two_items].
    rewrite isLeaf_first by done. apply tr_bind_ret. pose proof (key_of_first lk true Hlk) as Hf1.
    rewrite (key_equal _ _ _ _ Hf1 Hk), (key_contains _ _ _ _ Hk Hf1), andb_true_r.
    assert (get (Leaf lk v) lk ≠ []) as Hg by (rewrite get_Leaf; apply Hv).
    case_bool_decide as Heq; [subst ks|case_bool_decide as Hpre].
    + apply wp_killNode_bind. intros d' _. apply tr_ret. split; [done|].
      exists Empty. split; [done|]. split; [constructor|]. split; [constructor|]. intros k'. cbn. by case_decide.
    + destruct Heq. apply Ha; [done|by left].
    + apply tr_ret. cbn. by rewrite decide_False by by intros ->.
  - inversion Hwf as [| |? m ? cs v Hpn Hpne Hm Hc|]; subst. inversion Hst as [| |? ? Hr Hsc|]; subst.
    rewrite node_Ext. cbn [isEmpty two_items].
    rewrite isLeaf_first by done. apply tr_bind_ret. pose proof (key_of_first p false Hpn) as Hf1.
    rewrite andb_false_r, (key_contains _ _ _ _ Hk Hf1), (key_size _ _ Hf1).
    case_bool_decide as Hpre; [|apply tr_ret; by apply get_Ext_None]. destruct Hpre as [ks' ->].
    eapply tr_bind.
    { eapply (wp_deleteAtAux m m _ ks'); [done|lia|done|done|]. intros _. apply IH; try done; [lia|by apply key_mid| | |].
      - rewrite length_app in Hf. destruct p; [done|]. cbn in Hf. lia.
      - by eapply prefix_free_Ext.
      - by eapply apart_Ext. }
    intros [it|] d' He; [|intros Hg; apply tr_ret; cbn [deleted]; by rewrite get_Ext].
    intros (Hg&c'&->&Hr'&Hs'&Hwf'&Hac). pose proof (branch_not_emptied _ _ _ _ _ Hc Hac) as Hne.
    apply wp_killNode_bind. intros d2 He2.
    eapply tr_mono; [apply (wp_join m); [done|lia|done|by eapply resolves_mono|done]|].
    intros it d3 He3 ->. split; [by rewrite get_Ext|]. exists (join p c'). split; [done|].
    assert (extends d' d3) as He' by by eapply extends_trans. split; [|split; [by apply (wf_join _ m)|]].
    + apply stored_join; [by eapply stored_mono|by eapply resolves_mono].
    + intros k'. rewrite get_join. by apply added_Ext.
  - destruct (branch_apart _ _ _ _ Hwf Hp Ha) as [-> Hks]. destruct ks as [|i ks]; [done|]. cbn [length] in Hf.
    pose proof Hwf as Hwf'. inversion Hwf' as [| | |m ? ? Hl Hcs _ _]; subst.
    rewrite node_Branch, isEmpty_slots, two_items_slots by done.
    apply wp_assert_bind; [by rewrite length_slots|]. rewrite (key_size _ _ Hk). cbn [length Nat.eqb andb].
    pose proof (key_nib _ _ Hk) as [Hi _]%Forall_cons. rewrite (key_at _ _ _ Hk).
    destruct (child_at _ _ _ _ Hwf Hi) as (c&Hc&Hwc&_). replace (S m - 1)%nat with m in Hwc by lia.
    rewrite (item_child _ _ _ _ Hc). destruct (stored_child _ _ _ _ _ Hst Hc) as [Hr Hsc].
    eapply tr_bind.
    { eapply (wp_deleteAtAux m m c ks); [done|lia|done|done|]. intros _. rewrite Forall_lookup in IH.
      apply (IH _ _ Hc); try done; [lia|by apply (key_mid k [i])|lia|by eapply prefix_free_child|by eapply apart_child]. }
    intros [it|] d' He; [|intros Hg; apply tr_ret; cbn [deleted]; by rewrite (get_nib _ _ _ _ _ Hi Hc)].
    intros (Hg&c'&->&Hr'&Hs'&Hwf2&Hac). apply wp_killNode_bind. intros d2 He2.
    pose proof (extends_trans _ _ _ He He2) as He3.
    eapply tr_mono; [apply (wp_rejig m); [done|by apply nib_lt|done|done|..]|].
    + exact (resolves_mono _ _ _ He2 Hr').
    + exact (stored_mono _ _ _ He2 Hs').
    + exact (stored_mono _ _ _ He3 Hst).
    + intros r d3 _ (it&->&t'&->&Hs3&Hwf3&Hg3). split; [by rewrite (get_nib _ _ _ _ _ Hi Hc)|].
      exists t'. split; [done|]. split; [done|]. split; [done|]. intros k'. rewrite Hg3. by eapply added_child.
Qed.

End Refine.
End TrieRefine.
