(* ===== verification/TrieContents.v ===== *)
(** * What the trie holds

    The trie as a map from keys to values: lookup, insertion and removal
    through the public operations of TrieDB, for any sequence of operations,
    and the root hash as a function of the contents. *)
From S2P Require Import Prelude CommonData RLP RLPCodec TrieCommon NodeDB TrieDB TrieSpec TrieRefine.

Module TrieContents.
Import CommonData RLPCodec TrieCommon TrieDB TrieSpec TrieRefine.

Section Contents.
Context {DB : Type} `{NodeDBLaws DB} (sha3 : bytes → bytes).
Hypothesis sha3_ok : ∀ b, bytes_ok (sha3 b) ∧ length (sha3 b) = 32%nat.
Notation M := (@M DB).

(** The store finds strings under their hashes only. *)
Definition hashed (d : DB) : Prop :=
  db_valid d ∧
  ∀ h, length h = 32%nat → lookup_node d h ≠ [] → sha3 (lookup_node d h) = h.
(** No collision between the strings that a run inserts, and none of them with
    a string of the store *)
Definition no_collision (d : DB) (w : list bytes) : Prop :=
  (∀ x y, x ∈ w → y ∈ w → sha3 x = sha3 y → x = y) ∧
  (∀ x, x ∈ w → lookup_node d (sha3 x) = [] ∨ lookup_node d (sha3 x) = x).

(** The trie at [root] in the store holds the value [f k] under the nibbles
    [k]; [[]]: no value. *)
Definition holds (n : nat) (root : bytes) (d : DB) (t : trie) : Prop :=
  wf n t ∧ Z.of_nat n < 2 ^ 32 ∧ stored sha3 d t ∧ root = sha3 (encode (node_item sha3 t)) ∧
  lookup_node d root = encode (node_item sha3 t).
Definition represents (n : nat) (d : DB) (root : bytes) (f : list Z → bytes) : Prop :=
  ∃ t, holds n root d t ∧ ∀ k, get t k = f k.
Definition update (f : list Z → bytes) (k : list Z) (v : bytes) : list Z → bytes :=
  λ k', if decide (k' = k) then v else f k'.

(** The strings of the store and of the run *)
Definition known (d : DB) (w : list bytes) (x : bytes) : Prop :=
  x ∈ w ∨ (x ≠ [] ∧ lookup_node d (sha3 x) = x).
Lemma known_injective d w x y :
  no_collision d w → known d w x → known d w y → sha3 x = sha3 y → x = y.
Proof.
  intros [Hw Hd] [Hx|[Hx Hlx]] [Hy|[Hy Hly]] Heq.
  - by apply Hw.
  - destruct (Hd x Hx) as [He|He]; rewrite Heq, Hly in He; congruence.
  - destruct (Hd y Hy) as [He|He]; rewrite <-Heq, Hlx in He; congruence.
  - congruence.
Qed.
Lemma known_inv d w : hashed d → inv sha3 (known d w) d.
Proof.
  intros [Hv Hh]. split; [done|]. intros h Hl Hne. specialize (Hh h Hl Hne). split; [done|].
  right. split; [done|]. by rewrite Hh.
Qed.
Lemma inv_hashed N d : inv sha3 N d → hashed d.
Proof. intros [Hv Hh]. split; [done|]. intros h Hl Hne. by destruct (Hh h Hl Hne). Qed.

(** A triple holds of the run when there is no collision. *)
Lemma run_wp {A} (m : M A) d (Q : A → DB → Prop) r d' w :
  hashed d → m d = (r, d', w) → no_collision d w →
  (∀ N : bytes → Prop, (∀ x y, N x → N y → sha3 x = sha3 y → x = y) → wp sha3 N m d Q) →
  ∃ a, r = Ok a ∧ hashed d' ∧ extends d d' ∧ Q a d'.
Proof.
  intros Hh Hm Hw Hwp.
  destruct (Hwp (known d w) (λ x y, known_injective d w x y Hw) (known_inv d w Hh) r d' w Hm) as (a&->&Hi&He&HQ).
  - apply Forall_forall. intros x Hx. by left.
  - exists a. split; [done|]. split; [by eapply inv_hashed|done].
Qed.

Lemma key_bytes key : bytes_ok key → key_is (mkSlice key 0) (asNibbles key).
Proof. intros Hk. split; [split; [done|cbn; lia]|]. unfold nibs. cbn. by rewrite drop_0. Qed.
Lemma represents_mono n d d' root f : extends d d' → represents n d root f → represents n d' root f.
Proof.
  intros He (t&(Hwf&Hn&Hs&->&Hl)&Hf). exists t. split; [|done]. split; [done|]. split; [done|].
  split; [by eapply stored_mono|]. split; [done|]. rewrite He; [done|apply sha3_ok|]. rewrite Hl. apply encode_not_nil.
Qed.

Section Triples.
Context (N : bytes → Prop) (HN : ∀ x y, N x → N y → sha3 x = sha3 y → x = y).
Notation wp := (wp sha3 N).

Lemma wp_root n root d t :
  holds n root d t →
  wp (s ← node root; r ← toRLP s; mret (s, r)) d (λ a d',
    a = (encode (node_item sha3 t), Some (node_item sha3 t)) ∧ d' = d).
Proof.
  intros (Hwf&Hn&Hs&->&Hl). eapply tr_bind; [apply wp_node|]. intros s d' _ [-> ->]. rewrite Hl.
  eapply tr_bind; [apply toRLP_encode; by eapply node_item_good|]. intros r d' _ [-> ->]. by apply tr_ret.
Qed.
Lemma wp_new_root n t d :
  wf n t → Z.of_nat n < 2 ^ 32 → stored sha3 d t →
  wp (forceInsertNode sha3 (data (node_item sha3 t))) d (λ root d', holds n root d' t).
Proof.
  intros Hwf Hn Hs. eapply tr_mono; [apply (wp_insert _ _ HN), encode_not_nil|].
  intros root d' He [-> Hl]. split; [done|]. split; [done|]. split; [by eapply stored_mono|]. done.
Qed.
Lemma wp_old_root {B} (b : bool) root (m : M B) d Q :
  (∀ d', extends d d' → wp m d' Q) → wp ((if b then forceKillNode root else mret ());; m) d Q.
Proof.
  intros Hm. eapply (tr_bind _ _ _ _ _ (λ _ _, True)).
  - destruct b; [apply wp_kill|by apply tr_ret].
  - intros _ d' He _. by apply Hm.
Qed.

Lemma wp_insert_key n root d f key v :
  represents n d root f → bytes_ok key → (2 * length key ≤ n)%nat → value_ok v →
  wp (insert sha3 root key v) d (λ root' d', represents n d' root' (update f (asNibbles key) v)).
Proof.
  intros (t&Ht&Hf) Hk Hl Hv. pose proof Ht as (Hwf&Hn&Hs&Hroot&Hlk). unfold insert.
  pose proof (encode_not_nil (node_item sha3 t)) as Hne.
  eapply tr_bind; [apply wp_node|]. intros s d' _ [-> ->]. rewrite Hlk.
  apply wp_assert_bind.
  { destruct (encode _); [done|]. destruct (Z.eqb_spec (RLP.size (z :: l)) 0); [|done].
    rewrite size_cons in *. pose proof (size_nonneg l). lia. }
  eapply tr_bind; [apply toRLP_encode; by eapply node_item_good|]. intros r d' _ [-> ->].
  eapply tr_bind.
  { apply (merge_spec sha3 sha3_ok N HN _ n _ (asNibbles key)); try done; [by apply key_bytes|..];
      rewrite length_asNibbles; unfold fuel_of; lia. }
  intros it d' He (t'&->&Hs'&Hwf'&_&_&Ha). apply wp_old_root. intros d2 He2.
  eapply tr_mono; [apply (wp_new_root n t'); [done|done|by eapply stored_mono]|].
  intros root' d3 _ Ht'. exists t'. split; [done|]. intros k. rewrite Ha. unfold update. by rewrite Hf.
Qed.

(** No key is a prefix of another one, or of [ks]. *)
Definition no_prefixes (f : list Z → bytes) (ks : list Z) : Prop :=
  ∀ k1 k2, (f k1 ≠ [] ∨ k1 = ks) → (f k2 ≠ [] ∨ k2 = ks) → k1 `prefix_of` k2 → k1 = k2.

Lemma wp_remove_key n root d f key :
  represents n d root f → bytes_ok key → (2 * length key ≤ n)%nat → no_prefixes f (asNibbles key) →
  wp (remove sha3 root key) d (λ root' d', represents n d' root' (update f (asNibbles key) []) ∧
    (f (asNibbles key) = [] → root' = root)).
Proof.
  intros (t&Ht&Hf) Hk Hl Hp. pose proof Ht as (Hwf&Hn&Hs&Hroot&Hlk). unfold remove.
  eapply tr_bind; [apply wp_node|]. intros s d' _ [-> ->]. rewrite Hlk.
  eapply tr_bind; [apply toRLP_encode; by eapply node_item_good|]. intros r d' _ [-> ->].
  eapply tr_bind.
  { apply (delete_spec sha3 sha3_ok N HN n _ (asNibbles key)); try done; [by apply key_bytes|..].
    - rewrite length_asNibbles. unfold fuel_of. lia.
    - intros k1 k2. rewrite !Hf. intros Hk1 Hk2. apply Hp; auto.
    - intros k. rewrite Hf. intros Hk' [Hpre|Hpre]; [|symmetry]; apply Hp; auto. }
  intros [it|] d' He.
  - intros (Hg&t'&->&Hs'&Hwf'&Ha). apply wp_old_root. intros d2 He2.
    eapply tr_mono; [apply (wp_new_root n t'); [done|done|by eapply stored_mono]|].
    intros root' d3 _ Ht'. split; [|rewrite <-Hf; by intros ?]. exists t'. split; [done|].
    intros k. rewrite Ha. unfold update. by rewrite Hf.
  - cbn [deleted]. intros Hg. apply tr_ret. split; [|done].
    destruct (represents_mono n d d' root f He) as (t1&Ht1&Hf1); [by exists t|]. exists t1. split; [done|].
    intros k. rewrite Hf1. unfold update. case_decide; [subst; by rewrite <-Hf|done].
Qed.

Lemma wp_init d n : Z.of_nat n < 2 ^ 32 → wp (init sha3) d (λ root d', root = EmptyTrie sha3 ∧ represents n d' root (λ _, [])).
Proof.
  intros Hn. unfold init. eapply tr_bind; [apply (wp_new_root n Empty); [constructor|done|constructor]|].
  intros root d' _ Ht. pose proof Ht as (_&_&_&->&Hl).
  eapply (tr_bind _ _ _ _ _ (λ e d2, e = true ∧ d2 = d')).
  { intros [Hv Hi] r d2 w [= <- <- <-] _. eexists. split; [done|]. split; [done|]. split; [done|]. split; [|done].
    destruct (exists_node d' _) eqn:He; [done|]. apply exists_lookup in He; [|done].
    change (lookup_node d' (sha3 (encode (node_item sha3 Empty))) = []) in He. by rewrite Hl in He. }
  intros e d2 _ [-> ->]. apply tr_bind_ret. unfold verifyRoot.
  eapply (tr_bind _ _ _ _ _ (λ r d2, r = sha3 (encode (node_item sha3 Empty)) ∧ d2 = d')).
  { eapply tr_bind; [apply wp_node|]. intros s d2 _ [-> ->]. rewrite Hl. by apply tr_ret. }
  intros r d2 _ [-> ->]. eapply tr_bind; [apply wp_node|].
  intros s d2 _ [-> ->]. rewrite Hl. apply wp_assert_bind; [done|]. apply tr_ret. split; [done|].
  exists Empty. done.
Qed.

End Triples.
(** ** Lookup inserts nothing *)

Lemma quiet_bind {A B} (m : M A) (f : A → M B) d :
  (∃ r, m d = (r, d, [])) → (∀ a, ∃ r, f a d = (r, d, [])) → ∃ r, (m ≫= f) d = (r, d, []).
Proof.
  intros [r Hm] Hf. unfold mbind, M_bind. rewrite Hm. destruct r as [a|e]; [|by eexists].
  destruct (Hf a) as [r' Hr]. rewrite Hr. by eexists.
Qed.
Lemma quiet_toHash t d : ∃ r, toHash (DB:=DB) t d = (r, d, []).
Proof. destruct t as [bs|]; unfold toHash; [case_match|]; (eexists; reflexivity). Qed.
Lemma quiet_toRLP s d : ∃ r, toRLP (DB:=DB) s d = (r, d, []).
Proof. unfold toRLP. destruct s; [(eexists; reflexivity)|]. destruct (parse _); (eexists; reflexivity). Qed.
Lemma quiet_deref t d : ∃ r, derefRLP (DB:=DB) t d = (r, d, []).
Proof.
  unfold derefRLP. destruct (isList t); [(eexists; reflexivity)|]. apply quiet_bind; [apply quiet_toHash|]. intros h.
  apply quiet_bind; [(eexists; reflexivity)|]. intros s. apply quiet_toRLP.
Qed.
Lemma quiet_atAux fuel here k d : ∃ r, atAux (DB:=DB) fuel here k d = (r, d, []).
Proof.
  revert here k. induction fuel as [|fuel IH]; intros [it|] k; cbn [atAux]; try (eexists; reflexivity).
  destruct (isEmpty it); [(eexists; reflexivity)|]. destruct it as [bs|l]; [(eexists; reflexivity)|].
  destruct (two_items l) as [[a b]|].
  - apply quiet_bind; [unfold isLeaf_; destruct (payload a); (eexists; reflexivity)|]. intros leaf.
    case_match; [destruct b; (eexists; reflexivity)|]. case_match; [|(eexists; reflexivity)].
    apply quiet_bind; [apply quiet_deref|]. intros r. apply IH.
  - apply quiet_bind; [unfold assert; destruct (length l =? 17)%nat; (eexists; reflexivity)|]. intros _.
    destruct (size k =? 0)%nat; [destruct (item_ l 16); (eexists; reflexivity)|]. destruct (isEmpty _); [(eexists; reflexivity)|].
    apply quiet_bind; [apply quiet_deref|]. intros r. apply IH.
Qed.
Lemma quiet_at root key d : ∃ r, at_key (DB:=DB) root key d = (r, d, []).
Proof.
  apply quiet_bind; [(eexists; reflexivity)|]. intros s. apply quiet_bind; [apply quiet_toRLP|]. intros r. apply quiet_atAux.
Qed.

Lemma at_represents n d root f key :
  hashed d → represents n d root f → bytes_ok key → at_key root key d = (Ok (f (asNibbles key)), d, []).
Proof.
  intros Hh (t&(Hwf&Hn&Hs&Hroot&Hlk)&Hf) Hk. destruct (quiet_at root key d) as [r Hr].
  assert (no_collision d []) as Hnc by (split; [intros x y Hx|intros x Hx]; by apply elem_of_nil in Hx).
  destruct (run_wp _ _ (λ v _, v = f (asNibbles key)) _ _ _ Hh Hr Hnc) as (v&->&_&_&->); [|done].
  intros N HN. unfold at_key. eapply tr_bind; [apply wp_node|]. intros s d' _ [-> ->]. rewrite Hlk.
  eapply tr_bind; [apply toRLP_encode; by eapply node_item_good|]. intros r' d' _ [-> ->].
  eapply tr_mono; [apply (atAux_spec sha3 sha3_ok N n t _ (asNibbles key)); try done; [by apply key_bytes|]|].
  - rewrite length_asNibbles. unfold fuel_of. lia.
  - intros v d' _ [-> _]. apply Hf.
Qed.

(** ** Sequences of operations *)

Inductive op := Insert (key value : bytes) | Remove (key : bytes).
Fixpoint run (ops : list op) (root : bytes) : M bytes :=
  match ops with
  | [] => mret root
  | Insert key v :: ops => root ← insert sha3 root key v; run ops root
  | Remove key :: ops => root ← remove sha3 root key; run ops root
  end.
(** What the sequence leaves in a map *)
Fixpoint contents (ops : list op) (f : list Z → bytes) : list Z → bytes :=
  match ops with
  | [] => f
  | Insert key v :: ops => contents ops (update f (asNibbles key) v)
  | Remove key :: ops => contents ops (update f (asNibbles key) [])
  end.
(** Keys of [L] bytes, as in a [SpecificTrieDB], and values that are not empty *)
Definition op_ok (L : nat) (o : op) : Prop :=
  match o with
  | Insert key v => bytes_ok key ∧ length key = L ∧ value_ok v
  | Remove key => bytes_ok key ∧ length key = L
  end.
Definition keys_of_length (L : nat) (f : list Z → bytes) : Prop := ∀ k, f k ≠ [] → length k = (2 * L)%nat.
Lemma keys_update L f key v :
  keys_of_length L f → length key = L → keys_of_length L (update f (asNibbles key) v).
Proof.
  intros Hf Hk k. unfold update. case_decide; [subst k; intros _; by rewrite length_asNibbles, Hk|apply Hf].
Qed.
Lemma keys_no_prefixes L f key :
  keys_of_length L f → length key = L → no_prefixes f (asNibbles key).
Proof.
  intros Hf Hk k1 k2 H1 H2 Hpre.
  assert (∀ k, f k ≠ [] ∨ k = asNibbles key → length k = (2 * L)%nat) as Hl
    by (intros k [Hfk| ->]; [by apply Hf|by rewrite length_asNibbles, Hk]).
  apply prefix_length_eq; [done|]. by rewrite (Hl k1), (Hl k2).
Qed.
Lemma wp_run N L ops d root f :
  (∀ x y, N x → N y → sha3 x = sha3 y → x = y) →
  Forall (op_ok L) ops → keys_of_length L f → represents (2 * L) d root f →
  wp sha3 N (run ops root) d (λ root' d', represents (2 * L) d' root' (contents ops f)).
Proof.
  intros HN Hops. revert d root f. induction Hops as [|[key v|key] ops Ho Hops IH]; intros d root f Hf Hr;
    cbn [run contents]; [by apply tr_ret|..].
  - destruct Ho as (Hk&Hl&Hv). eapply tr_bind; [apply (wp_insert_key N HN (2 * L)); [done|done|lia|done]|].
    intros root' d' _ Hr'. apply IH; [by apply keys_update|done].
  - destruct Ho as (Hk&Hl).
    eapply tr_bind; [apply (wp_remove_key N HN (2 * L)); [done|done|lia|by eapply keys_no_prefixes]|].
    intros root' d' _ [Hr' _]. apply IH; [by apply keys_update|done].
Qed.

Lemma keys_contents L ops f :
  Forall (op_ok L) ops → keys_of_length L f → keys_of_length L (contents ops f).
Proof.
  intros Hops. revert f. induction Hops as [|[key v|key] ops Ho Hops IH]; intros f Hf; [done|..];
    apply IH, keys_update; try done; apply Ho.
Qed.
Lemma run_represents L ops d r d' w :
  hashed d → Z.of_nat (2 * L) < 2 ^ 32 → Forall (op_ok L) ops →
  (root ← init sha3; run ops root) d = (r, d', w) → no_collision d w →
  ∃ root, r = Ok root ∧ hashed d' ∧ extends d d' ∧
    represents (2 * L) d' root (contents ops (λ _, [])).
Proof.
  intros Hh HL Hops Hrun Hw.
  apply (run_wp _ _ (λ root d', represents (2 * L) d' root (contents ops (λ _, []))) _ _ _ Hh Hrun Hw).
  intros N HN. eapply tr_bind; [by apply (wp_init N HN d (2 * L))|]. intros root d1 _ [_ Hr].
  apply wp_run; [done|done|by intros k []|done].
Qed.

(** Two tries with the same contents have the same root. *)
Lemma represents_root n1 n2 d1 d2 root1 root2 f1 f2 :
  represents n1 d1 root1 f1 → represents n2 d2 root2 f2 → (∀ k, f1 k = f2 k) → root1 = root2.
Proof.
  intros (t1&(Hwf1&_&_&->&_)&Hf1) (t2&(Hwf2&_&_&->&_)&Hf2) Hf.
  rewrite (wf_unique n1 n2 t1 t2); [done|done|done|]. intros k. by rewrite Hf1, Hf2.
Qed.

(** ** Properties *)

(** C15. Any sequence of insertions and removals on a new trie, with keys of one
    length and values that are not empty: it does not throw, the trie then
    holds what the sequence leaves in a map, lookup gives it back, and every
    trie that was in the store can still be read. *)
Theorem trie_contents L ops d r d' w :
  hashed d → Z.of_nat (2 * L) < 2 ^ 32 → Forall (op_ok L) ops →
  (root ← init sha3; run ops root) d = (r, d', w) → no_collision d w →
  ∃ root, r = Ok root ∧ represents (2 * L) d' root (contents ops (λ _, [])) ∧
    (∀ key, bytes_ok key → at_key root key d' = (Ok (contents ops (λ _, []) (asNibbles key)), d', [])) ∧
    (∀ n root0 f0, represents n d root0 f0 → represents n d' root0 f0).
Proof.
  intros Hh HL Hops Hrun Hw.
  destruct (run_represents L ops d r d' w) as (root&->&Hh'&He&Hr); try done.
  exists root. split; [done|]. split; [done|]. split; [intros key Hk; by eapply at_represents|].
  intros n root0 f0. by apply represents_mono.
Qed.

(** C16. The root hash is a function of the contents: two sequences of operations
    that leave the same contents end with the same root, in whatever stores. *)
Theorem trie_canonical L1 L2 ops1 ops2 d1 d2 r1 r2 d1' d2' w1 w2 :
  hashed d1 → Z.of_nat (2 * L1) < 2 ^ 32 → Forall (op_ok L1) ops1 →
  (root ← init sha3; run ops1 root) d1 = (r1, d1', w1) → no_collision d1 w1 →
  hashed d2 → Z.of_nat (2 * L2) < 2 ^ 32 → Forall (op_ok L2) ops2 →
  (root ← init sha3; run ops2 root) d2 = (r2, d2', w2) → no_collision d2 w2 →
  (∀ k, contents ops1 (λ _, []) k = contents ops2 (λ _, []) k) →
  ∃ root, r1 = Ok root ∧ r2 = Ok root.
Proof.
  intros Hh1 HL1 Hops1 Hrun1 Hw1 Hh2 HL2 Hops2 Hrun2 Hw2 Heq.
  destruct (run_represents L1 ops1 d1 r1 d1' w1) as (root1&->&_&_&Hr1); [done..|].
  destruct (run_represents L2 ops2 d2 r2 d2' w2) as (root2&->&_&_&Hr2); [done..|].
  exists root1. split; [done|]. f_equal. symmetry. by eapply represents_root.
Qed.

(** C32. Insertion, with keys of any length: the new trie holds the value under the
    key and the old contents elsewhere. *)
Theorem insert_represents n root d f key v r d' w :
  hashed d → represents n d root f → bytes_ok key → (2 * length key ≤ n)%nat → value_ok v →
  insert sha3 root key v d = (r, d', w) → no_collision d w →
  ∃ root', r = Ok root' ∧ represents n d' root' (update f (asNibbles key) v) ∧ represents n d' root f.
Proof.
  intros Hh Hr Hk Hl Hv Hrun Hw.
  destruct (run_wp _ _ (λ root d', represents n d' root (update f (asNibbles key) v)) _ _ _ Hh Hrun Hw)
    as (root'&->&_&He&Hr'); [intros N HN; by apply wp_insert_key|].
  exists root'. split; [done|]. split; [done|]. by eapply represents_mono.
Qed.

(** C33. Removal, when no key is a prefix of another one or of the removed one:
    the new trie holds the old contents without the key; the root is the same
    when the key is not there. *)
Theorem remove_represents n root d f key r d' w :
  hashed d → represents n d root f → bytes_ok key → (2 * length key ≤ n)%nat → no_prefixes f (asNibbles key) →
  remove sha3 root key d = (r, d', w) → no_collision d w →
  ∃ root', r = Ok root' ∧ represents n d' root' (update f (asNibbles key) []) ∧
    (f (asNibbles key) = [] → root' = root).
Proof.
  intros Hh Hr Hk Hl Hp Hrun Hw.
  destruct (run_wp _ _ (λ root' d', represents n d' root' (update f (asNibbles key) []) ∧
    (f (asNibbles key) = [] → root' = root)) _ _ _ Hh Hrun Hw)
    as (root'&->&_&_&Hr'&Hsame); [intros N HN; by apply wp_remove_key|].
  by exists root'.
Qed.

End Contents.

(** ** Witnesses: a hash of 32 bytes, and a store in memory *)

Import MemoryDB.
Definition test_sha3 (b : bytes) : bytes :=
  let z := foldl (λ a x, (a * 257 + x + 1) mod 16777213) 7 b in
  replicate 29 1 ++ [z / 65536 mod 256; z / 256 mod 256; z mod 256].
Lemma test_sha3_ok b : bytes_ok (test_sha3 b) ∧ length (test_sha3 b) = 32%nat.
Proof.
  split; [|done]. unfold test_sha3. apply bytes_ok_app. split; [by apply bytes_okb_spec|].
  repeat constructor; by apply Z.mod_pos_bound.
Qed.
Definition no_collisionb (d : MemoryDB) (w : list bytes) : bool :=
  let hs := map (λ x, (x, test_sha3 x)) w in
  forallb (λ x, forallb (λ y, negb (bool_decide (x.2 = y.2)) || bool_decide (x.1 = y.1)) hs) hs &&
  forallb (λ x, bool_decide (lookup d x.2 = []) || bool_decide (lookup d x.2 = x.1)) hs.
Lemma no_collisionb_spec d w : no_collisionb d w = true → no_collision test_sha3 d w.
Proof.
  unfold no_collisionb. set (hs := map _ w). rewrite andb_true_iff, !forallb_forall. intros [H1 H2].
  assert (∀ x, x ∈ w → In (x, test_sha3 x) hs) as Hin.
  { intros x Hx%list_elem_of_In. apply in_map_iff. by exists x. }
  split.
  - intros x y Hx Hy Heq. specialize (H1 _ (Hin x Hx)). rewrite forallb_forall in H1.
    specialize (H1 _ (Hin y Hy)). cbn [fst snd] in H1. rewrite Heq, bool_decide_true in H1 by done.
    by apply bool_decide_eq_true in H1.
  - intros x Hx. specialize (H2 _ (Hin x Hx)). apply orb_true_iff in H2 as [H2|H2];
      apply bool_decide_eq_true in H2; auto.
Qed.
Lemma empty_db_hashed : hashed test_sha3 empty_db.
Proof. split; [done|]. intros h _ Hne. by destruct Hne. Qed.

Definition test_ops : list op :=
  [Insert [1; 2; 3] [65; 66]; Insert [1; 7; 4] (replicate 33 8); Insert [1; 2; 4] [9];
   Remove [1; 2; 4]; Remove [1; 1; 1]].
Definition run_test (ops : list op) : result TrieError bytes * MemoryDB * list bytes :=
  (root ← init test_sha3; run test_sha3 ops root) empty_db.
Definition root_of {A} (r : result TrieError bytes * A * list bytes) : bytes :=
  match r.1.1 with Ok root => root | Err _ => [] end.

Definition value_okb (v : bytes) : bool :=
  negb (bool_decide (v = [])) && bytes_okb v && (Z.of_nat (length v) <? 2 ^ 32).
Definition op_okb (L : nat) (o : op) : bool :=
  match o with
  | Insert key v => bytes_okb key && (length key =? L)%nat && value_okb v
  | Remove key => bytes_okb key && (length key =? L)%nat
  end.
Lemma value_okb_spec v : value_okb v = true → value_ok v.
Proof.
  intros [[Hne Hok]%andb_true_iff Hl]%andb_true_iff. split; [|split; [by apply bytes_okb_spec|by apply Z.ltb_lt]].
  by apply negb_true_iff, bool_decide_eq_false in Hne.
Qed.
Lemma ops_okb_spec L ops : forallb (op_okb L) ops = true → Forall (op_ok L) ops.
Proof.
  rewrite forallb_forall. intros Hops. apply Forall_forall. intros o Ho%list_elem_of_In. apply Hops in Ho.
  destruct o as [key v|key]; cbn in *.
  - apply andb_true_iff in Ho as [[H1 H2%Nat.eqb_eq]%andb_true_iff H3].
    split; [by apply bytes_okb_spec|]. split; [done|by apply value_okb_spec].
  - apply andb_true_iff in Ho as [H1 H2%Nat.eqb_eq]. split; [by apply bytes_okb_spec|done].
Qed.
Lemma test_ops_ok : Forall (op_ok 3) test_ops.
Proof. apply ops_okb_spec. reflexivity. Qed.
Lemma run_test_represents L ops :
  Z.of_nat (2 * L) < 2 ^ 32 → Forall (op_ok L) ops → no_collisionb empty_db (run_test ops).2 = true →
  (run_test ops).1.1 = Ok (root_of (run_test ops)) ∧ hashed test_sha3 (run_test ops).1.2 ∧
  represents test_sha3 (2 * L) (run_test ops).1.2 (root_of (run_test ops)) (contents ops (λ _, [])).
Proof.
  intros HL Hops Hw. destruct (run_test ops) as [[r d'] w] eqn:Hrun.
  destruct (run_represents test_sha3 test_sha3_ok L ops empty_db r d' w) as (root&->&Hh&_&Hr);
    [apply empty_db_hashed|done|done|exact Hrun|by apply no_collisionb_spec|done].
Qed.

Lemma test_no_collision : no_collisionb empty_db (run_test test_ops).2 = true.
Proof. vm_compute. reflexivity. Qed.
Lemma trie_contents_witness :
  no_collisionb empty_db (run_test test_ops).2 = true ∧
  at_key (root_of (run_test test_ops)) [1; 2; 3] (run_test test_ops).1.2 =
    (Ok [65; 66], (run_test test_ops).1.2, []).
Proof.
  split; [exact test_no_collision|].
  destruct (trie_contents test_sha3 test_sha3_ok 3 test_ops empty_db (run_test test_ops).1.1
              (run_test test_ops).1.2 (run_test test_ops).2) as (root&Hroot&_&Hat&_).
  - exact empty_db_hashed.
  - reflexivity.
  - exact test_ops_ok.
  - fold (run_test test_ops). destruct (run_test test_ops) as [[r d] w]. reflexivity.
  - exact (no_collisionb_spec _ _ test_no_collision).
  - replace (root_of (run_test test_ops)) with root by (unfold root_of; rewrite Hroot; reflexivity).
    rewrite Hat by by apply bytes_okb_spec. reflexivity.
Defined.

(** The last insertions in another order *)
Definition test_ops' : list op :=
  [Insert [1; 7; 4] (replicate 33 8); Insert [1; 2; 3] [65; 66]].
Lemma test_no_collision' : no_collisionb empty_db (run_test test_ops').2 = true.
Proof. vm_compute. reflexivity. Qed.
Lemma trie_canonical_witness :
  ∃ root, (run_test test_ops).1.1 = Ok root ∧ (run_test test_ops').1.1 = Ok root.
Proof.
  apply (trie_canonical test_sha3 test_sha3_ok 3 3 test_ops test_ops' empty_db empty_db _ _
           (run_test test_ops).1.2 (run_test test_ops').1.2 (run_test test_ops).2 (run_test test_ops').2).
  - exact empty_db_hashed.
  - reflexivity.
  - exact test_ops_ok.
  - fold (run_test test_ops). destruct (run_test test_ops) as [[r d] w]. reflexivity.
  - exact (no_collisionb_spec _ _ test_no_collision).
  - exact empty_db_hashed.
  - reflexivity.
  - apply ops_okb_spec. reflexivity.
  - fold (run_test test_ops'). destruct (run_test test_ops') as [[r d] w]. reflexivity.
  - exact (no_collisionb_spec _ _ test_no_collision').
  - intros k. cbn [contents test_ops test_ops']. unfold update. repeat case_decide; subst; done.
Defined.

(** A key that is a prefix of others *)
Definition test_insert := TrieDB.insert test_sha3 (root_of (run_test test_ops)) [1] [7] (run_test test_ops).1.2.
Lemma insert_represents_witness :
  ∃ root', test_insert.1.1 = Ok root' ∧
    represents test_sha3 6 test_insert.1.2 root' (update (contents test_ops (λ _, [])) [0; 1] [7]).
Proof.
  destruct (run_test_represents 3 test_ops) as (_&Hh&H1); [done|apply test_ops_ok|exact test_no_collision|].
  destruct (insert_represents test_sha3 test_sha3_ok 6 (root_of (run_test test_ops)) (run_test test_ops).1.2
              (contents test_ops (λ _, [])) [1] [7] test_insert.1.1 test_insert.1.2 test_insert.2)
    as (root'&Hr&Hrep&_).
  - exact Hh.
  - exact H1.
  - by apply bytes_okb_spec.
  - cbn. lia.
  - by apply value_okb_spec.
  - fold test_insert. destruct test_insert as [[r d] w]. reflexivity.
  - apply no_collisionb_spec. vm_compute. reflexivity.
  - exists root'. split; [exact Hr|exact Hrep].
Defined.

Definition test_remove := TrieDB.remove test_sha3 (root_of (run_test test_ops)) [1; 7; 4] (run_test test_ops).1.2.
Lemma remove_represents_witness :
  ∃ root', test_remove.1.1 = Ok root' ∧
    represents test_sha3 6 test_remove.1.2 root' (update (contents test_ops (λ _, [])) [0; 1; 0; 7; 0; 4] []).
Proof.
  destruct (run_test_represents 3 test_ops) as (_&Hh&H1); [done|apply test_ops_ok|exact test_no_collision|].
  destruct (remove_represents test_sha3 test_sha3_ok 6 (root_of (run_test test_ops)) (run_test test_ops).1.2
              (contents test_ops (λ _, [])) [1; 7; 4] test_remove.1.1 test_remove.1.2 test_remove.2)
    as (root'&Hr&Hrep&_).
  - exact Hh.
  - exact H1.
  - by apply bytes_okb_spec.
  - cbn. lia.
  - apply (keys_no_prefixes 3); [|done]. apply keys_contents; [apply test_ops_ok|by intros k []].
  - fold test_remove. destruct test_remove as [[r d] w]. reflexivity.
  - apply no_collisionb_spec. vm_compute. reflexivity.
  - exists root'. split; [exact Hr|exact Hrep].
Defined.

(** What happens without the condition on prefixes: the removal of an absent
    key that goes on behind a leaf follows the value as if it were a reference,
    and fails; one that ends at a branch without a value reads behind the key;
    and the removal of a key that leaves a branch with its value only, of more
    than 32 bytes, throws. *)
Theorem remove_prefixes_fail :
  let fails ops key e :=
    (remove test_sha3 (root_of (run_test ops)) key (run_test ops).1.2).1.1 = Err e in
  is_ok (run_test [Insert [1] (replicate 33 7)]).1.1 = true ∧
  fails [Insert [1] (replicate 33 7)] [1; 2] (Rlp RLP.BadCast) ∧
  fails [Insert [1] [7]] [1; 2] Assertion ∧
  fails [Insert [1; 32] [7]; Insert [1; 48] [8]] [1] Undefined ∧
  fails [Insert [1] (replicate 33 7); Insert [1; 2] [8]] [1; 2] (Rlp RLP.BadCast).
Proof. vm_compute. repeat split. Qed.

End TrieContents.
