(* ===== verification/TrieHash.v ===== *)
(** * The root hash of a map (libdevcore/TrieHash.h, TrieHash.cpp)

    [hash256] computes the root of the trie of a map without a store.  A map
    ([std::map]) is the list of its entries in the order of the keys. *)
From S2P Require Import Prelude CommonData RLP RLPCodec TrieCommon NodeDB TrieDB TrieSpec TrieRefine TrieContents.

Module TrieHash.
Import CommonData RLPCodec TrieCommon TrieSpec.

Section Hash.
Context (sha3 : bytes → bytes).

(** [HexMap]: nibbles to values; [map[k] = v].  The order of vectors is
    lexicographic. *)
Definition HexMap : Type := list (list Z * bytes).
Fixpoint map_insert (k : list Z) (v : bytes) (m : HexMap) : HexMap :=
  match m with
  | [] => [(k, v)]
  | (k', v') :: m' =>
    if earlier k k' then (k, v) :: m
    else if earlier k' k then (k', v') :: map_insert k v m'
    else (k, v) :: m'
  end.

(** The loop over [shared], and the one over the keys behind the first; the
    initial value of [sharedPre] is the largest [unsigned]. *)
Fixpoint shared_loop (fuel : nat) (k0 k : list Z) (x shared : Z) : Z :=
  match fuel with
  | O => shared
  | S fuel =>
    if (shared <? x) && (nth (Z.to_nat shared) k0 0 =? nth (Z.to_nat shared) k 0)
    then shared_loop fuel k0 k x (shared + 1) else shared
  end.
Fixpoint sharedPre_loop (k0 : list Z) (rest : HexMap) (preLen sharedPre : Z) : Z :=
  match rest with
  | [] => sharedPre
  | (k, _) :: rest =>
    if sharedPre =? 0 then sharedPre
    else
      let x := Z.min sharedPre (Z.min (Z.of_nat (length k0)) (Z.of_nat (length k))) in
      let shared := shared_loop (length k0) k0 k x preLen in
      sharedPre_loop k0 rest preLen (Z.min shared sharedPre)
  end.

(** [for (; n != _end && n->first[_preLen] == i; ++n)] *)
Fixpoint span (preLen : Z) (i : Z) (b : HexMap) : HexMap * HexMap :=
  match b with
  | [] => ([], [])
  | e :: b' =>
    if nth (Z.to_nat preLen) e.1 0 =? i then let '(n, r) := span preLen i b' in (e :: n, r)
    else ([], b)
  end.
(** The slots [i], [i + 1], ..., each given to [aux] *)
Fixpoint slots_loop (aux : HexMap → item) (n : nat) (i preLen : Z) (b : HexMap) : list item :=
  match n with
  | O => []
  | S n =>
    let '(seg, rest) := span preLen i b in
    (match seg with [] => Data [] | _ => aux seg end) :: slots_loop aux n (i + 1) preLen rest
  end.

(** [hash256aux], given [hash256rlp]: the item that is appended *)
Definition hash256aux (hash256rlp : HexMap → Z → item) (s : HexMap) (preLen : Z) : item :=
  let rlp := hash256rlp s preLen in
  if RLP.size (encode rlp) <? 32 then rlp else Data (sha3 (encode rlp)).
Fixpoint hash256rlp (fuel : nat) (s : HexMap) (preLen : Z) : item :=
  match fuel with
  | O => Data []
  | S fuel =>
    match s with
    | [] => Data []
    | [(k, v)] => List [Data (hexPrefixEncode_vector k true preLen (-1)); Data v]
    | (k0, v0) :: rest =>
      let sharedPre := sharedPre_loop k0 rest preLen (2 ^ 32 - 1) in
      if preLen <? sharedPre then
        List [Data (hexPrefixEncode_vector k0 false preLen sharedPre);
              hash256aux (hash256rlp fuel) s sharedPre]
      else
        let exhausted := preLen =? Z.of_nat (length k0) in
        let b := if exhausted then rest else s in
        List (slots_loop (λ n, hash256aux (hash256rlp fuel) n (preLen + 1)) 16 0 preLen b ++
              [Data (if exhausted then v0 else [])])
    end
  end.

(** One level of the trie for each nibble of the longest key *)
Definition hash_fuel (m : HexMap) : nat := S (foldr (λ e n, Nat.max (length e.1) n) 0%nat m).
Definition hexMap (m : list (bytes * bytes)) : HexMap :=
  foldl (λ h e, map_insert (asNibbles e.1) e.2 h) [] (rev m).
Definition rlp256 (m : list (bytes * bytes)) : bytes :=
  match m with
  | [] => encode (Data [])
  | _ => encode (hash256rlp (hash_fuel (hexMap m)) (hexMap m) 0)
  end.
Definition hash256 (m : list (bytes * bytes)) : bytes := sha3 (rlp256 m).
(** [orderedTrieRoot]: the index of a value, as an RLP integer, is its key. *)
Definition index_key (j : Z) : bytes :=
  match RLP.rlp_int j with Ok k => k | Err _ => [] end.
Definition orderedTrieRoot (data : list bytes) : bytes :=
  hash256 (foldl (λ m e, map_insert e.1 e.2 m) []
             (imap (λ j v, (index_key (Z.of_nat j), v)) data)).

End Hash.

(** ** The order of the keys *)

Lemma earlier_irrefl k : earlier k k = false.
Proof. induction k as [|a k IH]; [done|]. cbn. by rewrite Z.ltb_irrefl. Qed.
Lemma earlier_app p k k' : earlier (p ++ k) (p ++ k') = earlier k k'.
Proof. induction p as [|a p IH]; [done|]. cbn. by rewrite Z.ltb_irrefl. Qed.
Lemma earlier_trans k1 k2 k3 : earlier k1 k2 = true → earlier k2 k3 = true → earlier k1 k3 = true.
Proof.
  revert k2 k3. induction k1 as [|a k1 IH]; intros [|b k2] [|c k3]; cbn; try done.
  destruct (Z.ltb_spec a b), (Z.ltb_spec b a), (Z.ltb_spec b c), (Z.ltb_spec c b), (Z.ltb_spec a c), (Z.ltb_spec c a);
    try done; try lia. apply IH.
Qed.
Lemma earlier_total k1 k2 : earlier k1 k2 = false → earlier k2 k1 = false → k1 = k2.
Proof.
  revert k2. induction k1 as [|a k1 IH]; intros [|b k2]; cbn; try done.
  destruct (Z.ltb_spec a b), (Z.ltb_spec b a); try done. intros H1 H2. f_equal; [lia|by apply IH].
Qed.
Lemma earlier_heads a k b k' : earlier (a :: k) (b :: k') = true → a ≤ b.
Proof. cbn. destruct (Z.ltb_spec a b), (Z.ltb_spec b a); try done; lia. Qed.

Fixpoint find (k : list Z) (m : HexMap) : bytes :=
  match m with
  | [] => []
  | (k', v) :: m => if decide (k = k') then v else find k m
  end.
Fixpoint sorted (m : HexMap) : Prop :=
  match m with
  | [] => True
  | e :: m => Forall (λ e', earlier e.1 e'.1 = true) m ∧ sorted m
  end.
(** Keys of at most [n] nibbles, and values that are not empty *)
Definition entries_ok (n : nat) (m : HexMap) : Prop :=
  Forall (λ e, Forall nib e.1 ∧ (length e.1 ≤ n)%nat ∧ value_ok e.2) m.
Definition good (n : nat) (m : HexMap) : Prop := sorted m ∧ entries_ok n m.

Lemma map_insert_elem k v m e : e ∈ map_insert k v m → e = (k, v) ∨ e ∈ m.
Proof.
  induction m as [|[k' v'] m IH]; cbn; [rewrite list_elem_of_singleton; auto|].
  repeat case_match; rewrite ?elem_of_cons; intuition.
Qed.
Lemma map_insert_sorted k v m : sorted m → sorted (map_insert k v m).
Proof.
  induction m as [|[k' v'] m IH]; [by repeat constructor|]. intros [Hm Hs]. cbn.
  destruct (earlier k k') eqn:H1; [|destruct (earlier k' k) eqn:H2]; cbn.
  - split; [|done]. constructor; [done|]. eapply Forall_impl; [done|]. intros e He. by eapply earlier_trans.
  - split; [|by apply IH]. apply Forall_forall. intros e [->|He]%map_insert_elem; [done|].
    rewrite Forall_forall in Hm. by apply Hm.
  - pose proof (earlier_total _ _ H1 H2) as ->. done.
Qed.
Lemma map_insert_find k v m k' : sorted m → find k' (map_insert k v m) = if decide (k' = k) then v else find k' m.
Proof.
  induction m as [|[k1 v1] m IH]; [done|]. intros [Hm Hs]. cbn.
  destruct (earlier k k1) eqn:H1; [done|]. destruct (earlier k1 k) eqn:H2; cbn.
  - rewrite IH by done. repeat case_decide; subst; try done. by rewrite earlier_irrefl in H2.
  - pose proof (earlier_total _ _ H1 H2) as ->. by repeat case_decide.
Qed.
Lemma map_insert_ok n k v m :
  entries_ok n m → Forall nib k → (length k ≤ n)%nat → value_ok v → entries_ok n (map_insert k v m).
Proof.
  unfold entries_ok. intros Hm Hk Hl Hv. apply Forall_forall. intros e [->|He]%map_insert_elem; [done|].
  rewrite Forall_forall in Hm. by apply Hm.
Qed.

Lemma find_app k m1 m2 : find k (m1 ++ m2) = if decide (k ∈ m1.*1) then find k m1 else find k m2.
Proof.
  induction m1 as [|[k1 v1] m1 IH]; [done|]. cbn. rewrite IH.
  repeat case_decide; subst; try done; set_solver.
Qed.
Lemma find_notin k m : k ∉ m.*1 → find k m = [].
Proof. induction m as [|[k1 v1] m IH]; [done|]. cbn. intros Hk. case_decide; [set_solver|apply IH; set_solver]. Qed.
Lemma find_in k m : find k m ≠ [] → ∃ v, (k, v) ∈ m.
Proof.
  induction m as [|[k1 v1] m IH]; [done|]. cbn. case_decide as Hk; [subst; exists v1; set_solver|].
  intros [v Hv]%IH. exists v. set_solver.
Qed.
Lemma find_elem n k v m : good n m → (k, v) ∈ m → find k m = v.
Proof.
  intros [Hs _]. induction m as [|[k1 v1] m IH]; [by intros ?%elem_of_nil|]. destruct Hs as [Hm Hs].
  intros [[= -> ->]|Hin]%elem_of_cons; cbn; [by case_decide|]. case_decide as Hk; [|by apply IH].
  subst. rewrite Forall_forall in Hm. apply Hm in Hin. cbn in Hin. by rewrite earlier_irrefl in Hin.
Qed.

(** ** Keys below a path *)

Definition below (p : list Z) (m : HexMap) : HexMap := map (λ e, (p ++ e.1, e.2)) m.
Lemma below_below p q m : below p (below q m) = below (p ++ q) m.
Proof. unfold below. rewrite map_map. apply map_ext. intros e. cbn. by rewrite app_assoc. Qed.
Lemma below_nil m : below [] m = m.
Proof. unfold below. erewrite map_ext; [apply map_id|]. by intros []. Qed.
Lemma find_below p k m : find (p ++ k) (below p m) = find k m.
Proof.
  induction m as [|[k1 v1] m IH]; [done|]. unfold below in *. cbn. rewrite IH.
  destruct (decide (p ++ k = p ++ k1)) as [Heq|Hne], (decide (k = k1)) as [->|]; try done.
  by apply app_inv_head in Heq.
Qed.
Lemma below_good n p m : good n (below p m) → good (n - length p) m.
Proof.
  intros [Hs Hok]. split; [clear Hok|clear Hs].
  - induction m as [|e m IH]; [done|]. change (sorted ((p ++ e.1, e.2) :: below p m)) in Hs.
    destruct Hs as [Hm Hs]. split; [|by apply IH]. apply Forall_map in Hm. eapply Forall_impl; [done|]. intros e' He. cbn in He. by rewrite earlier_app in He.
  - unfold entries_ok in *. apply Forall_map in Hok. eapply Forall_impl; [done|]. intros e (Hn&Hl&Hv).
    cbn in *. apply Forall_app in Hn as [_ Hn]. rewrite length_app in Hl. split; [done|]. split; [lia|done].
Qed.
Lemma below_common m k0 c :
  Forall (λ e, (c ≤ common k0 e.1)%nat) m → m = below (take c k0) (map (λ e, (drop c e.1, e.2)) m).
Proof.
  induction 1 as [|[k v] m Hc Hm IH]; [done|]. cbn in *. f_equal; [|done]. f_equal.
  assert (take c k0 = take c k) as ->; [|by rewrite take_drop].
  pose proof (common_take k0 k) as Ht. apply (f_equal (take c)) in Ht.
  rewrite !take_take in Ht. by rewrite Nat.min_l in Ht by done.
Qed.

(** ** The encoding of a vector of nibbles *)

Lemma pack_loop_pack ns : Forall nib ns → pack_loop ns = pack ns.
Proof.
  revert ns. refine (fix IH ns := match ns with [] => _ | [a] => _ | a :: b :: ns => _ end); intros Hns; [done|done|].
  apply Forall_cons in Hns as [Ha Hns]. apply Forall_cons in Hns as [Hb Hns]. cbn [pack_loop pack].
  rewrite IH by done. f_equal. unfold nib in *. apply wrap_small. unfold in_word. change (2 ^ 8) with 256. lia.
Qed.
Lemma odd_of_nat n : Z.odd (Z.of_nat n) = Nat.odd n.
Proof.
  rewrite <-Nat.negb_even, <-Z.negb_even. f_equal. apply eq_bool_prop_intro. rewrite !Is_true_true.
  rewrite Nat.even_spec, Z.even_spec. split; intros [m Hm]; [exists (Z.to_nat m); lia|exists (Z.of_nat m); lia].
Qed.
Lemma hexPrefixEncode_vector_spec hv leaf b e n :
  Forall nib hv → (b + n ≤ length hv)%nat →
  (if e <? 0 then Z.of_nat (length hv) + 1 + e else e) = Z.of_nat (b + n) →
  hexPrefixEncode_vector hv leaf (Z.of_nat b) e = hex_prefix (take n (drop b hv)) leaf.
Proof.
  intros Hnib Hl He. unfold hexPrefixEncode_vector. rewrite He.
  replace (Z.of_nat (b + n) - Z.of_nat b) with (Z.of_nat n) by lia. rewrite !Nat2Z.id, odd_of_nat.
  set (ns := take n (drop b hv)). assert (Forall nib ns) as Hns by by apply Forall_take, Forall_drop.
  assert (length ns = n) as Hn by (unfold ns; rewrite length_take, length_drop; lia).
  unfold hex_prefix. rewrite Hn. destruct (Nat.odd n) eqn:Ho.
  - destruct ns as [|x ns]; [cbn in Hn; subst; done|]. apply Forall_cons in Hns as [Hx Hns]. cbn [hd tl].
    rewrite pack_loop_pack by done. cbn [pack]. f_equal. unfold flag_byte.
    rewrite lor_nib by (done || by destruct leaf). by destruct leaf.
  - rewrite pack_loop_pack by done. cbn [pack]. f_equal. by destruct leaf.
Qed.
Lemma encode_leaf p k leaf :
  Forall nib (p ++ k) →
  hexPrefixEncode_vector (p ++ k) leaf (Z.of_nat (length p)) (-1) = hex_prefix k leaf.
Proof.
  intros Hn. rewrite (hexPrefixEncode_vector_spec _ _ _ _ (length k)); [|done|by rewrite length_app|].
  - by rewrite drop_app_length, take_ge.
  - rewrite length_app. cbn. lia.
Qed.
Lemma encode_ext p k c :
  Forall nib (p ++ k) → (c ≤ length k)%nat →
  hexPrefixEncode_vector (p ++ k) false (Z.of_nat (length p)) (Z.of_nat (length p + c)) =
  hex_prefix (take c k) false.
Proof.
  intros Hn Hc. rewrite (hexPrefixEncode_vector_spec _ _ _ _ c); [by rewrite drop_app_length|done|..].
  - rewrite length_app. lia.
  - destruct (Z.ltb_spec (Z.of_nat (length p + c)) 0); lia.
Qed.

(** ** The common prefix *)

Lemma shared_loop_spec fuel k0 k x a :
  (a ≤ x)%nat → (x ≤ length k0)%nat → (x ≤ length k)%nat → (x - a ≤ fuel)%nat →
  shared_loop fuel k0 k (Z.of_nat x) (Z.of_nat a) =
  Z.of_nat (a + Nat.min (x - a) (common (drop a k0) (drop a k))).
Proof.
  revert a. induction fuel as [|fuel IH]; intros a Ha H0 Hk Hf; cbn [shared_loop].
  { replace (x - a)%nat with 0%nat by lia. cbn. lia. }
  rewrite Nat2Z.id. destruct (Z.ltb_spec (Z.of_nat a) (Z.of_nat x)); cbn [andb].
  2:{ replace (x - a)%nat with 0%nat by lia. cbn. lia. }
  destruct (lookup_lt_is_Some_2 k0 a) as [y Hy]; [lia|]. destruct (lookup_lt_is_Some_2 k a) as [z Hz]; [lia|].
  rewrite (drop_S _ _ _ Hy), (drop_S _ _ _ Hz). cbn [common].
  rewrite (nth_lookup_Some _ _ _ _ Hy), (nth_lookup_Some _ _ _ _ Hz).
  destruct (Z.eqb_spec y z) as [->|Hne]; [|lia].
  replace (Z.of_nat a + 1) with (Z.of_nat (S a)) by lia. rewrite IH by lia. lia.
Qed.
Lemma sharedPre_loop_spec p k0 (m : HexMap) c :
  sharedPre_loop (p ++ k0) (below p m) (Z.of_nat (length p)) (Z.of_nat (length p + c)) =
  Z.of_nat (length p + foldl (λ c e, Nat.min c (common k0 e.1)) c m).
Proof.
  revert c. induction m as [|[k v] m IH]; intros c; [done|].
  change (below p ((k, v) :: m)) with ((p ++ k, v) :: below p m). cbn [sharedPre_loop foldl fst].
  pose proof (common_le_l k0 k) as Hc1. pose proof (common_le_r k0 k) as Hc2. rewrite !length_app.
  destruct (Z.eqb_spec (Z.of_nat (length p + c)) 0).
  { assert (c = 0%nat) as -> by lia. cbn [Nat.min].
    assert (∀ m : HexMap, foldl (λ c e, Nat.min c (common k0 e.1)) 0%nat m = 0%nat) as ->; [|done].
    clear. by induction m. }
  replace (Z.min (Z.of_nat (length p + c)) (Z.min (Z.of_nat (length p + length k0)) (Z.of_nat (length p + length k))))
    with (Z.of_nat (length p + Nat.min c (Nat.min (length k0) (length k)))) by lia.
  rewrite shared_loop_spec, !drop_app_length by (rewrite ?length_app; lia).
  rewrite <-IH. f_equal. lia.
Qed.
Lemma common_all_spec k0 (m : HexMap) c :
  let s := foldl (λ c e, Nat.min c (common k0 e.1)) c m in
  (s ≤ c)%nat ∧ Forall (λ e, (s ≤ common k0 e.1)%nat) m ∧ (s = c ∨ ∃ e, e ∈ m ∧ s = common k0 e.1).
Proof.
  revert c. induction m as [|e m IH]; intros c; [by auto|]. cbn [foldl].
  destruct (IH (Nat.min c (common k0 e.1))) as (Hs&Hm&Hor). set (s := foldl _ _ _) in *.
  split; [lia|]. split; [constructor; [lia|done]|].
  destruct Hor as [Hs'|(e'&He'&Hs')]; [|right; exists e'; split; [set_solver|done]].
  destruct (Nat.min_spec c (common k0 e.1)) as [[_ Hm1]|[_ Hm1]]; [left; lia|right; exists e; split; [set_solver|lia]].
Qed.

(** ** The slots *)

Lemma span_spec n p i m :
  good n m → Forall (λ e, ∃ j k, e.1 = j :: k ∧ i ≤ j) m →
  ∃ m1 m2, m = below [i] m1 ++ m2 ∧ Forall (λ e, ∃ j k, e.1 = j :: k ∧ i + 1 ≤ j) m2 ∧
    span (Z.of_nat (length p)) i (below p m) = (below p (below [i] m1), below p m2).
Proof.
  intros [Hs _] Hh. induction m as [|[k v] m IH]; [by exists [], []|].
  destruct Hs as [Hm Hs]. apply Forall_cons in Hh as [(j&k'&Hk&Hj) Hh]. cbn in Hk. subst k.
  change (below p ((j :: k', v) :: m)) with ((p ++ j :: k', v) :: below p m). cbn [span fst].
  rewrite Nat2Z.id, (nth_lookup_Some (p ++ j :: k') (length p) 0 j) by (rewrite lookup_app_r, Nat.sub_diag by lia; done).
  destruct (Z.eqb_spec j i) as [->|Hne].
  - destruct (IH Hs Hh) as (m1&m2&->&Hm2&->). exists ((k', v) :: m1), m2. done.
  - exists [], ((j :: k', v) :: m). split; [done|]. split; [|done].
    constructor; [exists j, k'; split; [done|lia]|]. rewrite Forall_forall in *. intros e He.
    destruct (Hh e He) as (j'&k1&Hk1&_). specialize (Hm e He). cbn in Hm. rewrite Hk1 in Hm.
    apply earlier_heads in Hm. exists j', k1. split; [done|lia].
Qed.

Lemma good_app n m1 m2 : good n (m1 ++ m2) → good n m1 ∧ good n m2.
Proof.
  intros [Hs [H1 H2]%Forall_app]. assert (sorted m1 ∧ sorted m2) as [Hs1 Hs2]; [|done].
  clear H1 H2. induction m1 as [|e m1 IH]; [done|]. destruct Hs as [[Hm _]%Forall_app Hs].
  destruct (IH Hs). by repeat split.
Qed.

Lemma find_head i j k m1 m2 :
  Forall (λ e, ∃ j k, e.1 = j :: k ∧ i + 1 ≤ j) m2 → i ≤ j →
  find (j :: k) (below [i] m1 ++ m2) = if decide (j = i) then find k m1 else find (j :: k) m2.
Proof.
  intros Hm2 Hj. rewrite find_app. case_decide as Hi; [|case_decide; [|done]].
  - assert (j = i) as ->.
    { unfold below in Hi. rewrite <-list_fmap_compose in Hi. apply list_elem_of_fmap in Hi as (e&[= ->]&_). done. }
    rewrite decide_True by done. apply (find_below [i]).
  - subst j. rewrite find_notin; [symmetry; apply find_notin|].
    + intros Hk. apply Hi. unfold below. rewrite <-list_fmap_compose. apply list_elem_of_fmap in Hk as (e&->&He).
      apply list_elem_of_fmap. by exists e.
    + intros (e&He&Hin)%list_elem_of_fmap. rewrite Forall_forall in Hm2. apply Hm2 in Hin as (j&k'&Hk&Hj').
      rewrite <-He in Hk. injection Hk as -> _. lia.
Qed.

Section Spec.
Context (sha3 : bytes → bytes).
Notation node_item := (node_item sha3).
Notation ref := (ref sha3).

(** The item stands for a tree in normal form that holds the entries. *)
Definition stands_for (n : nat) (m : HexMap) (t : trie) : Prop := wf n t ∧ ∀ k, get t k = find k m.

Lemma slots_spec aux p n l i m :
  good (S n) m → Forall (λ e, ∃ j k, e.1 = j :: k ∧ i ≤ j) m → 0 ≤ i → i + Z.of_nat l ≤ 16 →
  (∀ j m', 0 ≤ j < 16 → m' ≠ [] → good n m' →
     ∃ t, aux (below p (below [j] m')) = ref t ∧ stands_for n m' t) →
  ∃ cs, slots_loop aux l i (Z.of_nat (length p)) (below p m) = map ref cs ∧ length cs = l ∧
    Forall (wf n) cs ∧
    ∀ j c, cs !! j = Some c → ∀ k, get c k = find (i + Z.of_nat j :: k) m.
Proof.
  intros Hg Hh Hi Hl Haux. revert i m Hg Hh Hi Hl. induction l as [|l IH]; intros i m Hg Hh Hi Hl.
  { exists []. split; [done|]. split; [done|]. split; [constructor|done]. }
  destruct (span_spec _ p i m Hg Hh) as (m1&m2&->&Hm2&Hspan). cbn [slots_loop]. rewrite Hspan.
  apply good_app in Hg as [Hg1 Hg2]. apply below_good in Hg1. cbn [length] in Hg1.
  replace (S n - 1)%nat with n in Hg1 by lia.
  destruct (IH (i + 1) m2) as (cs&->&Hlen&Hwf&Hget); [done|done|lia|lia|].
  assert (∃ t, (match below p (below [i] m1) with [] => Data [] | _ => aux (below p (below [i] m1)) end) = ref t ∧
            stands_for n m1 t) as (t&Ht&Hwt&Hgt).
  { destruct m1 as [|e m1]; [exists Empty; split; [done|]; split; [constructor|done]|].
    apply (Haux i (e :: m1)); [lia|done|done]. }
  exists (t :: cs). cbn [map length]. split; [by rewrite Ht|]. split; [by rewrite Hlen|].
  split; [by constructor|]. intros [|j] c.
  - intros [= <-] k. rewrite find_head by (done || lia). rewrite decide_True by lia. apply Hgt.
  - intros Hc k. rewrite find_head by (done || lia). rewrite decide_False by lia.
    rewrite (Hget j c Hc). do 2 f_equal. lia.
Qed.

Lemma get_occupied n cs v k :
  length cs = 16%nat → Forall (wf n) cs → get (Branch cs v) k ≠ [] → occupied cs v !! TrieRefine.slot k = Some true.
Proof.
  intros Hl Hcs. unfold occupied. destruct k as [|i k]; cbn [TrieRefine.slot].
  - intros Hv. rewrite lookup_app_r by (rewrite length_map; lia). rewrite length_map, Hl. cbn. by destruct v.
  - rewrite get_Branch_cons. destruct (0 <=? i); [|done]. destruct (cs !! Z.to_nat i) as [c|] eqn:Hc; [|done].
    intros Hg. rewrite lookup_app_l by (rewrite length_map; by eapply lookup_lt_Some).
    rewrite list_lookup_fmap, Hc. by destruct c.
Qed.

(** A tree for keys without a common prefix is a branch. *)
Lemma stands_branch n m t k1 k2 :
  stands_for n m t → find k1 m ≠ [] → find k2 m ≠ [] → k1 ≠ k2 → common k1 k2 = 0%nat → is_branch t = true.
Proof.
  intros [Hwf Hg] H1 H2 Hne Hc. rewrite <-Hg in H1, H2.
  destruct (wf_cases n t Hwf) as [->|[(k&v&->&_)|(p&cs&v&m'&->&_&_)]]; [done|..].
  - cbn in H1, H2. repeat case_decide; congruence.
  - destruct p as [|i p]; [done|]. apply get_under_inv in H1 as [r1 ->], H2 as [r2 ->].
    cbn in Hc. by rewrite Z.eqb_refl in Hc.
Qed.

Lemma good_two n k0 v0 e m :
  good n ((k0, v0) :: e :: m) → Forall (λ e', find e'.1 ((k0, v0) :: e :: m) = e'.2 ∧ e'.2 ≠ []) ((k0, v0) :: e :: m) ∧
  Forall (λ e', k0 ≠ e'.1) (e :: m).
Proof.
  intros Hg. split.
  - apply Forall_forall. intros [k v] Hin. split; [by eapply find_elem|].
    destruct Hg as [_ Hok]. unfold entries_ok in Hok. rewrite Forall_forall in Hok. apply (Hok _ Hin).
  - destruct Hg as [[Hm _] _]. eapply Forall_impl; [exact Hm|]. intros e' He Heq. cbn in He.
    by rewrite Heq, earlier_irrefl in He.
Qed.
Lemma common_drop_common c k0 k : (c ≤ common k0 k)%nat → common (drop c k0) (drop c k) = (common k0 k - c)%nat.
Proof.
  revert k0 k. induction c as [|c IH]; intros k0 k Hc; [by rewrite !drop_0, Nat.sub_0_r|].
  destruct k0 as [|a k0], k as [|b k]; cbn in *; try lia. destruct (a =? b); [|lia]. rewrite IH by lia. lia.
Qed.

(** The entries behind the value of a branch *)
Definition branch_entries (k0 : list Z) (v0 : bytes) (rest : HexMap) : HexMap * bytes :=
  match k0 with [] => (rest, v0) | _ => ((k0, v0) :: rest, []) end.
Lemma branch_entries_spec n k0 v0 rest :
  good n ((k0, v0) :: rest) →
  let '(b, w) := branch_entries k0 v0 rest in
  good n b ∧ Forall (λ e, ∃ j k, e.1 = j :: k ∧ 0 ≤ j) b ∧ (w = [] ∨ value_ok w) ∧
  find [] ((k0, v0) :: rest) = w ∧ ∀ j k, find (j :: k) ((k0, v0) :: rest) = find (j :: k) b.
Proof.
  intros Hg. pose proof Hg as [[Hm Hs] Hok]. pose proof Hok as [(Hk0&_&Hv0) Hok2]%Forall_cons. cbn in Hk0, Hv0.
  assert (Forall (λ e : list Z * bytes, ∃ j k, e.1 = j :: k ∧ 0 ≤ j) rest) as Hrest.
  { apply Forall_forall. intros [k v] Hin. rewrite Forall_forall in Hm. unfold entries_ok in Hok2. rewrite Forall_forall in Hok2.
    specialize (Hm _ Hin). destruct (Hok2 _ Hin) as (Hn&_). cbn in Hm, Hn.
    destruct k as [|j k]; [by destruct k0|]. apply Forall_cons in Hn as [Hj _]. exists j, k. unfold nib in Hj. split; [done|lia]. }
  destruct k0 as [|j k0]; cbn [branch_entries].
  - split; [done|]. split; [done|]. split; [by right|]. cbn [find]. by rewrite decide_True.
  - apply Forall_cons in Hk0 as [Hj _]. unfold nib in Hj. split; [done|].
    assert (Forall (λ e : list Z * bytes, ∃ j k, e.1 = j :: k ∧ 0 ≤ j) ((j :: k0, v0) :: rest)) as Hall.
    { constructor; [|done]. exists j, k0. split; [done|lia]. }
    split; [done|]. split; [by left|]. split; [|done]. apply find_notin.
    intros (e&He&Hin)%list_elem_of_fmap. rewrite Forall_forall in Hall. destruct (Hall _ Hin) as (j'&k'&Hk'&_).
    by rewrite Hk' in He.
Qed.

Lemma branch_stands n cs m b w k1 k2 :
  length cs = 16%nat → Forall (wf n) cs → (w = [] ∨ value_ok w) → good (S n) m →
  find [] m = w → (∀ j k, find (j :: k) m = find (j :: k) b) →
  (∀ j c, cs !! j = Some c → ∀ k, get c k = find (0 + Z.of_nat j :: k) b) →
  find k1 m ≠ [] → find k2 m ≠ [] → k1 ≠ k2 → common k1 k2 = 0%nat →
  stands_for (S n) m (Branch cs w).
Proof.
  intros Hl Hcs Hw [_ Hok] Hnil Hb Hget H1 H2 Hne Hc.
  assert (∀ k, find k m ≠ [] → Forall nib k) as Hnib.
  { intros k [v Hin]%find_in. unfold entries_ok in Hok. rewrite Forall_forall in Hok. apply (Hok _ Hin). }
  assert (∀ k, get (Branch cs w) k = find k m) as Hg.
  { intros [|j k]; [done|]. destruct (decide (find (j :: k) m = [])) as [He|He].
    - rewrite He. rewrite get_Branch_cons. destruct (Z.leb_spec 0 j); [|done].
      destruct (cs !! Z.to_nat j) as [c|] eqn:Hcj; [|done]. rewrite (Hget _ _ Hcj).
      replace (0 + Z.of_nat (Z.to_nat j)) with j by lia. by rewrite <-Hb.
    - pose proof (Hnib _ He) as [Hj _]%Forall_cons. unfold nib in Hj.
      destruct (lookup_lt_is_Some_2 cs (Z.to_nat j)) as [c Hcj]; [lia|].
      rewrite (TrieRefine.get_nib _ _ j c) by done. rewrite (Hget _ _ Hcj), Hb. do 2 f_equal. lia. }
  split; [|exact Hg]. constructor; [done|done|done|].
  exists (TrieRefine.slot k1), (TrieRefine.slot k2).
  split; [apply TrieRefine.slot_ne; auto|]. split; eapply get_occupied; try done; by rewrite Hg.
Qed.

Lemma ext_stands n m q m' t k1 k2 :
  m = below q m' → q ≠ [] → Forall nib q → (length q ≤ n)%nat → stands_for (n - length q) m' t →
  find k1 m' ≠ [] → find k2 m' ≠ [] → k1 ≠ k2 → common k1 k2 = 0%nat →
  stands_for n m (Ext q t).
Proof.
  intros -> Hq Hqn Hl Ht H1 H2 Hne Hc. pose proof (stands_branch _ _ _ _ _ Ht H1 H2 Hne Hc) as Hb.
  destruct Ht as [Hwf Hg]. split.
  - destruct t as [| | |cs v]; try done. apply (wf_Ext n (n - length q)); [done|done|lia|done].
  - intros k. cbn [get]. destruct (strip q k) as [k'|] eqn:Hs.
    + apply strip_Some in Hs as ->. by rewrite find_below, Hg.
    + symmetry. apply find_notin. unfold below. rewrite <-list_fmap_compose.
      intros (e&->&_)%list_elem_of_fmap. cbn in Hs. by rewrite strip_app in Hs.
Qed.

(** The length of the common prefix of two entries and more *)
Definition common_all (p : list Z) (k0 : list Z) (rest : HexMap) : nat :=
  foldl (λ c e, Nat.min c (common k0 e.1)) (Z.to_nat (2 ^ 32 - 1 - Z.of_nat (length p))) rest.
Lemma common_all_two n p k0 v0 e rest :
  good n ((k0, v0) :: e :: rest) → Z.of_nat (length p + n) < 2 ^ 32 - 1 →
  let s := common_all p k0 (e :: rest) in
  (s ≤ length k0)%nat ∧ Forall (λ e', (s ≤ common k0 e'.1)%nat) ((k0, v0) :: e :: rest) ∧
  ∃ k, find k ((k0, v0) :: e :: rest) ≠ [] ∧ k0 ≠ k ∧ common k0 k = s.
Proof.
  intros Hg Hsz s. destruct (common_all_spec k0 (e :: rest) (Z.to_nat (2 ^ 32 - 1 - Z.of_nat (length p)))) as (Hsc&Hsall&Hsor).
  fold (common_all p k0 (e :: rest)) in Hsc, Hsall, Hsor. fold s in Hsc, Hsall, Hsor.
  destruct (good_two _ _ _ _ _ Hg) as [Hfind Hdiff]. destruct Hg as [_ [(_&Hl0&_) _]%Forall_cons]. cbn in Hl0.
  assert (s ≤ length k0)%nat as Hs.
  { apply Forall_cons in Hsall as [Hs _]. pose proof (common_le_l k0 e.1). lia. }
  split; [done|]. split.
  - constructor; [|done]. cbn. replace (common k0 k0) with (length k0); [done|]. symmetry. by apply common_prefix_of.
  - destruct Hsor as [?|(e'&Hin&He')]; [lia|]. exists e'.1. rewrite Forall_forall in Hdiff. split; [|by auto].
    rewrite Forall_forall in Hfind. destruct (Hfind e') as [-> Hv]; [by apply list_elem_of_further|done].
Qed.

Lemma hash256rlp_spec fuel n p m :
  good n m → m ≠ [] → (n < fuel)%nat → Forall nib p → Z.of_nat (length p + n) < 2 ^ 32 - 1 →
  ∃ t, hash256rlp sha3 fuel (below p m) (Z.of_nat (length p)) = node_item t ∧ stands_for n m t.
Proof.
  revert n p m. induction fuel as [|fuel IH]; intros n p m Hg Hne Hf Hp Hsz; [lia|].
  destruct m as [|[k0 v0] [|e rest]]; [done|..].
  { destruct Hg as [_ [(Hk&Hl&Hv) _]%Forall_cons]. cbn in Hk, Hl, Hv.
    exists (Leaf k0 v0). cbn [below map hash256rlp fst snd]. rewrite encode_leaf by by apply Forall_app.
    split; [done|]. split; [by constructor|done]. }
  destruct (common_all_two n p k0 v0 e rest Hg Hsz) as (Hs0&Hsall&k&Hk&Hkne&Hks).
  pose proof Hg as [_ [(Hk0&Hl0&Hv0) _]%Forall_cons]. cbn in Hk0, Hl0, Hv0.
  assert (find k0 ((k0, v0) :: e :: rest) ≠ []) as Hfk0 by (cbn; rewrite decide_True by done; apply Hv0).
  set (s := common_all p k0 (e :: rest)) in *.
  assert (hash256rlp sha3 (S fuel) (below p ((k0, v0) :: e :: rest)) (Z.of_nat (length p)) =
    if Z.of_nat (length p) <? Z.of_nat (length p + s) then
      List [Data (hexPrefixEncode_vector (p ++ k0) false (Z.of_nat (length p)) (Z.of_nat (length p + s)));
            hash256aux sha3 (hash256rlp sha3 fuel) (below p ((k0, v0) :: e :: rest)) (Z.of_nat (length p + s))]
    else
      let '(b, w) := branch_entries k0 v0 (e :: rest) in
      List (slots_loop (λ n, hash256aux sha3 (hash256rlp sha3 fuel) n (Z.of_nat (length p) + 1)) 16 0 (Z.of_nat (length p)) (below p b) ++
            [Data w])) as ->.
  { change (below p ((k0, v0) :: e :: rest)) with ((p ++ k0, v0) :: (p ++ e.1, e.2) :: below p rest).
    cbn [hash256rlp]. change ((p ++ e.1, e.2) :: below p rest) with (below p (e :: rest)).
    replace (2 ^ 32 - 1) with (Z.of_nat (length p + Z.to_nat (2 ^ 32 - 1 - Z.of_nat (length p)))) by lia.
    rewrite sharedPre_loop_spec. fold (common_all p k0 (e :: rest)). fold s. destruct (_ <? _); [done|].
    rewrite length_app. destruct k0 as [|j k0]; cbn [branch_entries length].
    - rewrite Nat.add_0_r, Z.eqb_refl. done.
    - destruct (Z.eqb_spec (Z.of_nat (length p)) (Z.of_nat (length p + S (length k0)))); [lia|]. done. }
  clearbody s. destruct (Z.ltb_spec (Z.of_nat (length p)) (Z.of_nat (length p + s))) as [Hs|Hs].
  - pose proof (below_common _ _ _ Hsall) as Hbel. set (q := take s k0) in *. set (m' := map _ _) in Hbel.
    assert (length q = s) as Hq by (unfold q; rewrite length_take; lia).
    assert (Forall nib q) as Hqn by by apply Forall_take.
    rewrite Hbel, below_below, encode_ext by (try apply Forall_app; done). fold q.
    destruct (IH (n - s)%nat (p ++ q) m') as (t&Ht&Hst).
    + rewrite <-Hq. apply below_good. by rewrite <-Hbel.
    + unfold m'. done.
    + lia.
    + by apply Forall_app.
    + rewrite length_app. lia.
    + rewrite length_app, Hq in Ht. exists (Ext q t). split; [unfold hash256aux; by rewrite Ht|].
      assert (take s k = q) as Htk.
      { unfold q. rewrite <-Hks. symmetry. apply common_take. }
      assert (find (drop s k0) m' ≠ []) as Hf0
        by (rewrite <-(find_below q), <-Hbel; unfold q; by rewrite take_drop).
      assert (find (drop s k) m' ≠ []) as Hf1
        by (rewrite <-(find_below q), <-Hbel, <-Htk; by rewrite take_drop).
      apply (ext_stands n _ q m' t (drop s k0) (drop s k)); [done| |done|lia|by rewrite Hq|done|done|..].
      * intros Hq0. rewrite Hq0 in Hq. cbn in Hq. lia.
      * intros Heq. apply Hkne. rewrite <-(take_drop s k0), <-(take_drop s k), Heq. fold q. by rewrite Htk.
      * rewrite common_drop_common by lia. lia.
  - assert (s = 0%nat) as Hs00 by lia. pose proof (branch_entries_spec n k0 v0 (e :: rest) Hg) as Hbe.
    destruct (branch_entries k0 v0 (e :: rest)) as [b w]. destruct Hbe as (Hgb&Hhb&Hw&Hnil&Hcons).
    destruct n as [|n].
    { destruct k0; [|cbn in Hl0; lia]. apply find_in in Hk as [v Hin]. destruct Hg as [_ Hok]. unfold entries_ok in Hok.
      rewrite Forall_forall in Hok. destruct (Hok _ Hin) as (_&Hl&_). destruct k; [done|cbn in Hl; lia]. }
    destruct (slots_spec (λ n, hash256aux sha3 (hash256rlp sha3 fuel) n (Z.of_nat (length p) + 1)) p n 16 0 b)
      as (cs&Hcs&Hl&Hwf&Hget); [done|done|lia|lia| |].
    { intros j m' Hj Hm' Hgm'. rewrite below_below. destruct (IH n (p ++ [j]) m') as (t&Ht&Hst); [done|done|lia| |..].
      - apply Forall_app. split; [done|]. repeat constructor; lia.
      - rewrite length_app. cbn. lia.
      - rewrite length_app in Ht. cbn [length] in Ht. exists t. split; [|done].
        unfold hash256aux. replace (Z.of_nat (length p) + 1) with (Z.of_nat (length p + 1)) by lia. by rewrite Ht. }
    rewrite Hcs. exists (Branch cs w). split; [done|].
    apply (branch_stands n cs _ b w k0 k); try done. by rewrite Hks.
Qed.

(** ** Whole maps *)

(** The contents of a map with bytes as keys; of equal keys the first counts. *)
Definition map_of (m : list (bytes * bytes)) : list Z → bytes :=
  foldr (λ e f, TrieContents.update f (asNibbles e.1) e.2) (λ _, []) m.
Definition entry_ok (n : nat) (e : bytes * bytes) : Prop :=
  bytes_ok e.1 ∧ (2 * length e.1 ≤ n)%nat ∧ value_ok e.2.

Lemma hexMap_foldr m : hexMap m = foldr (λ e h, map_insert (asNibbles e.1) e.2 h) [] m.
Proof.
  unfold hexMap. induction m as [|e m IH]; [done|]. cbn. by rewrite foldl_app, IH.
Qed.
Lemma hexMap_spec n m :
  Forall (entry_ok n) m → good n (hexMap m) ∧ ∀ k, find k (hexMap m) = map_of m k.
Proof.
  rewrite hexMap_foldr. induction 1 as [|e m (Hk&Hl&Hv) Hm [[Hs Hok] Hf]]; [by repeat constructor|].
  cbn [foldr]. split; [split; [by apply map_insert_sorted|]|].
  - apply map_insert_ok; [done|by apply asNibbles_nib|by rewrite length_asNibbles|done].
  - intros k. rewrite map_insert_find by done. cbn. unfold TrieContents.update. by rewrite <-Hf.
Qed.
Lemma hash_fuel_spec n m :
  entries_ok n m → ∃ n', hash_fuel m = S n' ∧ entries_ok n' m ∧ (n' ≤ n)%nat.
Proof.
  intros Hok. unfold hash_fuel. set (f := foldr _ _ _). exists f. split; [done|].
  subst f. induction Hok as [|e m (Hn&Hl&Hv) Hm [IH Hle]]; [split; [constructor|cbn; lia]|]. cbn [foldr]. split; [|lia].
  constructor; [split; [done|split; [lia|done]]|].
  eapply Forall_impl; [exact IH|]. intros e' (?&?&?). split; [done|]. split; [lia|done].
Qed.
Lemma hexMap_not_nil e m : hexMap (e :: m) ≠ [].
Proof.
  rewrite hexMap_foldr. cbn. destruct (foldr _ _ m) as [|[k v] h]; cbn; repeat case_match; done.
Qed.
Lemma rlp256_spec n m :
  Forall (entry_ok n) m → Z.of_nat n < 2 ^ 32 - 1 →
  ∃ t, rlp256 sha3 m = encode (node_item t) ∧ wf n t ∧ ∀ k, get t k = map_of m k.
Proof.
  intros Hm Hn. destruct (hexMap_spec n m Hm) as [[Hs Hok] Hf].
  destruct m as [|e m]; [exists Empty; split; [done|]; split; [constructor|done]|].
  destruct (hash_fuel_spec n _ Hok) as (n'&Hfuel&Hok'&Hle). unfold rlp256. rewrite Hfuel.
  destruct (hash256rlp_spec (S n') n' [] (hexMap (e :: m))) as (t&Ht&Hwf&Hg);
    [done|apply hexMap_not_nil|lia|constructor|cbn; lia|].
  rewrite below_nil in Ht. exists t. change (Z.of_nat (length (@nil Z))) with 0 in Ht. rewrite Ht. split; [done|].
  split; [by apply (TrieRefine.wf_mono n')|]. intros k. by rewrite Hg, Hf.
Qed.

End Spec.

(** C34. [hash256] of a map is the root of any trie that holds the map, in any
    store and however it was built. *)
Theorem hash256_root {DB : Type} `{NodeDB DB} sha3 n m (d : DB) root :
  Forall (entry_ok n) m → Z.of_nat n < 2 ^ 32 - 1 →
  TrieContents.represents sha3 n d root (map_of m) → hash256 sha3 m = root.
Proof.
  intros Hm Hn (t&(Hwf&_&_&->&_)&Hg). destruct (rlp256_spec sha3 n m Hm Hn) as (t'&Hr&Hwf'&Hg').
  unfold hash256. rewrite Hr. rewrite (wf_unique n n t' t); [done|done|done|]. intros k. by rewrite Hg', Hg.
Qed.

#[local] Existing Instance MemoryDB.MemoryDB_node_db.
Definition test_map : list (bytes * bytes) :=
  [([1; 2; 3], [65; 66]); ([1; 7; 4], replicate 33 8)].
Lemma hash256_root_witness :
  hash256 TrieContents.test_sha3 test_map = TrieContents.root_of (TrieContents.run_test TrieContents.test_ops).
Proof.
  destruct (TrieContents.run_test_represents 3 TrieContents.test_ops) as (_&_&t&Ht&Hg);
    [done|apply TrieContents.test_ops_ok|exact TrieContents.test_no_collision|].
  apply (hash256_root TrieContents.test_sha3 6 test_map (TrieContents.run_test TrieContents.test_ops).1.2).
  - repeat (constructor; [split; [apply bytes_okb_spec; reflexivity|split; [cbn; lia|apply TrieContents.value_okb_spec; reflexivity]]|]).
    constructor.
  - reflexivity.
  - exists t. split; [exact Ht|]. intros k. rewrite Hg.
    cbn [TrieContents.contents TrieContents.test_ops map_of test_map foldr fst snd]. unfold TrieContents.update.
    repeat case_decide; subst; done.
Defined.

End TrieHash.
