(* ===== verification/State.v ===== *)
(** * Accounts and the state (libwing/Account.h, libwing/State.cpp)

    [Account] is one cached account, [State] the cache over the account trie
    with its change log.  The tries and the code database are the interface
    [StateDB]: the account trie is a finite map to the four fields the code
    stores in a trie node, a storage root is a value of an abstract type. *)
From S2P Require Import Prelude.

(** What the state asks of the hash function and the storage tries
    (libdevcore/SHA3, libdevcore/TrieDB). *)
Class StateDB (Root : Type) := {
  sha3 : bytes → Z;
  EmptyTrie : Root;
  trie_at : Root → Z → Z;
  trie_insert : Root → Z → Z → Root;
  trie_remove : Root → Z → Root;
  root_eq_dec :: EqDecision Root;
}.

(** The laws of a storage trie: a key that is not in the trie reads as 0. *)
Class StateDBLaws (Root : Type) `{StateDB Root} := {
  trie_at_empty k : trie_at EmptyTrie k = 0;
  trie_at_insert r k v k' : v ≠ 0 → trie_at (trie_insert r k v) k' = if k' =? k then v else trie_at r k';
  trie_at_remove r k k' : trie_at (trie_remove r k) k' = if k' =? k then 0 else trie_at r k';
}.

Module Account.
Section Account.
Context `{StateDB Root}.

(** [EmptySHA3] *)
Definition EmptySHA3 : Z := sha3 [].

(** The fields of class [Account]. *)
Record Account := mkAccount {
  m_isAlive : bool;
  m_isUnchanged : bool;
  m_hasNewCode : bool;
  m_nonce : Z;
  m_balance : Z;
  m_storageRoot : Root;
  m_codeHash : Z;
  m_storageOverlay : gmap Z Z;
  m_codeCache : bytes;
}.

(** [Account()]: a dead account *)
Definition dead : Account :=
  mkAccount false false false 0 0 EmptyTrie EmptySHA3 ∅ [].
(** [Account(_nonce, _balance)], [Changed] *)
Definition basic (nonce balance : Z) : Account :=
  mkAccount true false false nonce balance EmptyTrie EmptySHA3 ∅ [].
(** [Account(_nonce, _balance, _contractRoot, _codeHash, Unchanged)] *)
Definition existing (nonce balance : Z) (root : Root) (codeHash : Z) : Account :=
  mkAccount true true false nonce balance root codeHash ∅ [].

Definition kill (a : Account) : Account :=
  mkAccount false false (m_hasNewCode a) 0 0 EmptyTrie EmptySHA3 ∅ (m_codeCache a).
Definition isAlive (a : Account) : bool := m_isAlive a.
Definition isDirty (a : Account) : bool := negb (m_isUnchanged a).
Definition untouch (a : Account) : Account :=
  mkAccount (m_isAlive a) true (m_hasNewCode a) (m_nonce a) (m_balance a)
    (m_storageRoot a) (m_codeHash a) (m_storageOverlay a) (m_codeCache a).
Definition isEmpty (a : Account) : bool :=
  (m_nonce a =? 0) && (m_balance a =? 0) && (m_codeHash a =? EmptySHA3).

(** The setters that call [changed()]. *)
Definition addBalance (v : Z) (a : Account) : Account :=
  mkAccount (m_isAlive a) false (m_hasNewCode a) (m_nonce a) (u256 (m_balance a + v))
    (m_storageRoot a) (m_codeHash a) (m_storageOverlay a) (m_codeCache a).
Definition setNonce (n : Z) (a : Account) : Account :=
  mkAccount (m_isAlive a) false (m_hasNewCode a) n (m_balance a)
    (m_storageRoot a) (m_codeHash a) (m_storageOverlay a) (m_codeCache a).
Definition incNonce (a : Account) : Account := setNonce (u256 (m_nonce a + 1)) a.
Definition with_storage (unchanged : bool) (r : Root) (o : gmap Z Z) (a : Account) : Account :=
  mkAccount (m_isAlive a) unchanged (m_hasNewCode a) (m_nonce a) (m_balance a)
    r (m_codeHash a) o (m_codeCache a).
Definition setStorage (p v : Z) (a : Account) : Account :=
  with_storage false (m_storageRoot a) (<[p := v]> (m_storageOverlay a)) a.
Definition clearStorage (a : Account) : Account := with_storage false EmptyTrie ∅ a.
Definition setStorageRoot (r : Root) (a : Account) : Account := with_storage false r ∅ a.
(** [setStorageCache] does not mark the account as changed. *)
Definition setStorageCache (p v : Z) (a : Account) : Account :=
  with_storage (m_isUnchanged a) (m_storageRoot a) (<[p := v]> (m_storageOverlay a)) a.

(** [setCode] (Account.cpp) does not call [changed()]. *)
Definition setCode (code : bytes) (a : Account) : Account :=
  mkAccount (m_isAlive a) (m_isUnchanged a) true (m_nonce a) (m_balance a)
    (m_storageRoot a) (sha3 code) (m_storageOverlay a) code.
Definition resetCode (a : Account) : Account :=
  mkAccount (m_isAlive a) (m_isUnchanged a) false (m_nonce a) (m_balance a)
    (m_storageRoot a) EmptySHA3 (m_storageOverlay a) [].
Definition noteCode (code : bytes) (a : Account) : Account :=
  mkAccount (m_isAlive a) (m_isUnchanged a) (m_hasNewCode a) (m_nonce a) (m_balance a)
    (m_storageRoot a) (m_codeHash a) (m_storageOverlay a) code.

End Account.
Arguments Account Root : clear implicits.
End Account.

Module State.
Import Account.

(** Exceptions of the state *)
Inductive StateError :=
| InvalidAccountStartNonceInState
| IncorrectAccountStartNonceInState
| NotEnoughCash.

#[export] Instance StateError_eq_dec : EqDecision StateError.
Proof. solve_decision. Defined.

Section State.
Context `{StateDB Root}.
Notation Account := (Account Root).

(** The random engine of [clearCacheIfTooLarge]: the index drawn by the n-th
    call for a given number of entries. *)
Context (pick : nat → nat → nat).

(** The four fields of an account's node in the account trie. *)
Record TrieAccount := mkTrieAccount {
  t_nonce : Z;
  t_balance : Z;
  t_root : Root;
  t_codeHash : Z;
}.

(** [Change]: one constructor per kind, with the fields it uses. *)
Inductive Change :=
| Change_Balance (address value : Z)
| Change_Storage (address key value : Z)
| Change_StorageRoot (address : Z) (value : Root)
| Change_Nonce (address value : Z)
| Change_Create (address : Z)
| Change_Code (address : Z) (oldCode : bytes)
| Change_Touch (address : Z).

Definition change_address (c : Change) : Z :=
  match c with
  | Change_Balance a _ | Change_Storage a _ _ | Change_StorageRoot a _ | Change_Nonce a _
  | Change_Create a | Change_Code a _ | Change_Touch a => a
  end.

(** The members of class [State]: [m_state] is the account trie, [m_codes]
    the code entries of [m_db]; the back of [m_changeLog] is the head of the
    list; [m_draws] counts the draws of the random engine. *)
Record State := mkState {
  m_state : gmap Z TrieAccount;
  m_codes : gmap Z bytes;
  m_cache : gmap Z Account;
  m_unchangedCacheEntries : list Z;
  m_nonExistingAccountsCache : gset Z;
  m_touched : gset Z;
  m_accountStartNonce : Z;
  m_changeLog : list Change;
  m_draws : nat;
}.

Definition with_cache (f : gmap Z Account → gmap Z Account) (s : State) : State :=
  mkState (m_state s) (m_codes s) (f (m_cache s)) (m_unchangedCacheEntries s)
    (m_nonExistingAccountsCache s) (m_touched s) (m_accountStartNonce s) (m_changeLog s) (m_draws s).
Definition with_unchanged (l : list Z) (s : State) : State :=
  mkState (m_state s) (m_codes s) (m_cache s) l
    (m_nonExistingAccountsCache s) (m_touched s) (m_accountStartNonce s) (m_changeLog s) (m_draws s).
Definition with_nonExisting (f : gset Z → gset Z) (s : State) : State :=
  mkState (m_state s) (m_codes s) (m_cache s) (m_unchangedCacheEntries s)
    (f (m_nonExistingAccountsCache s)) (m_touched s) (m_accountStartNonce s) (m_changeLog s) (m_draws s).
Definition with_log (l : list Change) (s : State) : State :=
  mkState (m_state s) (m_codes s) (m_cache s) (m_unchangedCacheEntries s)
    (m_nonExistingAccountsCache s) (m_touched s) (m_accountStartNonce s) l (m_draws s).
Definition with_draws (n : nat) (s : State) : State :=
  mkState (m_state s) (m_codes s) (m_cache s) (m_unchangedCacheEntries s)
    (m_nonExistingAccountsCache s) (m_touched s) (m_accountStartNonce s) (m_changeLog s) n.
Definition with_startNonce (n : Z) (s : State) : State :=
  mkState (m_state s) (m_codes s) (m_cache s) (m_unchangedCacheEntries s)
    (m_nonExistingAccountsCache s) (m_touched s) n (m_changeLog s) (m_draws s).

(** [m_changeLog.emplace_back(...)] *)
Definition log (c : Change) (s : State) : State := with_log (c :: m_changeLog s) s.

(** [m_cache[_a]] creates a dead account when there is no entry. *)
Definition entry (s : State) (a : Z) : Account := default dead (m_cache s !! a).
Definition update (a : Z) (f : Account → Account) (s : State) : State :=
  with_cache (λ m, <[a := f (default dead (m !! a))]> m) s.

Definition Invalid256 : Z := 2 ^ 256 - 1.

(** [requireAccountStartNonce], [noteAccountStartNonce] *)
Definition requireAccountStartNonce (s : State) : result StateError Z :=
  _ ← throw_if (m_accountStartNonce s =? Invalid256) InvalidAccountStartNonceInState;
  Ok (m_accountStartNonce s).
Definition noteAccountStartNonce (actual : Z) (s : State) : result StateError State :=
  if m_accountStartNonce s =? Invalid256 then Ok (with_startNonce actual s)
  else if negb (m_accountStartNonce s =? actual) then Err IncorrectAccountStartNonceInState
  else Ok s.

(** One round of the loop of [clearCacheIfTooLarge]: a random entry is
    swapped with the last one and popped; the account is dropped from the
    cache when it is unchanged. *)
Definition evict_one (s : State) : State :=
  let entries := m_unchangedCacheEntries s in
  let i := pick (m_draws s) (length entries) in
  let s := with_draws (S (m_draws s)) s in
  match entries !! i, last entries with
  | Some addr, Some back =>
    let s := with_unchanged (removelast (<[i := back]> entries)) s in
    match m_cache s !! addr with
    | Some acc => if negb (isDirty acc) then with_cache (delete addr) s else s
    | None => s
    end
  | _, _ => s
  end.

(** [clearCacheIfTooLarge]: each round pops an entry, so that the number of
    entries bounds the number of rounds. *)
Fixpoint evict_loop (fuel : nat) (s : State) : State :=
  match fuel with
  | O => s
  | S fuel =>
    if (1000 <? length (m_unchangedCacheEntries s))%nat
    then evict_loop fuel (evict_one s) else s
  end.
Definition clearCacheIfTooLarge (s : State) : State :=
  evict_loop (length (m_unchangedCacheEntries s)) s.

(** [account]: the entry of the cache, loaded from the trie when needed.  The
    result is the state and whether the pointer is not null. *)
Definition account (addr : Z) (s : State) : State * option Account :=
  match m_cache s !! addr with
  | Some a => (s, Some a)
  | None =>
    if decide (addr ∈ m_nonExistingAccountsCache s) then (s, None)
    else
      match m_state s !! addr with
      | None => (with_nonExisting (λ m, {[addr]} ∪ m) s, None)
      | Some t =>
        let s := clearCacheIfTooLarge s in
        let a := existing (t_nonce t) (t_balance t) (t_root t) (t_codeHash t) in
        let s := with_cache (<[addr := a]>) s in
        (with_unchanged (m_unchangedCacheEntries s ++ [addr]) s, Some a)
      end
  end.

Definition addressInUse (id : Z) (s : State) : State * bool :=
  let '(s, a) := account id s in (s, if a then true else false).
Definition accountNonemptyAndExisting (id : Z) (s : State) : State * bool :=
  let '(s, a) := account id s in
  (s, match a with Some a => negb (isEmpty a) | None => false end).
Definition addressHasCode (id : Z) (s : State) : State * bool :=
  let '(s, a) := account id s in
  (s, match a with Some a => negb (m_codeHash a =? EmptySHA3) | None => false end).
Definition balance (id : Z) (s : State) : State * Z :=
  let '(s, a) := account id s in
  (s, match a with Some a => m_balance a | None => 0 end).
Definition getNonce (id : Z) (s : State) : State * Z :=
  let '(s, a) := account id s in
  (s, match a with Some a => m_nonce a | None => m_accountStartNonce s end).
Definition codeHash (id : Z) (s : State) : State * Z :=
  let '(s, a) := account id s in
  (s, match a with Some a => m_codeHash a | None => EmptySHA3 end).

(** [createAccount], [createContract] *)
Definition createAccount (addr : Z) (a : Account) (s : State) : State :=
  let s := with_cache (<[addr := a]>) s in
  let s := with_nonExisting (λ m, m ∖ {[addr]}) s in
  log (Change_Create addr) s.
Definition createContract (addr : Z) (s : State) : result StateError State :=
  n ← requireAccountStartNonce s;
  Ok (createAccount addr (basic n 0) s).

Definition incNonce (addr : Z) (s : State) : result StateError State :=
  match account addr s with
  | (s, Some a) => Ok (log (Change_Nonce addr (m_nonce a)) (update addr Account.incNonce s))
  | (s, None) =>
    n ← requireAccountStartNonce s;
    Ok (createAccount addr (basic (u256 (n + 1)) 0) s)
  end.

Definition setNonce (addr newNonce : Z) (s : State) : State :=
  match account addr s with
  | (s, Some a) => log (Change_Nonce addr (m_nonce a)) (update addr (Account.setNonce newNonce) s)
  | (s, None) => createAccount addr (basic newNonce 0) s
  end.

Definition addBalance (id amount : Z) (s : State) : result StateError State :=
  s ← match account id s with
      | (s, Some a) =>
        let s := if negb (isDirty a) && isEmpty a then log (Change_Touch id) s else s in
        Ok (update id (Account.addBalance amount) s)
      | (s, None) =>
        n ← requireAccountStartNonce s;
        Ok (createAccount id (basic n amount) s)
      end;
  Ok (if negb (amount =? 0) then log (Change_Balance id amount) s else s).

Definition subBalance (addr value : Z) (s : State) : result StateError State :=
  if value =? 0 then Ok s
  else
    match account addr s with
    | (s, Some a) =>
      if m_balance a <? value then Err NotEnoughCash
      else addBalance addr (u256 (0 - value)) s
    | (s, None) => Err NotEnoughCash
    end.

Definition setBalance (addr value : Z) (s : State) : result StateError State :=
  let '(s, a) := account addr s in
  let original := match a with Some a => m_balance a | None => 0 end in
  addBalance addr (u256 (value - original)) s.

Definition transferBalance (from to value : Z) (s : State) : result StateError State :=
  s ← subBalance from value s; addBalance to value s.

(** [kill] is not logged. *)
Definition kill (addr : Z) (s : State) : State :=
  match account addr s with
  | (s, Some _) => update addr Account.kill s
  | (s, None) => s
  end.

(** [storage(_id, _key)] keeps a value read from the trie in the overlay. *)
Definition storage (id key : Z) (s : State) : State * Z :=
  match account id s with
  | (s, Some a) =>
    match m_storageOverlay a !! key with
    | Some v => (s, v)
    | None =>
      let ret := trie_at (m_storageRoot a) key in
      (update id (setStorageCache key ret) s, ret)
    end
  | (s, None) => (s, 0)
  end.

Definition setStorage (contract key value : Z) (s : State) : State :=
  let '(s, old) := storage contract key s in
  update contract (Account.setStorage key value) (log (Change_Storage contract key old) s).

(** [clearStorage] looks at [m_cache[_contract]] without loading it. *)
Definition clearStorage (contract : Z) (s : State) : State :=
  let s := update contract id s in
  let oldHash := m_storageRoot (entry s contract) in
  if decide (oldHash = EmptyTrie) then s
  else update contract Account.clearStorage (log (Change_StorageRoot contract oldHash) s).

Definition storageRoot (id : Z) (s : State) : Root :=
  match m_state s !! id with Some t => t_root t | None => EmptyTrie end.

(** [code]: loaded from the database when the cached code is empty *)
Definition code (addr : Z) (s : State) : State * bytes :=
  match account addr s with
  | (s, None) => (s, [])
  | (s, Some a) =>
    if m_codeHash a =? EmptySHA3 then (s, [])
    else
      match m_codeCache a with
      | [] =>
        let c := default [] (m_codes s !! m_codeHash a) in
        (update addr (noteCode c) s, c)
      | c => (s, c)
      end
  end.

(** [codeSize], a [size_t]; the process-wide [CodeSizeCache] of the sizes of
    codes is left out. *)
Definition codeSize (addr : Z) (s : State) : State * Z :=
  match account addr s with
  | (s, None) => (s, 0)
  | (s, Some a) =>
    if m_hasNewCode a then (s, u64 (Z.of_nat (length (m_codeCache a))))
    else let '(s, c) := code addr s in (s, u64 (Z.of_nat (length c)))
  end.

Definition setCode (address : Z) (c : bytes) (s : State) : State :=
  let '(s, old) := code address s in
  update address (Account.setCode c) (log (Change_Code address old) s).

Definition savepoint (s : State) : nat := length (m_changeLog s).

(** The body of the loop of [rollback] for the change at the back of the log;
    [m_cache[change.address]] creates a missing entry. *)
Definition undo (c : Change) (s : State) : State :=
  match c with
  | Change_Storage a k v => update a (Account.setStorage k v) s
  | Change_StorageRoot a r => update a (setStorageRoot r) s
  | Change_Balance a v => update a (Account.addBalance (u256 (0 - v))) s
  | Change_Nonce a v => update a (Account.setNonce v) s
  | Change_Create a => with_cache (delete a) s
  | Change_Code a old => update a (Account.setCode old) s
  | Change_Touch a =>
    let s := update a untouch s in with_unchanged (m_unchangedCacheEntries s ++ [a]) s
  end.

(** [rollback]: pops changes until the log has the length of the savepoint.
    A savepoint beyond the log makes the code pop an empty vector; this is
    [None]. *)
Fixpoint rollback_loop (sp : nat) (l : list Change) (s : State) : option State :=
  if (sp =? length l)%nat then Some (with_log l s)
  else match l with
       | c :: l => rollback_loop sp l (undo c s)
       | [] => None
       end.
Definition rollback (sp : nat) (s : State) : option State :=
  rollback_loop sp (m_changeLog s) s.

Definition removeEmptyAccounts (s : State) : State :=
  with_cache (fmap (λ a, if isDirty a && isEmpty a then Account.kill a else a)) s.

(** The storage root written for an account. *)
Definition commit_root (a : Account) : Root :=
  map_fold (λ k v r, if negb (v =? 0) then trie_insert r k v else trie_remove r k)
    (m_storageRoot a) (m_storageOverlay a).

(** One round of the loop of [dev::eth::commit]: an account that is dirty is
    removed from the trie or written to it. *)
Definition commit_account (addr : Z) (a : Account)
    (acc : gmap Z TrieAccount * gmap Z bytes * gset Z) : gmap Z TrieAccount * gmap Z bytes * gset Z :=
  let '(trie, codes, ret) := acc in
  if isDirty a then
    if negb (isAlive a) then (delete addr trie, codes, {[addr]} ∪ ret)
    else
      let codes := if m_hasNewCode a then <[m_codeHash a := m_codeCache a]> codes else codes in
      (<[addr := mkTrieAccount (m_nonce a) (m_balance a) (commit_root a) (m_codeHash a)]> trie,
       codes, {[addr]} ∪ ret)
  else acc.

Inductive CommitBehaviour := KeepEmptyAccounts | RemoveEmptyAccounts.

(** [State::commit] *)
Definition commit (cb : CommitBehaviour) (s : State) : State :=
  let s := match cb with RemoveEmptyAccounts => removeEmptyAccounts s | KeepEmptyAccounts => s end in
  let '(trie, codes, ret) := map_fold commit_account (m_state s, m_codes s, ∅) (m_cache s) in
  mkState trie codes ∅ [] (m_nonExistingAccountsCache s) (m_touched s ∪ ret)
    (m_accountStartNonce s) [] (m_draws s).

(** [setRoot]: the trie of the new root is [trie]. *)
Definition setRoot (trie : gmap Z TrieAccount) (s : State) : State :=
  mkState trie (m_codes s) ∅ [] ∅ (m_touched s) (m_accountStartNonce s) (m_changeLog s) (m_draws s).

(** The copy constructor and [operator=] leave out the change log. *)
Definition copy (s : State) : State := with_log [] s.

(** [Permanence::Reverted] in [State::execute] *)
Definition drop_cache (s : State) : State := with_cache (λ _, ∅) s.

(** ** What a caller can observe of an account *)

Record Obs := mkObs {
  o_alive : bool;
  o_nonce : Z;
  o_balance : Z;
  o_root : Root;
  o_codeHash : Z;
  o_code : bytes;
  o_storage : Z → Z;
}.

#[export] Instance Obs_equiv : Equiv Obs := λ x y,
  o_alive x = o_alive y ∧ o_nonce x = o_nonce y ∧ o_balance x = o_balance y ∧
  o_root x = o_root y ∧ o_codeHash x = o_codeHash y ∧ o_code x = o_code y ∧
  ∀ k, o_storage x k = o_storage y k.
#[export] Instance Obs_equivalence : Equivalence (≡@{Obs}).
Proof.
  split.
  - intros x. unfold equiv, Obs_equiv. by split_and!.
  - intros x y (?&?&?&?&?&?&?). unfold equiv, Obs_equiv. by split_and!.
  - intros x y z (?&?&?&?&?&?&Hxy) (?&?&?&?&?&?&Hyz). unfold equiv, Obs_equiv.
    split_and!; congruence.
Qed.

Definition code_of (codes : gmap Z bytes) (a : Account) : bytes :=
  if m_codeHash a =? EmptySHA3 then []
  else match m_codeCache a with [] => default [] (codes !! m_codeHash a) | c => c end.
Definition storage_of (a : Account) (k : Z) : Z :=
  default (trie_at (m_storageRoot a) k) (m_storageOverlay a !! k).
Definition obs_of (codes : gmap Z bytes) (a : Account) : Obs :=
  mkObs (isAlive a) (m_nonce a) (m_balance a) (m_storageRoot a) (m_codeHash a)
    (code_of codes a) (storage_of a).

Definition load (t : TrieAccount) : Account :=
  existing (t_nonce t) (t_balance t) (t_root t) (t_codeHash t).

(** The account [account()] points to, and what is observed of it. *)
Definition lookup_account (s : State) (a : Z) : option Account :=
  match m_cache s !! a with
  | Some acc => Some acc
  | None => load <$> m_state s !! a
  end.
Definition view (s : State) (a : Z) : option Obs := obs_of (m_codes s) <$> lookup_account s a.

(** ** Views: what is observed of every account *)

Definition View := Z → option Obs.
Definition veq (V W : View) : Prop := ∀ a, V a ≡ W a.
#[export] Instance veq_equivalence : Equivalence veq.
Proof.
  split.
  - by intros V a.
  - intros V W HVW a. by symmetry.
  - intros V W X HVW HWX a. by transitivity (W a).
Qed.

(** The view of the committed trie. *)
Definition trie_view (s : State) : View := λ a, obs_of (m_codes s) ∘ load <$> m_state s !! a.

(** What undoing a change does to the view. *)
Definition undo_obs (codes : gmap Z bytes) (c : Change) (o : Obs) : Obs :=
  let '(mkObs al n b r ch cd st) := o in
  match c with
  | Change_Balance _ v => mkObs al n (u256 (b + u256 (0 - v))) r ch cd st
  | Change_Storage _ k v => mkObs al n b r ch cd (λ k', if k' =? k then v else st k')
  | Change_StorageRoot _ r => mkObs al n b r ch cd (trie_at r)
  | Change_Nonce _ v => mkObs al v b r ch cd st
  | Change_Code _ old =>
    mkObs al n b r (sha3 old)
      (if sha3 old =? EmptySHA3 then []
       else match old with [] => default [] (codes !! sha3 old) | c => c end) st
  | Change_Create _ | Change_Touch _ => o
  end.
Definition undo_view (codes : gmap Z bytes) (c : Change) (V : View) : View := λ a,
  if decide (a = change_address c) then
    match c with Change_Create _ => None | _ => undo_obs codes c <$> V a end
  else V a.
Definition undo_views (codes : gmap Z bytes) (l : list Change) (V : View) : View :=
  foldl (λ V c, undo_view codes c V) V l.

(** ** The invariant *)

(** Balances are 256 bit words and the code hashes to the code hash. *)
Definition obs_ok (o : Obs) : Prop :=
  sha3 (o_code o) = o_codeHash o ∧ in_word 256 (o_balance o).

(** The account of a change is in the cache and dirty. *)
Definition pinned (s : State) (a : Z) : Prop :=
  ∃ acc, m_cache s !! a = Some acc ∧ isDirty acc = true.

(** A creation is of an account the trie does not hold, the first touch of an
    account that showed what the trie holds; both are the oldest change of
    their account. *)
Fixpoint log_ok (trie : gmap Z TrieAccount) (codes : gmap Z bytes) (V : View) (l : list Change)
    : Prop :=
  match l with
  | [] => True
  | c :: l =>
    match c with
    | Change_Create a => trie !! a = None ∧ Forall (λ c', change_address c' ≠ a) l
    | Change_Touch a =>
      V a ≡ (obs_of codes ∘ load <$> trie !! a) ∧ Forall (λ c', change_address c' ≠ a) l
    | _ => True
    end ∧ log_ok trie codes (undo_view codes c V) l
  end.

Record wf (s : State) : Prop := mkWf {
  (** an entry that is not dirty shows what the trie holds *)
  wf_clean a acc : m_cache s !! a = Some acc → isDirty acc = false → view s a ≡ trie_view s a;
  (** the cache of addresses that do not exist holds only such addresses *)
  wf_absent a : a ∈ m_nonExistingAccountsCache s → m_cache s !! a = None ∧ m_state s !! a = None;
  wf_obs a o : view s a = Some o → obs_ok o;
  wf_pinned : Forall (λ c, pinned s (change_address c)) (m_changeLog s);
  wf_log : log_ok (m_state s) (m_codes s) (view s) (m_changeLog s);
}.

(** ** Steps that only fill or trim the caches *)

Record refresh (s s' : State) : Prop := mkRefresh {
  re_state : m_state s' = m_state s;
  re_codes : m_codes s' = m_codes s;
  re_start : m_accountStartNonce s' = m_accountStartNonce s;
  re_log : m_changeLog s' = m_changeLog s;
  re_view : veq (view s) (view s');
  re_pinned a : pinned s a → pinned s' a;
  re_clean a acc : m_cache s' !! a = Some acc → isDirty acc = false → view s' a ≡ trie_view s' a;
  re_absent a : a ∈ m_nonExistingAccountsCache s' → m_cache s' !! a = None ∧ m_state s' !! a = None;
}.

#[export] Instance undo_obs_proper codes c : Proper ((≡) ==> (≡)) (undo_obs codes c).
Proof.
  intros [] [] (?&?&?&?&?&?&Hst). simpl in *. subst.
  destruct c; unfold equiv, Obs_equiv; simpl; split_and!; try done.
  intros k. by rewrite Hst.
Qed.

Lemma undo_view_proper codes c V W : veq V W → veq (undo_view codes c V) (undo_view codes c W).
Proof.
  intros HVW a. unfold undo_view. destruct (decide _); [|done].
  destruct c; by rewrite ?(HVW a).
Qed.

Lemma undo_views_proper codes l V W : veq V W → veq (undo_views codes l V) (undo_views codes l W).
Proof.
  revert V W. induction l as [|c l IH]; intros V W HVW; [done|].
  by apply IH, undo_view_proper.
Qed.

Lemma log_ok_proper trie codes l V W : veq V W → log_ok trie codes V l → log_ok trie codes W l.
Proof.
  revert V W. induction l as [|c l IH]; intros V W HVW; [done|].
  simpl. intros [Hc Hl]. split; [|by eapply IH, Hl; apply undo_view_proper].
  destruct c; try done. by rewrite <-(HVW address).
Qed.

Lemma obs_ok_proper o o' : o ≡ o' → obs_ok o → obs_ok o'.
Proof. intros (_&_&Hb&_&Hh&Hc&_). unfold obs_ok. by rewrite Hb, Hh, Hc. Qed.

Lemma refresh_wf s s' : wf s → refresh s s' → wf s'.
Proof.
  intros [Hclean Habsent Hobs Hpin Hlog] [Hst Hco Hsn Hl Hv Hp Hc Ha]. split; [done..|  | |].
  - intros a o Ho. specialize (Hv a). rewrite Ho in Hv.
    destruct (view s a) as [o'|] eqn:Hs; inversion Hv; subst.
    eapply obs_ok_proper; [done|]. by eapply Hobs.
  - rewrite Hl. eapply Forall_impl; [done|]. auto.
  - rewrite Hst, Hco, Hl. by eapply log_ok_proper.
Qed.

Lemma refresh_trans s1 s2 s3 : refresh s1 s2 → refresh s2 s3 → refresh s1 s3.
Proof.
  intros [] []. split; try congruence; auto. by transitivity (view s2).
Qed.

Lemma refresh_refl s : wf s → refresh s s.
Proof. intros []. by split. Qed.

Lemma refresh_evict s a acc :
  wf s → m_cache s !! a = Some acc → isDirty acc = false →
  refresh s (with_cache (delete a) s).
Proof.
  intros Hwf Hacc Hd. pose proof (wf_clean s Hwf a acc Hacc Hd) as Hv.
  assert (veq (view s) (view (with_cache (delete a) s))) as Hview.
  { intros a'. destruct (decide (a' = a)) as [->|].
    - rewrite Hv. unfold view, trie_view, lookup_account. simpl.
      rewrite lookup_delete_eq. by destruct (m_state s !! a).
    - unfold view, lookup_account. simpl. by rewrite lookup_delete_ne. }
  split; try done; simpl.
  - intros a' (acc'&Ha'&Hd'). exists acc'. simpl. split; [|done].
    rewrite lookup_delete_ne; [done|]. intros ->. congruence.
  - intros a' acc' Ha' Hd'. rewrite <-(Hview a'). apply lookup_delete_Some in Ha' as [_ Ha'].
    by apply (wf_clean s Hwf a' acc').
  - intros a' [Hc ?]%(wf_absent s Hwf). split; [|done]. apply lookup_delete_None. by right.
Qed.

(** ... changing an entry without changing what it shows, ... *)
Lemma refresh_update s a acc f :
  wf s → m_cache s !! a = Some acc → (isDirty acc = true → isDirty (f acc) = true) →
  obs_of (m_codes s) (f acc) ≡ obs_of (m_codes s) acc →
  refresh s (update a f s).
Proof.
  intros Hwf Hacc Hd Ho.
  assert (veq (view s) (view (update a f s))) as Hview.
  { intros a'. unfold view, lookup_account, update. simpl. destruct (decide (a' = a)) as [->|].
    - rewrite lookup_insert_eq, Hacc. simpl. by rewrite Ho.
    - by rewrite lookup_insert_ne. }
  split; try done; simpl.
  - intros a' (acc'&Ha'&Hd'). unfold pinned, update. simpl.
    destruct (decide (a' = a)) as [->|].
    + rewrite lookup_insert_eq, Hacc. eexists. split; [done|]. simpl. apply Hd. congruence.
    + rewrite lookup_insert_ne by done. by exists acc'.
  - intros a' acc' Ha' Hd'. rewrite <-(Hview a'). destruct (decide (a' = a)) as [->|].
    + rewrite lookup_insert_eq, Hacc in Ha'. simplify_eq/=.
      apply (wf_clean s Hwf a acc); [done|]. destruct (isDirty acc); naive_solver.
    + rewrite lookup_insert_ne in Ha' by done. by apply (wf_clean s Hwf a' acc').
  - intros a' [Hc ?]%(wf_absent s Hwf). split; [|done].
    rewrite lookup_insert_ne; [done|]. intros ->. congruence.
Qed.

(** ... and changing the bookkeeping of the caches. *)
Lemma refresh_unchanged s l : wf s → refresh s (with_unchanged l s).
Proof. intros []. by split. Qed.
Lemma refresh_draws s n : wf s → refresh s (with_draws n s).
Proof. intros []. by split. Qed.
Lemma refresh_absent s a :
  wf s → m_cache s !! a = None → m_state s !! a = None →
  refresh s (with_nonExisting (λ m, {[a]} ∪ m) s).
Proof.
  intros [] Hc Hs. split; try done; simpl.
  intros a' [->%elem_of_singleton|Hin]%elem_of_union; eauto.
Qed.

Lemma refresh_load s a t :
  wf s → m_cache s !! a = None → m_state s !! a = Some t →
  refresh s (with_cache (<[a := load t]>) s).
Proof.
  intros Hwf Hc Hs.
  assert (veq (view s) (view (with_cache (<[a := load t]>) s))) as Hview.
  { intros a'. unfold view, lookup_account. simpl. destruct (decide (a' = a)) as [->|].
    - by rewrite lookup_insert_eq, Hc, Hs.
    - by rewrite lookup_insert_ne. }
  split; try done; simpl.
  - intros a' (acc'&Ha'&Hd'). exists acc'. simpl.
    rewrite lookup_insert_ne; [done|]. intros ->. congruence.
  - intros a' acc' Ha' Hd'. rewrite <-(Hview a'). destruct (decide (a' = a)) as [->|].
    + unfold view, trie_view, lookup_account. simpl. by rewrite Hc, Hs.
    + rewrite lookup_insert_ne in Ha' by done. by apply (wf_clean s Hwf a' acc').
  - intros a' Hin. destruct (wf_absent s Hwf a' Hin). split; [|done].
    rewrite lookup_insert_ne; [done|]. intros ->. congruence.
Qed.

Lemma refresh_evict_one s : wf s → refresh s (evict_one s).
Proof.
  intros Hwf. unfold evict_one.
  set (s1 := with_draws _ s). assert (refresh s s1) as H1 by by apply refresh_draws.
  destruct (_ !! _) as [addr|]; [|done]. destruct (last _) as [back|]; [|done].
  set (s2 := with_unchanged _ s1).
  assert (refresh s s2) as H2.
  { eapply refresh_trans; [done|]. by apply refresh_unchanged, (refresh_wf s). }
  destruct (m_cache s2 !! addr) as [acc|] eqn:Hacc; [|done].
  destruct (isDirty acc) eqn:Hd; simpl; [done|].
  eapply refresh_trans; [done|]. eapply refresh_evict; [by apply (refresh_wf s)|done|done].
Qed.

Lemma refresh_evict_loop fuel s : wf s → refresh s (evict_loop fuel s).
Proof.
  revert s. induction fuel as [|fuel IH]; intros s Hwf; simpl; [by apply refresh_refl|].
  destruct (_ <? _)%nat; [|by apply refresh_refl].
  eapply refresh_trans; [by apply refresh_evict_one|].
  by eapply IH, refresh_wf, refresh_evict_one.
Qed.

(** An eviction does not bring an entry into the cache. *)
Lemma evict_loop_absent fuel s a :
  m_cache s !! a = None → m_cache (evict_loop fuel s) !! a = None.
Proof.
  revert s. induction fuel as [|fuel IH]; intros s Hn; simpl; [done|].
  destruct (_ <? _)%nat; [|done]. apply IH. unfold evict_one.
  repeat case_match; simpl; try done. apply lookup_delete_None. by right.
Qed.

(** [account] finds the account of the view and brings it into the cache. *)
Lemma account_spec a s :
  wf s →
  let '(s', r) := account a s in
  refresh s s' ∧ m_cache s' !! a = r ∧
  (r = None → m_state s' !! a = None) ∧ view s a ≡ (obs_of (m_codes s) <$> r).
Proof.
  intros Hwf. unfold account. destruct (m_cache s !! a) as [acc|] eqn:Hacc.
  { split; [by apply refresh_refl|]. split_and!; [done|done|].
    unfold view, lookup_account. by rewrite Hacc. }
  assert (view s a = (obs_of (m_codes s) ∘ load <$> m_state s !! a)) as ->.
  { unfold view, lookup_account. rewrite Hacc. by destruct (m_state s !! a). }
  destruct (decide _) as [Hin|_].
  { destruct (wf_absent s Hwf a Hin) as [_ Ht].
    split; [by apply refresh_refl|]. split_and!; [done|done|]. by rewrite Ht. }
  destruct (m_state s !! a) as [t|] eqn:Ht; simpl.
  2:{ split; [by apply refresh_absent|]. done. }
  assert (refresh s (clearCacheIfTooLarge s)) as H1 by by apply refresh_evict_loop.
  assert (m_cache (clearCacheIfTooLarge s) !! a = None) as Hn by by apply evict_loop_absent.
  set (s1 := clearCacheIfTooLarge s) in *.
  assert (refresh s1 (with_cache (<[a := load t]>) s1)) as H2.
  { apply refresh_load; [by apply (refresh_wf s)|done|]. by rewrite (re_state _ _ H1). }
  split_and!; [|by rewrite lookup_insert_eq|done|done].
  eapply refresh_trans; [done|]. eapply refresh_trans; [done|].
  by apply refresh_unchanged, (refresh_wf s1), H2; apply (refresh_wf s).
Qed.

(** ** Steps that are logged *)

(** The view after an entry was written. *)
Lemma view_update s a f acc l :
  m_cache s !! a = Some acc →
  veq (view (with_log l (update a f s)))
      (λ a', if decide (a' = a) then Some (obs_of (m_codes s) (f acc)) else view s a').
Proof.
  intros Hacc a'. unfold view, lookup_account. simpl. destruct (decide (a' = a)) as [->|].
  - by rewrite lookup_insert_eq, Hacc.
  - by rewrite lookup_insert_ne.
Qed.

Lemma write_wf s a acc f l :
  wf s → m_cache s !! a = Some acc → isDirty (f acc) = true → obs_ok (obs_of (m_codes s) (f acc)) →
  Forall (λ c, change_address c = a ∨ pinned s (change_address c)) l →
  let s' := with_log l (update a f s) in
  log_ok (m_state s) (m_codes s) (view s') l → wf s'.
Proof.
  intros Hwf Hacc Hd Hok Hl s' Hlog.
  assert (pinned s' a) as Hpa.
  { exists (f acc). unfold s'. simpl. by rewrite lookup_insert_eq, Hacc. }
  split; [| | | |done].
  - intros a' acc' Ha' Hd'. unfold s' in Ha'. simpl in Ha'. destruct (decide (a' = a)) as [->|Hne].
    { rewrite lookup_insert_eq, Hacc in Ha'. simplify_eq/=. congruence. }
    rewrite lookup_insert_ne in Ha' by done.
    unfold s'. rewrite (view_update s a f acc _ Hacc a').
    destruct (decide (a' = a)); [done|]. by apply (wf_clean s Hwf a' acc').
  - intros a' [Hc ?]%(wf_absent s Hwf). split; [|done]. simpl.
    rewrite lookup_insert_ne; [done|]. intros ->. congruence.
  - intros a' o Ho. pose proof (view_update s a f acc l Hacc a') as Hv.
    fold s' in Hv. rewrite Ho in Hv. destruct (decide (a' = a)) as [->|].
    + inversion Hv; subst. by eapply obs_ok_proper.
    + destruct (view s a') as [o'|] eqn:Ho'; inversion Hv; subst.
      eapply obs_ok_proper; [done|]. by eapply wf_obs.
  - eapply Forall_impl; [done|]. intros c [->|(acc'&Hc&Hd')]; [done|].
    destruct (decide (change_address c = a)) as [->|]; [done|].
    exists acc'. unfold s'. simpl. by rewrite lookup_insert_ne.
Qed.

Lemma pinned_log s a c :
  wf s → change_address c = a →
  Forall (λ c, change_address c = a ∨ pinned s (change_address c)) (c :: m_changeLog s).
Proof.
  intros Hwf Hc. constructor; [by left|]. eapply Forall_impl; [exact (wf_pinned s Hwf)|]. auto.
Qed.

(** What every logged step guarantees: the changes it added take the view
    back. *)
Record step (s s' : State) : Prop := mkStep {
  st_wf : wf s';
  st_state : m_state s' = m_state s;
  st_codes : m_codes s' = m_codes s;
  st_log : ∃ new, m_changeLog s' = new ++ m_changeLog s ∧
             veq (undo_views (m_codes s) new (view s')) (view s);
}.

Lemma step_refresh s s' : wf s → refresh s s' → step s s'.
Proof.
  intros Hwf Hre. split; [by apply (refresh_wf s)|by apply Hre..|].
  exists []. split; [apply Hre|]. symmetry. apply Hre.
Qed.

Lemma step_trans s1 s2 s3 : step s1 s2 → step s2 s3 → step s1 s3.
Proof.
  intros [_ Hs1 Hc1 (n1&Hl1&Hv1)] [Hwf Hs2 Hc2 (n2&Hl2&Hv2)].
  split; [done|congruence..|]. exists (n2 ++ n1). rewrite Hl2, Hl1, app_assoc. split; [done|].
  unfold undo_views. rewrite foldl_app. rewrite Hc1 in Hv2.
  transitivity (undo_views (m_codes s1) n1 (view s2)); [|done].
  by apply undo_views_proper.
Qed.

Lemma undo_view_update codes s a f acc l c :
  m_cache s !! a = Some acc → m_codes s = codes → change_address c = a →
  (∀ a', c ≠ Change_Create a') →
  undo_obs codes c (obs_of codes (f acc)) ≡ obs_of codes acc →
  veq (undo_view codes c (view (with_log l (update a f s)))) (view s).
Proof.
  intros Hacc Hcodes Hc Hn Hundo a'. rewrite <-Hcodes in *.
  etrans; [by apply undo_view_proper, view_update|].
  unfold undo_view. rewrite Hc. destruct (decide (a' = a)) as [->|]; [|done].
  transitivity (Some (undo_obs (m_codes s) c (obs_of (m_codes s) (f acc)))).
  { destruct c; try done. exfalso. by apply (Hn address). }
  unfold view, lookup_account. rewrite Hacc. by rewrite Hundo.
Qed.

(** A step that writes one account and logs one change. *)
Lemma step_write s a acc f c :
  wf s → m_cache s !! a = Some acc → isDirty (f acc) = true → obs_ok (obs_of (m_codes s) (f acc)) →
  change_address c = a →
  match c with Change_Create _ | Change_Touch _ => False | _ => True end →
  undo_obs (m_codes s) c (obs_of (m_codes s) (f acc)) ≡ obs_of (m_codes s) acc →
  step s (log c (update a f s)).
Proof.
  intros Hwf Hacc Hd Hok Hc Hk Hundo.
  assert (veq (undo_view (m_codes s) c (view (log c (update a f s)))) (view s)) as Hview.
  { eapply undo_view_update; [done..| |done]. by intros a' ->. }
  split; [|done..|].
  - apply (write_wf s a acc f (c :: m_changeLog s)); [done..|by apply pinned_log|].
    simpl. split; [by destruct c|].
    eapply log_ok_proper; [by symmetry|]. apply (wf_log s Hwf).
  - by exists [c].
Qed.

(** Creation of an account that is not in use. *)
Lemma step_create s a acc :
  wf s → m_cache s !! a = None → m_state s !! a = None → isDirty acc = true →
  obs_ok (obs_of (m_codes s) acc) → step s (createAccount a acc s).
Proof.
  intros Hwf Hc Ht Hd Hok. set (s' := createAccount a acc s).
  assert (∀ a', view s' a' = if decide (a' = a) then Some (obs_of (m_codes s) acc) else view s a')
    as Hview.
  { intros a'. unfold view, lookup_account, s'. simpl. destruct (decide (a' = a)) as [->|].
    - by rewrite lookup_insert_eq.
    - by rewrite lookup_insert_ne. }
  assert (veq (undo_view (m_codes s) (Change_Create a) (view s')) (view s)) as Hundo.
  { intros a'. unfold undo_view. rewrite Hview. simpl. destruct (decide (a' = a)) as [->|]; [|done].
    unfold view, lookup_account. by rewrite Hc, Ht. }
  split; [|done..|by exists [Change_Create a]].
  split.
  - intros a' acc' Ha' Hd'. rewrite Hview. simpl in Ha'. destruct (decide (a' = a)) as [->|].
    { rewrite lookup_insert_eq in Ha'. congruence. }
    rewrite lookup_insert_ne in Ha' by done. by apply (wf_clean s Hwf a' acc').
  - simpl. intros a' [Hin Hne]%elem_of_difference. apply not_elem_of_singleton in Hne.
    rewrite lookup_insert_ne by done. by apply (wf_absent s Hwf).
  - intros a' o. rewrite Hview. destruct (decide (a' = a)); [naive_solver|]. apply (wf_obs s Hwf).
  - constructor; [exists acc; simpl; by rewrite lookup_insert_eq|].
    eapply Forall_impl; [exact (wf_pinned s Hwf)|]. intros c (acc'&Hc'&Hd'). exists acc'. simpl.
    rewrite lookup_insert_ne; [done|]. intros Heq. rewrite <-Heq in Hc'. congruence.
  - simpl. split_and!; [done| |eapply log_ok_proper; [by symmetry|]; exact (wf_log s Hwf)].
    eapply Forall_impl; [exact (wf_pinned s Hwf)|]. intros c (acc'&Hc'&_) Heq.
    rewrite Heq in Hc'. congruence.
Qed.

(** ** The operations are logged steps *)

Lemma cached_obs_ok s a acc : wf s → m_cache s !! a = Some acc → obs_ok (obs_of (m_codes s) acc).
Proof.
  intros Hwf Hacc. apply (wf_obs s Hwf a). unfold view, lookup_account. by rewrite Hacc.
Qed.

(** Both branches of the operations that write an account or create it. *)
Lemma step_account s a f new (c : Account → Change) :
  wf s →
  (∀ acc, isDirty (f acc) = true ∧ change_address (c acc) = a ∧
     match c acc with Change_Create _ | Change_Touch _ => False | _ => True end) →
  (∀ codes acc, obs_ok (obs_of codes acc) → obs_ok (obs_of codes (f acc)) ∧
     undo_obs codes (c acc) (obs_of codes (f acc)) ≡ obs_of codes acc) →
  isDirty new = true → obs_ok (obs_of (m_codes s) new) →
  let '(s1, r) := account a s in
  step s (match r with
          | Some acc => log (c acc) (update a f s1)
          | None => createAccount a new s1
          end).
Proof.
  intros Hwf Hc Hf Hd Hok. pose proof (account_spec a s Hwf) as Hacc.
  destruct (account a s) as [s1 r]. destruct Hacc as (Hre&Hr&Ht&_).
  pose proof (refresh_wf _ _ Hwf Hre) as Hwf1.
  apply (step_trans s s1); [by apply step_refresh|]. destruct r as [acc|].
  - destruct (Hc acc) as (?&?&?).
    destruct (Hf (m_codes s1) acc) as [Hok' Hundo]; [by eapply cached_obs_ok|].
    by apply (step_write s1 a acc).
  - apply step_create; [done|done|by apply Ht|done|]. by rewrite (re_codes _ _ Hre).
Qed.

Lemma basic_ok codes n b : in_word 256 b → obs_ok (obs_of codes (basic n b)).
Proof.
  intros Hb. split; [|done]. simpl. unfold code_of. simpl. by rewrite Z.eqb_refl.
Qed.

Lemma step_setNonce s a n : wf s → step s (setNonce a n s).
Proof.
  intros Hwf. pose proof (step_account s a (Account.setNonce n) (basic n 0)
    (λ acc, Change_Nonce a (m_nonce acc)) Hwf) as Hstep.
  unfold setNonce. destruct (account a s) as [s1 [acc|]]; apply Hstep; try done;
    try (by apply basic_ok); intros codes acc' [? ?]; by split_and!.
Qed.

Lemma step_incNonce s a s' : wf s → incNonce a s = Ok s' → step s s'.
Proof.
  intros Hwf. unfold incNonce. destruct (account a s) as [s1 [acc|]] eqn:Hacc.
  - intros ?; simplify_eq. pose proof (step_account s a Account.incNonce (basic 0 0)
      (λ acc, Change_Nonce a (m_nonce acc)) Hwf) as Hstep. rewrite Hacc in Hstep.
    apply Hstep; try done; try (by apply basic_ok); intros codes acc' [? ?]; by split_and!.
  - intros (n&Hn&?)%bind_Ok_inv; simplify_eq/=.
    pose proof (step_account s a Account.incNonce (basic (u256 (n + 1)) 0)
      (λ acc, Change_Nonce a (m_nonce acc)) Hwf) as Hstep. rewrite Hacc in Hstep.
    apply Hstep; try done; try (by apply basic_ok); intros codes acc' [? ?]; by split_and!.
Qed.

(** Taking a balance change back. *)
Lemma u256_undo b v : in_word 256 b → u256 (u256 (b + v) + u256 (0 - v)) = b.
Proof.
  intros Hb. unfold wrap. rewrite <-Z.add_mod by done.
  replace (b + v + (0 - v)) with b by lia. by apply Z.mod_small.
Qed.

Lemma addBalance_ok codes v acc :
  obs_ok (obs_of codes acc) → obs_ok (obs_of codes (Account.addBalance v acc)).
Proof. intros [Hc Hb]. split; [done|]. simpl. by apply wrap_in_word. Qed.

Lemma addBalance_undo codes a v acc :
  obs_ok (obs_of codes acc) →
  undo_obs codes (Change_Balance a v) (obs_of codes (Account.addBalance v acc)) ≡ obs_of codes acc.
Proof.
  intros [_ Hb]. simpl in *. split_and!; simpl; try done. by apply u256_undo.
Qed.

Lemma addBalance_0 codes acc :
  obs_ok (obs_of codes acc) → obs_of codes (Account.addBalance 0 acc) ≡ obs_of codes acc.
Proof.
  intros [_ Hb]. split_and!; simpl; try done. rewrite Z.add_0_r. by apply wrap_small.
Qed.

(** The first touch of an empty account. *)
Lemma step_touch s a acc :
  wf s → m_cache s !! a = Some acc → isDirty acc = false →
  step s (log (Change_Touch a) (update a (Account.addBalance 0) s)).
Proof.
  intros Hwf Hacc Hd. pose proof (cached_obs_ok s a acc Hwf Hacc) as Hok.
  set (s' := log _ _).
  assert (veq (view s') (view s)) as Hview.
  { intros a'. unfold s', log. rewrite (view_update s a _ acc _ Hacc a').
    destruct (decide (a' = a)) as [->|]; [|done].
    unfold view, lookup_account. rewrite Hacc. constructor. by apply addBalance_0. }
  assert (veq (undo_view (m_codes s) (Change_Touch a) (view s')) (view s)) as Hundo.
  { intros a'. etrans; [by apply undo_view_proper|]. unfold undo_view. simpl.
    destruct (decide (a' = a)) as [->|]; [|done]. destruct (view s a) as [o|]; [|done].
    simpl. by destruct o. }
  split; [|done..|by exists [Change_Touch a]].
  apply (write_wf s a acc (Account.addBalance 0) (Change_Touch a :: m_changeLog s));
    [done|done|done| | |].
  - by apply addBalance_ok.
  - by apply pinned_log.
  - simpl. split_and!.
    + etrans; [apply Hview|]. by apply (wf_clean s Hwf a acc).
    + eapply Forall_impl; [exact (wf_pinned s Hwf)|]. intros c (acc'&Hc'&Hd') Heq.
      rewrite Heq in Hc'. congruence.
    + eapply log_ok_proper; [by symmetry|]. exact (wf_log s Hwf).
Qed.

(** A write on top of a write or of a creation. *)
Lemma update_touch s a acc v :
  m_cache s !! a = Some acc →
  log (Change_Balance a v) (update a (Account.addBalance v) (log (Change_Touch a) s)) =
  log (Change_Balance a v) (update a (Account.addBalance v)
    (log (Change_Touch a) (update a (Account.addBalance 0) s))).
Proof.
  intros Hacc. unfold log, update, with_log, with_cache. simpl. f_equal.
  rewrite lookup_insert_eq, Hacc. simpl. rewrite insert_insert_eq. f_equal.
  unfold Account.addBalance. simpl. f_equal. unfold wrap.
  by rewrite Z.add_0_r, Z.add_mod_idemp_l by done.
Qed.

Lemma update_create s a n v :
  in_word 256 v →
  createAccount a (basic n v) s =
  with_log (Change_Create a :: m_changeLog s)
    (update a (Account.addBalance v) (createAccount a (basic n 0) s)).
Proof.
  intros Hv. unfold createAccount, log, update, with_log, with_cache, with_nonExisting. simpl.
  f_equal. rewrite lookup_insert_eq. simpl. rewrite insert_insert_eq. f_equal.
  unfold Account.addBalance, basic. simpl. f_equal. rewrite Z.add_0_l. by rewrite wrap_small.
Qed.

(** What the state shows of an account in the cache after a balance change. *)
Lemma step_balance s a acc v :
  wf s → m_cache s !! a = Some acc →
  step s (log (Change_Balance a v) (update a (Account.addBalance v) s)).
Proof.
  intros Hwf Hacc. pose proof (cached_obs_ok s a acc Hwf Hacc) as Hok.
  apply (step_write s a acc); try done.
  - by apply addBalance_ok.
  - by apply addBalance_undo.
Qed.

Lemma step_addBalance s a v s' :
  wf s → in_word 256 v → addBalance a v s = Ok s' → step s s'.
Proof.
  intros Hwf Hv. unfold addBalance. pose proof (account_spec a s Hwf) as Hacc.
  destruct (account a s) as [s1 [acc|]]; destruct Hacc as (Hre&Hr&Ht&_);
    pose proof (refresh_wf _ _ Hwf Hre) as Hwf1;
    intros (s2&Hs2&?)%bind_Ok_inv; apply (step_trans s s1);
    try (by apply step_refresh); simplify_eq/=.
  - destruct (isDirty acc) eqn:Hd, (isEmpty acc) eqn:He, (Z.eqb_spec v 0) as [->|]; simpl;
      try (by eapply step_balance);
      try (apply step_refresh, (refresh_update s1 a acc); try done;
           by apply addBalance_0, (cached_obs_ok s1 a)).
    + by apply (step_touch s1 a acc).
    + rewrite (update_touch s1 a acc) by done. eapply step_trans; [by apply (step_touch s1 a acc)|].
      apply (step_balance _ _ (Account.addBalance 0 acc)); [by eapply st_wf, step_touch|].
      simpl. by rewrite lookup_insert_eq, Hr.
  - apply bind_Ok_inv in Hs2 as (n&Hn&?); simplify_eq/=.
    assert (step s1 (createAccount a (basic n 0) s1)) as Hc.
    { apply step_create; [done|done|by apply Ht|done|by apply basic_ok]. }
    destruct (Z.eqb_spec v 0) as [->|]; [done|]. simpl. rewrite update_create by done.
    eapply step_trans; [exact Hc|].
    apply (step_balance (createAccount a (basic n 0) s1) a (basic n 0)); [by apply Hc|].
    simpl. by rewrite lookup_insert_eq.
Qed.

Lemma step_subBalance s a v s' :
  wf s → subBalance a v s = Ok s' → step s s'.
Proof.
  intros Hwf. unfold subBalance. pose proof (account_spec a s Hwf) as Hacc.
  destruct (_ =? 0); [intros; simplify_eq; by apply step_refresh, refresh_refl|].
  destruct (account a s) as [s1 [acc|]]; [|done]. destruct Hacc as (Hre&_).
  destruct (_ <? _); [done|]. intros Hs. apply (step_trans s s1); [by apply step_refresh|].
  eapply step_addBalance; [by eapply refresh_wf|by apply wrap_in_word|done].
Qed.

Lemma step_setBalance s a v s' : wf s → setBalance a v s = Ok s' → step s s'.
Proof.
  intros Hwf. unfold setBalance. pose proof (account_spec a s Hwf) as Hacc.
  destruct (account a s) as [s1 r]. destruct Hacc as (Hre&_). intros Hs.
  apply (step_trans s s1); [by apply step_refresh|].
  eapply step_addBalance; [by eapply refresh_wf|by apply wrap_in_word|done].
Qed.

(** *** Storage *)

Lemma setStorageCache_obs codes k acc :
  m_storageOverlay acc !! k = None →
  obs_of codes (setStorageCache k (trie_at (m_storageRoot acc) k) acc) ≡ obs_of codes acc.
Proof.
  intros Hk. unfold equiv, Obs_equiv. simpl. split_and!; try done.
  intros k'. unfold storage_of. simpl. destruct (decide (k' = k)) as [->|].
  - by rewrite lookup_insert_eq, Hk.
  - by rewrite lookup_insert_ne.
Qed.

(** [storage] returns what the view shows and keeps the account in the cache. *)
Lemma storage_spec a k s :
  wf s →
  let '(s', v) := storage a k s in
  refresh s s' ∧ v = from_option (λ o, o_storage o k) 0 (view s a) ∧
  (view s a ≠ None → ∃ acc, m_cache s' !! a = Some acc ∧ storage_of acc k = v).
Proof.
  intros Hwf. unfold storage. pose proof (account_spec a s Hwf) as Hacc.
  destruct (account a s) as [s1 [acc|]]; destruct Hacc as (Hre&Hr&_&Hv);
    destruct (view s a) as [o|] eqn:Ho; inversion Hv as [? ? Heq|]; subst; [|done].
  pose proof Heq as (_&_&_&_&_&_&Hst). simpl. specialize (Hst k). simpl in Hst.
  destruct (m_storageOverlay acc !! k) as [v|] eqn:Hk.
  - split; [done|]. unfold storage_of in Hst. rewrite Hk in Hst. simpl in Hst.
    split; [by rewrite Hst|]. intros _. exists acc. split; [done|]. unfold storage_of. by rewrite Hk.
  - split_and!.
    + eapply refresh_trans; [done|]. apply (refresh_update s1 a acc); try done.
      * by eapply refresh_wf.
      * by apply setStorageCache_obs.
    + rewrite Hst. unfold storage_of. by rewrite Hk.
    + intros _. simpl. rewrite lookup_insert_eq, Hr. eexists. split; [done|].
      unfold storage_of. simpl. by rewrite lookup_insert_eq.
Qed.

Lemma step_setStorage s a k v :
  wf s → view s a ≠ None → step s (setStorage a k v s).
Proof.
  intros Hwf Hex. unfold setStorage. pose proof (storage_spec a k s Hwf) as Hst.
  destruct (storage a k s) as [s1 old]. destruct Hst as (Hre&_&Hacc).
  destruct (Hacc Hex) as (acc&Hc&Hold).
  pose proof (refresh_wf _ _ Hwf Hre) as Hwf1.
  apply (step_trans s s1); [by apply step_refresh|].
  change (step s1 (log (Change_Storage a k old) (update a (Account.setStorage k v) s1))).
  pose proof (cached_obs_ok s1 a acc Hwf1 Hc) as Hok.
  apply (step_write s1 a acc); try done. unfold equiv, Obs_equiv. simpl. split_and!; try done.
  intros k'. unfold storage_of in *. simpl. destruct (Z.eqb_spec k' k) as [->|]; [done|].
  by rewrite lookup_insert_ne.
Qed.

(** *** Clearing the storage *)

(** The overlay holds nothing but values read from the trie. *)
Definition overlay_clean (acc : Account) : Prop :=
  map_Forall (λ k v, v = trie_at (m_storageRoot acc) k) (m_storageOverlay acc).

Lemma update_id s a acc : m_cache s !! a = Some acc → update a id s = s.
Proof.
  intros Hacc. unfold update, with_cache. rewrite Hacc. destruct s. simpl in *. f_equal.
  by apply insert_id.
Qed.

Lemma step_clearStorage s a acc :
  wf s → m_cache s !! a = Some acc → overlay_clean acc → step s (clearStorage a s).
Proof.
  intros Hwf Hacc Hclean. unfold clearStorage. rewrite (update_id s a acc) by done.
  assert (entry s a = acc) as -> by (unfold entry; by rewrite Hacc).
  destruct (decide _) as [_|Hne]; [by apply step_refresh, refresh_refl|].
  pose proof (cached_obs_ok s a acc Hwf Hacc) as Hok.
  change (step s (log (Change_StorageRoot a (m_storageRoot acc))
    (update a Account.clearStorage s))).
  apply (step_write s a acc); try done. unfold equiv, Obs_equiv. simpl. split_and!; try done.
  intros k. unfold storage_of. destruct (m_storageOverlay acc !! k) as [v|] eqn:Hk; [|done].
  by rewrite (Hclean k v Hk).
Qed.

(** *** Code *)

Lemma code_spec a s :
  wf s →
  let '(s', c) := code a s in
  refresh s s' ∧ c = from_option o_code [] (view s a).
Proof.
  intros Hwf. unfold code. pose proof (account_spec a s Hwf) as Hacc.
  destruct (account a s) as [s1 [acc|]]; destruct Hacc as (Hre&Hr&_&Hv);
    destruct (view s a) as [o|] eqn:Ho; inversion Hv as [? ? Heq|]; subst; [|done].
  destruct Heq as (_&_&_&_&_&Hcode&_). simpl in *. rewrite Hcode. unfold code_of.
  destruct (Z.eqb_spec (m_codeHash acc) EmptySHA3) as [|Hne]; [done|].
  rewrite <-(re_codes _ _ Hre). destruct (m_codeCache acc) as [|] eqn:Hcache; [|done].
  split; [|done]. eapply refresh_trans; [done|].
  apply (refresh_update s1 a acc); try done; [by eapply refresh_wf|].
  unfold equiv, Obs_equiv. simpl. split_and!; try done. unfold code_of. simpl.
  rewrite Hcache. destruct (_ =? _); [done|]. by destruct (default [] _).
Qed.

Lemma setCode_undo codes a c acc :
  obs_ok (obs_of codes acc) →
  undo_obs codes (Change_Code a (code_of codes acc)) (obs_of codes (Account.setCode c acc))
  ≡ obs_of codes acc.
Proof.
  intros [Hh _]. unfold equiv, Obs_equiv. simpl in *. rewrite Hh. split_and!; try done.
  destruct (Z.eqb_spec (m_codeHash acc) EmptySHA3) as [He|He].
  - unfold code_of. by rewrite (proj2 (Z.eqb_eq _ _) He).
  - destruct (code_of codes acc) eqn:Hc; [|done]. by rewrite <-Hh in He.
Qed.

Lemma setCode_ok codes c acc :
  obs_ok (obs_of codes acc) → obs_ok (obs_of codes (Account.setCode c acc)).
Proof.
  intros [_ Hb]. split; [|done]. simpl. unfold code_of. simpl.
  destruct (Z.eqb_spec (sha3 c) EmptySHA3) as [->|He]; [done|]. by destruct c.
Qed.

Lemma step_setCode s a c : wf s → pinned s a → step s (setCode a c s).
Proof.
  intros Hwf Hpin. unfold setCode. pose proof (code_spec a s Hwf) as Hcode.
  destruct (code a s) as [s1 old]. destruct Hcode as (Hre&Hold).
  pose proof (refresh_wf _ _ Hwf Hre) as Hwf1.
  destruct (re_pinned _ _ Hre a Hpin) as (acc&Hacc&Hd).
  apply (step_trans s s1); [by apply step_refresh|].
  change (step s1 (log (Change_Code a old) (update a (Account.setCode c) s1))).
  pose proof (cached_obs_ok s1 a acc Hwf1 Hacc) as Hok.
  assert (old = code_of (m_codes s1) acc) as ->.
  { pose proof (re_view _ _ Hre a) as Hv. unfold view at 2, lookup_account in Hv.
    rewrite Hacc in Hv. subst old.
    destruct (view s a) as [o|]; inversion Hv as [? ? Heq|]; subst. by apply Heq. }
  apply (step_write s1 a acc); try done; [by apply setCode_ok|by apply setCode_undo].
Qed.

Lemma step_createContract s a s' :
  wf s → view s a = None → m_cache s !! a = None → createContract a s = Ok s' → step s s'.
Proof.
  intros Hwf Hv Hc (n&Hn&?)%bind_Ok_inv; simplify_eq/=.
  apply step_create; try done; [|by apply basic_ok].
  unfold view, lookup_account in Hv. rewrite Hc in Hv. by destruct (m_state s !! a).
Qed.

(** ** Rollback *)

Lemma obs_of_setStorage codes k v acc :
  obs_of codes (Account.setStorage k v acc) ≡ undo_obs codes (Change_Storage 0 k v) (obs_of codes acc).
Proof.
  unfold equiv, Obs_equiv. simpl. split_and!; try done.
  intros k'. unfold storage_of. simpl. destruct (Z.eqb_spec k' k) as [->|].
  - by rewrite lookup_insert_eq.
  - by rewrite lookup_insert_ne.
Qed.

(** The write that undoes a change. *)
Definition undo_fun (c : Change) : Account → Account :=
  match c with
  | Change_Storage _ k v => Account.setStorage k v
  | Change_StorageRoot _ r => setStorageRoot r
  | Change_Balance _ v => Account.addBalance (u256 (0 - v))
  | Change_Nonce _ v => Account.setNonce v
  | Change_Code _ old => Account.setCode old
  | Change_Create _ => id
  | Change_Touch _ => untouch
  end.

Lemma undo_fun_obs codes c acc :
  obs_of codes (undo_fun c acc) ≡ undo_obs codes c (obs_of codes acc).
Proof. destruct c as [| | | | |? [|]|]; try done. apply obs_of_setStorage. Qed.

Lemma undo_fun_ok codes c acc :
  obs_ok (obs_of codes acc) → obs_ok (obs_of codes (undo_fun c acc)).
Proof.
  intros Hok. destruct c; try done; [by apply addBalance_ok|by apply setCode_ok].
Qed.

Lemma undo_update_view s c l :
  pinned s (change_address c) → (∀ a, c ≠ Change_Create a) →
  veq (view (with_log l (update (change_address c) (undo_fun c) s)))
      (undo_view (m_codes s) c (view s)).
Proof.
  intros (acc&Hacc&_) Hc a. rewrite (view_update s _ _ acc _ Hacc a). unfold undo_view.
  destruct (decide _) as [->|]; [|done].
  transitivity (undo_obs (m_codes s) c <$> view s (change_address c)).
  - unfold view, lookup_account. rewrite Hacc. constructor. apply undo_fun_obs.
  - destruct c; try done. exfalso. by apply (Hc address).
Qed.

(** Undoing the creation of an account ... *)
Lemma undo_create_spec s a l :
  wf s → Forall (λ c, pinned s (change_address c)) l → m_state s !! a = None →
  Forall (λ c, change_address c ≠ a) l →
  log_ok (m_state s) (m_codes s) (undo_view (m_codes s) (Change_Create a) (view s)) l →
  let s' := with_log l (with_cache (delete a) s) in
  wf s' ∧ veq (view s') (undo_view (m_codes s) (Change_Create a) (view s)).
Proof.
  intros Hwf Hpin Ht Hne Hok s'.
  assert (veq (view s') (undo_view (m_codes s) (Change_Create a) (view s))) as Hview.
  { intros a'. unfold undo_view, view, lookup_account. simpl. destruct (decide (a' = a)) as [->|].
    - by rewrite lookup_delete_eq, Ht.
    - by rewrite lookup_delete_ne. }
  split; [|done]. split; simpl.
  - intros a' acc' [Hne' Ha']%lookup_delete_Some Hd'. rewrite (Hview a'). unfold undo_view. simpl.
    destruct (decide (a' = a)); [done|]. by apply (wf_clean s Hwf a' acc').
  - intros a' [Hc ?]%(wf_absent s Hwf). split; [|done]. apply lookup_delete_None. by right.
  - intros a' o Ho. specialize (Hview a'). rewrite Ho in Hview. unfold undo_view in Hview.
    simpl in Hview. destruct (decide (a' = a)); [inversion Hview|].
    destruct (view s a') eqn:Ho'; inversion Hview; subst.
    eapply obs_ok_proper; [done|]. by apply (wf_obs s Hwf a').
  - rewrite Forall_forall in *. intros c Hc. destruct (Hpin c Hc) as (acc&Hacc&Hd).
    exists acc. simpl. rewrite lookup_delete_ne; [done|]. intros Heq. by apply (Hne c Hc).
  - eapply log_ok_proper; [symmetry; exact Hview|exact Hok].
Qed.

(** ... and its first touch. *)
Lemma undo_touch_spec s a l :
  wf s → Forall (λ c, pinned s (change_address c)) l → pinned s a →
  view s a ≡ trie_view s a → Forall (λ c, change_address c ≠ a) l →
  log_ok (m_state s) (m_codes s) (undo_view (m_codes s) (Change_Touch a) (view s)) l →
  let s' := with_log l (undo (Change_Touch a) s) in
  wf s' ∧ veq (view s') (undo_view (m_codes s) (Change_Touch a) (view s)).
Proof.
  intros Hwf Hpin Hpa Hv Hne Hok s'. pose proof Hpa as (acc&Hacc&_).
  pose proof (undo_update_view s (Change_Touch a) l Hpa ltac:(done)) as Hview.
  change (veq (view s') (undo_view (m_codes s) (Change_Touch a) (view s))) in Hview.
  assert (veq (view s') (view s)) as Hsame.
  { etrans; [done|]. intros a'. unfold undo_view. simpl. destruct (decide _); [|done].
    destruct (view s a') as [[]|]; done. }
  split; [|done]. split; simpl.
  - intros a' acc' Ha' Hd'. rewrite (Hsame a'). destruct (decide (a' = a)) as [->|]; [done|].
    rewrite lookup_insert_ne in Ha' by done. by apply (wf_clean s Hwf a' acc').
  - intros a' [Hc ?]%(wf_absent s Hwf). split; [|done].
    rewrite lookup_insert_ne; [done|]. intros ->. congruence.
  - intros a' o Ho. specialize (Hsame a'). rewrite Ho in Hsame.
    destruct (view s a') eqn:Ho'; inversion Hsame; subst.
    eapply obs_ok_proper; [done|]. by apply (wf_obs s Hwf a').
  - rewrite Forall_forall in *. intros c Hc. destruct (Hpin c Hc) as (acc'&Hacc'&Hd).
    exists acc'. simpl. rewrite lookup_insert_ne; [done|]. intros Heq. by apply (Hne c Hc).
  - eapply log_ok_proper; [symmetry; exact Hview|exact Hok].
Qed.

(** Undoing the latest change. *)
Lemma undo_spec s c l :
  wf s → m_changeLog s = c :: l →
  let s' := with_log l (undo c s) in
  wf s' ∧ veq (view s') (undo_view (m_codes s) c (view s)) ∧
  m_state s' = m_state s ∧ m_codes s' = m_codes s.
Proof.
  intros Hwf Hlog. pose proof (wf_pinned s Hwf) as Hpin. pose proof (wf_log s Hwf) as Hok.
  rewrite Hlog in Hpin, Hok. simpl in Hok. destruct Hok as [Hc Hok].
  apply Forall_cons in Hpin as [Hpc Hpin]. pose proof Hpc as (acc&Hacc&Hd).
  assert (Forall (λ c', change_address c' = change_address c ∨ pinned s (change_address c')) l)
    as Hpin' by (eapply Forall_impl; [exact Hpin|]; auto).
  pose proof (cached_obs_ok s _ acc Hwf Hacc) as Hao.
  pose proof (undo_fun_ok (m_codes s) c acc Hao) as Hfo.
  pose proof (undo_update_view s c l Hpc) as Hview.
  destruct c as [a v|a k v|a r|a n|a|a old|a]; simpl in *;
    try (specialize (Hview ltac:(done)); split_and!; try done;
         eapply write_wf; try done; eapply log_ok_proper; [by symmetry|done]).
  - destruct Hc as [Ht Hne]. pose proof (undo_create_spec s a l Hwf Hpin Ht Hne Hok) as [? ?].
    by split_and!.
  - destruct Hc as [Hv Hne]. pose proof (undo_touch_spec s a l Hwf Hpin Hpc Hv Hne Hok) as [? ?].
    by split_and!.
Qed.

Lemma with_log_twice l l' s : with_log l (with_log l' s) = with_log l s.
Proof. done. Qed.
Lemma undo_with_log c l s : undo c (with_log l s) = with_log l (undo c s).
Proof. by destruct c. Qed.

Lemma rollback_loop_self l s : rollback_loop (length l) l s = Some (with_log l s).
Proof. destruct l; simpl; by rewrite ?Nat.eqb_refl. Qed.

Lemma rollback_loop_spec new old s :
  wf (with_log (new ++ old) s) →
  ∃ s', rollback_loop (length old) (new ++ old) s = Some s' ∧ wf s' ∧ m_changeLog s' = old ∧
    veq (view s') (undo_views (m_codes s) new (view s)) ∧
    m_state s' = m_state s ∧ m_codes s' = m_codes s.
Proof.
  revert s. induction new as [|c new IH]; intros s Hwf.
  { exists (with_log old s). split; [apply rollback_loop_self|by split_and!]. }
  destruct (undo_spec _ c (new ++ old) Hwf eq_refl) as (Hwf'&Hview&Hst&Hco).
  rewrite undo_with_log, with_log_twice in Hwf', Hview.
  destruct (IH (undo c s)) as (s'&Hs'&Hwf''&Hl'&Hv'&Hst'&Hco'); [done|].
  exists s'. simpl. rewrite length_app.
  destruct (Nat.eqb_spec (length old) (S (length new + length old))); [lia|].
  rewrite undo_with_log in Hst, Hco. simpl in Hst, Hco.
  split_and!; try done; [|congruence..].
  etrans; [exact Hv'|]. rewrite Hco. simpl. by apply undo_views_proper.
Qed.

(** ** Programs over the state *)

Inductive op :=
| Op_incNonce (a : Z)
| Op_setNonce (a n : Z)
| Op_addBalance (a v : Z)
| Op_subBalance (a v : Z)
| Op_setBalance (a v : Z)
| Op_createContract (a : Z)
| Op_setStorage (a k v : Z)
| Op_clearStorage (a : Z)
| Op_setCode (a : Z) (c : bytes)
| Op_storage (a k : Z)
| Op_code (a : Z)
| Op_account (a : Z).

Definition exec (o : op) (s : State) : result StateError State :=
  match o with
  | Op_incNonce a => incNonce a s
  | Op_setNonce a n => Ok (setNonce a n s)
  | Op_addBalance a v => addBalance a v s
  | Op_subBalance a v => subBalance a v s
  | Op_setBalance a v => setBalance a v s
  | Op_createContract a => createContract a s
  | Op_setStorage a k v => Ok (setStorage a k v s)
  | Op_clearStorage a => Ok (clearStorage a s)
  | Op_setCode a c => Ok (setCode a c s)
  | Op_storage a k => Ok (storage a k s).1
  | Op_code a => Ok (code a s).1
  | Op_account a => Ok (account a s).1
  end.

(** The conditions under which the change log describes an operation: an
    account is created when it is not in use, storage is written to an
    account that exists, storage is cleared when only values of the trie are
    cached, and code is set on an account that was changed before. *)
Definition op_ok (o : op) (s : State) : Prop :=
  match o with
  | Op_addBalance _ v => in_word 256 v
  | Op_createContract a => view s a = None ∧ m_cache s !! a = None
  | Op_setStorage a _ _ => view s a ≠ None
  | Op_clearStorage a => ∃ acc, m_cache s !! a = Some acc ∧ overlay_clean acc
  | Op_setCode a _ => pinned s a
  | _ => True
  end.

(** Runs of operations with nested frames; a frame that fails is rolled back
    to the savepoint taken at its start. *)
Inductive cmd := Skip | Do (o : op) | Seq (c1 c2 : cmd) | Frame (c : cmd) (failed : bool).

Inductive runs : cmd → State → State → Prop :=
| runs_skip s : runs Skip s s
| runs_do o s s' : op_ok o s → exec o s = Ok s' → runs (Do o) s s'
| runs_seq c1 c2 s1 s2 s3 : runs c1 s1 s2 → runs c2 s2 s3 → runs (Seq c1 c2) s1 s3
| runs_frame_ok c s s' : runs c s s' → runs (Frame c false) s s'
| runs_frame_failed c s s1 s' :
    runs c s s1 → rollback (savepoint s) s1 = Some s' → runs (Frame c true) s s'.

Lemma exec_step o s s' : wf s → op_ok o s → exec o s = Ok s' → step s s'.
Proof.
  intros Hwf Hok Hexec. destruct o; simpl in *; simplify_eq.
  - by eapply step_incNonce.
  - by apply step_setNonce.
  - by eapply step_addBalance.
  - by eapply step_subBalance.
  - by eapply step_setBalance.
  - destruct Hok. by eapply step_createContract.
  - by apply step_setStorage.
  - destruct Hok as (acc&?&?). by eapply step_clearStorage.
  - by apply step_setCode.
  - pose proof (storage_spec a k s Hwf) as Hst. destruct (storage a k s).
    by apply step_refresh, Hst.
  - pose proof (code_spec a s Hwf) as Hst. destruct (code a s).
    by apply step_refresh, Hst.
  - pose proof (account_spec a s Hwf) as Hst. destruct (account a s).
    by apply step_refresh, Hst.
Qed.

(** A rollback takes back the steps since the savepoint. *)
Lemma rollback_step s s1 :
  step s s1 →
  ∃ s', rollback (savepoint s) s1 = Some s' ∧ wf s' ∧ m_changeLog s' = m_changeLog s ∧
    veq (view s') (view s) ∧ m_state s' = m_state s ∧ m_codes s' = m_codes s.
Proof.
  intros [Hwf Hst Hco (new&Hlog&Hview)].
  destruct (rollback_loop_spec new (m_changeLog s) s1) as (s'&Hs'&?&?&Hv&?&?).
  { rewrite <-Hlog. by destruct s1. }
  exists s'. unfold rollback, savepoint. rewrite Hlog. split_and!; try done; [|congruence..].
  etrans; [exact Hv|]. by rewrite Hco.
Qed.

Lemma runs_step c s s' : wf s → runs c s s' → step s s'.
Proof.
  intros Hwf Hrun. revert Hwf.
  induction Hrun as [s|o s s' Hok Hex|c1 c2 s1 s2 s3 _ IH1 _ IH2|c s s' _ IH|c s s1 s' _ IH Hrb];
    intros Hwf.
  - by apply step_refresh, refresh_refl.
  - by eapply exec_step.
  - eapply step_trans; [by apply IH1|]. by apply IH2, IH1.
  - by apply IH.
  - destruct (rollback_step s s1) as (s2&Hs2&?&Hl&?&?&?); [by apply IH|]. simplify_eq.
    split; [done..|]. exists []. by split.
Qed.


(** ** Balances *)

Definition bal (s : State) (a : Z) : Z := from_option o_balance 0 (view s a).

Lemma bal_proper s s' a : view s a ≡ view s' a → bal s a = bal s' a.
Proof. unfold bal. destruct 1 as [? ? Ho|]; [by apply Ho|done]. Qed.

(** [addBalance] changes the view of one account, and fails only when it has
    to create an account without a start nonce. *)
Lemma addBalance_spec a v s :
  wf s → in_word 256 v →
  match addBalance a v s with
  | Ok s' => wf s' ∧ m_accountStartNonce s' = m_accountStartNonce s ∧
             bal s' a = u256 (bal s a + v) ∧ ∀ a', a' ≠ a → view s' a' ≡ view s a'
  | Err e => e = InvalidAccountStartNonceInState ∧ m_accountStartNonce s = Invalid256 ∧
             view s a = None
  end.
Proof.
  intros Hwf Hv. destruct (addBalance a v s) as [s'|e] eqn:Hadd.
  - split; [by eapply st_wf, step_addBalance|]. revert Hadd. unfold addBalance.
    pose proof (account_spec a s Hwf) as Hacc. destruct (account a s) as [s1 [acc|]];
      destruct Hacc as (Hre&Hr&_&Hview); intros (s2&Hs2&Hs')%bind_Ok_inv.
    + simplify_eq/=. set (s2 := if _ && _ then _ else _). assert (m_cache s2 = m_cache s1 ∧
        m_state s2 = m_state s1 ∧ m_codes s2 = m_codes s1 ∧
        m_accountStartNonce s2 = m_accountStartNonce s1) as (E1&E2&E3&E4)
        by (subst s2; by destruct (_ && _)).
      clearbody s2. split; [destruct (negb _); simpl; rewrite E4; apply Hre|]. split.
      * unfold bal. destruct (view s a) as [o|]; inversion Hview as [? ? Ho|]; subst. simpl.
        replace (o_balance o) with (m_balance acc) by (symmetry; apply Ho).
        destruct (negb _); unfold view, lookup_account; simpl; by rewrite E1, lookup_insert_eq, Hr.
      * intros a' Hne. rewrite (re_view _ _ Hre a'). destruct (negb _);
          unfold view, lookup_account; simpl; by rewrite E1, E2, E3, lookup_insert_ne.
    + apply bind_Ok_inv in Hs2 as (n&Hn&?); simplify_eq/=.
      split; [destruct (negb _); apply Hre|]. split.
      * unfold bal. destruct (view s a) as [o|]; inversion Hview. simpl.
        rewrite wrap_small by done.
        destruct (negb _); unfold view, lookup_account; simpl; by rewrite lookup_insert_eq.
      * intros a' Hne. rewrite (re_view _ _ Hre a'). destruct (negb _);
          unfold view, lookup_account; simpl; by rewrite lookup_insert_ne.
  - revert Hadd. unfold addBalance. pose proof (account_spec a s Hwf) as Hacc.
    destruct (account a s) as [s1 [acc|]]; [done|]. destruct Hacc as (Hre&_&_&Hview).
    unfold requireAccountStartNonce. rewrite (re_start _ _ Hre).
    destruct (Z.eqb_spec (m_accountStartNonce s) Invalid256); [|done].
    intros; simplify_eq/=. split_and!; try done. by inversion Hview.
Qed.

Lemma bal_word s a : wf s → in_word 256 (bal s a).
Proof.
  intros Hwf. unfold bal. destruct (view s a) as [o|] eqn:Ho; simpl; [|done].
  by apply (wf_obs s Hwf a).
Qed.

Lemma subBalance_spec a v s :
  wf s → in_word 256 v →
  match subBalance a v s with
  | Ok s' => wf s' ∧ m_accountStartNonce s' = m_accountStartNonce s ∧ v ≤ bal s a ∧
             bal s' a = bal s a - v ∧ ∀ a', a' ≠ a → view s' a' ≡ view s a'
  | Err e => e = NotEnoughCash ∧ bal s a < v
  end.
Proof.
  intros Hwf Hv. pose proof (bal_word s a Hwf) as Hb. unfold subBalance, in_word in *.
  destruct (Z.eqb_spec v 0) as [->|Hv0]; [split_and!; auto with lia|].
  pose proof (account_spec a s Hwf) as Hacc.
  destruct (account a s) as [s1 [acc|]]; destruct Hacc as (Hre&Hr&_&Hview).
  2:{ split; [done|]. unfold bal. destruct (view s a); inversion Hview. simpl. lia. }
  assert (bal s a = m_balance acc) as Hbal.
  { unfold bal. destruct (view s a) as [o|]; inversion Hview as [? ? Ho|]; subst. apply Ho. }
  rewrite <-Hbal. destruct (Z.ltb_spec (bal s a) v); [done|].
  assert (m_cache s1 !! a = Some acc → addBalance a (u256 (0 - v)) s1 ≠ Err InvalidAccountStartNonceInState)
    as Hnoerr.
  { intros Hc. unfold addBalance, account. by rewrite Hc. }
  pose proof (addBalance_spec a (u256 (0 - v)) s1 (refresh_wf _ _ Hwf Hre) (wrap_in_word 256 _ ltac:(done)))
    as Hadd.
  destruct (addBalance a (u256 (0 - v)) s1) as [s'|e].
  - destruct Hadd as (?&Hn&Hba&Hother).
    rewrite <-(bal_proper s s1 a (re_view _ _ Hre a)) in Hba.
    split_and!; [done|by rewrite Hn, (re_start _ _ Hre)|done| |].
    + rewrite Hba. unfold wrap. rewrite Z.add_mod_idemp_r by done.
      replace (bal s a + (0 - v)) with (bal s a - v) by lia. apply Z.mod_small. lia.
    + intros a' Hne. rewrite (Hother a' Hne). symmetry. apply Hre.
  - destruct Hadd as (->&_). by destruct (Hnoerr Hr).
Qed.

(** C20. A transfer either moves exactly the value from one balance to the
    other and touches no other account, or - when the sender has less than the
    value, an absent account having nothing - it fails with [NotEnoughCash];
    as long as the receiver's balance does not overflow, the sum of the two
    balances is the same.  A transfer to oneself changes nothing. *)
Theorem transferBalance_spec from to v s :
  wf s → in_word 256 v → m_accountStartNonce s ≠ Invalid256 →
  match transferBalance from to v s with
  | Ok s' =>
    wf s' ∧ v ≤ bal s from ∧
    (from = to → bal s' from = bal s from) ∧
    (from ≠ to →
      bal s' from = bal s from - v ∧ bal s' to = u256 (bal s to + v) ∧
      (bal s to + v < 2 ^ 256 → bal s' from + bal s' to = bal s from + bal s to)) ∧
    (∀ a, a ≠ from → a ≠ to → view s' a ≡ view s a)
  | Err e => e = NotEnoughCash ∧ bal s from < v
  end.
Proof.
  intros Hwf Hv Hstart. unfold transferBalance. pose proof (subBalance_spec from v s Hwf Hv) as Hsub.
  destruct (subBalance from v s) as [s1|e]; [|done]. simpl.
  destruct Hsub as (Hwf1&Hst&Hle&Hbf&Hother).
  pose proof (addBalance_spec to v s1 Hwf1 Hv) as Hadd. pose proof (bal_word s from Hwf) as Hfb.
  pose proof (bal_word s to Hwf) as Htb. unfold in_word in *.
  destruct (addBalance to v s1) as [s'|e]; [|naive_solver congruence].
  destruct Hadd as (Hwf'&_&Hbt&Hother'). split; [done|]. split; [done|]. split; [|split].
  - intros ->. rewrite Hbt, Hbf. rewrite wrap_small; unfold in_word; lia.
  - intros Hne. rewrite Hbt, (bal_proper s' s1 from (Hother' from Hne)), Hbf.
    rewrite (bal_proper s1 s to) by (by apply Hother). split_and!; [done|done|].
    intros. rewrite wrap_small; unfold in_word; lia.
  - intros a Haf Hat. by rewrite (Hother' a Hat), (Hother a Haf).
Qed.

(** ** Commit *)

(** What the loop of [commit] leaves in the trie and in the set it returns. *)
Definition committed (trie : gmap Z TrieAccount) (m : gmap Z Account)
    (r : gmap Z TrieAccount * gmap Z bytes * gset Z) : Prop :=
  ∀ a,
    r.1.1 !! a =
      match m !! a with
      | Some acc =>
        if isDirty acc then
          if isAlive acc
          then Some (mkTrieAccount (m_nonce acc) (m_balance acc) (commit_root acc) (m_codeHash acc))
          else None
        else trie !! a
      | None => trie !! a
      end ∧
    (a ∈ r.2 ↔ ∃ acc, m !! a = Some acc ∧ isDirty acc = true).

Lemma commit_fold trie codes m :
  committed trie m (map_fold commit_account (trie, codes, ∅) m).
Proof.
  apply (map_fold_weak_ind (λ r m, committed trie m r)).
  { intros a. split; [done|]. set_solver. }
  intros i acc m' [[trie' codes'] ret] Hi IH a. destruct (IH a) as [IH1 IH2].
  unfold commit_account. simpl in *. destruct (decide (a = i)) as [->|Hne].
  - rewrite Hi in IH1, IH2. rewrite !lookup_insert_eq.
    destruct (isDirty acc) eqn:Hd; [destruct (isAlive acc) eqn:Hal|]; simpl.
    + rewrite lookup_insert_eq. split; [done|]. set_solver.
    + rewrite lookup_delete_eq. split; [done|]. set_solver.
    + split; [done|]. rewrite IH2. naive_solver congruence.
  - rewrite !lookup_insert_ne by done.
    destruct (isDirty acc) eqn:Hd; [destruct (isAlive acc) eqn:Hal|]; simpl;
      rewrite ?lookup_insert_ne, ?lookup_delete_ne by done; (split; [done|]); set_solver.
Qed.

Section Commit.
Context `{!StateDBLaws Root}.

(** The root written for an account is one of a trie that holds what the
    account shows. *)
Lemma commit_root_spec acc k : trie_at (commit_root acc) k = storage_of acc k.
Proof.
  unfold commit_root, storage_of. generalize (m_storageRoot acc) as r. intros r.
  revert k. apply (map_fold_weak_ind (λ r' m, ∀ k, trie_at r' k = default (trie_at r k) (m !! k))).
  - done.
  - intros i v m r' Hi IH k. destruct (Z.eqb_spec v 0) as [->|Hv]; simpl;
      rewrite ?trie_at_remove, ?trie_at_insert by done;
      destruct (Z.eqb_spec k i) as [->|]; rewrite ?lookup_insert_eq, ?lookup_insert_ne by done; auto.
Qed.

(** C29. [commit] writes what the state shows: an account that is dirty and
    dead - or, with [RemoveEmptyAccounts], dirty and empty - leaves the trie;
    any other account that exists is in the trie with its nonce, balance, code
    hash and a storage root whose trie holds the value of each of its slots;
    an account that does not exist is not in the trie.  The cache and the
    change log are empty afterwards, and the touched addresses are extended by
    the dirty ones. *)
Theorem commit_spec cb s :
  wf s →
  let s' := commit cb s in
  m_cache s' = ∅ ∧ m_changeLog s' = [] ∧
  (∀ a, a ∈ m_touched s' ↔
     a ∈ m_touched s ∨ ∃ acc, m_cache s !! a = Some acc ∧ isDirty acc = true) ∧
  ∀ a,
    match lookup_account s a with
    | None => m_state s' !! a = None
    | Some acc =>
      if isDirty acc &&
         (negb (isAlive acc) || (match cb with RemoveEmptyAccounts => isEmpty acc | _ => false end))
      then m_state s' !! a = None
      else ∃ t, m_state s' !! a = Some t ∧ t_nonce t = m_nonce acc ∧ t_balance t = m_balance acc ∧
                t_codeHash t = m_codeHash acc ∧
                ∀ k, trie_at (t_root t) k = storage_of acc k
    end.
Proof.
  intros Hwf s'. unfold s', commit.
  set (s1 := match cb with RemoveEmptyAccounts => removeEmptyAccounts s | _ => s end).
  assert (m_state s1 = m_state s ∧ m_touched s1 = m_touched s ∧ ∀ a,
    m_cache s1 !! a = (λ acc, if isDirty acc && (match cb with RemoveEmptyAccounts => isEmpty acc
      | _ => false end) then Account.kill acc else acc) <$> m_cache s !! a) as (E1&E2&E3).
  { subst s1. destruct cb; simpl; split_and!; try done; intros a.
    - destruct (m_cache s !! a); simpl; [by rewrite andb_false_r|done].
    - by rewrite lookup_fmap. }
  clearbody s1. pose proof (commit_fold (m_state s1) (m_codes s1) (m_cache s1)) as Hfold.
  destruct (map_fold _ _ _) as [[trie codes] ret]. simpl.
  split_and!; [done|done| |]; intros a; destruct (Hfold a) as [H1 H2]; simpl in H1, H2;
    rewrite E3 in H1, H2.
  - rewrite E2, elem_of_union, H2. apply or_iff_compat_l.
    destruct (m_cache s !! a) as [acc|]; simpl; [|naive_solver].
    destruct (isDirty acc) eqn:Hd; [|naive_solver congruence].
    split; intros _; [by exists acc|]. eexists. split; [done|]. by destruct (_ && _).
  - rewrite E1 in H1. unfold lookup_account. destruct (m_cache s !! a) as [acc|] eqn:Hacc; simpl in H1.
    2:{ destruct (m_state s !! a) as [t|]; [|done]. simpl. exists t. by split_and!. }
    destruct (isDirty acc) eqn:Hd; simpl in *.
    + destruct (match cb with RemoveEmptyAccounts => isEmpty acc | _ => false end); simpl in *.
      { by rewrite orb_true_r. }
      rewrite orb_false_r, Hd in *. destruct (isAlive acc); [|done].
      eexists. split_and!; [done..|]. apply commit_root_spec.
    + rewrite Hd in H1. pose proof (wf_clean s Hwf a acc Hacc Hd) as Hv.
      unfold view, trie_view, lookup_account in Hv. rewrite Hacc in Hv.
      destruct (m_state s !! a) as [t|]; inversion Hv as [? ? (?&?&?&?&?&?&Hs)|]; subst.
      exists t. split_and!; [done..|]. intros k. symmetry. exact (Hs k).
Qed.
End Commit.

(** ** Where the change log and the dirty flag do not describe an operation *)

(** [clearStorage] and the values that are not yet committed: on an
    account whose storage root is the empty trie it does nothing, so that all
    slots written since the last commit keep their values; on any other account
    it empties the storage, but taking it back restores the committed values
    only - a slot written before the savepoint reads its old, committed value
    after the rollback. *)
Theorem clearStorage_overlay s a acc :
  m_cache s !! a = Some acc →
  (m_storageRoot acc = EmptyTrie → clearStorage a s = s) ∧
  (m_storageRoot acc ≠ EmptyTrie →
    (∀ k, option_map (λ o, o_storage o k) (view (clearStorage a s) a) = Some (trie_at EmptyTrie k)) ∧
    ∃ s', rollback (savepoint s) (clearStorage a s) = Some s' ∧
      ∀ k, option_map (λ o, o_storage o k) (view s' a) = Some (trie_at (m_storageRoot acc) k)).
Proof.
  intros Hacc. unfold clearStorage. rewrite (update_id s a acc) by done.
  assert (entry s a = acc) as -> by (unfold entry; by rewrite Hacc).
  split; intros Hr; destruct (decide _); try done. split.
  - intros k. unfold view, lookup_account. simpl. by rewrite lookup_insert_eq.
  - unfold rollback, savepoint. simpl.
    destruct (Nat.eqb_spec (length (m_changeLog s)) (S (length (m_changeLog s)))); [lia|].
    eexists. split; [apply rollback_loop_self|].
    intros k. unfold view, lookup_account. simpl. by rewrite lookup_insert_eq.
Qed.

(** Setting the code does not mark the account as changed: when the
    account was only read since the last commit, [commit] leaves its node in
    the trie as it is and the new code is lost. *)
Theorem setCode_clean_lost s a acc c cb :
  m_cache s !! a = Some acc → isDirty acc = false →
  m_state (commit cb (setCode a c s)) !! a = m_state s !! a.
Proof.
  intros Hacc Hd. unfold setCode.
  assert (∃ acc', (code a s).1 = update a (λ _, acc') s ∧ isDirty acc' = false) as (acc'&Hc&Hd').
  { unfold code, account. rewrite Hacc.
    assert (update a (λ _, acc) s = s) as Hid.
    { unfold update, with_cache. destruct s. simpl in *. f_equal.
      by apply insert_id. }
    destruct (_ =? _); [by exists acc|]. destruct (m_codeCache acc); [|by exists acc].
    eexists. split; [unfold update, with_cache; simpl; by rewrite Hacc|done]. }
  destruct (code a s) as [s1 old]. simpl in Hc. subst s1. unfold commit.
  set (s2 := update a _ (log _ _)).
  assert (m_cache s2 !! a = Some (Account.setCode c acc') ∧ m_state s2 = m_state s) as [H1 H2].
  { subst s2. simpl. by rewrite !lookup_insert_eq. }
  clearbody s2.
  set (s3 := match cb with RemoveEmptyAccounts => removeEmptyAccounts s2 | _ => s2 end).
  assert (m_cache s3 !! a = Some (Account.setCode c acc') ∧ m_state s3 = m_state s) as [H3 H4].
  { subst s3. destruct cb; [done|]. simpl. rewrite lookup_fmap, H1. simpl.
    unfold isDirty in *. simpl in *. by rewrite Hd'. }
  clearbody s3. pose proof (commit_fold (m_state s3) (m_codes s3) (m_cache s3) a) as [Hf _].
  destruct (map_fold _ _ _) as [[trie codes] ret]. simpl in *. rewrite Hf, H3, H4.
  unfold isDirty in *. simpl in *. by rewrite Hd'.
Qed.

(** The state after [setRoot] or the constructor. *)
Lemma wf_committed trie codes start draws :
  (∀ a t, trie !! a = Some t → obs_ok (obs_of codes (load t))) →
  wf (mkState trie codes ∅ [] ∅ ∅ start [] draws).
Proof.
  intros Hok. split; simpl; try done.
  - intros a o. unfold view, lookup_account. simpl. rewrite lookup_empty.
    destruct (trie !! a) as [t|] eqn:Ht; [|done].
    simpl. intros ?; simplify_eq. by eapply Hok.
Qed.

End State.

(** ** A reference implementation of the interface *)

#[export] Instance map_db : StateDB (gmap Z Z) := {
  sha3 bs := be_val (1 :: bs);
  EmptyTrie := ∅;
  trie_at r k := default 0 (r !! k);
  trie_insert r k v := <[k := v]> r;
  trie_remove r k := delete k r;
}.
#[export] Instance map_db_laws : StateDBLaws (gmap Z Z).
Proof.
  split; simpl.
  - intros k. by rewrite lookup_empty.
  - intros r k v k' _. destruct (Z.eqb_spec k' k) as [->|].
    + by rewrite lookup_insert_eq.
    + by rewrite lookup_insert_ne.
  - intros r k k'. destruct (Z.eqb_spec k' k) as [->|].
    + by rewrite lookup_delete_eq.
    + by rewrite lookup_delete_ne.
Qed.

Definition no_pick : nat → nat → nat := λ _ _, O.

(** An account with balance 100 and the value 7 in slot 5. *)
Definition example : State (Root := gmap Z Z) :=
  mkState {[1 := mkTrieAccount 3 100 {[5 := 7]} EmptySHA3]} ∅ ∅ [] ∅ ∅ 0 [] 0.
Lemma example_wf : wf example.
Proof. apply wf_committed. intros a t [<- <-]%lookup_singleton_Some. by split; vm_compute. Qed.

(** The states of a run: slot 5 is written, then a frame changes two balances
    and fails. *)
Definition get (r : result StateError (State (Root := gmap Z Z))) : State :=
  match r with Ok s => s | Err _ => example end.
Lemma get_ok r : is_ok r = true → r = Ok (get r).
Proof. by destruct r. Qed.

Definition example1 : State := get (exec no_pick (Op_setStorage 1 5 8) example).
Definition example2 : State := get (exec no_pick (Op_addBalance 1 11) example1).
Definition example3 : State := get (exec no_pick (Op_addBalance 2 6) example2).
Definition example4 : State := default example (rollback (savepoint example1) example3).
Definition example_cmd : cmd :=
  Seq (Do (Op_setStorage 1 5 8))
      (Frame (Seq (Do (Op_addBalance 1 11)) (Do (Op_addBalance 2 6))) true).

Lemma example_runs : runs no_pick example_cmd example example4.
Proof.
  apply (runs_seq _ _ _ _ example1).
  { apply runs_do; [by vm_compute|]. apply get_ok. by vm_compute. }
  apply (runs_frame_failed _ _ _ example3).
  - apply (runs_seq _ _ _ _ example2); (apply runs_do; [by vm_compute|]; apply get_ok; by vm_compute).
  - unfold example4. destruct (rollback _ _) eqn:Hr; [done|].
    assert (match rollback (savepoint example1) example3 with Some _ => true | None => false end = true)
      as Hs by by vm_compute. by rewrite Hr in Hs.
Qed.


Lemma transferBalance_spec_witness :
  let s' := get (transferBalance no_pick 1 2 30 example) in bal s' 1 = 70 ∧ bal s' 2 = 30.
Proof.
  pose proof (transferBalance_spec no_pick 1 2 30 example example_wf
    ltac:(split; [discriminate|reflexivity]) ltac:(discriminate)) as H.
  rewrite (get_ok (transferBalance no_pick 1 2 30 example)) in H by (vm_compute; reflexivity).
  destruct H as (_&_&_&H&_). destruct (H ltac:(discriminate)) as (H1&H2&_).
  split; [rewrite H1|rewrite H2]; vm_compute; reflexivity.
Defined.

Lemma commit_spec_witness :
  m_changeLog (commit RemoveEmptyAccounts example) = [] ∧
  ∃ t, m_state (commit RemoveEmptyAccounts example) !! 1 = Some t ∧ t_balance t = 100.
Proof.
  destruct (commit_spec RemoveEmptyAccounts example example_wf) as (_&Hl&_&Ha).
  split; [exact Hl|]. specialize (Ha 1). destruct Ha as (t&Ht&_&Hb&_). by exists t.
Defined.

(** The account is read, slot 5 is written and then the storage is cleared. *)
Lemma clearStorage_overlay_witness :
  let s := setStorage no_pick 1 5 8 example in
  option_map (λ o, o_storage o 5) (view s 1) = Some 8 ∧
  ∃ s', rollback (savepoint s) (clearStorage 1 s) = Some s' ∧
    option_map (λ o, o_storage o 5) (view s' 1) = Some 7.
Proof.
  intros s. split; [vm_compute; reflexivity|].
  assert (∃ acc, m_cache s !! 1 = Some acc ∧ m_storageRoot acc = {[5 := 7]}) as (acc&Hacc&Hr)
    by (eexists; split; vm_compute; reflexivity).
  destruct (clearStorage_overlay s 1 acc Hacc) as [_ H]. destruct H as [_ (s'&Hs'&Hk)].
  { rewrite Hr. discriminate. }
  exists s'. split; [exact Hs'|]. rewrite (Hk 5), Hr. reflexivity.
Defined.

Lemma setCode_clean_lost_witness :
  let s := (account no_pick 1 example).1 in
  m_state (commit KeepEmptyAccounts (setCode no_pick 1 [96; 0] s)) !! 1 =
  Some (mkTrieAccount 3 100 {[5 := 7]} EmptySHA3).
Proof.
  intros s. assert (∃ acc, m_cache s !! 1 = Some acc ∧ isDirty acc = false) as (acc&Hacc&Hd)
    by (eexists; split; vm_compute; reflexivity).
  rewrite (setCode_clean_lost no_pick s 1 acc [96; 0] KeepEmptyAccounts Hacc Hd). reflexivity.
Defined.

End State.
