(* ===== verification/StateSteps.v ===== *)
(** * What operations do to the state, seen from its callers

    The operations of State.v that the execution of transactions uses, as
    changes of the view of one account ([writes]); the sum of all balances
    ([total]); the invariant of the state that the virtual machine relies on
    ([fine]) and the relation between the states before and after operations
    ([moves]). *)
From S2P Require Import Prelude State.

Module StateSteps.
Import Account State.

(** ** Sums over finite sets of addresses *)

Definition sum_over (X : gset Z) (f : Z → Z) : Z := foldr (λ a r, f a + r) 0 (elements X).

Lemma sum_over_empty f : sum_over ∅ f = 0.
Proof. done. Qed.
Lemma sum_over_insert a X f : a ∉ X → sum_over ({[a]} ∪ X) f = f a + sum_over X f.
Proof.
  intros Ha. unfold sum_over.
  assert (∀ l l', l ≡ₚ l' → foldr (λ a r, f a + r) 0 l = foldr (λ a r, f a + r) 0 l') as Hperm.
  { induction 1; simpl in *; lia. }
  by rewrite (Hperm _ _ (elements_union_singleton X a Ha)).
Qed.

Lemma sum_over_ext X f g : (∀ a, a ∈ X → f a = g a) → sum_over X f = sum_over X g.
Proof.
  induction X as [|a X Ha IH] using set_ind_L; intros Hfg; [by rewrite !sum_over_empty|].
  rewrite !sum_over_insert by done. rewrite IH, (Hfg a); set_solver.
Qed.
Lemma sum_over_nonneg X f : (∀ a, a ∈ X → 0 ≤ f a) → 0 ≤ sum_over X f.
Proof.
  induction X as [|a X Ha IH] using set_ind_L; intros Hf; [by rewrite sum_over_empty|].
  rewrite sum_over_insert by done. specialize (IH ltac:(set_solver)).
  specialize (Hf a ltac:(set_solver)). lia.
Qed.
Lemma sum_over_zero X f : (∀ a, a ∈ X → f a = 0) → sum_over X f = 0.
Proof.
  induction X as [|a X Ha IH] using set_ind_L; intros Hf; [by rewrite sum_over_empty|].
  rewrite sum_over_insert by done. rewrite IH, (Hf a); set_solver.
Qed.
Lemma sum_over_union X Y f : X ## Y → sum_over (X ∪ Y) f = sum_over X f + sum_over Y f.
Proof.
  induction X as [|a X Ha IH] using set_ind_L; intros HXY.
  - by rewrite union_empty_l_L, sum_over_empty.
  - rewrite <-union_assoc_L, !sum_over_insert, IH by set_solver. lia.
Qed.
Lemma sum_over_subset X Y f :
  X ⊆ Y → (∀ a, a ∈ Y → a ∉ X → f a = 0) → sum_over Y f = sum_over X f.
Proof.
  intros HXY Hf. rewrite (union_difference_L X Y HXY), sum_over_union by set_solver.
  rewrite (sum_over_zero (Y ∖ X)) by set_solver. lia.
Qed.
(** Two functions that differ at one address *)
Lemma sum_over_update X a f g :
  a ∈ X → (∀ a', a' ≠ a → g a' = f a') → sum_over X g = sum_over X f - f a + g a.
Proof.
  intros Ha Hfg. rewrite (union_difference_L {[a]} X), !sum_over_insert by set_solver.
  rewrite (sum_over_ext _ g f); [lia|]. intros a' Ha'. apply Hfg. set_solver.
Qed.
Lemma sum_over_elem X a f : a ∈ X → (∀ a, a ∈ X → 0 ≤ f a) → f a ≤ sum_over X f.
Proof.
  intros Ha Hf. rewrite (union_difference_L {[a]} X), sum_over_insert by set_solver.
  pose proof (sum_over_nonneg (X ∖ {[a]}) f ltac:(set_solver)). lia.
Qed.
Lemma sum_over_elem2 X a b f :
  a ∈ X → b ∈ X → a ≠ b → (∀ a, a ∈ X → 0 ≤ f a) → f a + f b ≤ sum_over X f.
Proof.
  intros Ha Hb Hne Hf. rewrite (union_difference_L {[a]} X), sum_over_insert by set_solver.
  pose proof (sum_over_elem (X ∖ {[a]}) b f ltac:(set_solver) ltac:(set_solver)). lia.
Qed.

Section StateSteps.
Context `{StateDB Root} (pick : nat → nat → nat).
Notation State := (State (Root:=Root)).
Notation Obs := (Obs (Root:=Root)).

(** ** Changes of what is observed *)

Definition with_nonce (n : Z) (o : Obs) : Obs :=
  mkObs (o_alive o) n (o_balance o) (o_root o) (o_codeHash o) (o_code o) (o_storage o).
Definition with_balance (b : Z) (o : Obs) : Obs :=
  mkObs (o_alive o) (o_nonce o) b (o_root o) (o_codeHash o) (o_code o) (o_storage o).
Definition with_slot (k v : Z) (o : Obs) : Obs :=
  mkObs (o_alive o) (o_nonce o) (o_balance o) (o_root o) (o_codeHash o) (o_code o)
    (λ k', if k' =? k then v else o_storage o k').
Definition with_code (c : bytes) (o : Obs) : Obs :=
  mkObs (o_alive o) (o_nonce o) (o_balance o) (o_root o) (sha3 c)
    (if sha3 c =? EmptySHA3 then [] else c) (o_storage o).
(** A new account *)
Definition new_obs (n b : Z) : Obs := mkObs true n b EmptyTrie EmptySHA3 [] (trie_at EmptyTrie).

#[export] Instance with_nonce_proper n : Proper ((≡) ==> (≡)) (with_nonce n).
Proof. intros o o' (?&?&?&?&?&?&?). by split_and!. Qed.
#[export] Instance with_balance_proper b : Proper ((≡) ==> (≡)) (with_balance b).
Proof. intros o o' (?&?&?&?&?&?&?). by split_and!. Qed.
#[export] Instance with_slot_proper k v : Proper ((≡) ==> (≡)) (with_slot k v).
Proof.
  intros o o' (?&?&?&?&?&?&Hs). split_and!; try done. intros k'. simpl. by rewrite Hs.
Qed.
#[export] Instance with_code_proper c : Proper ((≡) ==> (≡)) (with_code c).
Proof. intros o o' (?&?&?&?&?&?&?). by split_and!. Qed.

Lemma obs_basic codes n b : obs_of codes (basic n b) ≡ new_obs n b.
Proof.
  unfold equiv, Obs_equiv. simpl. split_and!; try done. unfold code_of. simpl. by rewrite Z.eqb_refl.
Qed.
Lemma obs_setNonce codes n acc : obs_of codes (Account.setNonce n acc) ≡ with_nonce n (obs_of codes acc).
Proof. by split_and!. Qed.
Lemma obs_addBalance codes v acc :
  obs_of codes (Account.addBalance v acc) ≡ with_balance (u256 (m_balance acc + v)) (obs_of codes acc).
Proof. by split_and!. Qed.
Lemma obs_setStorage codes k v acc :
  obs_of codes (Account.setStorage k v acc) ≡ with_slot k v (obs_of codes acc).
Proof. apply (obs_of_setStorage codes k v acc). Qed.
Lemma obs_setCode codes c acc : obs_of codes (Account.setCode c acc) ≡ with_code c (obs_of codes acc).
Proof.
  unfold equiv, Obs_equiv. simpl. split_and!; try done. unfold code_of. simpl.
  destruct (Z.eqb_spec (sha3 c) EmptySHA3) as [|Hne]; [done|]. by destruct c.
Qed.

(** [s'] differs from [s] in the view of [a], which is [f] of what it was. *)
Record writes (a : Z) (f : option Obs → Obs) (s s' : State) : Prop := {
  wr_step : step s s';
  wr_start : m_accountStartNonce s' = m_accountStartNonce s;
  wr_at : view s' a ≡ Some (f (view s a));
  wr_other a' : a' ≠ a → view s' a' ≡ view s a';
}.

(** Loading an account before a write *)
Lemma writes_refresh a f s s1 s' :
  Proper ((≡) ==> (≡)) f → refresh s s1 → wf s → writes a f s1 s' → writes a f s s'.
Proof.
  intros Hf Hre Hwf [Hs Hn Ha Ho]. split.
  - eapply step_trans; [by apply step_refresh|done].
  - by rewrite Hn, (re_start _ _ Hre).
  - rewrite Ha. constructor. apply Hf. symmetry. apply Hre.
  - intros a' Hne. rewrite (Ho a' Hne). symmetry. apply Hre.
Qed.
(** A logged write of a cached account *)
Lemma writes_update a f s acc g c :
  m_cache s !! a = Some acc → step s (log c (update a g s)) →
  obs_of (m_codes s) (g acc) ≡ f (Some (obs_of (m_codes s) acc)) →
  writes a f s (log c (update a g s)).
Proof.
  intros Hacc Hstep Hg. pose proof (view_update s a g acc (c :: m_changeLog s) Hacc) as Hv.
  split; [done|done| |].
  - etrans; [apply (Hv a)|]. rewrite decide_True by done. unfold view, lookup_account. rewrite Hacc.
    by constructor.
  - intros a' Hne. etrans; [apply (Hv a')|]. by rewrite decide_False.
Qed.
(** The creation of an account *)
Lemma writes_create a f s acc :
  wf s → m_cache s !! a = None → m_state s !! a = None → step s (createAccount a acc s) →
  obs_of (m_codes s) acc ≡ f None → writes a f s (createAccount a acc s).
Proof.
  intros Hwf Hc Ht Hstep Hg. split; [done|done| |].
  - unfold view, lookup_account. simpl. rewrite lookup_insert_eq, Hc, Ht. by constructor.
  - intros a' Hne. unfold view, lookup_account. simpl. by rewrite lookup_insert_ne.
Qed.
(** Two writes of the same account *)
Lemma writes_trans a f g s s1 s' :
  Proper ((≡) ==> (≡)) g → writes a f s s1 → writes a g s1 s' →
  writes a (λ o, g (Some (f o))) s s'.
Proof.
  intros Hg [Hs1 Hn1 Ha1 Ho1] [Hs2 Hn2 Ha2 Ho2]. split.
  - by eapply step_trans.
  - congruence.
  - rewrite Ha2. constructor. by apply Hg.
  - intros a' Hne. rewrite (Ho2 a' Hne). by apply Ho1.
Qed.

(** ** The operations as writes *)

Definition wr_nonce (n : Z) (o : option Obs) : Obs :=
  match o with Some o => with_nonce n o | None => new_obs n 0 end.
Definition wr_incNonce (start : Z) (o : option Obs) : Obs :=
  match o with
  | Some o => with_nonce (u256 (o_nonce o + 1)) o
  | None => new_obs (u256 (start + 1)) 0
  end.
Definition wr_balance (start v : Z) (o : option Obs) : Obs :=
  match o with
  | Some o => with_balance (u256 (o_balance o + v)) o
  | None => new_obs start v
  end.
Definition wr_slot (k v : Z) (o : option Obs) : Obs :=
  match o with Some o => with_slot k v o | None => new_obs 0 0 end.
Definition wr_code (c : bytes) (o : option Obs) : Obs :=
  match o with Some o => with_code c o | None => new_obs 0 0 end.

#[export] Instance wr_nonce_proper n : Proper ((≡) ==> (≡)) (wr_nonce n).
Proof. intros [o|] [o'|] Ho; inversion Ho; subst; simpl; [by f_equiv|done]. Qed.
#[export] Instance wr_incNonce_proper n : Proper ((≡) ==> (≡)) (wr_incNonce n).
Proof.
  intros [o|] [o'|] Ho; inversion Ho as [? ? Heq|]; subst; simpl; [|done].
  replace (o_nonce o') with (o_nonce o) by apply Heq. by f_equiv.
Qed.
#[export] Instance wr_balance_proper n v : Proper ((≡) ==> (≡)) (wr_balance n v).
Proof.
  intros [o|] [o'|] Ho; inversion Ho as [? ? Heq|]; subst; simpl; [|done].
  replace (o_balance o') with (o_balance o) by apply Heq. by f_equiv.
Qed.
#[export] Instance wr_slot_proper k v : Proper ((≡) ==> (≡)) (wr_slot k v).
Proof. intros [o|] [o'|] Ho; inversion Ho; subst; simpl; [by f_equiv|done]. Qed.
#[export] Instance wr_code_proper c : Proper ((≡) ==> (≡)) (wr_code c).
Proof. intros [o|] [o'|] Ho; inversion Ho; subst; simpl; [by f_equiv|done]. Qed.

Lemma setNonce_writes s a n : wf s → writes a (wr_nonce n) s (setNonce pick a n s).
Proof.
  intros Hwf. pose proof (step_setNonce pick s a n Hwf) as Hstep. revert Hstep. unfold setNonce.
  pose proof (account_spec pick a s Hwf) as Hacc.
  destruct (account pick a s) as [s1 [acc|]] eqn:Hac; destruct Hacc as (Hre&Hr&Ht&_); intros _;
    pose proof (refresh_wf _ _ Hwf Hre) as Hwf1; (eapply writes_refresh; [apply _|done|done|]).
  - eapply writes_update; [done| |by apply obs_setNonce].
    apply (step_write s1 a acc); try done; by apply (cached_obs_ok s1 a acc).
  - eapply writes_create; [done|done|by apply Ht| |by apply obs_basic].
    apply step_create; [done|done|by apply Ht|done|by apply basic_ok].
Qed.

Lemma start_ok (s : State) :
  m_accountStartNonce s ≠ Invalid256 → requireAccountStartNonce s = Ok (m_accountStartNonce s).
Proof. intros Hne. unfold requireAccountStartNonce. by destruct (Z.eqb_spec (m_accountStartNonce s) Invalid256). Qed.

Lemma incNonce_writes s a :
  wf s → m_accountStartNonce s ≠ Invalid256 →
  ∃ s', incNonce pick a s = Ok s' ∧ writes a (wr_incNonce (m_accountStartNonce s)) s s'.
Proof.
  intros Hwf Hn. unfold incNonce. pose proof (account_spec pick a s Hwf) as Hacc.
  destruct (account pick a s) as [s1 [acc|]]; destruct Hacc as (Hre&Hr&Ht&_);
    pose proof (refresh_wf _ _ Hwf Hre) as Hwf1.
  - eexists. split; [done|]. eapply writes_refresh; [apply _|done|done|].
    eapply writes_update; [done| |by apply obs_setNonce].
    apply (step_write s1 a acc); try done; by apply (cached_obs_ok s1 a acc).
  - rewrite <-(re_start _ _ Hre) in Hn |- *. rewrite start_ok by done. eexists. split; [done|].
    eapply writes_refresh; [apply _|done|done|].
    eapply writes_create; [done|done|by apply Ht| |by apply obs_basic].
    apply step_create; [done|done|by apply Ht|done|by apply basic_ok].
Qed.

Lemma addBalance_writes s a v :
  wf s → in_word 256 v → m_accountStartNonce s ≠ Invalid256 →
  ∃ s', addBalance pick a v s = Ok s' ∧ writes a (wr_balance (m_accountStartNonce s) v) s s'.
Proof.
  intros Hwf Hv Hn. pose proof (addBalance_spec pick a v s Hwf Hv) as Hspec.
  destruct (addBalance pick a v s) as [s'|e] eqn:Hadd; [|by destruct Hspec as (_&?&_)].
  exists s'. split; [done|]. destruct Hspec as (_&Hst&_&Hother).
  split; [by eapply step_addBalance|done| |done]. clear Hother Hst. revert Hadd. unfold addBalance.
  pose proof (account_spec pick a s Hwf) as Hacc.
  destruct (account pick a s) as [s1 [acc|]]; destruct Hacc as (Hre&Hr&_&Hview).
  - intros (s2&Hs2&Hs')%bind_Ok_inv. simplify_eq/=. set (s2 := if _ && _ then _ else _).
    assert (m_cache s2 = m_cache s1 ∧ m_codes s2 = m_codes s1) as [E1 E2]
      by (subst s2; by destruct (_ && _)).
    clearbody s2. rewrite Hview. simpl. rewrite <-(re_codes _ _ Hre), <-obs_addBalance.
    destruct (negb _); unfold view, lookup_account; simpl; by rewrite E1, E2, lookup_insert_eq, Hr.
  - rewrite start_ok by by rewrite (re_start _ _ Hre). rewrite (re_start _ _ Hre).
    intros ?; simplify_eq/=. rewrite Hview. simpl.
    destruct (negb _); unfold view, lookup_account; simpl; rewrite lookup_insert_eq; simpl;
      by rewrite obs_basic.
Qed.

Lemma subBalance_writes s a v :
  wf s → in_word 256 v → v ≤ bal s a →
  ∃ s', subBalance pick a v s = Ok s' ∧
    (v = 0 ∧ s' = s ∨
     view s a ≠ None ∧ writes a (wr_balance (m_accountStartNonce s) (u256 (0 - v))) s s').
Proof.
  intros Hwf Hv Hle. unfold subBalance. destruct (Z.eqb_spec v 0) as [->|Hne]; [eauto|].
  pose proof (account_spec pick a s Hwf) as Hacc.
  destruct (account pick a s) as [s1 [acc|]] eqn:Hac; destruct Hacc as (Hre&Hr&_&Hview).
  2:{ unfold bal in Hle. destruct (view s a); inversion Hview. destruct Hv. simpl in Hle. lia. }
  pose proof (refresh_wf _ _ Hwf Hre) as Hwf1.
  assert (bal s a = m_balance acc) as Hbal.
  { unfold bal. destruct (view s a) as [o|]; inversion Hview as [? ? Ho|]; subst. apply Ho. }
  rewrite (proj2 (Z.ltb_ge _ _)) by lia.
  assert (∃ s', addBalance pick a (u256 (0 - v)) s1 = Ok s') as [s' Hs'].
  { unfold addBalance, account. rewrite Hr. by eexists. }
  exists s'. split; [done|]. right. split.
  { intros Hnone. rewrite Hnone in Hview. inversion Hview. }
  assert (in_word 256 (u256 (0 - v))) as Hw by by apply wrap_in_word.
  pose proof (addBalance_spec pick a _ s1 Hwf1 Hw) as Hspec. rewrite Hs' in Hspec.
  destruct Hspec as (_&Hst&_&Hother).
  eapply writes_refresh; [apply _|done|done|].
  split; [by eapply step_addBalance|done| |done]. revert Hs'. unfold addBalance, account. rewrite Hr.
  intros (s2&Hs2&?)%bind_Ok_inv. simplify_eq/=. set (s2 := if _ && _ then _ else _).
  assert (m_cache s2 = m_cache s1 ∧ m_codes s2 = m_codes s1) as [E1 E2]
    by (subst s2; by destruct (_ && _)).
  clearbody s2. unfold view at 2, lookup_account. rewrite Hr. simpl. rewrite <-obs_addBalance.
  destruct (negb _); unfold view, lookup_account; simpl; by rewrite E1, E2, lookup_insert_eq, Hr.
Qed.

Lemma setBalance_writes s a v :
  wf s → in_word 256 v → view s a ≠ None → m_accountStartNonce s ≠ Invalid256 →
  ∃ s', setBalance pick a v s = Ok s' ∧
    writes a (wr_balance (m_accountStartNonce s) (u256 (v - bal s a))) s s'.
Proof.
  intros Hwf Hv Hex Hn. unfold setBalance. pose proof (account_spec pick a s Hwf) as Hacc.
  destruct (account pick a s) as [s1 r] eqn:Hac. destruct Hacc as (Hre&_&_&Hview).
  assert (match r with Some a => m_balance a | None => 0 end = bal s a) as ->.
  { unfold bal. destruct (view s a) as [o|], r; inversion Hview as [? ? Ho|]; subst; [|done].
    simpl. symmetry. apply Ho. }
  assert (in_word 256 (u256 (v - bal s a))) as Hw by by apply wrap_in_word.
  rewrite <-(re_start _ _ Hre) in *.
  destruct (addBalance_writes s1 a _ (refresh_wf _ _ Hwf Hre) Hw Hn) as (s'&Hs'&Hwr).
  exists s'. split; [done|]. by eapply writes_refresh; [apply _|..].
Qed.

Lemma setStorage_writes s a k v :
  wf s → view s a ≠ None → writes a (wr_slot k v) s (setStorage pick a k v s).
Proof.
  intros Hwf Hex. pose proof (step_setStorage pick s a k v Hwf Hex) as Hstep. revert Hstep.
  unfold setStorage. pose proof (storage_spec pick a k s Hwf) as Hst.
  destruct (storage pick a k s) as [s1 old] eqn:Hs. destruct Hst as (Hre&_&Hacc).
  destruct (Hacc Hex) as (acc&Hc&Hold). intros _.
  pose proof (refresh_wf _ _ Hwf Hre) as Hwf1.
  eapply writes_refresh; [apply _|done|done|].
  change (writes a (wr_slot k v) s1 (log (Change_Storage a k old) (update a (Account.setStorage k v) s1))).
  eapply writes_update; [done| |by apply obs_setStorage].
  pose proof (cached_obs_ok s1 a acc Hwf1 Hc) as Hok.
  apply (step_write s1 a acc); try done. unfold equiv, Obs_equiv. simpl. split_and!; try done.
  intros k'. unfold storage_of in *. simpl. destruct (Z.eqb_spec k' k) as [->|]; [done|].
  by rewrite lookup_insert_ne.
Qed.

Lemma setCode_writes s a c : wf s → pinned s a → writes a (wr_code c) s (setCode pick a c s).
Proof.
  intros Hwf Hpin. pose proof (step_setCode pick s a c Hwf Hpin) as Hstep. revert Hstep.
  unfold setCode. pose proof (code_spec pick a s Hwf) as Hcode.
  destruct (code pick a s) as [s1 old]. destruct Hcode as (Hre&_). intros Hstep.
  destruct (re_pinned _ _ Hre a Hpin) as (acc&Hacc&_).
  pose proof (view_update s1 a (Account.setCode c) acc (Change_Code a old :: m_changeLog s1) Hacc) as Hv.
  split; [done| | |].
  - simpl. apply Hre.
  - etrans; [apply (Hv a)|]. rewrite decide_True by done. rewrite obs_setCode.
    pose proof (re_view _ _ Hre a) as Hva. rewrite Hva. unfold view, lookup_account. by rewrite Hacc.
  - intros a' Hne. etrans; [apply (Hv a')|]. rewrite decide_False by done. symmetry. apply Hre.
Qed.

(** ** The sum of all balances *)

Definition support (s : State) : gset Z := dom (m_cache s) ∪ dom (m_state s).
Definition total (s : State) : Z := sum_over (support s) (bal s).

Lemma bal_outside (s : State) a : a ∉ support s → bal s a = 0.
Proof.
  unfold support. rewrite not_elem_of_union, !not_elem_of_dom. intros [Hc Hs].
  unfold bal, view, lookup_account. by rewrite Hc, Hs.
Qed.
Lemma bal_nonneg (s : State) a : wf s → 0 ≤ bal s a.
Proof. intros Hwf. by apply (bal_word s a). Qed.
Lemma total_support (s : State) X : support s ⊆ X → total s = sum_over X (bal s).
Proof. intros HX. symmetry. apply sum_over_subset; [done|]. intros. by apply bal_outside. Qed.

(** The view determines the sum. *)
Lemma total_view (s s' : State) : veq (view s) (view s') → total s = total s'.
Proof.
  intros Hv. rewrite (total_support s (support s ∪ support s')) by set_solver.
  rewrite (total_support s' (support s ∪ support s')) by set_solver.
  apply sum_over_ext. intros a _. by apply bal_proper.
Qed.
Lemma total_writes a f s s' : writes a f s s' → total s' = total s - bal s a + bal s' a.
Proof.
  intros Hwr. set (X := {[a]} ∪ support s ∪ support s').
  rewrite (total_support s X), (total_support s' X) by set_solver.
  apply sum_over_update; [set_solver|]. intros a' Hne. apply bal_proper, (wr_other _ _ _ _ Hwr a' Hne).
Qed.
Lemma bal_total s a : wf s → bal s a ≤ total s.
Proof.
  intros Hwf. rewrite (total_support s ({[a]} ∪ support s)) by set_solver.
  apply sum_over_elem; [set_solver|]. intros. by apply bal_nonneg.
Qed.
Lemma bal_total2 s a b : wf s → a ≠ b → bal s a + bal s b ≤ total s.
Proof.
  intros Hwf Hne. rewrite (total_support s ({[a; b]} ∪ support s)) by set_solver.
  apply sum_over_elem2; [set_solver..|done|]. intros. by apply bal_nonneg.
Qed.
Lemma bal_writes a f s s' : writes a f s s' → bal s' a = o_balance (f (view s a)).
Proof.
  intros Hwr. pose proof (wr_at _ _ _ _ Hwr) as Ha. unfold bal.
  destruct (view s' a) as [o|]; inversion Ha as [? ? Ho|]; subst. by apply Ho.
Qed.

(** ** The invariant of the state *)

(** The storage of an account without code is the empty trie or was given up:
    its nonce is not 0, so that no contract is created there. *)
Definition settled (o : Obs) : Prop := o_root o = EmptyTrie ∨ o_codeHash o ≠ EmptySHA3.

(** The account whose code and storage no operation changes; it may have a
    storage without a nonce. *)
Context (root : Z).

Record obs_fine (a : Z) (o : Obs) : Prop := {
  of_nonce : in_word 256 (o_nonce o);
  of_slots k : in_word 256 (o_storage o k);
  of_code : bytes_ok (o_code o) ∧ Z.of_nat (length (o_code o)) < 2 ^ 62;
  of_root : a = root ∨ settled o ∨ o_nonce o ≠ 0;
}.
Record fine (s : State) : Prop := {
  fi_wf : wf s;
  fi_obs a o : view s a = Some o → obs_fine a o;
  fi_start : in_word 256 (m_accountStartNonce s) ∧ m_accountStartNonce s ≠ Invalid256;
}.

(** The code and the storage of an account, of which an absent one has none *)
Definition slot_of (o : option Obs) (k : Z) : Z := from_option (λ o, o_storage o k) 0 o.
Definition same_data (o o' : option Obs) : Prop :=
  from_option o_code [] o' = from_option o_code [] o ∧ ∀ k, slot_of o' k = slot_of o k.
#[export] Instance same_data_proper : Proper ((≡) ==> (≡) ==> iff) same_data.
Proof.
  assert (∀ o1 o1' o2 o2' : option Obs, o1 ≡ o1' → o2 ≡ o2' → same_data o1 o2 → same_data o1' o2') as Hp.
  { intros o1 o1' o2 o2' [? ? H1|] [? ? H2|] [Hc Hs]; unfold slot_of in *; simpl in *;
      repeat match goal with Ho : @equiv Obs _ _ _ |- _ => destruct Ho as (_&_&_&_&_&?&?) end;
      split; try (intros k; specialize (Hs k); simpl in * ); simpl; congruence. }
  intros o1 o1' H1 o2 o2' H2. split; apply Hp; by try symmetry.
Qed.
Lemma same_data_refl o : same_data o o.
Proof. done. Qed.
Lemma same_data_trans o1 o2 o3 : same_data o1 o2 → same_data o2 o3 → same_data o1 o3.
Proof. intros [Hc1 Hs1] [Hc2 Hs2]. split; [congruence|]. intros k. by rewrite Hs2. Qed.

(** What every operation keeps of an account *)
Definition kept (o o' : Obs) : Prop :=
  (o_root o = EmptyTrie → o_root o' = EmptyTrie) ∧ (settled o → settled o').

#[export] Instance settled_proper : Proper ((≡) ==> iff) settled.
Proof. intros o o' (_&_&_&Hr&Hc&_). unfold settled. by rewrite Hr, Hc. Qed.
#[export] Instance kept_proper : Proper ((≡) ==> (≡) ==> iff) kept.
Proof.
  intros o1 o1' Ho1 o2 o2' Ho2. unfold kept.
  pose proof (settled_proper _ _ Ho1) as H1. pose proof (settled_proper _ _ Ho2) as H2.
  destruct Ho1 as (_&_&_&->&_), Ho2 as (_&_&_&->&_). by rewrite H1, H2.
Qed.
Lemma obs_fine_proper a o o' : o ≡ o' → obs_fine a o → obs_fine a o'.
Proof.
  intros Ho [Hn Hs Hc Hr]. pose proof (settled_proper o o' Ho) as Hset.
  destruct Ho as (_&Hon&_&_&_&Hoc&Hos). split.
  - by rewrite <-Hon.
  - intros k. by rewrite <-Hos.
  - by rewrite <-Hoc.
  - rewrite <-Hon. tauto.
Qed.
Lemma kept_refl o : kept o o.
Proof. done. Qed.

(** The states before and after operations that bring at most [d] into the
    sum of the balances *)
Record moves (d : Z) (s s' : State) : Prop := {
  mv_step : step s s';
  mv_start : m_accountStartNonce s' = m_accountStartNonce s;
  mv_fine : fine s';
  mv_kept a o : view s a = Some o → ∃ o', view s' a = Some o' ∧ kept o o';
  mv_total : total s' ≤ total s + d;
  mv_root : same_data (view s root) (view s' root);
}.

Lemma moves_weaken d d' s s' : d ≤ d' → moves d s s' → moves d' s s'.
Proof. intros Hd []. split; try done. lia. Qed.
Lemma moves_trans d1 d2 s1 s2 s3 : moves d1 s1 s2 → moves d2 s2 s3 → moves (d1 + d2) s1 s3.
Proof.
  intros [] []. split; [by eapply step_trans|congruence|done| |lia|by eapply same_data_trans].
  intros a o Ho. destruct (mv_kept0 a o Ho) as (o1&Ho1&[Hk1 Hk1']).
  destruct (mv_kept1 a o1 Ho1) as (o2&Ho2&[Hk2 Hk2']). exists o2. split; [done|]. split; auto.
Qed.
Lemma moves_view s s' :
  fine s → step s s' → m_accountStartNonce s' = m_accountStartNonce s → veq (view s') (view s) →
  moves 0 s s'.
Proof.
  intros [Hwf Hobs Hst] Hstep Hstart Hv. split; [done|done| | | |by rewrite (Hv root)].
  - split; [by apply Hstep| |by rewrite Hstart]. intros a o Ho. specialize (Hv a). rewrite Ho in Hv.
    destruct (view s a) as [o'|] eqn:Ho'; inversion Hv; subst.
    eapply obs_fine_proper; [by symmetry|]. by eapply Hobs.
  - intros a o Ho. specialize (Hv a). rewrite Ho in Hv.
    destruct (view s' a) as [o'|]; inversion Hv as [? ? Heq|]; subst.
    exists o'. split; [done|]. rewrite Heq. apply kept_refl.
  - rewrite (total_view s' s) by done. lia.
Qed.
Lemma moves_refresh s s' : fine s → refresh s s' → moves 0 s s'.
Proof.
  intros Hf Hre. apply moves_view; [done|by apply step_refresh; [apply Hf|]|apply Hre|].
  symmetry. apply Hre.
Qed.
Lemma moves_refl s : fine s → moves 0 s s.
Proof. intros Hf. apply moves_refresh; [done|]. apply refresh_refl, Hf. Qed.

(** A write moves what it adds to the balance. *)
Lemma moves_writes d a f s s' :
  fine s → writes a f s s' → obs_fine a (f (view s a)) →
  (∀ o, view s a = Some o → kept o (f (view s a))) →
  o_balance (f (view s a)) ≤ bal s a + d →
  (a = root → same_data (view s root) (Some (f (view s root)))) → moves d s s'.
Proof.
  intros [Hwf Hobs Hst] Hwr Hok Hk Hd Hroot. pose proof (wr_at _ _ _ _ Hwr) as Hat. split.
  - apply Hwr.
  - apply Hwr.
  - split; [apply Hwr| |by rewrite (wr_start _ _ _ _ Hwr)]. intros a' o Ho.
    destruct (decide (a' = a)) as [->|Hne].
    + rewrite Ho in Hat. inversion Hat as [? ? Heq|]; subst.
      eapply obs_fine_proper; [by symmetry|done].
    + pose proof (wr_other _ _ _ _ Hwr a' Hne) as Hv. rewrite Ho in Hv.
      destruct (view s a') as [o'|] eqn:Ho'; inversion Hv; subst.
      eapply obs_fine_proper; [by symmetry|]. by eapply Hobs.
  - intros a' o Ho. destruct (decide (a' = a)) as [->|Hne].
    + destruct (view s' a) as [o'|]; inversion Hat as [? ? Heq|]; subst.
      exists o'. split; [done|]. rewrite Heq. by apply Hk.
    + pose proof (wr_other _ _ _ _ Hwr a' Hne) as Hv. rewrite Ho in Hv.
      destruct (view s' a') as [o'|]; inversion Hv as [? ? Heq|]; subst.
      exists o'. split; [done|]. rewrite Heq. apply kept_refl.
  - rewrite (total_writes _ _ _ _ Hwr), (bal_writes _ _ _ _ Hwr). lia.
  - destruct (decide (root = a)) as [Hra|Hne]; [|by rewrite (wr_other _ _ _ _ Hwr root Hne)].
    rewrite <-Hra in Hat. rewrite Hat. by apply Hroot.
Qed.

(** A rollback to the savepoint of [s] *)
Lemma undo_start c (s : State) : m_accountStartNonce (undo c s) = m_accountStartNonce s.
Proof. by destruct c. Qed.
Lemma rollback_loop_start sp l (s s' : State) :
  rollback_loop sp l s = Some s' → m_accountStartNonce s' = m_accountStartNonce s.
Proof.
  revert s. induction l as [|c l IH]; intros s; simpl; (case_match; [by intros; simplify_eq|]); [done|].
  intros Hr%IH. by rewrite Hr, undo_start.
Qed.
Lemma moves_rollback d s s1 :
  fine s → moves d s s1 →
  ∃ s', rollback (savepoint s) s1 = Some s' ∧ moves 0 s s' ∧ veq (view s') (view s).
Proof.
  intros Hf Hmv. destruct (rollback_step s s1 (mv_step _ _ _ Hmv)) as (s'&Hr&Hwf&Hl&Hv&Hst&Hco).
  exists s'. split; [done|]. split; [|done]. apply moves_view; [done| | |done].
  - split; [done..|]. by exists [].
  - unfold rollback in Hr. by rewrite (rollback_loop_start _ _ _ _ Hr), (mv_start _ _ _ Hmv).
Qed.

(** ** The operations as moves *)

Context `{!StateDBLaws Root}.

Lemma new_obs_fine a n b : in_word 256 n → obs_fine a (new_obs n b).
Proof.
  intros Hn. split; simpl; [done| |split; [constructor|done]|right; left; by left].
  intros k. by rewrite trie_at_empty.
Qed.
Lemma new_obs_data n b : same_data None (Some (new_obs n b)).
Proof. split; [done|]. intros k. apply trie_at_empty. Qed.

Lemma moves_setNonce s a n :
  fine s → in_word 256 n → (∀ o, view s a = Some o → settled o ∨ n ≠ 0) →
  moves 0 s (setNonce pick a n s).
Proof.
  intros Hf Hn Hset. eapply moves_writes; [done|by apply setNonce_writes, Hf|..];
    destruct (view s a) as [o|] eqn:Ho; simpl; try by apply new_obs_fine.
  - destruct (fi_obs _ Hf a o Ho) as [Hno Hs Hc Hr]. split; simpl; [done..|]. right. exact (Hset o eq_refl).
  - by intros o' [= <-].
  - done.
  - unfold bal. rewrite Ho. simpl. lia.
  - pose proof (bal_nonneg s a (fi_wf _ Hf)). lia.
  - intros <-. by rewrite Ho.
  - intros <-. rewrite Ho. apply new_obs_data.
Qed.
Lemma moves_incNonce s a :
  fine s → (∀ o, view s a = Some o → settled o ∨ o_nonce o < 2 ^ 256 - 1) →
  ∃ s', incNonce pick a s = Ok s' ∧ moves 0 s s' ∧
    writes a (wr_incNonce (m_accountStartNonce s)) s s'.
Proof.
  intros Hf Hset. destruct (incNonce_writes s a (fi_wf _ Hf)) as (s'&Hs'&Hwr); [apply Hf|].
  exists s'. split; [done|]. split; [|done].
  eapply moves_writes; [done|done|..]; destruct (view s a) as [o|] eqn:Ho; simpl.
  - destruct (fi_obs _ Hf a o Ho) as [Hno Hs Hc Hr].
    split; simpl; [by apply wrap_in_word|done..|]. right. destruct (Hset o eq_refl) as [|Hlt]; [by left|].
    right. unfold in_word in Hno. rewrite wrap_small by (unfold in_word; lia). lia.
  - apply new_obs_fine. by apply wrap_in_word.
  - by intros o' [= <-].
  - done.
  - unfold bal. rewrite Ho. simpl. lia.
  - pose proof (bal_nonneg s a (fi_wf _ Hf)). lia.
  - intros <-. by rewrite Ho.
  - intros <-. rewrite Ho. apply new_obs_data.
Qed.

(** A write that changes only the balance *)
Lemma moves_wr_balance s s' a n v d :
  fine s → in_word 256 n → writes a (wr_balance n v) s s' →
  (view s a = None → v ≤ d) → u256 (bal s a + v) ≤ bal s a + d → moves d s s'.
Proof.
  intros Hf Hn Hwr Hd Hd'. unfold bal in *. eapply moves_writes; [done|done|..];
    unfold bal; destruct (view s a) as [o|] eqn:Ho; simpl in *.
  - destruct (fi_obs _ Hf a o Ho). by split.
  - by apply new_obs_fine.
  - by intros o' [= <-].
  - done.
  - done.
  - by apply Hd.
  - intros <-. by rewrite Ho.
  - intros <-. rewrite Ho. apply new_obs_data.
Qed.
Lemma moves_addBalance s a v :
  fine s → in_word 256 v →
  ∃ s', addBalance pick a v s = Ok s' ∧ moves v s s' ∧
    writes a (wr_balance (m_accountStartNonce s) v) s s'.
Proof.
  intros Hf Hv. destruct (fi_start _ Hf) as [Hn Hni].
  destruct (addBalance_writes s a v (fi_wf _ Hf) Hv Hni) as (s'&Hs'&Hwr).
  exists s'. split; [done|]. split; [|done]. eapply moves_wr_balance; try done.
  pose proof (bal_nonneg s a (fi_wf _ Hf)). unfold in_word in Hv. apply Z.mod_le; lia.
Qed.
Lemma moves_subBalance s a v :
  fine s → in_word 256 v → v ≤ bal s a →
  ∃ s', subBalance pick a v s = Ok s' ∧ moves (- v) s s' ∧
    (∀ a', a' ≠ a → view s' a' ≡ view s a') ∧ (view s a = None → view s' a = None) ∧
    bal s' a = bal s a - v ∧ (∀ o', view s' a = Some o' → ∃ o, view s a = Some o ∧ o_nonce o' = o_nonce o ∧
      (settled o → settled o')).
Proof.
  intros Hf Hv Hle. destruct (subBalance_writes s a v (fi_wf _ Hf) Hv Hle) as (s'&Hs'&Hwr).
  exists s'. split; [done|]. destruct Hwr as [[-> ->]|[Hex Hwr]].
  { split_and!; [by apply moves_refl|done|done|lia|eauto]. }
  destruct (fi_start _ Hf) as [Hn _].
  pose proof (bal_word s a (fi_wf _ Hf)) as [? ?]. destruct Hv.
  assert (u256 (bal s a + u256 (0 - v)) = bal s a - v) as Heq.
  { unfold wrap. rewrite Zplus_mod_idemp_r. rewrite Z.mod_small; lia. }
  split_and!.
  - eapply moves_wr_balance; [done|exact Hn|exact Hwr|done|lia].
  - apply Hwr.
  - done.
  - rewrite (bal_writes _ _ _ _ Hwr), <-Heq. unfold bal. by destruct (view s a).
  - intros o' Ho'. pose proof (wr_at _ _ _ _ Hwr) as Hat. rewrite Ho' in Hat.
    destruct (view s a) as [o|]; [|done]. simpl in Hat. inversion Hat as [? ? Ho|]; subst.
    exists o. split_and!; [done|apply Ho|]. intros Hset. rewrite Ho. exact Hset.
Qed.
Lemma moves_transferBalance s a b v :
  fine s → in_word 256 v → v ≤ bal s a →
  ∃ s', transferBalance pick a b v s = Ok s' ∧ moves 0 s s' ∧
    (∀ a', a' ≠ a → a' ≠ b → view s' a' ≡ view s a') ∧
    (view s b = None → ∃ o, view s' b = Some o ∧ o_root o = EmptyTrie).
Proof.
  intros Hf Hv Hle. destruct (moves_subBalance s a v Hf Hv Hle) as (s1&Hs1&Hm1&Ho1&Hex1&_).
  destruct (moves_addBalance s1 b v (mv_fine _ _ _ Hm1) Hv) as (s2&Hs2&Hm2&Hwr).
  exists s2. unfold transferBalance. rewrite Hs1. simpl. split; [done|]. split_and!.
  - replace 0 with (- v + v) by lia. by eapply moves_trans.
  - intros a' Ha Hb. by rewrite (wr_other _ _ _ _ Hwr a' Hb), (Ho1 a' Ha).
  - intros Hnone. pose proof (wr_at _ _ _ _ Hwr) as Hat.
    assert (view s1 b = None) as Hnone1.
    { destruct (decide (b = a)) as [->|Hne]; [by apply Hex1|]. specialize (Ho1 b Hne).
      rewrite Hnone in Ho1. by inversion Ho1. }
    rewrite Hnone1 in Hat. simpl in Hat. destruct (view s2 b) as [o|]; inversion Hat as [? ? Heq|]; subst.
    exists o. split; [done|]. apply Heq.
Qed.

Lemma moves_setStorage s a k v :
  fine s → in_word 256 v → view s a ≠ None → a ≠ root → moves 0 s (setStorage pick a k v s).
Proof.
  intros Hf Hv Hex Hne. eapply moves_writes; [done|by apply setStorage_writes; [apply Hf|]|..];
    unfold bal; destruct (view s a) as [o|] eqn:Ho; simpl; try done; try lia.
  - destruct (fi_obs _ Hf a o Ho) as [Hno Hs Hc Hr]. split; simpl; [done| |done..].
    intros k'. by destruct (k' =? k).
  - by intros o' [= <-].
Qed.
Lemma moves_setCode s a c o :
  fine s → pinned s a → a ≠ root → bytes_ok c ∧ Z.of_nat (length c) < 2 ^ 62 →
  view s a = Some o → o_root o = EmptyTrie → moves 0 s (setCode pick a c s).
Proof.
  intros Hf Hpin Hne Hc Ho Hroot. eapply moves_writes; [done|by apply setCode_writes; [apply Hf|]|..];
    unfold bal; rewrite ?Ho; simpl; try done; try lia.
  - destruct (fi_obs _ Hf a o Ho) as [Hno Hs _ _]. split; simpl; [done..| |right; left; by left].
    destruct (_ =? _); [split; [constructor|done]|done].
  - intros o' [= <-]. split; [done|]. intros _. by left.
Qed.

(** The balance of an account given to another *)
Lemma moves_suicide s my a :
  fine s → view s my ≠ None →
  ∃ s1 s2, addBalance pick a (bal s my) s = Ok s1 ∧ setBalance pick my 0 s1 = Ok s2 ∧ moves 0 s s2.
Proof.
  intros Hf Hex. destruct (fi_start _ Hf) as [Hn Hni].
  pose proof (bal_word s my (fi_wf _ Hf)) as Hw.
  destruct (addBalance_writes s a _ (fi_wf _ Hf) Hw Hni) as (s1&Hs1&Hwr1).
  assert (∃ d, moves d s s1 ∧ bal s1 my = bal s my + (if decide (a = my) then d else 0) ∧
            (a ≠ my → d = bal s my)) as (d&Hm1&Hbal1&Hd).
  { exists (if decide (a = my) then u256 (bal s a + bal s my) - bal s a else bal s my).
    destruct (decide (a = my)) as [->|Hne]; split.
    - eapply moves_wr_balance; [done|exact Hn|exact Hwr1|done|lia].
    - split; [|done]. rewrite (bal_writes _ _ _ _ Hwr1).
      unfold bal in *. destruct (view s my); [|done]. simpl. lia.
    - eapply moves_wr_balance; [done|exact Hn|exact Hwr1|done|]. pose proof (bal_nonneg s a (fi_wf _ Hf)).
      destruct Hw. apply Z.mod_le; lia.
    - split; [|done]. rewrite (bal_proper s s1 my); [lia|]. symmetry.
      by apply (wr_other _ _ _ _ Hwr1). }
  pose proof (mv_fine _ _ _ Hm1) as Hf1. destruct (fi_start _ Hf1) as [Hn1 Hni1].
  assert (view s1 my ≠ None) as Hex1.
  { destruct (view s my) as [o|] eqn:Ho; [|done]. destruct (mv_kept _ _ _ Hm1 my o Ho) as (o'&->&_). done. }
  destruct (setBalance_writes s1 my 0 (fi_wf _ Hf1)) as (s2&Hs2&Hwr2); [done|done|done|].
  exists s1, s2. split; [done|]. split; [done|].
  pose proof (bal_word s1 my (fi_wf _ Hf1)) as Hw1.
  assert (moves (- bal s1 my) s1 s2) as Hm2.
  { eapply moves_wr_balance; [done|exact Hn1|exact Hwr2|done|].
    unfold wrap. rewrite Zplus_mod_idemp_r.
    replace (bal s1 my + (0 - bal s1 my)) with 0 by lia. rewrite Z.mod_0_l by lia. lia. }
  eapply moves_weaken; [|by eapply moves_trans]. destruct Hw. rewrite Hbal1.
  destruct (decide (a = my)) as [->|Hne]; [lia|]. rewrite Hd by done. lia.
Qed.

End StateSteps.
#[global] Arguments writes {Root _}.
#[global] Arguments wr_step {Root _}.
#[global] Arguments wr_start {Root _}.
#[global] Arguments wr_at {Root _}.
#[global] Arguments wr_other {Root _}.
End StateSteps.
