(* ===== verification/NativeStorage.v ===== *)
(** * Native contracts (libwingvm/Native.h, Native.cpp, NativeStorage.cpp,
    Asset.h)

    Data of any length in the storage of an account, and the registry of
    native contracts in the storage of the root contract. *)
From S2P Require Import Prelude CommonData RLP RLPCodec State StateSteps.

Module NativeStorage.
Import CommonData RLP Account State.

(** [RootContractAddress], [AssetContractAddress], [PartitionNativeContracts] *)
Definition RootContractAddress : Z := Z.shiftl 0x0300 144.
Definition AssetContractAddress : Z := Z.shiftl 0x0301 144.
Definition PartitionNativeContracts : Z := 1.

(** The exceptions: [ValueTooLarge], the virtual machine's
    [AssetContractCalledDirectly] and [std::system_error] *)
Inductive NativeError := ValueTooLarge | AssetContractCalledDirectly | SystemError.

(** [as256], [from256] *)
Definition as256 (s : bytes) : result NativeError Z :=
  if 32 <? size s then Err ValueTooLarge
  else Ok (fromBigEndian u256 (s ++ replicate (32 - length s) 0)).
Fixpoint until_zero (s : bytes) : bytes :=
  match s with
  | [] => []
  | c :: s => if c =? 0 then [] else c :: until_zero s
  end.
Definition from256 (h : Z) : bytes := until_zero (toBigEndian_u256 h).

(** The name of the one native machine: ["asset"] *)
Definition asset_name : bytes := [97; 115; 115; 101; 116].

(** [NativeManager::callVM] once the name of the machine is read, with
    [AssetVM::exec]; [found] is whether there was one. *)
Definition run_native (found : bool) (vmName : bytes) (depth : Z) : result NativeError bytes :=
  if found && bool_decide (vmName = asset_name) then
    if negb (depth =? 1) then Err AssetContractCalledDirectly else Ok []
  else Err SystemError.

Section NativeStorage.
Context `{StateDB Root} (pick : nat → nat → nat).
Notation State := (State (Root:=Root)).

(** [keyOn] of an address: the hash of the list of the partition and the key *)
Definition keyOn_rlp (partition : Z) (addr : Z) : result RLPError bytes :=
  s ← appendList 2 empty_stream;
  s ← append_int partition s;
  s ← append_hash (toBigEndian_u160 addr) false false s;
  out s.
Definition keyOn (partition addr : Z) : Z :=
  match keyOn_rlp partition addr with Ok bs => sha3 bs | Err _ => 0 end.

(** [NativeStorage::getWord], [putWord] of the account [a] *)
Definition getWord (a key : Z) (s : State) : State * Z := storage pick a key s.
Definition putWord (a key val : Z) (s : State) : State := setStorage pick a key val s.

(** The loop of [getData]: [read] bytes of [len] are read. *)
Fixpoint getData_loop (fuel : nat) (a key len : Z) (out : bytes) (s : State) : State * bytes :=
  match fuel with
  | O => (s, out)
  | S fuel =>
    if size out <? len then
      let key := u256 (key + 1) in
      let '(s, w) := getWord a key s in
      getData_loop fuel a key len
        (out ++ take (Z.to_nat (Z.min (len - size out) 32)) (toBigEndian_u256 w)) s
    else (s, out)
  end.
(** [getData]: the length in the first two bytes of the first word, and the
    bytes; [out] is kept when the length is 0.  Every round reads a byte. *)
Definition getData (a key : Z) (out : bytes) (s : State) : State * (Z * bytes) :=
  let '(s, first) := getWord a key s in
  let len := Z.shiftr first 240 in
  if len =? 0 then (s, (0, out))
  else
    let '(s, out) := getData_loop (Z.to_nat len) a key len
                       (take (Z.to_nat (Z.min len 30)) (drop 2 (toBigEndian_u256 first))) s in
    (s, (len, out)).

(** A word that starts with the bytes [chunk] at offset [off], 0 behind them *)
Definition word_of (off : nat) (head chunk : bytes) : Z :=
  fromBigEndian u256 (head ++ chunk ++ replicate (32 - off - length chunk) 0).

(** The loop of [putData]: [rest] is still to be written. *)
Fixpoint putData_loop (fuel : nat) (a key : Z) (rest : bytes) (s : State) : State :=
  match fuel with
  | O => s
  | S fuel =>
    if negb (size rest =? 0) then
      let key := u256 (key + 1) in
      putData_loop fuel a key (drop 32 rest) (putWord a key (word_of 0 [] (take 32 rest)) s)
    else s
  end.
Definition putData (a key : Z) (d : bytes) (s : State) : result NativeError State :=
  let len := size d in
  if 8190 <? len then Err ValueTooLarge
  else
    let h := take 2 (toBigEndian_u256 (u256 (Z.shiftl len 240))) in
    let s := putWord a key (word_of 2 h (take 30 d)) s in
    Ok (putData_loop (length d) a key (drop 30 d) s).

(** [NativeManager::isNativeContract] *)
Definition isNativeContract (addr : Z) (s : State) : State * bool :=
  let '(s, (len, _)) := getData RootContractAddress (keyOn PartitionNativeContracts addr) [] s in
  (s, negb (len =? 0)).

(** [NativeManager::callVM] *)
Definition callVM (addr depth : Z) (s : State) : State * result NativeError bytes :=
  let '(s, (len, vmName)) := getData RootContractAddress (keyOn 1 addr) [] s in
  (s, run_native (negb (len =? 0)) vmName depth).

End NativeStorage.
(** ** The data that the slots of an account hold *)

(** [getData] as a function of the slots *)
Fixpoint data_loop (fuel : nat) (sl : Z → Z) (key len : Z) (out : bytes) : bytes :=
  match fuel with
  | O => out
  | S fuel =>
    if size out <? len then
      let key := u256 (key + 1) in
      data_loop fuel sl key len
        (out ++ take (Z.to_nat (Z.min (len - size out) 32)) (toBigEndian_u256 (sl key)))
    else out
  end.
Definition data_at (sl : Z → Z) (key : Z) (out : bytes) : Z * bytes :=
  let len := Z.shiftr (sl key) 240 in
  if len =? 0 then (0, out)
  else (len, data_loop (Z.to_nat len) sl key len
               (take (Z.to_nat (Z.min len 30)) (drop 2 (toBigEndian_u256 (sl key))))).

Lemma data_loop_ext fuel sl sl' key len out :
  (∀ k, sl k = sl' k) → data_loop fuel sl key len out = data_loop fuel sl' key len out.
Proof.
  intros Hsl. revert key out. induction fuel as [|fuel IH]; intros key out; simpl; [done|].
  destruct (size out <? len); [|done]. by rewrite Hsl, IH.
Qed.
Lemma data_at_ext sl sl' key out : (∀ k, sl k = sl' k) → data_at sl key out = data_at sl' key out.
Proof. intros Hsl. unfold data_at. rewrite Hsl. destruct (_ =? _); [done|]. by rewrite (data_loop_ext _ _ _ _ _ _ Hsl). Qed.

Section Data.
Context `{StateDB Root} `{!StateDBLaws Root} (pick : nat → nat → nat).
Notation State := (State (Root:=Root)).
Notation slots s a := (StateSteps.slot_of (view s a)).

Lemma slots_refresh (s s' : State) a k : refresh s s' → slots s' a k = slots s a k.
Proof.
  intros Hre. pose proof (re_view _ _ Hre a) as Hv. unfold StateSteps.slot_of.
  destruct (view s a) as [o|], (view s' a) as [o'|]; inversion Hv as [? ? Ho|]; subst; [|done].
  simpl. symmetry. apply Ho.
Qed.
Lemma getWord_spec a key (s : State) :
  wf s → let '(s', w) := getWord pick a key s in refresh s s' ∧ w = slots s a key.
Proof.
  intros Hwf. unfold getWord. pose proof (storage_spec pick a key s Hwf) as Hst.
  destruct (storage pick a key s) as [s' w]. by destruct Hst as (?&?&_).
Qed.
Lemma getData_loop_spec fuel a key len out (s : State) :
  wf s →
  let '(s', out') := getData_loop pick fuel a key len out s in
  refresh s s' ∧ out' = data_loop fuel (slots s a) key len out.
Proof.
  revert key out s. induction fuel as [|fuel IH]; intros key out s Hwf; simpl.
  { split; [by apply refresh_refl|done]. }
  destruct (size out <? len); [|split; [by apply refresh_refl|done]].
  pose proof (getWord_spec a (u256 (key + 1)) s Hwf) as Hw.
  destruct (getWord _ _ _ _) as [s1 w]. destruct Hw as [Hre ->].
  pose proof (IH (u256 (key + 1)) (out ++ take (Z.to_nat (Z.min (len - size out) 32))
    (toBigEndian_u256 (slots s a (u256 (key + 1))))) s1 (refresh_wf _ _ Hwf Hre)) as IH1.
  destruct (getData_loop _ _ _ _ _ _ _) as [s2 out2]. destruct IH1 as [Hre2 ->].
  split; [by eapply refresh_trans|]. apply data_loop_ext. intros k. by apply slots_refresh.
Qed.
(** Reading data fills caches at most. *)
Lemma getData_spec a key out (s : State) :
  wf s →
  let '(s', r) := getData pick a key out s in refresh s s' ∧ r = data_at (slots s a) key out.
Proof.
  intros Hwf. unfold getData, data_at. pose proof (getWord_spec a key s Hwf) as Hw.
  destruct (getWord _ _ _ _) as [s1 w]. destruct Hw as [Hre ->].
  destruct (_ =? 0); [done|].
  match goal with |- context [getData_loop ?p ?f ?a ?k ?l ?o ?s] =>
    pose proof (getData_loop_spec f a k l o s (refresh_wf _ _ Hwf Hre)) as Hl;
    destruct (getData_loop p f a k l o s) as [s2 out2] end.
  destruct Hl as [Hre2 ->]. split; [by eapply refresh_trans|].
  f_equal. apply data_loop_ext. intros k. by apply slots_refresh.
Qed.

(** *** The native contracts that the slots of the root contract name *)

Definition native_name (sl : Z → Z) (addr : Z) : Z * bytes := data_at sl (keyOn 1 addr) [].
(** Every native contract has a machine. *)
Definition natives_ok (sl : Z → Z) : Prop := ∀ addr,
  (native_name sl addr).1 ≠ 0 → (native_name sl addr).2 = asset_name.

Lemma natives_ok_ext sl sl' : (∀ k, sl k = sl' k) → natives_ok sl → natives_ok sl'.
Proof. intros Hsl Hn addr. unfold native_name. rewrite <-!(data_at_ext sl sl') by done. apply Hn. Qed.

Lemma isNativeContract_spec addr (s : State) :
  wf s →
  let '(s', b) := isNativeContract pick addr s in
  refresh s s' ∧ b = negb ((native_name (slots s RootContractAddress) addr).1 =? 0).
Proof.
  intros Hwf. unfold isNativeContract.
  match goal with |- context [getData ?p ?a ?k ?o ?s] =>
    pose proof (getData_spec a k o s Hwf) as Hd; destruct (getData p a k o s) as [s1 [len name]] end.
  destruct Hd as [Hre Heq]. split; [done|]. unfold native_name. change 1 with PartitionNativeContracts.
  by rewrite <-Heq.
Qed.
Lemma callVM_spec addr depth (s : State) :
  wf s → natives_ok (slots s RootContractAddress) →
  (native_name (slots s RootContractAddress) addr).1 ≠ 0 →
  let '(s', r) := callVM pick addr depth s in
  refresh s s' ∧ r = (if depth =? 1 then Ok [] else Err AssetContractCalledDirectly).
Proof.
  intros Hwf Hok Hn. unfold callVM. pose proof (Hok addr Hn) as Hname. unfold native_name in *.
  match goal with |- context [getData ?p ?a ?k ?o ?s] =>
    pose proof (getData_spec a k o s Hwf) as Hd; destruct (getData p a k o s) as [s1 [len name]] end.
  destruct Hd as [Hre Heq]. rewrite <-Heq in *. simpl in *. split; [done|].
  unfold run_native. rewrite (proj2 (Z.eqb_neq _ _) Hn), bool_decide_eq_true_2 by done. simpl.
  by destruct (depth =? 1).
Qed.

(** *** Writing data *)

(** [putData] as a change of the slots *)
Fixpoint put_loop (fuel : nat) (key : Z) (rest : bytes) (sl : Z → Z) : Z → Z :=
  match fuel with
  | O => sl
  | S fuel =>
    if negb (size rest =? 0) then
      let key := u256 (key + 1) in
      put_loop fuel key (drop 32 rest)
        (λ k, if k =? key then word_of 0 [] (take 32 rest) else sl k)
    else sl
  end.
Definition put_at (key : Z) (d : bytes) (sl : Z → Z) : Z → Z :=
  let h := take 2 (toBigEndian_u256 (u256 (Z.shiftl (size d) 240))) in
  put_loop (length d) key (drop 30 d) (λ k, if k =? key then word_of 2 h (take 30 d) else sl k).

Lemma put_loop_ext fuel key rest sl sl' :
  (∀ k, sl k = sl' k) → ∀ k, put_loop fuel key rest sl k = put_loop fuel key rest sl' k.
Proof.
  revert key rest sl sl'. induction fuel as [|fuel IH]; intros key rest sl sl' Hsl k; simpl; [done|].
  destruct (negb _); [|done]. apply IH. intros k'. by destruct (k' =? _).
Qed.

Lemma putWord_spec a key w (s : State) :
  wf s → view s a ≠ None →
  wf (putWord pick a key w s) ∧ view (putWord pick a key w s) a ≠ None ∧
  (∀ k, slots (putWord pick a key w s) a k = if k =? key then w else slots s a k) ∧
  (∀ a', a' ≠ a → view (putWord pick a key w s) a' ≡ view s a').
Proof.
  intros Hwf Hex. unfold putWord.
  pose proof (StateSteps.setStorage_writes pick s a key w Hwf Hex) as [Hst _ Hat Hother].
  destruct (view s a) as [o|] eqn:Ho; [|done]. simpl in Hat.
  destruct (view (setStorage pick a key w s) a) as [o'|]; inversion Hat as [? ? Heq|]; subst.
  split_and!; [apply Hst|done| |done]. intros k. unfold StateSteps.slot_of. simpl.
  destruct Heq as (_&_&_&_&_&_&Hk). by rewrite Hk.
Qed.
Lemma putData_loop_spec fuel a key rest (s : State) :
  wf s → view s a ≠ None →
  let s' := putData_loop pick fuel a key rest s in
  wf s' ∧ view s' a ≠ None ∧ (∀ k, slots s' a k = put_loop fuel key rest (slots s a) k) ∧
  (∀ a', a' ≠ a → view s' a' ≡ view s a').
Proof.
  revert key rest s. induction fuel as [|fuel IH]; intros key rest s Hwf Hex; simpl; [done|].
  destruct (negb _); [|done].
  destruct (putWord_spec a (u256 (key + 1)) (word_of 0 [] (take 32 rest)) s Hwf Hex)
    as (Hwf1&Hex1&Hsl1&Ho1).
  destruct (IH (u256 (key + 1)) (drop 32 rest) _ Hwf1 Hex1) as (Hwf2&Hex2&Hsl2&Ho2).
  split_and!; [done|done| |].
  - intros k. rewrite Hsl2. by apply put_loop_ext.
  - intros a' Hne. by rewrite Ho2, Ho1.
Qed.
Lemma putData_spec a key d (s : State) :
  wf s → view s a ≠ None → size d ≤ 8190 →
  ∃ s', putData pick a key d s = Ok s' ∧ wf s' ∧ (∀ k, slots s' a k = put_at key d (slots s a) k) ∧
    (∀ a', a' ≠ a → view s' a' ≡ view s a').
Proof.
  intros Hwf Hex Hd. unfold putData. destruct (Z.ltb_spec 8190 (size d)); [lia|].
  eexists. split; [done|].
  match goal with |- context [putWord pick a key ?w s] =>
    destruct (putWord_spec a key w s Hwf Hex) as (Hwf1&Hex1&Hsl1&Ho1) end.
  match goal with |- context [putData_loop pick ?f a key ?r ?s] =>
    destruct (putData_loop_spec f a key r s Hwf1 Hex1) as (Hwf2&Hex2&Hsl2&Ho2) end.
  split_and!; [done| |].
  - intros k. rewrite Hsl2. unfold put_at. by apply put_loop_ext.
  - intros a' Hne. by rewrite Ho2, Ho1.
Qed.

End Data.

(** *** Reading back what was written *)

Lemma size_take_min (n : nat) (d : bytes) : size (take n d) = Z.min (Z.of_nat n) (size d).
Proof. unfold size. rewrite length_take. lia. Qed.
Lemma size_drop (n : nat) (d : bytes) : size (drop n d) = Z.max 0 (size d - Z.of_nat n).
Proof. unfold size. rewrite length_drop. lia. Qed.

Lemma word_of_bytes off head chunk :
  length head = off → (off + length chunk ≤ 32)%nat → bytes_ok head → bytes_ok chunk →
  toBigEndian_u256 (word_of off head chunk) = head ++ chunk ++ replicate (32 - off - length chunk) 0.
Proof.
  intros Hoff Hlen Hh Hc. unfold word_of. set (bs := head ++ chunk ++ _).
  assert (length bs = 32%nat) as Hbs by (unfold bs; rewrite !length_app, length_replicate; lia).
  assert (bytes_ok bs) as Hok.
  { apply bytes_ok_app. split; [done|]. apply bytes_ok_app. split; [done|].
    apply Forall_replicate. done. }
  rewrite fromBigEndian_wrap by done. unfold toBigEndian_u256.
  destruct (toBigEndian_spec (u256 (be_val bs)) (replicate 32 0)) as [Hok' Hval].
  apply be_val_inj; [done|done|by rewrite length_toBigEndian, length_replicate, Hbs|].
  rewrite Hval, length_replicate. change (256 ^ Z.of_nat 32) with (2 ^ 256).
  pose proof (be_val_bound bs Hok) as Hb. rewrite Hbs in Hb. change (256 ^ Z.of_nat 32) with (2 ^ 256) in Hb.
  by rewrite (wrap_small 256), Z.mod_small.
Qed.

Lemma key_add key j : u256 (u256 (key + 1) + j) = u256 (key + (1 + j)).
Proof. unfold wrap. rewrite Zplus_mod_idemp_l. f_equal. lia. Qed.
Lemma key_distinct key j : in_word 256 key → 0 < j < 2 ^ 256 → u256 (key + j) ≠ key.
Proof. unfold in_word, wrap. intros Hk Hj Heq. dlia. Qed.

(** A slot before those the loop writes *)
Lemma put_loop_before fuel key rest sl k m :
  size rest ≤ 32 * m → (∀ j, 1 ≤ j ≤ m → k ≠ u256 (key + j)) → put_loop fuel key rest sl k = sl k.
Proof.
  revert key rest sl m. induction fuel as [|fuel IH]; intros key rest sl m Hm Hk; simpl; [done|].
  destruct (Z.eqb_spec (size rest) 0) as [|Hne]; simpl; [done|].
  assert (0 ≤ size rest) by (unfold size; lia).
  rewrite (IH _ _ _ (m - 1)).
  - destruct (Z.eqb_spec k (u256 (key + 1))) as [Heq|]; [|done]. by apply (Hk 1 ltac:(lia)) in Heq.
  - rewrite size_drop. lia.
  - intros j Hj. rewrite key_add. apply Hk. lia.
Qed.

Lemma put_loop_step fuel key rest sl :
  0 < size rest →
  put_loop (S fuel) key rest sl =
    put_loop fuel (u256 (key + 1)) (drop 32 rest)
      (λ k, if k =? u256 (key + 1) then word_of 0 [] (take 32 rest) else sl k).
Proof. intros Hr. cbn [put_loop]. by rewrite (proj2 (Z.eqb_neq _ _)) by lia. Qed.
Lemma data_put_loop f1 f2 key rest sl out :
  bytes_ok rest → size rest ≤ 8192 → in_word 256 key →
  (length rest ≤ f1)%nat → (length rest ≤ f2)%nat →
  data_loop f1 (put_loop f2 key rest sl) key (size out + size rest) out = out ++ rest.
Proof.
  revert f2 key rest sl out.
  induction f1 as [|f1 IH]; intros f2 key rest sl out Hok Hsz Hkey H1 H2; simpl.
  { destruct rest; [by rewrite app_nil_r|simpl in H1; lia]. }
  destruct (decide (rest = [])) as [->|Hne].
  { change (size []) with 0. rewrite Z.add_0_r, Z.ltb_irrefl. by rewrite app_nil_r. }
  assert (0 < size rest) by (destruct rest; [done|unfold size; simpl; lia]).
  rewrite (proj2 (Z.ltb_lt _ _)) by lia.
  destruct f2 as [|f2]; [unfold size in *; lia|]. rewrite put_loop_step by done.
  set (sl1 := λ k, if k =? u256 (key + 1) then word_of 0 [] (take 32 rest) else sl k).
  assert (put_loop f2 (u256 (key + 1)) (drop 32 rest) sl1 (u256 (key + 1)) =
    word_of 0 [] (take 32 rest)) as Hhere.
  { rewrite (put_loop_before _ _ _ _ _ 256).
    - unfold sl1. by rewrite Z.eqb_refl.
    - rewrite size_drop. lia.
    - intros j Hj. apply not_eq_sym, key_distinct; [by apply wrap_in_word|].
      change (2 ^ 256) with (2 ^ 255 * 2). lia. }
  rewrite Hhere, word_of_bytes; [|done|rewrite length_take; lia|constructor|by apply Forall_take].
  replace (take _ ([] ++ _)) with (take 32 rest).
  2:{ symmetry. simpl app. rewrite take_app_le by (rewrite length_take; unfold size in *; lia).
      rewrite take_ge; [done|rewrite length_take; unfold size; lia]. }
  replace (size out + size rest) with (size (out ++ take 32 rest) + size (drop 32 rest)).
  2:{ unfold size. rewrite length_app, length_take, length_drop. lia. }
  rewrite IH; [by rewrite <-app_assoc, take_drop|by apply Forall_drop|rewrite size_drop; lia
              |by apply wrap_in_word|rewrite length_drop; unfold size in *; lia..].
Qed.

Lemma data_put key d sl :
  bytes_ok d → d ≠ [] → size d ≤ 8190 → in_word 256 key → data_at (put_at key d sl) key [] = (size d, d).
Proof.
  intros Hok Hne Hsz Hkey. unfold data_at, put_at.
  assert (0 < size d) as Hpos by (destruct d; [done|unfold size; simpl; lia]).
  set (h := take 2 _). set (sl1 := λ k, if k =? key then _ else _).
  assert (length h = 2%nat ∧ bytes_ok h ∧ be_val h = size d) as (Hlh&Hokh&Hvh).
  { pose proof (toBigEndian_spec (u256 (Z.shiftl (size d) 240)) (replicate 32 0)) as [Ho Hv].
    fold (toBigEndian_u256 (u256 (Z.shiftl (size d) 240))) in Ho, Hv.
    assert (length (toBigEndian_u256 (u256 (Z.shiftl (size d) 240))) = 32%nat) as Hl
      by (unfold toBigEndian_u256; by rewrite length_toBigEndian, length_replicate).
    split; [unfold h; rewrite length_take; lia|]. split; [by apply Forall_take|].
    rewrite <-(take_drop 2 (toBigEndian_u256 _)), be_val_app, length_drop, Hl in Hv. fold h in Hv.
    pose proof (be_val_bound (drop 2 (toBigEndian_u256 (u256 (Z.shiftl (size d) 240)))) (Forall_drop _ _ _ Ho)) as Hb.
    set (r := be_val (drop 2 _)) in *. set (l := be_val h) in *. clearbody r l.
    rewrite length_drop, Hl in Hb. rewrite length_replicate, Z.shiftl_mul_pow2 in Hv by lia.
    change (256 ^ Z.of_nat (32 - 2)) with (2 ^ 240) in *.
    rewrite (wrap_small 256), Z.mod_small in Hv; [nia| |];
      unfold in_word; change (256 ^ Z.of_nat 32) with (2 ^ 240 * 65536);
      change (2 ^ 256) with (2 ^ 240 * 65536); split; nia. }
  assert (put_loop (length d) key (drop 30 d) sl1 key = word_of 2 h (take 30 d)) as Hhere.
  { rewrite (put_loop_before _ _ _ _ _ 255).
    - unfold sl1. by rewrite Z.eqb_refl.
    - rewrite size_drop. lia.
    - intros j Hj. apply not_eq_sym, key_distinct; [done|]. change (2 ^ 256) with (2 ^ 255 * 2). lia. }
  rewrite Hhere, word_of_bytes; [|done|rewrite length_take; lia|done|by apply Forall_take].
  assert (Z.shiftr (word_of 2 h (take 30 d)) 240 = size d) as ->.
  { unfold word_of. set (bs := h ++ take 30 d ++ _).
    assert (bytes_ok (take 30 d ++ replicate (32 - 2 - length (take 30 d)) 0)) as Hokt.
    { apply bytes_ok_app. split; [by apply Forall_take|]. by apply Forall_replicate. }
    assert (bytes_ok bs) as Hokb by (by apply bytes_ok_app).
    rewrite fromBigEndian_wrap by done. rewrite Z.shiftr_div_pow2 by lia.
    pose proof (be_val_bound _ Hokt) as Hb. unfold bs. rewrite be_val_app, Hvh.
    assert (length (take 30 d ++ replicate (32 - 2 - length (take 30 d)) 0) = 30%nat) as Hl30
      by (rewrite length_app, length_replicate, length_take; lia).
    rewrite Hl30 in *. change (256 ^ Z.of_nat 30) with (2 ^ 240) in *.
    rewrite wrap_small; [|unfold in_word; change (2 ^ 256) with (2 ^ 240 * 65536); lia].
    rewrite Z.div_add_l by lia. rewrite Z.div_small by done. lia. }
  rewrite (proj2 (Z.eqb_neq _ _)) by lia. f_equal.
  replace (take _ (drop 2 _)) with (take 30 d).
  2:{ symmetry. rewrite drop_app_length' by done. rewrite take_app_le by (rewrite length_take; unfold size in *; lia).
      rewrite take_ge; [done|rewrite length_take; unfold size; lia]. }
  replace (size d) with (size (take 30 d) + size (drop 30 d)) at 2 by (rewrite size_take_min, size_drop; lia).
  rewrite data_put_loop; [by rewrite take_drop|by apply Forall_drop|rewrite size_drop; lia|done|..];
    rewrite length_drop; unfold size; lia.
Qed.

(** C35. What [putData] writes [getData] reads: for data of up to 8190 bytes,
    255 words behind the first one, at any key - also one whose successors
    wrap around -; the other accounts keep what they show.  Longer data is
    refused. *)
Theorem putData_getData `{StateDBLaws Root} (pick : nat → nat → nat) a key d (s : State (Root:=Root)) :
  wf s → view s a ≠ None → bytes_ok d → d ≠ [] → in_word 256 key →
  match putData pick a key d s with
  | Ok s' => size d ≤ 8190 ∧ (getData pick a key [] s').2 = (size d, d) ∧
             ∀ a', a' ≠ a → view s' a' ≡ view s a'
  | Err e => e = ValueTooLarge ∧ 8190 < size d
  end.
Proof.
  intros Hwf Hex Hok Hne Hkey. destruct (Z.ltb_spec 8190 (size d)) as [Hbig|Hsz].
  { unfold putData. by rewrite (proj2 (Z.ltb_lt _ _)). }
  destruct (putData_spec pick a key d s Hwf Hex Hsz) as (s'&->&Hwf'&Hsl&Hother).
  split; [done|]. split; [|done]. pose proof (getData_spec pick a key [] s' Hwf') as Hget.
  destruct (getData pick a key [] s') as [s2 r]. destruct Hget as [_ ->]. simpl.
  rewrite (data_at_ext _ _ _ _ Hsl). by apply data_put.
Qed.

(** [as256] and [from256] *)
Lemma until_zero_app s n : Forall (λ c, c ≠ 0) s → until_zero (s ++ replicate n 0) = s.
Proof.
  induction 1 as [|c s Hc _ IH]; simpl; [by destruct n|].
  rewrite (proj2 (Z.eqb_neq _ _)) by done. by rewrite IH.
Qed.
Lemma from256_as256 s :
  bytes_ok s → size s ≤ 32 → Forall (λ c, c ≠ 0) s → ∃ w, as256 s = Ok w ∧ from256 w = s.
Proof.
  intros Hok Hsz Hnz. unfold as256. rewrite (proj2 (Z.ltb_ge _ _)) by lia.
  exists (word_of 0 [] s). split; [done|].
  unfold from256. rewrite word_of_bytes; [|done|unfold size in Hsz; lia|constructor|done].
  by apply until_zero_app.
Qed.

(** ** Witnesses *)

Definition example_root : State (Root := gmap Z Z) :=
  mkState {[RootContractAddress := mkTrieAccount 0 0 ∅ (sha3 [])]} ∅ ∅ [] ∅ ∅ 0 [] 0.
Lemma example_root_wf : wf example_root.
Proof. apply wf_committed. intros a t [_ <-]%lookup_singleton_Some. by split. Qed.

Lemma putData_getData_witness :
  ∃ s', putData no_pick RootContractAddress (2 ^ 256 - 1) (replicate 40 7) example_root = Ok s' ∧
    (getData no_pick RootContractAddress (2 ^ 256 - 1) [] s').2 = (40, replicate 40 7).
Proof.
  pose proof (putData_getData no_pick RootContractAddress (2 ^ 256 - 1) (replicate 40 7) example_root
    example_root_wf ltac:(done) ltac:(by apply bytes_okb_spec) ltac:(done) ltac:(done)) as Hput.
  destruct (putData _ _ _ _ _) as [s'|e]; [|by destruct Hput].
  exists s'. split; [reflexivity|]. apply Hput.
Defined.

End NativeStorage.
