(* ===== verification/TransactionQueue.v ===== *)
(** * The transaction queue (libwing/TransactionQueue.h, TransactionQueue.cpp)

    The queue's containers and every operation on them, run under the queue's
    lock.  Undefined behaviour of the code (the first element of an empty
    container, a missing map entry behind an assertion) is [None]. *)
From S2P Require Import Prelude.

(** What the queue reads of a transaction (libwingcore/TransactionBase). *)
Class Transaction (Tx : Type) := {
  tx_sha3 : Tx → Z;
  tx_from : Tx → Z;
  tx_nonce : Tx → Z;
  tx_gasPrice : Tx → Z;
  tx_hasZeroSignature : Tx → bool;
  (** the constructor from RLP with [CheckTransaction::Everything] and with
      [CheckTransaction::Cheap], [None] when it throws *)
  tx_parse : bytes → option Tx;
  tx_parse_cheap : bytes → option Tx;
}.

(** Hashes do not collide; nonces are 256 bit words. *)
Class TransactionLaws (Tx : Type) `{Transaction Tx} := {
  tx_sha3_inj t1 t2 : tx_sha3 t1 = tx_sha3 t2 → t1 = t2;
  tx_nonce_word t : in_word 256 (tx_nonce t);
}.

Module TransactionQueue.
Section TransactionQueue.
Context `{Transaction Tx}.

(** The position at which the search tree of [m_current] inserts, given for
    each element, in order, whether the new one precedes it. *)
Context (descend : list bool → nat).

(** ** State *)

Inductive ImportResult :=
| Success | AlreadyInChain | AlreadyKnown | Malformed | OverbidGasPrice | ZeroSignature.
#[export] Instance ImportResult_eq_dec : EqDecision ImportResult.
Proof. solve_decision. Defined.

Inductive IfDropped := Ignore | Retry.

(** The signals, in the order in which they are raised. *)
Inductive Event :=
| onReady
| onReplaced (hash : Z)
| onImport (result : ImportResult) (hash nodeId : Z).

(** An iterator into [m_current] is the transaction it points to; a
    [std::map<u256, T>] is an ordered map of the prelude. *)
Record Queue := mkQueue {
  m_known : gset Z;
  m_dropped : gset Z;
  m_current : list Tx;
  m_currentByHash : gmap Z Tx;
  m_currentByAddressAndNonce : gmap Z (list (Z * Tx));
  m_future : gmap Z (list (Z * Tx));
  m_futureSize : Z;
  m_limit : Z;
  m_futureLimit : Z;
  m_unverified : list (bytes * Z);
  m_events : list Event;
}.

Definition with_known (x : gset Z) (q : Queue) : Queue :=
  mkQueue x (m_dropped q) (m_current q) (m_currentByHash q) (m_currentByAddressAndNonce q)
    (m_future q) (m_futureSize q) (m_limit q) (m_futureLimit q) (m_unverified q) (m_events q).
Definition with_dropped (x : gset Z) (q : Queue) : Queue :=
  mkQueue (m_known q) x (m_current q) (m_currentByHash q) (m_currentByAddressAndNonce q)
    (m_future q) (m_futureSize q) (m_limit q) (m_futureLimit q) (m_unverified q) (m_events q).
Definition with_current (cur : list Tx) (byHash : gmap Z Tx) (byAN : gmap Z (list (Z * Tx)))
    (q : Queue) : Queue :=
  mkQueue (m_known q) (m_dropped q) cur byHash byAN
    (m_future q) (m_futureSize q) (m_limit q) (m_futureLimit q) (m_unverified q) (m_events q).
Definition with_future (x : gmap Z (list (Z * Tx))) (size : Z) (q : Queue) : Queue :=
  mkQueue (m_known q) (m_dropped q) (m_current q) (m_currentByHash q) (m_currentByAddressAndNonce q)
    x size (m_limit q) (m_futureLimit q) (m_unverified q) (m_events q).
Definition with_unverified (x : list (bytes * Z)) (q : Queue) : Queue :=
  mkQueue (m_known q) (m_dropped q) (m_current q) (m_currentByHash q) (m_currentByAddressAndNonce q)
    (m_future q) (m_futureSize q) (m_limit q) (m_futureLimit q) x (m_events q).
Definition emit (e : Event) (q : Queue) : Queue :=
  mkQueue (m_known q) (m_dropped q) (m_current q) (m_currentByHash q) (m_currentByAddressAndNonce q)
    (m_future q) (m_futureSize q) (m_limit q) (m_futureLimit q) (m_unverified q) (m_events q ++ [e]).

(** The constructor *)
Definition empty_queue (limit futureLimit : Z) : Queue :=
  mkQueue ∅ ∅ [] ∅ ∅ ∅ 0 limit futureLimit [] [].

(** ** The priority queue *)

(** [queue.m_currentByAddressAndNonce[_t.sender()].begin()->first] *)
Definition min_nonce (byAN : gmap Z (list (Z * Tx))) (t : Tx) : option Z :=
  '(n, _) ← byAN !! tx_from t ≫= head; Some n.

(** [PriorityCompare] *)
Definition compare (byAN : gmap Z (list (Z * Tx))) (first second : Tx) : option bool :=
  m1 ← min_nonce byAN first;
  m2 ← min_nonce byAN second;
  let height1 := u256 (tx_nonce first - m1) in
  let height2 := u256 (tx_nonce second - m2) in
  Some ((height1 <? height2) ||
        ((height1 =? height2) && (tx_gasPrice second <? tx_gasPrice first))).

(** [m_current.emplace(_t)] *)
Definition emplace_current (byAN : gmap Z (list (Z * Tx))) (t : Tx) (cur : list Tx)
    : option (list Tx) :=
  before ← mapM (compare byAN t) cur;
  let i := descend before in
  Some (take i cur ++ t :: drop i cur).

(** [m_current.erase(iterator)] *)
Fixpoint erase_current (t : Tx) (cur : list Tx) : list Tx :=
  match cur with
  | [] => []
  | t' :: cur => if tx_sha3 t' =? tx_sha3 t then cur else t' :: erase_current t cur
  end.

(** The three insertions of a transaction into the containers of current
    transactions; the map of nonces is written before the comparator looks at
    it. *)
Definition add_current (hash : Z) (t : Tx) (q : Queue) : option Queue :=
  let nonces := default [] (m_currentByAddressAndNonce q !! tx_from t) in
  let byAN := <[tx_from t := om_insert (tx_nonce t) t nonces]> (m_currentByAddressAndNonce q) in
  cur ← emplace_current byAN t (m_current q);
  Some (with_current cur (<[hash := t]> (m_currentByHash q)) byAN q).

(** ** Operations *)

(** [check_WITH_LOCK] *)
Definition check (h : Z) (ik : IfDropped) (q : Queue) : ImportResult :=
  if decide (h ∈ m_known q) then AlreadyKnown
  else if decide (h ∈ m_dropped q) then
    match ik with Ignore => AlreadyInChain | Retry => Success end
  else Success.

(** The transactions of a sender after some were erased; the code erases the
    sender's entry when none is left. *)
Definition set_entry (a : Z) (l : list (Z * Tx)) (m : gmap Z (list (Z * Tx)))
    : gmap Z (list (Z * Tx)) :=
  match l with [] => delete a m | _ => <[a := l]> m end.

(** [remove_WITH_LOCK] *)
Definition remove (txHash : Z) (q : Queue) : option (Queue * bool) :=
  match m_currentByHash q !! txHash with
  | None => Some (q, false)
  | Some t =>
    nonces ← m_currentByAddressAndNonce q !! tx_from t;
    let byAN := set_entry (tx_from t) (om_erase (tx_nonce t) nonces) (m_currentByAddressAndNonce q) in
    let q := with_current (erase_current t (m_current q)) (delete txHash (m_currentByHash q)) byAN q in
    Some (with_known (m_known q ∖ {[txHash]}) q, true)
  end.

(** The loop of [makeCurrent_WITH_LOCK] over the transactions behind the
    found one; the result has the part of the map behind the loop. *)
Fixpoint move_current (nonce : Z) (l : list (Z * Tx)) (moved : bool) (q : Queue)
    : option (Queue * list (Z * Tx) * bool) :=
  match l with
  | (_, t) :: l' =>
    if tx_nonce t =? nonce then
      q ← add_current (tx_sha3 t) t q;
      move_current (u256 (nonce + 1)) l' true (with_future (m_future q) (m_futureSize q - 1) q)
    else Some (q, l, moved)
  | [] => Some (q, [], moved)
  end.

(** One round of the loop that drops future transactions beyond the limit:
    the last nonce of the first sender. *)
Definition drop_future (q : Queue) : option Queue :=
  '(a, l) ← head (map_to_list (m_future q));
  match l with
  | [] => None
  | _ => Some (with_future (set_entry a (removelast l) (m_future q)) (m_futureSize q - 1) q)
  end.
Fixpoint limit_future (fuel : nat) (q : Queue) : option Queue :=
  if m_futureLimit q <? m_futureSize q then
    match fuel with
    | O => None
    | S fuel => q ← drop_future q; limit_future fuel q
    end
  else Some q.

(** [makeCurrent_WITH_LOCK]: the run of nonces behind that of [_t] becomes
    current; then future transactions beyond the limit are dropped, in no more
    than [m_futureSize] rounds. *)
Definition promote (t : Tx) (q : Queue) : option (Queue * bool) :=
  let a := tx_from t in
  let nonce := u256 (tx_nonce t + 1) in
  match m_future q !! a with
  | None => Some (q, false)
  | Some l =>
    match om_find nonce l with
    | None => Some (q, false)
    | Some _ =>
      '(q, rest, moved) ← move_current nonce (filter (λ e, nonce ≤ e.1) l) false q;
      let l := filter (λ e, e.1 < nonce) l ++ rest in
      Some (with_future (set_entry a l (m_future q)) (m_futureSize q) q, moved)
    end
  end.
Definition makeCurrent (t : Tx) (q : Queue) : option Queue :=
  '(q, newCurrent) ← promote t q;
  q ← limit_future (Z.to_nat (m_futureSize q)) q;
  Some (if newCurrent : bool then emit onReady q else q).

(** [insertCurrent_WITH_LOCK] *)
Definition insertCurrent (h : Z) (t : Tx) (q : Queue) : option Queue :=
  match m_currentByHash q !! h with
  | Some _ => Some q
  | None =>
    q ← add_current h t q;
    q ← makeCurrent t q;
    Some (with_known ({[h]} ∪ m_known q) q)
  end.

(** [while (m_current.size() > m_limit) remove_WITH_LOCK(...)] *)
Fixpoint limit_current (fuel : nat) (q : Queue) : option Queue :=
  if m_limit q <? Z.of_nat (length (m_current q)) then
    match fuel with
    | O => None
    | S fuel =>
      t ← last (m_current q);
      '(q, _) ← remove (tx_sha3 t) q;
      limit_current fuel q
    end
  else Some q.

(** [manageImport_WITH_LOCK] *)
Definition manageImport (h : Z) (t : Tx) (q : Queue) : option (Queue * ImportResult) :=
  let insert q :=
    q ← insertCurrent h t q;
    q ← limit_current (length (m_current q)) q;
    Some (emit onReady q, Success) in
  let check_future q :=
    match m_future q !! tx_from t with
    | None => insert q
    | Some fs =>
      match om_find (tx_nonce t) fs with
      | None => insert q
      | Some t' =>
        if tx_gasPrice t <? tx_gasPrice t' then Some (q, OverbidGasPrice)
        else insert (with_future (set_entry (tx_from t) (om_erase (tx_nonce t) fs) (m_future q))
                       (m_futureSize q - 1) q)
      end
    end in
  match m_currentByAddressAndNonce q !! tx_from t ≫= om_find (tx_nonce t) with
  | None => check_future q
  | Some t' =>
    if tx_gasPrice t <? tx_gasPrice t' then Some (q, OverbidGasPrice)
    else
      '(q, _) ← remove (tx_sha3 t') q;
      check_future (emit (onReplaced (tx_sha3 t')) q)
  end.

(** [import] of a transaction *)
Definition import (t : Tx) (ik : IfDropped) (q : Queue) : option (Queue * ImportResult) :=
  if tx_hasZeroSignature t then Some (q, ZeroSignature)
  else
    let h := tx_sha3 t in
    match check h ik q with
    | Success => manageImport h t q
    | ir => Some (q, ir)
    end.

(** [import] of RLP data *)
Definition import_rlp (data : bytes) (ik : IfDropped) (q : Queue) : option (Queue * ImportResult) :=
  match tx_parse data with
  | Some t => import t ik q
  | None => Some (q, Malformed)
  end.

(** [topTransactions] *)
Fixpoint top_loop (limit : nat) (avoid : gset Z) (l ret : list Tx) : list Tx :=
  match l with
  | t :: l =>
    if (length ret <? limit)%nat
    then top_loop limit avoid l (if decide (tx_sha3 t ∈ avoid) then ret else ret ++ [t])
    else ret
  | [] => ret
  end.
Definition topTransactions (limit : nat) (avoid : gset Z) (q : Queue) : list Tx :=
  top_loop limit avoid (m_current q) [].

Definition knownTransactions (q : Queue) : gset Z := m_known q.

(** [maxNonce_WITH_LOCK] *)
Definition maxNonce (a : Z) (q : Queue) : Z :=
  let next m := '(n, _) ← m !! a ≫= last; Some (u256 (n + 1)) in
  let ret := default 0 (next (m_currentByAddressAndNonce q)) in
  match next (m_future q) with Some n => Z.max ret n | None => ret end.

(** [waiting] *)
Definition waiting (a : Z) (q : Queue) : Z :=
  Z.of_nat (length (default [] (m_currentByAddressAndNonce q !! a))) +
  Z.of_nat (length (default [] (m_future q !! a))).

(** The loop of [setFuture] over the transactions from the cutoff on;
    [std::map::emplace] keeps an entry that is already there. *)
Fixpoint future_loop (l : list (Z * Tx)) (target : list (Z * Tx)) (size : Z)
    (cur : list Tx) (byHash : gmap Z Tx) : list (Z * Tx) * Z * list Tx * gmap Z Tx :=
  match l with
  | [] => (target, size, cur, byHash)
  | (_, t) :: l =>
    let target := match om_find (tx_nonce t) target with
                  | Some _ => target
                  | None => om_insert (tx_nonce t) t target
                  end in
    future_loop l target (size + 1) (erase_current t cur) (delete (tx_sha3 t) byHash)
  end.
Definition setFuture (txHash : Z) (q : Queue) : Queue :=
  match m_currentByHash q !! txHash with
  | None => q
  | Some st =>
    let from := tx_from st in
    let queue := default [] (m_currentByAddressAndNonce q !! from) in
    let target := default [] (m_future q !! from) in
    let '(target, size, cur, byHash) :=
      future_loop (filter (λ e, tx_nonce st ≤ e.1) queue) target (m_futureSize q)
        (m_current q) (m_currentByHash q) in
    let queue := filter (λ e, e.1 < tx_nonce st) queue in
    let byAN := set_entry from queue (m_currentByAddressAndNonce q) in
    with_current cur byHash byAN
      (with_future (<[from := target]> (m_future q)) size q)
  end.

(** [drop] *)
Definition drop_tx (txHash : Z) (q : Queue) : option Queue :=
  if decide (txHash ∈ m_known q) then
    '(q, _) ← remove txHash (with_dropped ({[txHash]} ∪ m_dropped q) q);
    Some q
  else Some q.

(** [dropGood] *)
Definition dropGood (t : Tx) (q : Queue) : option Queue :=
  q ← makeCurrent t q;
  if decide (tx_sha3 t ∈ m_known q) then
    '(q, _) ← remove (tx_sha3 t) q; Some q
  else Some q.

(** [clear] *)
Definition clear (q : Queue) : Queue :=
  mkQueue ∅ ∅ [] ∅ ∅ ∅ 0 (m_limit q) (m_futureLimit q) (m_unverified q) (m_events q).

Definition c_maxVerificationQueueSize : Z := 8192.

(** [enqueue]: the items beyond the maximal size are dropped. *)
Fixpoint enqueue (items : list bytes) (nodeId : Z) (q : Queue) : Queue :=
  match items with
  | [] => q
  | d :: items =>
    if c_maxVerificationQueueSize <=? Z.of_nat (length (m_unverified q)) then q
    else enqueue items nodeId (with_unverified (m_unverified q ++ [(d, nodeId)]) q)
  end.

(** One round of [verifierBody]; [None] also when there is nothing to verify
    (the thread waits). *)
Definition verify_one (q : Queue) : option Queue :=
  match m_unverified q with
  | [] => None
  | (d, nodeId) :: rest =>
    let q := with_unverified rest q in
    match tx_parse_cheap d with
    | None => Some q
    | Some t => '(q, ir) ← import t Ignore q; Some (emit (onImport ir (tx_sha3 t) nodeId) q)
    end
  end.

(** [status] *)
Record Status := mkStatus { st_current : Z; st_future : Z; st_unverified : Z; st_dropped : Z }.
Definition status (q : Queue) : Status :=
  mkStatus (Z.of_nat (size (m_currentByHash q))) (Z.of_nat (size (m_future q)))
    (Z.of_nat (length (m_unverified q))) (Z.of_nat (size (m_dropped q))).

(** ** Lemmas on the maps by address and nonce *)

Definition find2 (m : gmap Z (list (Z * Tx))) (a n : Z) : option Tx := m !! a ≫= om_find n.

(** The transactions of one sender, keyed by their nonces. *)
Definition nonces_ok (a : Z) (l : list (Z * Tx)) : Prop :=
  om_sorted_from (-1) l ∧ ∀ n t, (n, t) ∈ l → tx_nonce t = n ∧ tx_from t = a.
Definition map_ok (m : gmap Z (list (Z * Tx))) : Prop :=
  ∀ a l, m !! a = Some l → l ≠ [] ∧ nonces_ok a l.

Lemma nonces_ok_sublist a l l' : l' `sublist_of` l → nonces_ok a l → nonces_ok a l'.
Proof.
  intros Hsub [Hs Hl]. split; [by eapply om_sorted_sublist|].
  intros n t Hin. apply Hl. by eapply elem_of_sublist.
Qed.

Lemma nonces_ok_find a l n t : nonces_ok a l → om_find n l = Some t ↔ (n, t) ∈ l.
Proof. intros [Hs _]. by eapply om_find_elem. Qed.

Lemma find2_ok m a n t : map_ok m → find2 m a n = Some t → tx_from t = a ∧ tx_nonce t = n.
Proof.
  intros Hm (l&Hl&Hf)%bind_Some. destruct (Hm a l Hl) as [_ Hok].
  apply (nonces_ok_find a) in Hf; [|done]. by apply and_comm, Hok.
Qed.

Lemma find2_set_entry m a l a' n :
  find2 (set_entry a l m) a' n = if decide (a' = a) then om_find n l else find2 m a' n.
Proof.
  unfold find2, set_entry. destruct (decide (a' = a)) as [->|Hne].
  - destruct l; by rewrite ?lookup_delete_eq, ?lookup_insert_eq.
  - destruct l; by rewrite ?lookup_delete_ne, ?lookup_insert_ne by done.
Qed.

Lemma map_ok_set_entry m a l : map_ok m → nonces_ok a l → map_ok (set_entry a l m).
Proof.
  intros Hm Hl a' l'. unfold set_entry. destruct (decide (a' = a)) as [->|Hne].
  - destruct l; rewrite ?lookup_delete_eq, ?lookup_insert_eq; [done|].
    intros; simplify_eq. by split.
  - destruct l; rewrite ?lookup_delete_ne, ?lookup_insert_ne by done; apply Hm.
Qed.

Lemma nonces_ok_default m a : map_ok m → nonces_ok a (default [] (m !! a)).
Proof.
  intros Hm. destruct (m !! a) as [l|] eqn:Hl; simpl; [by apply Hm|].
  split; [done|]. by intros n t ?%elem_of_nil.
Qed.

Lemma find2_default m a n : find2 m a n = om_find n (default [] (m !! a)).
Proof. unfold find2. by destruct (m !! a). Qed.

Lemma nonces_ok_insert `{!TransactionLaws Tx} t l :
  nonces_ok (tx_from t) l → nonces_ok (tx_from t) (om_insert (tx_nonce t) t l).
Proof.
  intros [Hs Hl]. pose proof (tx_nonce_word t) as [? _].
  assert (om_sorted_from (-1) (om_insert (tx_nonce t) t l)) by (apply om_insert_sorted; [lia|done]).
  split; [done|]. intros n t'. rewrite <-(om_find_elem (-1)), om_find_insert by done.
  destruct (Z.eqb_spec n (tx_nonce t)) as [->|]; [naive_solver|].
  rewrite (om_find_elem (-1)) by done. apply Hl.
Qed.

Lemma nonces_ok_erase a n l : nonces_ok a l → nonces_ok a (om_erase n l).
Proof.
  intros Hl. eapply nonces_ok_sublist; [|done]. clear Hl.
  induction l as [|[k v] l IH]; simpl; [done|].
  destruct (_ =? _); [by apply sublist_cons|by apply sublist_skip].
Qed.

Lemma insert_set_entry m a n t l : <[a := om_insert n t l]> m = set_entry a (om_insert n t l) m.
Proof. unfold set_entry. pose proof (om_insert_not_nil n t l). by destruct (om_insert n t l). Qed.

(** The number of transactions in such a map. *)
Definition total (m : gmap Z (list (Z * Tx))) : Z :=
  map_fold (λ _ l n, Z.of_nat (length l) + n) 0 m.

Lemma total_insert m a l : m !! a = None → total (<[a := l]> m) = Z.of_nat (length l) + total m.
Proof. intros. unfold total. rewrite map_fold_insert_L; [done|intros; lia|done]. Qed.

Lemma total_delete m a : total m = Z.of_nat (length (default [] (m !! a))) + total (delete a m).
Proof.
  destruct (m !! a) as [l|] eqn:Hl; simpl.
  - rewrite <-(insert_delete_id m a l) at 1 by done. apply total_insert, lookup_delete_eq.
  - by rewrite delete_id.
Qed.

Lemma total_set_entry m a l :
  total (set_entry a l m) =
  total m - Z.of_nat (length (default [] (m !! a))) + Z.of_nat (length l).
Proof.
  rewrite (total_delete m a). unfold set_entry. destruct l as [|e l]; simpl length; [lia|].
  rewrite <-insert_delete_eq, total_insert by apply lookup_delete_eq. simpl length. lia.
Qed.

Lemma total_nonneg m : 0 ≤ total m.
Proof.
  unfold total. apply (map_fold_weak_ind (λ r _, 0 ≤ r)); [lia|]. intros. lia.
Qed.

(** ** The invariant *)

(** The three containers of current transactions agree. *)
Record cur_ok (q : Queue) : Prop := mkCurOk {
  cur_nodup : NoDup (m_current q);
  cur_hash h t : m_currentByHash q !! h = Some t ↔ tx_sha3 t = h ∧ t ∈ m_current q;
  cur_map : map_ok (m_currentByAddressAndNonce q);
  cur_nonce t : t ∈ m_current q ↔
    find2 (m_currentByAddressAndNonce q) (tx_from t) (tx_nonce t) = Some t;
}.

(** A transaction is held as current or as future. *)
Definition is_future (q : Queue) (t : Tx) : Prop :=
  find2 (m_future q) (tx_from t) (tx_nonce t) = Some t.
Definition queued (q : Queue) (t : Tx) : Prop := t ∈ m_current q ∨ is_future q t.

Record wf (q : Queue) : Prop := mkWf {
  wf_cur : cur_ok q;
  wf_future : map_ok (m_future q);
  (** no nonce of a sender is both current and future *)
  wf_disjoint a n :
    find2 (m_currentByAddressAndNonce q) a n = None ∨ find2 (m_future q) a n = None;
  wf_size : m_futureSize q = total (m_future q);
  wf_limits : 0 ≤ m_limit q ∧ 0 ≤ m_futureLimit q;
}.

(** Every transaction held is known. *)
Definition known_ok (q : Queue) : Prop := ∀ t, queued q t → tx_sha3 t ∈ m_known q.

Context `{!TransactionLaws Tx}.

Lemma head_min_nonce m t l :
  m !! tx_from t = Some l → l ≠ [] → is_Some (min_nonce m t).
Proof. intros Hl Hn. unfold min_nonce. rewrite Hl. simpl. destruct l as [|[n t'] l]; [done|by eexists]. Qed.

(** The comparator is defined for every current transaction, so that an
    insertion is. *)
Lemma emplace_current_spec m t cur :
  (∀ t', t' ∈ t :: cur → is_Some (min_nonce m t')) →
  ∃ i, emplace_current m t cur = Some (take i cur ++ t :: drop i cur).
Proof.
  intros Hmin. unfold emplace_current.
  assert (is_Some (mapM (compare m t) cur)) as [before Hb].
  { apply mapM_is_Some, Forall_forall. intros t' Hin. unfold compare. simpl.
    destruct (Hmin t) as [m1 ->]; [by left|]. simpl. destruct (Hmin t') as [m2 ->]; [by right|]. done. }
  rewrite Hb. simpl. by eexists.
Qed.

Lemma elem_of_emplace i (t t' : Tx) cur : t' ∈ take i cur ++ t :: drop i cur ↔ t' = t ∨ t' ∈ cur.
Proof.
  rewrite elem_of_app, elem_of_cons. rewrite <-(take_drop i cur) at 3. rewrite elem_of_app. tauto.
Qed.
Lemma NoDup_emplace i (t : Tx) cur : t ∉ cur → NoDup cur → NoDup (take i cur ++ t :: drop i cur).
Proof.
  intros Ht Hn. rewrite <-Permutation_middle, take_drop. by constructor.
Qed.

(** What an insertion into the current transactions does. *)
Lemma add_current_spec t q :
  cur_ok q → find2 (m_currentByAddressAndNonce q) (tx_from t) (tx_nonce t) = None →
  ∃ cur byHash byAN,
    add_current (tx_sha3 t) t q = Some (with_current cur byHash byAN q) ∧
    cur_ok (with_current cur byHash byAN q) ∧
    (∀ t', t' ∈ cur ↔ t' = t ∨ t' ∈ m_current q) ∧
    length cur = S (length (m_current q)) ∧
    (∀ a n, find2 byAN a n = if decide (a = tx_from t ∧ n = tx_nonce t) then Some t
                             else find2 (m_currentByAddressAndNonce q) a n).
Proof.
  intros [Hnd Hh Hm Hn] Hnone. unfold add_current.
  set (byAN := <[tx_from t := _]> _).
  assert (∀ a n, find2 byAN a n = if decide (a = tx_from t ∧ n = tx_nonce t) then Some t
                             else find2 (m_currentByAddressAndNonce q) a n) as Hfind.
  { intros a n. unfold byAN. rewrite insert_set_entry, find2_set_entry.
    destruct (decide (a = tx_from t)) as [->|]; [|rewrite decide_False by tauto; done].
    rewrite om_find_insert, find2_default. destruct (Z.eqb_spec n (tx_nonce t)).
    - by rewrite decide_True by done.
    - by rewrite decide_False by tauto. }
  assert (map_ok byAN) as Hmap.
  { unfold byAN. rewrite insert_set_entry. apply map_ok_set_entry; [done|].
    by apply nonces_ok_insert, nonces_ok_default. }
  assert (t ∉ m_current q) as Htn by (rewrite Hn, Hnone; done).
  destruct (emplace_current_spec byAN t (m_current q)) as [i Hi].
  { intros t' Hin. apply elem_of_cons in Hin as Hin'.
    assert (find2 byAN (tx_from t') (tx_nonce t') = Some t') as (l&Hl&Hf)%bind_Some.
    { rewrite Hfind. destruct (decide _) as [[H1 H2]|Hne].
      - destruct Hin' as [->|Hc%Hn]; [done|]. by rewrite H1, H2, Hnone in Hc.
      - destruct Hin' as [->|Hc%Hn]; [tauto|done]. }
    eapply head_min_nonce; [done|]. by intros ->. }
  rewrite Hi. simpl. do 3 eexists. split; [done|].
  split; [|split; [intros t'; by rewrite elem_of_emplace|split; [|done]]].
  2:{ rewrite <-Permutation_middle, take_drop. done. }
  split; simpl; [by apply NoDup_emplace| |done|].
  - intros h t'. rewrite elem_of_emplace. destruct (decide (h = tx_sha3 t)) as [->|Hne].
    + rewrite lookup_insert_eq. split; [intros; simplify_eq; tauto|]. intros [He ?].
      f_equal. symmetry. by apply tx_sha3_inj.
    + rewrite lookup_insert_ne by done. rewrite Hh. naive_solver.
  - intros t'. rewrite elem_of_emplace, Hfind. destruct (decide _) as [[H1 H2]|Hne].
    + split; [|intros; simplify_eq; by left]. intros [->|Hc]; [done|].
      apply Hn in Hc. by rewrite H1, H2, Hnone in Hc.
    + rewrite Hn. split; [intros [->|?]; [tauto|done]|tauto].
Qed.

Lemma elem_of_erase t t' cur :
  NoDup cur → t' ∈ erase_current t cur ↔ t' ∈ cur ∧ t' ≠ t.
Proof.
  induction cur as [|x cur IH]; simpl; intros Hnd.
  { split; [by intros ?%elem_of_nil|]. by intros [?%elem_of_nil _]. }
  apply NoDup_cons in Hnd as [Hx Hnd]. rewrite elem_of_cons.
  destruct (Z.eqb_spec (tx_sha3 x) (tx_sha3 t)) as [->%tx_sha3_inj|Hne].
  - split; [intros Hin; split; [by right|]|]; [by intros ->|tauto].
  - rewrite elem_of_cons, IH by done. split; [|tauto].
    intros [->|[? ?]]; [|tauto]. split; [by left|]. by intros ->.
Qed.

Lemma erase_current_sublist t cur : erase_current t cur `sublist_of` cur.
Proof.
  induction cur as [|x cur IH]; simpl; [done|].
  destruct (_ =? _); [by apply sublist_cons|by apply sublist_skip].
Qed.
Lemma erase_current_length t cur :
  t ∈ cur → length cur = S (length (erase_current t cur)).
Proof.
  induction cur as [|x cur IH]; simpl; [by intros ?%elem_of_nil|].
  destruct (Z.eqb_spec (tx_sha3 x) (tx_sha3 t)); [done|].
  intros [->|Hin]%elem_of_cons; [done|]. simpl. by rewrite <-IH.
Qed.

Lemma om_find_erase_ok a n n' l :
  nonces_ok a l → om_find n' (om_erase n l) = if n' =? n then None else om_find n' l.
Proof. intros [Hs _]. by eapply om_find_erase. Qed.

(** Dropping a current transaction from the three containers. *)
Lemma cur_ok_erase t nonces q :
  cur_ok q → t ∈ m_current q → m_currentByAddressAndNonce q !! tx_from t = Some nonces →
  let byAN := set_entry (tx_from t) (om_erase (tx_nonce t) nonces) (m_currentByAddressAndNonce q) in
  cur_ok (with_current (erase_current t (m_current q)) (delete (tx_sha3 t) (m_currentByHash q)) byAN q) ∧
  ∀ a n, find2 byAN a n = if decide (a = tx_from t ∧ n = tx_nonce t) then None
                          else find2 (m_currentByAddressAndNonce q) a n.
Proof.
  intros [Hnd Hh Hm Hn] Ht Hnonces byAN. pose proof (Hm _ _ Hnonces) as [_ Hok].
  assert (∀ a n, find2 byAN a n = if decide (a = tx_from t ∧ n = tx_nonce t) then None
                          else find2 (m_currentByAddressAndNonce q) a n) as Hfind.
  { intros a n. unfold byAN. rewrite find2_set_entry.
    destruct (decide (a = tx_from t)) as [->|]; [|rewrite decide_False by tauto; done].
    rewrite (om_find_erase_ok (tx_from t)) by done. unfold find2. rewrite Hnonces. simpl.
    destruct (Z.eqb_spec n (tx_nonce t)).
    - by rewrite decide_True.
    - by rewrite decide_False by tauto. }
  split; [|done]. split; simpl.
  - eapply sublist_NoDup; [exact Hnd|apply erase_current_sublist].
  - intros h t'. rewrite elem_of_erase by done. destruct (decide (h = tx_sha3 t)) as [->|Hne].
    + rewrite lookup_delete_eq. split; [done|]. intros [->%tx_sha3_inj [_ ?]]. done.
    + rewrite lookup_delete_ne by done. rewrite Hh. split; [|tauto]. intros [<- ?].
      split_and!; try done. by intros ->.
  - unfold byAN. apply map_ok_set_entry; [done|]. by apply nonces_ok_erase.
  - intros t'. rewrite elem_of_erase, Hfind, Hn by done.
    destruct (decide _) as [[H1 H2]|Hne]; [|naive_solver].
    split; [|done]. rewrite H1, H2. intros [Ht' Hne]. apply Hn in Ht. congruence.
Qed.

(** [remove_WITH_LOCK] drops the transaction with the hash, if it is current. *)
Lemma remove_spec h q :
  cur_ok q →
  match m_currentByHash q !! h with
  | None => remove h q = Some (q, false) ∧ ∀ t, t ∈ m_current q → tx_sha3 t ≠ h
  | Some t =>
    ∃ cur byHash byAN,
      tx_sha3 t = h ∧ t ∈ m_current q ∧
      remove h q = Some (with_known (m_known q ∖ {[h]}) (with_current cur byHash byAN q), true) ∧
      cur_ok (with_current cur byHash byAN q) ∧
      (∀ t', t' ∈ cur ↔ t' ∈ m_current q ∧ t' ≠ t) ∧
      cur = erase_current t (m_current q) ∧
      (∀ a n, find2 byAN a n = if decide (a = tx_from t ∧ n = tx_nonce t) then None
                               else find2 (m_currentByAddressAndNonce q) a n)
  end.
Proof.
  intros Hok. unfold remove. destruct (m_currentByHash q !! h) as [t|] eqn:Ht.
  - pose proof Ht as [<- Hin]%(cur_hash q Hok).
    pose proof Hin as (nonces&Hnonces&_)%(cur_nonce q Hok)%bind_Some. rewrite Hnonces. simpl.
    destruct (cur_ok_erase t nonces q Hok Hin Hnonces) as [Hok' Hfind].
    do 3 eexists. split_and!; try done. intros t'. apply elem_of_erase, Hok.
  - split; [done|]. intros t Hin Hh.
    assert (m_currentByHash q !! h = Some t); [by apply (cur_hash q Hok)|congruence].
Qed.

(** ** Moving transactions from future to current *)

(** The run of consecutive nonces at the start of a list. *)
Fixpoint taken_run (nonce : Z) (l : list (Z * Tx)) : list (Z * Tx) :=
  match l with
  | (k, t) :: l => if tx_nonce t =? nonce then (k, t) :: taken_run (u256 (nonce + 1)) l else []
  | [] => []
  end.

Lemma move_current_spec nonce a l moved q :
  cur_ok q → nonces_ok a l →
  (∀ n t, (n, t) ∈ l → find2 (m_currentByAddressAndNonce q) a n = None) →
  ∃ cur byHash byAN taken rest moved',
    taken = taken_run nonce l ∧ l = taken ++ rest ∧
    move_current nonce l moved q =
      Some (with_future (m_future q) (m_futureSize q - Z.of_nat (length taken))
              (with_current cur byHash byAN q), rest, moved') ∧
    moved' = moved || negb (length taken =? 0)%nat ∧
    cur_ok (with_current cur byHash byAN q) ∧
    (∀ t, t ∈ cur ↔ t ∈ m_current q ∨ ∃ n, (n, t) ∈ taken) ∧
    length cur = (length taken + length (m_current q))%nat ∧
    (∀ a' n, find2 byAN a' n =
       match om_find n taken with
       | Some t => if decide (a' = a) then Some t else find2 (m_currentByAddressAndNonce q) a' n
       | None => find2 (m_currentByAddressAndNonce q) a' n
       end).
Proof.
  revert nonce moved q. induction l as [|[n t] l IH]; intros nonce moved q Hok Hl Hfree.
  - exists (m_current q), (m_currentByHash q), (m_currentByAddressAndNonce q), [], [], moved.
    destruct q; simpl in *. rewrite Z.sub_0_r, orb_false_r. split_and!; try done.
    intros t. split; [by left|]. intros [?|[n ?%elem_of_nil]]; done.
  - cbn [move_current taken_run]. destruct (Z.eqb_spec (tx_nonce t) nonce) as [Hnonce|Hnonce].
    2:{ exists (m_current q), (m_currentByHash q), (m_currentByAddressAndNonce q), [], ((n, t) :: l),
          moved. destruct q; simpl in *. rewrite Z.sub_0_r, orb_false_r. split_and!; try done.
        intros t'. split; [by left|]. intros [?|[n' ?%elem_of_nil]]; done. }
    destruct (proj2 Hl n t) as [Hn Ha]; [by left|]. subst n a.
    destruct (add_current_spec t q Hok) as (cur&byHash&byAN&Hadd&Hok1&Hin1&Hlen1&Hf1).
    { by apply (Hfree _ t); left. }
    rewrite Hadd. simpl.
    set (q1 := with_future (m_future q) (m_futureSize q - 1) (with_current cur byHash byAN q)).
    assert (nonces_ok (tx_from t) l) as Hl'.
    { eapply nonces_ok_sublist; [|done]. by apply sublist_cons. }
    destruct (IH (u256 (nonce + 1)) true q1) as
      (cur2&byHash2&byAN2&taken&rest&moved2&Htr&->&Hmove&Hmoved&Hok2&Hin2&Hlen2&Hf2); [|done| |].
    { by destruct Hok1. }
    { intros n' t' Hin. unfold q1. simpl. rewrite Hf1.
      destruct (decide _) as [[_ ->]|_]; [|apply (Hfree n' t'); by right].
      destruct Hl as [[_ Hs] _]. apply (om_sorted_above _ _ _ _ Hs) in Hin. lia. }
    exists cur2, byHash2, byAN2, ((tx_nonce t, t) :: taken), rest, moved2.
    split_and!; [by f_equal|done| | | | | |].
    + etrans; [exact Hmove|]. unfold q1, with_future, with_current. simpl. do 4 f_equal. lia.
    + rewrite Hmoved. simpl. by rewrite orb_true_r.
    + by destruct Hok2.
    + intros t'. rewrite Hin2. unfold q1. simpl. rewrite Hin1. split.
      * intros [[->|?]|[n' ?]]; [right; eexists; by left|by left|right; exists n'; by right].
      * intros [?|[n' [?|?]%elem_of_cons]]; simplify_eq; eauto.
    + rewrite Hlen2. unfold q1. simpl. rewrite Hlen1. lia.
    + intros a' n'. rewrite Hf2. unfold q1. simpl. rewrite Hf1.
      destruct (Z.eqb_spec n' (tx_nonce t)) as [->|Hne].
      * assert (om_find (tx_nonce t) taken = None) as ->.
        { destruct (om_find (tx_nonce t) taken) as [t'|] eqn:Hft; [|done].
          destruct Hl as [[_ Hs] _].
          assert ((tx_nonce t, t') ∈ taken) as Hin.
          { eapply om_find_elem; [|done]. eapply om_sorted_sublist; [|done].
            by apply sublist_inserts_r. }
          assert ((tx_nonce t, t') ∈ taken ++ rest) as Hin' by (apply elem_of_app; by left).
          apply (om_sorted_above _ _ _ _ Hs) in Hin'. lia. }
        destruct (decide (a' = tx_from t)) as [->|]; [by rewrite decide_True|].
        by rewrite decide_False by tauto.
      * by rewrite decide_False by tauto.
Qed.

(** Dropping a future transaction never finds the containers empty. *)
Lemma limit_future_spec fuel q :
  map_ok (m_future q) → m_futureSize q = total (m_future q) → 0 ≤ m_futureLimit q →
  total (m_future q) ≤ Z.of_nat fuel →
  ∃ fut, limit_future fuel q = Some (with_future fut (total fut) q) ∧ map_ok fut ∧
    total fut ≤ m_futureLimit q ∧
    ∀ a n t, find2 fut a n = Some t → find2 (m_future q) a n = Some t.
Proof.
  revert q. induction fuel as [|fuel IH]; intros q Hm Hsize Hlim Hfuel; simpl; rewrite Hsize;
    (destruct (Z.ltb_spec (m_futureLimit q) (total (m_future q))) as [Hlt|Hle];
     [|exists (m_future q); destruct q; simpl in *; subst; by split_and!]); [lia|].
  unfold drop_future. destruct (head (map_to_list (m_future q))) as [[a l]|] eqn:Hhead.
  2:{ apply head_None, map_to_list_empty_iff in Hhead. rewrite Hhead in Hlt.
      unfold total in Hlt. rewrite map_fold_empty in Hlt. lia. }
  simpl. assert (m_future q !! a = Some l) as Hl.
  { apply elem_of_map_to_list. destruct (map_to_list (m_future q)); simplify_eq/=. by left. }
  destruct (Hm a l Hl) as [Hne Hok]. destruct l as [|e l0] eqn:Hl0; [done|].
  rewrite <-Hl0 in *. clear e l0 Hl0. cbv beta iota.
  set (m' := set_entry a (removelast l) (m_future q)).
  assert (nonces_ok a (removelast l)) as Hrl by (eapply nonces_ok_sublist; [apply removelast_sublist|done]).
  assert (total m' = total (m_future q) - 1) as Htot.
  { unfold m'. rewrite total_set_entry, Hl. simpl. rewrite (removelast_length l) at 1 by done. lia. }
  replace (match l with [] => _ | _ => _ end)
    with (Some (with_future m' (m_futureSize q - 1) q)) by (by destruct l).
  simpl. destruct (IH (with_future m' (m_futureSize q - 1) q)) as (fut&Hfut&?&?&Hsub); simpl.
  - by apply map_ok_set_entry.
  - lia.
  - done.
  - lia.
  - exists fut. rewrite Hfut. split_and!; try done. intros a' n t Hf%Hsub. revert Hf. simpl.
    unfold m'. rewrite find2_set_entry. destruct (decide (a' = a)) as [->|]; [|done].
    rewrite (nonces_ok_find a) by done. unfold find2. rewrite Hl. simpl.
    rewrite (nonces_ok_find a) by done. intros Hin.
    eapply elem_of_sublist; [done|apply removelast_sublist].
Qed.

(** The members an operation on the containers does not touch. *)
Definition same_frame (q q' : Queue) : Prop :=
  m_dropped q' = m_dropped q ∧ m_limit q' = m_limit q ∧
  m_futureLimit q' = m_futureLimit q ∧ m_unverified q' = m_unverified q.

Lemma same_frame_trans q1 q2 q3 : same_frame q1 q2 → same_frame q2 q3 → same_frame q1 q3.
Proof. intros (?&?&?&?) (?&?&?&?). repeat split; congruence. Qed.

(** The transactions [promote] moves. *)
Definition promoted (t : Tx) (q : Queue) : list (Z * Tx) :=
  let nonce := u256 (tx_nonce t + 1) in
  taken_run nonce (filter (λ e, nonce ≤ e.1) (default [] (m_future q !! tx_from t))).

Lemma taken_run_none a nonce l :
  nonces_ok a l → om_find nonce l = None → taken_run nonce (filter (λ e, nonce ≤ e.1) l) = [].
Proof.
  intros Hl Hn. destruct (filter _ l) as [|[k t] l'] eqn:Hf; [done|]. simpl.
  destruct (Z.eqb_spec (tx_nonce t) nonce) as [He|]; [|done].
  assert ((k, t) ∈ l) as Hin.
  { assert ((k, t) ∈ filter (λ e, nonce ≤ e.1) l) as [_ ?]%list_elem_of_filter; [|done].
    rewrite Hf. by left. }
  destruct (proj2 Hl k t Hin) as [<- _]. apply (nonces_ok_find a) in Hin; [|done]. congruence.
Qed.

Lemma promote_spec t q :
  wf q →
  ∃ q' moved, promote t q = Some (q', moved) ∧ wf q' ∧ same_frame q q' ∧ m_known q' = m_known q ∧
    (∀ t', t' ∈ m_current q' ↔ t' ∈ m_current q ∨ ∃ n, (n, t') ∈ promoted t q) ∧
    (∀ t', queued q' t' ↔ queued q t').
Proof.
  intros Hwf. unfold promote. set (a := tx_from t). set (nonce := u256 (tx_nonce t + 1)).
  unfold promoted. fold a. fold nonce. destruct (m_future q !! a) as [l|] eqn:Hl; simpl.
  2:{ exists q, false. split_and!; try done. intros t'. split; [by left|].
      by intros [?|[n ?%elem_of_nil]]. }
  destruct (wf_future q Hwf a l Hl) as [Hne Hok].
  destruct (om_find nonce l) eqn:Hfn.
  2:{ exists q, false. split_and!; try done. intros t'. rewrite (taken_run_none a) by done.
      split; [by left|]. by intros [?|[n ?%elem_of_nil]]. }
  destruct Hwf as [Hcur Hfut Hdis Hsize Hlim].
  pose proof (om_split _ nonce l (proj1 Hok)) as Hsplit.
  set (below := filter (λ e, e.1 < nonce) l) in *. set (above := filter (λ e, nonce ≤ e.1) l) in *.
  assert (nonces_ok a above) as Hok'.
  { eapply nonces_ok_sublist; [|exact Hok]. rewrite Hsplit. by apply sublist_inserts_l. }
  destruct (move_current_spec nonce a above false q Hcur Hok') as
    (cur&byHash&byAN&taken&rest&moved&Htr&Hab&Hmove&_&Hcur'&Hin&Hlen&Hfind).
  { intros n t' Hin. destruct (Hdis a n) as [|Hf]; [done|]. unfold find2 in Hf. rewrite Hl in Hf.
    simpl in Hf. assert (om_find n l = Some t') as Hf'; [|congruence].
    apply (nonces_ok_find a); [done|]. rewrite Hsplit. apply elem_of_app. by right. }
  rewrite Hmove. simpl. do 2 eexists. split; [done|].
  assert (nonces_ok a (below ++ rest)) as Hbr.
  { eapply nonces_ok_sublist; [|exact Hok]. rewrite Hsplit, Hab.
    apply sublist_app; [done|by apply sublist_inserts_l]. }
  assert (∀ n t1, om_find n l = Some t1 ↔ om_find n taken = Some t1 ∨ om_find n (below ++ rest) = Some t1)
    as Hparts.
  { intros n t1. assert (nonces_ok a taken) as Ht.
    { eapply nonces_ok_sublist; [|exact Hok']. rewrite Hab. by apply sublist_inserts_r. }
    rewrite !(nonces_ok_find a) by done. rewrite Hsplit, Hab, !elem_of_app. tauto. }
  assert (∀ n t1 t2, om_find n taken = Some t1 → om_find n (below ++ rest) = Some t2 → False) as Hsep.
  { intros n t1 t2 H1 H2. destruct Hok as [Hs _]. rewrite Hsplit, Hab in Hs.
    apply (om_find_elem (-1)) in H1.
    2:{ eapply om_sorted_sublist; [|exact Hs]. by apply sublist_inserts_l, sublist_inserts_r. }
    apply (nonces_ok_find a) in H2; [|done]. apply elem_of_app in H2 as [H2|H2].
    - eapply (om_sorted_app _ below) in Hs; [|done|apply elem_of_app; by left]. lia.
    - rewrite app_assoc in Hs. eapply (om_sorted_app _ (below ++ taken)) in Hs;
        [|apply elem_of_app; by right|done]. lia. }
  split_and!; try done.
  - split; simpl; try done.
    + by destruct Hcur'.
    + by apply map_ok_set_entry.
    + intros a' n. rewrite find2_set_entry, Hfind. destruct (decide (a' = a)) as [->|Hne'].
      * destruct (om_find n taken) as [t1|] eqn:H1.
        { right. destruct (om_find n (below ++ rest)) eqn:H2; [|done]. by destruct (Hsep n t1 _ H1 H2). }
        destruct (Hdis a n) as [|Hf]; [by left|right]. unfold find2 in Hf. rewrite Hl in Hf.
        destruct (om_find n (below ++ rest)) as [t2|] eqn:H2; [|done].
        assert (om_find n l = Some t2) by (apply Hparts; by right). simpl in Hf. congruence.
      * destruct (om_find n taken); apply Hdis.
    + rewrite total_set_entry, Hl, Hsize. simpl. rewrite Hsplit at 1. rewrite Hab, !length_app. lia.
  - simpl. intros t'. by rewrite Hin, Htr.
  - intros t'. unfold queued, is_future. simpl. rewrite Hin, find2_set_entry.
    destruct (decide (tx_from t' = a)) as [Ha|Hne'].
    + unfold find2. rewrite Ha, Hl. simpl. rewrite Hparts.
      assert ((∃ n, (n, t') ∈ taken) ↔ om_find (tx_nonce t') taken = Some t') as ->; [|tauto].
      rewrite (nonces_ok_find a).
      2:{ eapply nonces_ok_sublist; [|exact Hok']. rewrite Hab. by apply sublist_inserts_r. }
      split; [|by eauto]. intros [n Hn]. destruct (proj2 Hok' n t') as [-> _]; [|done].
      rewrite Hab. apply elem_of_app. by left.
    + split; [|tauto]. intros [[?|[n Hn]]|?]; [by left| |by right]. destruct Hne'.
      apply (proj2 Hok' n). rewrite Hab. apply elem_of_app. by left.
Qed.

Lemma emit_wf e q : wf q → wf (emit e q).
Proof. intros [[] ? ? ? ?]. split; done. Qed.

Lemma makeCurrent_spec t q :
  wf q →
  ∃ q', makeCurrent t q = Some q' ∧ wf q' ∧ same_frame q q' ∧ m_known q' = m_known q ∧
    (∀ t', t' ∈ m_current q' ↔ t' ∈ m_current q ∨ ∃ n, (n, t') ∈ promoted t q) ∧
    (∀ t', queued q' t' → queued q t') ∧
    m_futureSize q' ≤ m_futureLimit q'.
Proof.
  intros Hwf. unfold makeCurrent.
  destruct (promote_spec t q Hwf) as (q1&moved&->&Hwf1&Hfr&Hk&Hcur&Hq). simpl.
  pose proof Hwf1 as [Hc1 Hf1 Hd1 Hs1 [_ Hl1]]. pose proof (total_nonneg (m_future q1)).
  destruct (limit_future_spec (Z.to_nat (m_futureSize q1)) q1 Hf1 Hs1 Hl1) as (fut&->&Hm&Hle&Hsub);
    [lia|]. simpl.
  set (q2 := with_future fut (total fut) q1).
  assert (wf q2) as Hwf2.
  { split; try done; [by destruct Hc1| |apply Hwf1]. intros a n. simpl.
    destruct (Hd1 a n) as [|Hn]; [by left|right]. destruct (find2 fut a n) as [t'|] eqn:Hf; [|done].
    apply Hsub in Hf. congruence. }
  assert (∀ t', queued q2 t' → queued q t') as Hq2.
  { intros t' Ht. apply Hq. destruct Ht as [|Ht]; [by left|right]. by apply Hsub. }
  destruct moved; eexists; (split; [done|]); split_and!; try done. by apply emit_wf.
Qed.

(** A transaction whose nonce is free becomes current. *)
Lemma insertCurrent_spec t q :
  wf q → find2 (m_currentByAddressAndNonce q) (tx_from t) (tx_nonce t) = None →
  find2 (m_future q) (tx_from t) (tx_nonce t) = None →
  ∃ q', insertCurrent (tx_sha3 t) t q = Some q' ∧ wf q' ∧ same_frame q q' ∧
    m_known q' = {[tx_sha3 t]} ∪ m_known q ∧ t ∈ m_current q' ∧
    (∀ t', queued q' t' → t' = t ∨ queued q t') ∧
    m_futureSize q' ≤ m_futureLimit q'.
Proof.
  intros Hwf Hc Hf. unfold insertCurrent. pose proof (wf_cur q Hwf) as Hok.
  assert (m_currentByHash q !! tx_sha3 t = None) as ->.
  { destruct (m_currentByHash q !! tx_sha3 t) as [t'|] eqn:Ht; [|done].
    apply (cur_hash q Hok) in Ht as [->%tx_sha3_inj Hin]. apply (cur_nonce q Hok) in Hin. congruence. }
  destruct (add_current_spec t q Hok Hc) as (cur&byHash&byAN&->&Hok1&Hin1&_&Hfind). simpl.
  set (q1 := with_current cur byHash byAN q).
  assert (wf q1) as Hwf1.
  { split; try done; [apply Hwf| |apply Hwf..]. intros a n. simpl. rewrite Hfind.
    destruct (decide _) as [[-> ->]|]; [by right|]. apply Hwf. }
  destruct (makeCurrent_spec t q1 Hwf1) as (q2&->&Hwf2&Hfr&Hk&Hcur&Hq&Hle). simpl.
  eexists. split; [done|]. split_and!; try done.
  - destruct Hwf2 as [[] ? ? ? ?]. by split.
  - simpl. by rewrite Hk.
  - apply Hcur. left. apply Hin1. by left.
  - intros t' Ht. destruct (Hq t') as [Hin|Ht']; [done| |by right; right].
    apply Hin1 in Hin as [->|?]; [by left|by right; left].
Qed.

Lemma remove_wf h q :
  wf q → known_ok q →
  ∃ q' b, remove h q = Some (q', b) ∧ wf q' ∧ known_ok q' ∧ same_frame q q' ∧
    (∀ t, queued q' t ↔ queued q t ∧ (tx_sha3 t = h → is_future q t)) ∧
    m_future q' = m_future q ∧ m_futureSize q' = m_futureSize q ∧
    (∀ t, m_currentByHash q !! h = Some t →
      m_current q' = erase_current t (m_current q) ∧
      (∀ a n, find2 (m_currentByAddressAndNonce q') a n =
         if decide (a = tx_from t ∧ n = tx_nonce t) then None
         else find2 (m_currentByAddressAndNonce q) a n)).
Proof.
  intros Hwf Hk. pose proof (wf_cur q Hwf) as Hok. pose proof (remove_spec h q Hok) as Hrem.
  destruct (m_currentByHash q !! h) as [t|].
  2:{ destruct Hrem as [Hrem Hn]. exists q, false. split_and!; try done. intros t. split; [|tauto].
      intros [Hin|Ht]; split; try done; [by left|intros ?; by destruct (Hn t)|by right]. }
  destruct Hrem as (cur&byHash&byAN&Hh&Hin&->&Hok'&Hcur&Hce&Hfind).
  assert (∀ t', is_future q t' → t' ≠ t) as Hnf.
  { intros t' Ht' ->. apply (cur_nonce q Hok) in Hin.
    destruct (wf_disjoint q Hwf (tx_from t) (tx_nonce t)); unfold is_future in *; congruence. }
  do 2 eexists. split; [done|].
  set (q' := with_known _ _).
  assert (∀ t', queued q' t' ↔ queued q t' ∧ (tx_sha3 t' = h → is_future q t')) as Hq.
  { intros t'. unfold queued at 1. simpl. rewrite Hcur. unfold queued. split.
    - intros [[Hin' Hne]|Hf]; [|by split; [right|]]. split; [by left|].
      rewrite <-Hh. by intros ->%tx_sha3_inj.
    - intros [[Hin'|Hf] Himp]; [|by right]. destruct (decide (tx_sha3 t' = h)) as [He|He].
      + right. by apply Himp.
      + left. split; [done|]. intros ->. done. }
  split_and!; try done.
  - destruct Hok'. split; try done; [apply Hwf| |apply Hwf..]. intros a n. simpl. rewrite Hfind.
    destruct (decide _); [by left|apply Hwf].
  - intros t' Ht'. pose proof Ht' as [Ht1 Ht2]%Hq. simpl. apply elem_of_difference.
    split; [by apply Hk|]. rewrite elem_of_singleton. intros He. specialize (Ht2 He).
    rewrite <-Hh in He. apply tx_sha3_inj in He. by apply (Hnf t').
  - intros t' ?; simplify_eq. by split.
Qed.

Lemma last_elem (t : Tx) l : last l = Some t → t ∈ l.
Proof. intros [l' ->]%last_Some. apply elem_of_app. right. by left. Qed.

(** The size limit of the current transactions. *)
Lemma limit_current_spec fuel q :
  wf q → known_ok q → (length (m_current q) ≤ fuel)%nat →
  ∃ q', limit_current fuel q = Some q' ∧ wf q' ∧ known_ok q' ∧ same_frame q q' ∧
    (∀ t, queued q' t → queued q t) ∧ m_futureSize q' = m_futureSize q ∧
    Z.of_nat (length (m_current q')) ≤ m_limit q' ∧
    (Z.of_nat (length (m_current q)) ≤ m_limit q → q' = q).
Proof.
  revert q. induction fuel as [|fuel IH]; intros q Hwf Hk Hlen; simpl;
    (destruct (Z.ltb_spec (m_limit q) (Z.of_nat (length (m_current q)))) as [Hlt|Hle];
     [|exists q; by split_and!]).
  { pose proof (wf_limits q Hwf). lia. }
  destruct (last (m_current q)) as [t|] eqn:Hlast.
  2:{ apply last_None in Hlast. rewrite Hlast in Hlt. simpl in Hlt.
      pose proof (wf_limits q Hwf). lia. }
  simpl. apply last_elem in Hlast. pose proof (wf_cur q Hwf) as Hok.
  assert (m_currentByHash q !! tx_sha3 t = Some t) as Hht by by apply (cur_hash q Hok).
  destruct (remove_wf (tx_sha3 t) q Hwf Hk) as (q1&b&->&Hwf1&Hk1&Hfr&Hq&_&Hs1&Hrem). simpl.
  destruct (Hrem t Hht) as [Hcur _].
  destruct (IH q1) as (q2&->&?&?&Hfr2&Hq2&Hs2&?&_); [done|done| |].
  { rewrite Hcur. pose proof (erase_current_length t (m_current q) Hlast). lia. }
  exists q2. split_and!; try done.
  - by eapply same_frame_trans.
  - intros t' Ht'. by apply Hq, Hq2.
  - congruence.
  - lia.
Qed.

(** ** Importing *)

(** The transaction held for a sender and a nonce. *)
Definition slot (q : Queue) (a n : Z) : option Tx :=
  match find2 (m_currentByAddressAndNonce q) a n with
  | Some t => Some t
  | None => find2 (m_future q) a n
  end.

Lemma queued_slot q t : wf q → queued q t ↔ slot q (tx_from t) (tx_nonce t) = Some t.
Proof.
  intros Hwf. unfold queued, slot, is_future. rewrite (cur_nonce q (wf_cur q Hwf)).
  destruct (wf_disjoint q Hwf (tx_from t) (tx_nonce t)) as [-> | ->]; [naive_solver|].
  destruct (find2 (m_currentByAddressAndNonce q) _ _); naive_solver.
Qed.

Lemma erase_future_wf q a n fs t :
  wf q → known_ok q → m_future q !! a = Some fs → om_find n fs = Some t →
  let q' := with_future (set_entry a (om_erase n fs) (m_future q)) (m_futureSize q - 1) q in
  wf q' ∧ known_ok q' ∧ find2 (m_future q') a n = None ∧
  (∀ t', queued q' t' → queued q t').
Proof.
  intros [Hc Hf Hd Hs Hl] Hk Hfs Ht q'. pose proof (Hf a fs Hfs) as [_ Hok].
  assert (∀ a' n', find2 (m_future q') a' n' =
    if decide (a' = a ∧ n' = n) then None else find2 (m_future q) a' n') as Hfind.
  { intros a' n'. simpl. rewrite find2_set_entry.
    destruct (decide (a' = a)) as [->|]; [|by rewrite decide_False by tauto].
    rewrite (om_find_erase_ok a) by done. unfold find2. rewrite Hfs. simpl.
    destruct (Z.eqb_spec n' n); [by rewrite decide_True|by rewrite decide_False by tauto]. }
  assert (∀ t', queued q' t' → queued q t') as Hq.
  { intros t' [?|Ht']; [by left|right]. unfold is_future in *. rewrite Hfind in Ht'.
    by destruct (decide _). }
  split; [|split; [|split; [|done]]].
  - split; try done.
    + by destruct Hc.
    + simpl. apply map_ok_set_entry; [done|]. by apply nonces_ok_erase.
    + intros a' n'. rewrite Hfind. destruct (decide _); [by right|apply Hd].
    + simpl. rewrite total_set_entry, Hfs, Hs. simpl. rewrite (om_erase_length n t fs) by done. lia.
  - intros t' Ht'. by apply Hk, Hq.
  - rewrite Hfind. by rewrite decide_True.
Qed.

Definition manage_post (t : Tx) (q q' : Queue) (r : ImportResult) : Prop :=
  match r with
  | OverbidGasPrice =>
    q' = q ∧ ∃ t', slot q (tx_from t) (tx_nonce t) = Some t' ∧ tx_gasPrice t < tx_gasPrice t'
  | Success =>
    tx_sha3 t ∉ m_known q ∧
    (∀ t', slot q (tx_from t) (tx_nonce t) = Some t' →
       tx_gasPrice t' ≤ tx_gasPrice t ∧ ¬ queued q' t') ∧
    (∀ t', queued q' t' → t' = t ∨ queued q t') ∧
    Z.of_nat (length (m_current q')) ≤ m_limit q' ∧ m_futureSize q' ≤ m_futureLimit q'
  | _ => False
  end.

(** The insertion at the end of [manageImport_WITH_LOCK]. *)
Lemma manage_insert_spec t q :
  wf q → known_ok q → slot q (tx_from t) (tx_nonce t) = None →
  ∃ q', (q ← insertCurrent (tx_sha3 t) t q; q ← limit_current (length (m_current q)) q;
         Some (emit onReady q, Success)) = Some (q', Success) ∧
    wf q' ∧ known_ok q' ∧ same_frame q q' ∧
    (∀ t', queued q' t' → t' = t ∨ queued q t') ∧
    Z.of_nat (length (m_current q')) ≤ m_limit q' ∧ m_futureSize q' ≤ m_futureLimit q'.
Proof.
  intros Hwf Hk Hslot. unfold slot in Hslot.
  destruct (find2 (m_currentByAddressAndNonce q) _ _) eqn:Hc; [done|].
  destruct (insertCurrent_spec t q Hwf Hc Hslot) as (q1&->&Hwf1&Hfr1&Hk1&Hin1&Hq1&Hle1). simpl.
  assert (known_ok q1) as Hko1.
  { intros t' Ht'. rewrite Hk1. apply elem_of_union.
    destruct (Hq1 t' Ht') as [->|?]; [left; by apply elem_of_singleton|right; by apply Hk]. }
  destruct (limit_current_spec (length (m_current q1)) q1 Hwf1 Hko1) as
    (q2&->&Hwf2&Hko2&Hfr2&Hq2&Hs2&Hlen&_); [done|]. simpl.
  eexists. split; [done|]. split_and!.
  - by apply emit_wf.
  - done.
  - by eapply same_frame_trans.
  - intros t' Ht'. by apply Hq1, Hq2.
  - done.
  - simpl. rewrite Hs2. by destruct Hfr2 as (_&_&->&_).
Qed.

Lemma manageImport_spec t q :
  wf q → known_ok q → tx_sha3 t ∉ m_known q →
  ∃ q' r, manageImport (tx_sha3 t) t q = Some (q', r) ∧ wf q' ∧ known_ok q' ∧ same_frame q q' ∧
    manage_post t q q' r.
Proof.
  intros Hwf Hk Hnk. unfold manageImport, manage_post.
  assert (¬ queued q t) as Hnq by (intros Hq; by apply Hnk, Hk).
  change (m_currentByAddressAndNonce q !! tx_from t ≫= om_find (tx_nonce t)) with
    (find2 (m_currentByAddressAndNonce q) (tx_from t) (tx_nonce t)).
  destruct (find2 (m_currentByAddressAndNonce q) _ _) as [t'|] eqn:Hc.
  - destruct (find2_ok _ _ _ _ (cur_map q (wf_cur q Hwf)) Hc) as [Hfrom Hnonce].
    assert (slot q (tx_from t) (tx_nonce t) = Some t') as Hslot by (unfold slot; by rewrite Hc).
    assert (t' ∈ m_current q) as Hin by (apply (cur_nonce q (wf_cur q Hwf)); congruence).
    destruct (Z.ltb_spec (tx_gasPrice t) (tx_gasPrice t')); [by eexists _, OverbidGasPrice; split_and!; eauto|].
    destruct (remove_wf (tx_sha3 t') q Hwf Hk) as (q1&b&->&Hwf1&Hk1&Hfr1&Hq1&Hf1&_&Hrem). simpl.
    destruct (Hrem t') as [_ Hfind]; [by apply (cur_hash q (wf_cur q Hwf))|].
    assert (find2 (m_future q) (tx_from t) (tx_nonce t) = None) as Hnf.
    { destruct (wf_disjoint q Hwf (tx_from t) (tx_nonce t)); [congruence|done]. }
    assert (slot q1 (tx_from t) (tx_nonce t) = None) as Hs1.
    { unfold slot. rewrite Hfind, Hf1. by rewrite decide_True. }
    destruct (manage_insert_spec t (emit (onReplaced (tx_sha3 t')) q1)) as
      (q2&Hins&Hwf2&Hk2&Hfr2&Hq2&?&?); [by apply emit_wf|done|done|].
    exists q2, Success. rewrite Hf1. split.
    { revert Hnf Hins. unfold find2. destruct (m_future q !! tx_from t); simpl; [intros ->|]; done. }
    split_and!; try done; [by eapply same_frame_trans| |].
    + intros t2 ?; simplify_eq. split; [done|]. intros Hq%Hq2.
      destruct Hq as [->|Hq]; [by apply Hnq; left|].
      apply (Hq1 t') in Hq as [_ Hq]. specialize (Hq eq_refl). unfold is_future in Hq.
      rewrite Hfrom, Hnonce in Hq. congruence.
    + intros t2 [->|Hq]%Hq2; [by left|right]. by apply (Hq1 t2).
  - destruct (m_future q !! tx_from t) as [fs|] eqn:Hfs;
      [destruct (om_find (tx_nonce t) fs) as [t'|] eqn:Ht'|].
    + assert (slot q (tx_from t) (tx_nonce t) = Some t') as Hslot.
      { unfold slot. rewrite Hc. unfold find2. by rewrite Hfs. }
      destruct (Z.ltb_spec (tx_gasPrice t) (tx_gasPrice t'));
        [by eexists _, OverbidGasPrice; split_and!; eauto|].
      destruct (erase_future_wf q _ _ fs t' Hwf Hk Hfs Ht') as (Hwf1&Hk1&Hn1&Hq1).
      set (q1 := with_future _ _ q) in *.
      destruct (manage_insert_spec t q1 Hwf1 Hk1) as (q2&->&Hwf2&Hk2&Hfr2&Hq2&?&?).
      { unfold slot. by rewrite Hn1, Hc || (simpl; rewrite Hc). }
      exists q2, Success. split_and!; try done.
      * intros t2 ?; simplify_eq. split; [done|]. intros Hq%Hq2.
        destruct Hq as [->|Hq].
        -- apply Hnq. right. unfold is_future, find2. by rewrite Hfs.
        -- apply (queued_slot q1 t' Hwf1) in Hq. unfold slot in Hslot. rewrite Hc in Hslot.
           destruct (find2_ok _ _ _ _ (wf_future q Hwf) Hslot) as [E1 E2].
           rewrite E1, E2 in Hq. unfold slot in Hq. rewrite Hn1 in Hq. simpl in Hq.
           by rewrite Hc in Hq.
      * intros t2 [->|Hq]%Hq2; [by left|right]. by apply Hq1.
    + destruct (manage_insert_spec t q Hwf Hk) as (q2&->&Hwf2&Hk2&Hfr2&Hq2&?&?).
      { unfold slot. rewrite Hc. unfold find2. by rewrite Hfs. }
      exists q2, Success. split_and!; try done. intros t2. unfold slot. rewrite Hc.
      unfold find2. rewrite Hfs. simpl. congruence.
    + destruct (manage_insert_spec t q Hwf Hk) as (q2&->&Hwf2&Hk2&Hfr2&Hq2&?&?).
      { unfold slot. rewrite Hc. unfold find2. by rewrite Hfs. }
      exists q2, Success. split_and!; try done. intros t2. unfold slot. rewrite Hc.
      unfold find2. by rewrite Hfs.
Qed.

(** ** Moving transactions from current to future *)

Lemma future_loop_spec a l target size cur byHash :
  nonces_ok a l → nonces_ok a target → (∀ n t, (n, t) ∈ l → om_find n target = None) → NoDup cur →
  let '(target', size', cur', byHash') := future_loop l target size cur byHash in
  nonces_ok a target' ∧
  (∀ n, om_find n target' = match om_find n l with Some t => Some t | None => om_find n target end) ∧
  size' = size + Z.of_nat (length l) ∧ length target' = (length target + length l)%nat ∧
  NoDup cur' ∧ (∀ t, t ∈ cur' ↔ t ∈ cur ∧ ∀ n, (n, t) ∉ l) ∧
  (∀ h t, byHash' !! h = Some t ↔ byHash !! h = Some t ∧ ∀ n t', (n, t') ∈ l → tx_sha3 t' ≠ h).
Proof.
  revert target size cur byHash. induction l as [|[k x] l IH]; intros target size cur byHash Hl Ht Hfree Hnd.
  { simpl. split_and!; try done; try lia.
    - intros t. split; [|tauto]. intros ?. split; [done|]. by intros n ?%elem_of_nil.
    - intros h t. split; [|tauto]. intros ?. split; [done|]. by intros n t' ?%elem_of_nil. }
  destruct (proj2 Hl k x) as [<- Hax]; [by left|]. simpl.
  rewrite (Hfree (tx_nonce x) x) by by left.
  assert (nonces_ok a l) as Hl' by (eapply nonces_ok_sublist; [by apply sublist_cons|exact Hl]).
  assert (∀ n t, (n, t) ∈ l → n ≠ tx_nonce x) as Hne.
  { intros n t Hin. destruct Hl as [[_ Hs] _]. apply (om_sorted_above _ _ _ _ Hs) in Hin. lia. }
  assert (∀ n t, (n, t) ∈ l → om_find n (om_insert (tx_nonce x) x target) = None) as Hfree'.
  { intros n t Hin. rewrite om_find_insert. destruct (Z.eqb_spec n (tx_nonce x)); [by destruct (Hne n t)|].
    apply (Hfree n t). by right. }
  assert (nonces_ok a (om_insert (tx_nonce x) x target)) as Ht' by (rewrite <-Hax in *; by apply nonces_ok_insert).
  specialize (IH _ (size + 1) (erase_current x cur) (delete (tx_sha3 x) byHash) Hl' Ht' Hfree').
  destruct (future_loop _ _ _ _ _) as [[[target' size'] cur'] byHash'].
  destruct IH as (H1&H2&H3&H4&H5&H6&H7).
  { eapply sublist_NoDup; [exact Hnd|apply erase_current_sublist]. }
  split_and!; try done.
  - intros n. rewrite H2, om_find_insert. destruct (Z.eqb_spec n (tx_nonce x)) as [->|]; [|done].
    destruct (om_find (tx_nonce x) l) as [t|] eqn:Hf; [|done].
    apply (nonces_ok_find a) in Hf; [|done]. by destruct (Hne (tx_nonce x) t).
  - lia.
  - rewrite H4, om_insert_length by (by apply (Hfree _ x); left). lia.
  - intros t. rewrite H6, elem_of_erase by done. split.
    + intros [[? ?] Hn]. split; [done|]. intros n [?|?]%elem_of_cons; [by simplify_eq|by apply (Hn n)].
    + intros [? Hn]. split_and!; [done| |].
      * intros ->. apply (Hn (tx_nonce x)). by left.
      * intros n ?. apply (Hn n). by right.
  - intros h t. rewrite H7, lookup_delete_Some. split.
    + intros [[? ?] Hn]. split; [done|]. intros n t' [?|?]%elem_of_cons; [by simplify_eq|by eapply Hn].
    + intros [? Hn]. split_and!; [|done|].
      * apply (Hn (tx_nonce x)). by left.
      * intros n t' ?. apply (Hn n). by right.
Qed.

(** The transactions of a sender from a nonce on. *)
Lemma above_spec q a queue n0 t :
  cur_ok q → m_currentByAddressAndNonce q !! a = Some queue →
  (∃ n, (n, t) ∈ filter (λ e, n0 ≤ e.1) queue) ↔
  t ∈ m_current q ∧ tx_from t = a ∧ n0 ≤ tx_nonce t.
Proof.
  intros [Hnd Hh Hm Hn] Hq. destruct (Hm a queue Hq) as [_ Hok].
  assert ((tx_nonce t, t) ∈ queue ↔ t ∈ m_current q ∧ tx_from t = a) as Hqin.
  { rewrite <-(nonces_ok_find a), Hn by done. split.
    - intros Hfind. destruct (proj2 Hok (tx_nonce t) t) as [_ Ha]; [by apply (nonces_ok_find a)|].
      split; [|done]. unfold find2. by rewrite Ha, Hq.
    - intros [Hfind Ha]. revert Hfind. unfold find2. by rewrite Ha, Hq. }
  rewrite (assoc (∧)), <-Hqin. setoid_rewrite list_elem_of_filter. simpl. split.
  - intros [n [? Hin]]. by destruct (proj2 Hok n t Hin) as [<- _].
  - intros [? ?]. by exists (tx_nonce t).
Qed.

(** [setFuture] moves the transaction and all later ones of its sender; no
    transaction is lost. *)
Lemma setFuture_wf h q :
  wf q → let q' := setFuture h q in
  wf q' ∧ same_frame q q' ∧ m_known q' = m_known q ∧ (∀ t, queued q' t ↔ queued q t) ∧
  ∀ st, m_currentByHash q !! h = Some st →
    ∀ t, is_future q' t ↔
      is_future q t ∨ t ∈ m_current q ∧ tx_from t = tx_from st ∧ tx_nonce st ≤ tx_nonce t.
Proof.
  intros Hwf. unfold setFuture. destruct (m_currentByHash q !! h) as [st|] eqn:Hst; [|done].
  destruct Hwf as [Hcur Hf Hd Hs Hlim]. pose proof Hcur as [Hnd Hh Hm Hn].
  apply Hh in Hst as [Hsh Hin]. pose proof Hin as (queue&Hq&_)%Hn%bind_Some. rewrite Hq.
  simpl (default [] (Some queue)). set (a := tx_from st) in *.
  destruct (Hm a queue Hq) as [_ Hok]. set (target := default [] (m_future q !! a)).
  pose proof (nonces_ok_default (m_future q) a Hf : nonces_ok a target) as Htok.
  pose proof (om_split _ (tx_nonce st) queue (proj1 Hok)) as Hsplit.
  pose proof (λ t, above_spec q a queue (tx_nonce st) t Hcur Hq) as Habove.
  set (above := filter (λ e, tx_nonce st ≤ e.1) queue) in *.
  set (below := filter (λ e, e.1 < tx_nonce st) queue) in *.
  assert (nonces_ok a above) as Haok
    by (eapply nonces_ok_sublist; [|exact Hok]; rewrite Hsplit; by apply sublist_inserts_l).
  assert (nonces_ok a below) as Hbok
    by (eapply nonces_ok_sublist; [|exact Hok]; rewrite Hsplit; by apply sublist_inserts_r).
  assert (∀ n, om_find n queue ≠ None → om_find n target = None) as Hfree.
  { intros n Hn'. unfold target. rewrite <-find2_default. destruct (Hd a n) as [He|]; [|done].
    unfold find2 in He. by rewrite Hq in He. }
  assert (∀ n t, (n, t) ∈ above → om_find n queue = Some t) as Hab.
  { intros n t Hi. apply (nonces_ok_find a); [done|]. rewrite Hsplit. apply elem_of_app. by right. }
  pose proof (future_loop_spec a above target (m_futureSize q) (m_current q) (m_currentByHash q) Haok Htok)
    as Hloop.
  destruct (future_loop _ _ _ _ _) as [[[target' size'] cur'] byHash'].
  destruct Hloop as (H1&H2&H3&H4&H5&H6&H7); [|done|].
  { intros n t Hi. apply Hfree. by rewrite (Hab n t Hi). }
  assert (<[a := target']> (m_future q) = set_entry a target' (m_future q)) as ->.
  { unfold set_entry. destruct target' as [|e target']; [|done]. exfalso.
    assert (∃ n, (n, st) ∈ above) as [n Hi] by (apply Habove; split_and!; done || lia).
    apply (nonces_ok_find a) in Hi; [|done]. specialize (H2 n). simpl in H2. by rewrite Hi in H2. }
  assert (∀ t, find2 (set_entry a target' (m_future q)) (tx_from t) (tx_nonce t) = Some t ↔
    is_future q t ∨ ∃ n, (n, t) ∈ above) as Hfut.
  { intros t. rewrite find2_set_entry. unfold is_future. destruct (decide (tx_from t = a)) as [Ha|Hne].
    - rewrite Ha, H2, find2_default. fold target. destruct (om_find (tx_nonce t) above) as [t1|] eqn:E1.
      + pose proof E1 as E1'. apply (nonces_ok_find a) in E1; [|done].
        rewrite (Hfree (tx_nonce t)) by (by rewrite (Hab _ t1 E1)). split.
        * intros ?; simplify_eq. right. by eexists.
        * intros [?|[n Hi]]; [done|]. destruct (proj2 Haok n t Hi) as [<- _].
          apply (nonces_ok_find a) in Hi; [|done]. congruence.
      + split; [by left|]. intros [?|[n Hi]]; [done|]. destruct (proj2 Haok n t Hi) as [<- _].
        apply (nonces_ok_find a) in Hi; [|done]. congruence.
    - split; [by left|]. intros [?|[n Hi]]; [done|]. by destruct (proj2 Haok n t Hi). }
  assert (∀ t, t ∈ cur' ↔ t ∈ m_current q ∧ ¬ ∃ n, (n, t) ∈ above) as Hcur'.
  { intros t. rewrite H6. naive_solver. }
  assert (∀ n t, om_find n below = Some t → om_find n queue = Some t ∧ om_find n above = None) as Hbel.
  { intros n t Hi. apply (nonces_ok_find a) in Hi; [|done]. split.
    - apply (nonces_ok_find a); [done|]. rewrite Hsplit. apply elem_of_app. by left.
    - destruct (om_find n above) as [t'|] eqn:E; [|done]. apply (nonces_ok_find a) in E; [|done].
      destruct Hok as [Hsq _]. rewrite Hsplit in Hsq. eapply (om_sorted_app _ below) in Hsq; [|done..]. lia. }
  split; [|split; [done|split; [done|split]]].
  2:{ intros t. unfold queued, is_future. simpl. rewrite Hcur', Hfut.
      destruct (decide (tx_from t = a ∧ tx_nonce st ≤ tx_nonce t)) as [Hd'|Hd'].
      - split; [|intros [?|?]; [right; right; by apply Habove|by right; left]].
        intros [[? _]|[?|?%Habove]]; [by left|by right|by left; destruct_and!].
      - split; [|intros [?|?]; [left; split; [done|]; rewrite Habove; tauto|by right; left]].
        intros [[? _]|[?|?%Habove]]; [by left|by right|by left; destruct_and!]. }
  2:{ intros st' ?; simplify_eq. intros t. unfold is_future at 1. simpl. by rewrite Hfut, Habove. }
  split; simpl; [split; simpl| | | |done].
  - done.
  - intros h' t. rewrite H7, Hh, Hcur'. split.
    + intros [[<- ?] Hn']. split_and!; try done. intros [n Hi]. by apply (Hn' n t).
    + intros (<-&?&Hn'). split_and!; try done. intros n t' Hi ->%tx_sha3_inj. by apply Hn'; exists n.
  - by apply map_ok_set_entry.
  - intros t. rewrite Hcur', find2_set_entry, Hn. destruct (decide (tx_from t = a)) as [Ha|Hne].
    + rewrite Ha. unfold find2. rewrite Hq. simpl. split.
      * intros [Hf' Hna]. apply (nonces_ok_find a) in Hf'; [|done]. rewrite Hsplit in Hf'.
        apply elem_of_app in Hf' as [?|?]; [by apply (nonces_ok_find a)|]. destruct Hna. by eexists.
      * intros [E1 E2]%Hbel. split; [done|]. intros [n Hi].
        destruct (proj2 Haok n t Hi) as [<- _]. apply (nonces_ok_find a) in Hi; [|done]. congruence.
    + split; [tauto|]. intros ?. split; [done|]. intros [n Hi]. by destruct (proj2 Haok n t Hi).
  - by apply map_ok_set_entry.
  - intros a' n. rewrite !find2_set_entry. destruct (decide (a' = a)) as [->|]; [|apply Hd].
    destruct (om_find n below) as [t|] eqn:Eb; [right|by left].
    destruct (Hbel n t Eb) as [E1 E2]. rewrite H2, E2. apply Hfree. by rewrite E1.
  - rewrite total_set_entry, H3, Hs. fold target. lia.
Qed.

(** ** Runs of operations *)

Inductive op :=
| Op_import (t : Tx) (ik : IfDropped)
| Op_import_rlp (data : bytes) (ik : IfDropped)
| Op_drop (h : Z)
| Op_dropGood (t : Tx)
| Op_setFuture (h : Z)
| Op_clear
| Op_enqueue (items : list bytes) (nodeId : Z)
| Op_verify.

(** A verifier thread waits while there is nothing to verify. *)
Definition exec (o : op) (q : Queue) : option Queue :=
  match o with
  | Op_import t ik => '(q, _) ← import t ik q; Some q
  | Op_import_rlp d ik => '(q, _) ← import_rlp d ik q; Some q
  | Op_drop h => drop_tx h q
  | Op_dropGood t => dropGood t q
  | Op_setFuture h => Some (setFuture h q)
  | Op_clear => Some (clear q)
  | Op_enqueue items n => Some (enqueue items n q)
  | Op_verify => match m_unverified q with [] => Some q | _ => verify_one q end
  end.
Fixpoint run (ops : list op) (q : Queue) : option Queue :=
  match ops with
  | [] => Some q
  | o :: ops => q ← exec o q; run ops q
  end.

Lemma with_unverified_ok l q :
  wf q → known_ok q → wf (with_unverified l q) ∧ known_ok (with_unverified l q).
Proof. intros [[] ? ? ? ?] Hk. split; [by split|exact Hk]. Qed.

Lemma import_ok t ik q :
  wf q → known_ok q →
  ∃ q' r, import t ik q = Some (q', r) ∧ wf q' ∧ known_ok q' ∧
    match r with
    | ZeroSignature => q' = q ∧ tx_hasZeroSignature t = true
    | AlreadyKnown => q' = q ∧ tx_sha3 t ∈ m_known q
    | AlreadyInChain => q' = q ∧ tx_sha3 t ∈ m_dropped q ∧ ik = Ignore
    | r => manage_post t q q' r
    end.
Proof.
  intros Hwf Hk. unfold import, check.
  destruct (tx_hasZeroSignature t) eqn:Hz; [by exists q, ZeroSignature|].
  destruct (decide (tx_sha3 t ∈ m_known q)) as [|Hnk]; [by exists q, AlreadyKnown|].
  assert (∃ q' r, manageImport (tx_sha3 t) t q = Some (q', r) ∧ wf q' ∧ known_ok q' ∧
    match r with
    | ZeroSignature => q' = q ∧ false = true
    | AlreadyKnown => q' = q ∧ tx_sha3 t ∈ m_known q
    | AlreadyInChain => q' = q ∧ tx_sha3 t ∈ m_dropped q ∧ ik = Ignore
    | r => manage_post t q q' r
    end) as Hm.
  { destruct (manageImport_spec t q Hwf Hk Hnk) as (q'&r&?&?&?&_&Hp). exists q', r.
    split_and!; try done. by destruct r. }
  destruct (decide _) as [Hd|]; [|exact Hm]. destruct ik; [|exact Hm].
  by exists q, AlreadyInChain.
Qed.

Lemma clear_ok q : 0 ≤ m_limit q ∧ 0 ≤ m_futureLimit q → wf (clear q) ∧ known_ok (clear q).
Proof.
  intros Hl. split.
  - split; simpl; try done; [split; simpl|by right].
    + constructor.
    + intros h t. rewrite lookup_empty. split; [done|]. by intros [_ ?%elem_of_nil].
    + by intros a l.
    + intros t. split; [by intros ?%elem_of_nil|]. done.
  - intros t [?%elem_of_nil|Hf]; [done|]. unfold is_future, find2 in Hf. simpl in Hf.
    by rewrite lookup_empty in Hf.
Qed.

Lemma exec_ok o q : wf q → known_ok q → ∃ q', exec o q = Some q' ∧ wf q' ∧ known_ok q'.
Proof.
  intros Hwf Hk. destruct o as [t ik|d ik|h|t|h| |items n|]; simpl.
  - destruct (import_ok t ik q Hwf Hk) as (q'&r&->&?&?&_). by exists q'.
  - unfold import_rlp. destruct (tx_parse d) as [t|]; [|by exists q].
    destruct (import_ok t ik q Hwf Hk) as (q'&r&->&?&?&_). by exists q'.
  - unfold drop_tx. destruct (decide _); [|by exists q].
    set (q1 := with_dropped _ q). assert (wf q1) as Hwf1 by (destruct Hwf as [[] ? ? ? ?]; by split).
    destruct (remove_wf h q1 Hwf1 Hk) as (q'&b&->&?&?&_). by exists q'.
  - unfold dropGood. destruct (makeCurrent_spec t q Hwf) as (q1&->&Hwf1&_&Hk1&_&Hq&_). simpl.
    assert (known_ok q1) by (intros t' Ht'; rewrite Hk1; by apply Hk, Hq).
    destruct (decide _); [|by exists q1].
    destruct (remove_wf (tx_sha3 t) q1 Hwf1) as (q'&b&->&?&?&_); [done|]. by exists q'.
  - destruct (setFuture_wf h q Hwf) as (?&_&Hk1&Hq&_). eexists. split_and!; [done..|].
    intros t' Ht'. rewrite Hk1. by apply Hk, Hq.
  - eexists. split; [done|]. by apply clear_ok, Hwf.
  - eexists. split; [done|]. revert q Hwf Hk. induction items as [|d items IH]; intros q Hwf Hk; [done|].
    simpl. destruct (_ <=? _); [done|].
    destruct (with_unverified_ok (m_unverified q ++ [(d, n)]) q Hwf Hk). by apply IH.
  - destruct (m_unverified q) as [|[d n] rest] eqn:Hu; [by exists q|].
    unfold verify_one. rewrite Hu. destruct (with_unverified_ok rest q Hwf Hk).
    destruct (tx_parse_cheap d) as [t|]; [|by eexists].
    destruct (import_ok t Ignore (with_unverified rest q)) as (q'&r&->&?&?&_); [done..|].
    simpl. eexists. split_and!; [done|by apply emit_wf|done].
Qed.

Lemma run_ok ops q : wf q → known_ok q → ∃ q', run ops q = Some q' ∧ wf q' ∧ known_ok q'.
Proof.
  revert q. induction ops as [|o ops IH]; intros q Hwf Hk; [by exists q|]. simpl.
  destruct (exec_ok o q Hwf Hk) as (q1&->&?&?). by apply IH.
Qed.

Lemma run_new_ok limit futureLimit ops :
  0 ≤ limit → 0 ≤ futureLimit →
  ∃ q, run ops (empty_queue limit futureLimit) = Some q ∧ wf q ∧ known_ok q.
Proof.
  intros Hl Hf. apply run_ok; apply (clear_ok (empty_queue limit futureLimit)); done.
Qed.

(** ** Properties *)



(** [setFuture] of a current transaction moves it and every current
    transaction of its sender with a higher nonce to the future ones, and
    nothing else; no transaction leaves the queue, and no hash becomes known
    or unknown. *)
Theorem setFuture_spec h q st :
  wf q → m_currentByHash q !! h = Some st →
  let q' := setFuture h q in
  (∀ t, queued q' t ↔ queued q t) ∧ m_known q' = m_known q ∧
  (∀ t, t ∈ m_current q' ↔
     t ∈ m_current q ∧ ¬ (tx_from t = tx_from st ∧ tx_nonce st ≤ tx_nonce t)) ∧
  (∀ t, is_future q' t ↔
     is_future q t ∨ t ∈ m_current q ∧ tx_from t = tx_from st ∧ tx_nonce st ≤ tx_nonce t).
Proof.
  intros Hwf Hst q'. destruct (setFuture_wf h q Hwf) as (Hwf'&_&Hk&Hq&Hf).
  specialize (Hf st Hst). fold q' in Hwf', Hk, Hq, Hf. split_and!; try done.
  assert (∀ q0 t, wf q0 → t ∈ m_current q0 → ¬ is_future q0 t) as Hex.
  { intros q0 t Hw Hin Hfu. apply (cur_nonce q0 (wf_cur q0 Hw)) in Hin. unfold is_future in Hfu.
    destruct (wf_disjoint q0 Hw (tx_from t) (tx_nonce t)); congruence. }
  intros t. split.
  - intros Hin. assert (¬ is_future q' t) as Hn by by apply Hex. rewrite Hf in Hn.
    assert (queued q t) as [?|?] by (apply Hq; by left); tauto.
  - intros [Hin Hn]. assert (queued q' t) as [?|Hfu] by (apply Hq; by left); [done|].
    apply Hf in Hfu as [Hfu|?]; [by destruct (Hex q t)|tauto].
Qed.

(** [topTransactions] returns the first transactions, in the order of the
    priority queue, whose hashes are not to be avoided, up to the limit. *)
Theorem topTransactions_spec limit avoid q :
  topTransactions limit avoid q =
  take limit (filter (λ t, tx_sha3 t ∉ avoid) (m_current q)).
Proof.
  unfold topTransactions.
  assert (∀ l ret, (length ret ≤ limit)%nat → top_loop limit avoid l ret =
    ret ++ take (limit - length ret) (filter (λ t, tx_sha3 t ∉ avoid) l)) as Hloop.
  { induction l as [|t l IH]; intros ret Hle; simpl; [by rewrite filter_nil, take_nil, app_nil_r|].
    destruct (Nat.ltb_spec (length ret) limit) as [Hlt|Hge].
    - destruct (decide (tx_sha3 t ∈ avoid)).
      + rewrite filter_cons_False by tauto. by apply IH.
      + rewrite filter_cons_True by done. rewrite IH by (rewrite length_app; simpl; lia).
        rewrite length_app, <-app_assoc. simpl.
        replace (limit - length ret)%nat with (S (limit - (length ret + 1)))%nat by lia. done.
    - replace (limit - length ret)%nat with O by lia. by rewrite app_nil_r. }
  rewrite Hloop by (simpl; lia). simpl. by rewrite Nat.sub_0_r.
Qed.

(** The run of consecutive nonces, without the loop. *)
Lemma taken_run_spec a nonce l m t :
  nonces_ok a l → om_sorted_from (nonce - 1) l →
  (m, t) ∈ taken_run nonce l ↔
  (m, t) ∈ l ∧ ∀ j, nonce ≤ j ≤ m → om_find j l ≠ None.
Proof.
  revert nonce. induction l as [|[k x] l IH]; intros nonce Hok Hs.
  { simpl. split; [by intros ?%elem_of_nil|]. by intros [?%elem_of_nil _]. }
  destruct (proj2 Hok k x) as [Hk _]; [by left|]. subst k. cbn [taken_run].
  destruct Hs as [Hlo Hs].
  assert (nonces_ok a l) as Hok' by (eapply nonces_ok_sublist; [by apply sublist_cons|exact Hok]).
  destruct (Z.eqb_spec (tx_nonce x) nonce) as [<-|Hne].
  - pose proof (tx_nonce_word x) as Hw. unfold in_word in Hw.
    assert ((m, t) ∈ taken_run (u256 (tx_nonce x + 1)) l ↔
      (m, t) ∈ l ∧ ∀ j, tx_nonce x + 1 ≤ j ≤ m → om_find j l ≠ None) as IH'.
    { destruct l as [|[k y] l'].
      { simpl. split; [by intros ?%elem_of_nil|]. by intros [?%elem_of_nil _]. }
      destruct (proj2 Hok k y) as [Hk _]; [by right; left|].
      pose proof (tx_nonce_word y) as Hwy. unfold in_word in Hwy. destruct Hs as [Hlt Hs'].
      rewrite wrap_small by (unfold in_word; lia). apply IH; [done|].
      split; [lia|done]. }
    rewrite !elem_of_cons, IH'. split.
    + intros [?|[Hin Hall]]; simplify_eq; (split; [by auto|]); intros j Hj; simpl;
        destruct (Z.eqb_spec j (tx_nonce x)); try done; [lia|]. apply Hall. lia.
    + intros [[?|Hin] Hall]; [by left|right]. split; [done|]. intros j Hj. specialize (Hall j).
      simpl in Hall. destruct (Z.eqb_spec j (tx_nonce x)); [lia|]. apply Hall. lia.
  - split; [by intros ?%elem_of_nil|]. intros [Hin Hall]. exfalso.
    apply (Hall nonce); [|].
    + split; [lia|]. apply elem_of_cons in Hin as [?|Hin]; simplify_eq; [lia|].
      apply (om_sorted_above _ _ _ _ Hs) in Hin. lia.
    + simpl. destruct (Z.eqb_spec nonce (tx_nonce x)); [lia|].
      destruct (om_find nonce l) as [y|] eqn:Hf; [|done].
      apply (om_find_elem _ _ _ _ Hs), (om_sorted_above _ _ _ _ Hs) in Hf. lia.
Qed.

Lemma om_sorted_filter lo k (l : list (Z * Tx)) :
  om_sorted_from lo l → om_sorted_from (k - 1) (filter (λ e, k ≤ e.1) l).
Proof.
  revert lo. induction l as [|[k' x] l IH]; intros lo; [done|]. intros [Hlo Hs].
  destruct (decide (k ≤ k')).
  - rewrite filter_cons_True by done. split; [lia|]. by rewrite (om_filter_all k') by (done || lia).
  - rewrite filter_cons_False by done. by apply (IH k').
Qed.


(** The last entry of a sorted map has the largest key. *)
Lemma om_last_max lo (l : list (Z * Tx)) n t :
  om_sorted_from lo l → last l = Some (n, t) → (n, t) ∈ l ∧ ∀ k x, (k, x) ∈ l → k ≤ n.
Proof.
  intros Hs [l' ->]%last_Some. split; [apply elem_of_app; right; by left|].
  intros k x [Hin|[?|?%elem_of_nil]%elem_of_cons]%elem_of_app; simplify_eq; [|lia|done].
  eapply om_sorted_app in Hs; [|exact Hin|by left]. lia.
Qed.

Lemma last_nonce_spec m a :
  map_ok m →
  match m !! a ≫= last with
  | Some (n, t) => find2 m a n = Some t ∧ ∀ k x, find2 m a k = Some x → k ≤ n
  | None => ∀ k, find2 m a k = None
  end.
Proof.
  intros Hm. unfold find2. destruct (m !! a) as [l|] eqn:Hl; simpl; [|done].
  destruct (Hm a l Hl) as [Hne Hok]. destruct (last l) as [[n t]|] eqn:Hlast; simpl.
  - destruct (om_last_max _ _ _ _ (proj1 Hok) Hlast) as [Hin Hmax].
    split; [by apply (nonces_ok_find a)|]. intros k x Hk. apply (nonces_ok_find a) in Hk; [|done].
    by eapply Hmax.
  - by apply last_None in Hlast.
Qed.

(** [maxNonce] returns the nonce after the largest one held for the sender,
    current or future - and 0 when none is held -, for nonces below
    [2^256 - 1]. *)
Theorem maxNonce_spec a q :
  wf q → (∀ n t, slot q a n = Some t → n + 1 < 2 ^ 256) →
  (∀ n t, slot q a n = Some t → n + 1 ≤ maxNonce a q) ∧
  ((∀ n, slot q a n = None) → maxNonce a q = 0) ∧
  (∀ n0 t0, slot q a n0 = Some t0 → ∃ n t, slot q a n = Some t ∧ maxNonce a q = n + 1).
Proof.
  intros Hwf Hbound. pose proof (last_nonce_spec _ a (cur_map q (wf_cur q Hwf))) as Hc.
  pose proof (last_nonce_spec _ a (wf_future q Hwf)) as Hf. unfold maxNonce.
  assert (∀ n t, find2 (m_currentByAddressAndNonce q) a n = Some t → slot q a n = Some t) as Hsc
    by (intros n t E; unfold slot; by rewrite E).
  assert (∀ n t, find2 (m_future q) a n = Some t → slot q a n = Some t) as Hsf.
  { intros n t E. unfold slot. destruct (wf_disjoint q Hwf a n) as [-> | ?]; [done|congruence]. }
  assert (∀ n t, slot q a n = Some t → 0 ≤ n) as Hpos.
  { intros n t E. pose proof (tx_nonce_word t) as [? _]. unfold slot in E.
    destruct (find2 (m_currentByAddressAndNonce q) a n) eqn:E1; simplify_eq.
    - by destruct (find2_ok _ _ _ _ (cur_map q (wf_cur q Hwf)) E1) as [_ <-].
    - by destruct (find2_ok _ _ _ _ (wf_future q Hwf) E) as [_ <-]. }
  destruct (m_currentByAddressAndNonce q !! a ≫= last) as [[nc tc]|];
    destruct (m_future q !! a ≫= last) as [[nf tf]|]; simpl.
  - destruct Hc as [Hc Hcm], Hf as [Hf Hfm]. apply Hsc in Hc as Hc'. apply Hsf in Hf as Hf'.
    pose proof (Hbound _ _ Hc'). pose proof (Hbound _ _ Hf'). pose proof (Hpos _ _ Hc'). pose proof (Hpos _ _ Hf').
    rewrite !wrap_small by (unfold in_word; lia). split_and!.
    + intros n t E. unfold slot in E. destruct (find2 _ a n) eqn:E1 in E; [apply Hcm in E1|apply Hfm in E]; lia.
    + intros E. by rewrite E in Hc'.
    + intros _ _ _. destruct (Z.max_spec (nc + 1) (nf + 1)) as [[_ ->]|[_ ->]]; eauto.
  - destruct Hc as [Hc Hcm]. apply Hsc in Hc as Hc'. pose proof (Hbound _ _ Hc'). pose proof (Hpos _ _ Hc').
    rewrite !wrap_small by (unfold in_word; lia). split_and!.
    + intros n t E. unfold slot in E. destruct (find2 _ a n) eqn:E1 in E; [apply Hcm in E1; lia|congruence].
    + intros E. by rewrite E in Hc'.
    + intros _ _ _. eauto.
  - destruct Hf as [Hf Hfm]. apply Hsf in Hf as Hf'. pose proof (Hbound _ _ Hf'). pose proof (Hpos _ _ Hf').
    rewrite !wrap_small by (unfold in_word; lia). split_and!.
    + intros n t E. unfold slot in E. rewrite Hc in E. apply Hfm in E. lia.
    + intros E. by rewrite E in Hf'.
    + intros _ _ _. exists nf, tf. split; [done|lia].
  - assert (∀ n, slot q a n = None) as Hn by (intros n; unfold slot; by rewrite Hc).
    split_and!; [|done|]; intros n t E; by rewrite Hn in E.
Qed.

End TransactionQueue.
Arguments Queue Tx : clear implicits.

(** ** Concrete transactions *)

Record ExTx := mkTx { x_from : Z; x_nonce : Z; x_gasPrice : Z }.
#[export] Instance ExTx_transaction : Transaction ExTx := {
  tx_sha3 t := Zpos (encode (x_from t, x_nonce t, x_gasPrice t));
  tx_from t := x_from t;
  tx_nonce t := u256 (x_nonce t);
  tx_gasPrice t := x_gasPrice t;
  tx_hasZeroSignature _ := false;
  tx_parse d := match d with [a; n; p] => Some (mkTx a n p) | _ => None end;
  tx_parse_cheap d := match d with [a; n; p] => Some (mkTx a n p) | _ => None end;
}.
#[export] Instance ExTx_laws : TransactionLaws ExTx.
Proof.
  split; [|intros t; by apply wrap_in_word]. intros [] [] Heq. simpl in Heq.
  injection Heq as Heq. apply (inj encode) in Heq. by simplify_eq.
Qed.

(** A search tree that compares with the elements from left to right. *)
Fixpoint first_true (l : list bool) : nat :=
  match l with false :: l => S (first_true l) | _ => O end.

Abbreviation new_queue := (empty_queue (Tx := ExTx)).
Definition txA5 : ExTx := mkTx 1 5 1.
Definition txA6 : ExTx := mkTx 1 6 9.
Definition txA7 : ExTx := mkTx 1 7 3.
Definition txB10 : ExTx := mkTx 2 10 2.
Definition run_from_new (ops : list (op (Tx := ExTx))) : Queue ExTx :=
  default (new_queue 4 4) (run first_true ops (new_queue 4 4)).

Lemma run_from_new_ok ops : wf (run_from_new ops) ∧ known_ok (run_from_new ops).
Proof.
  unfold run_from_new. destruct (run_new_ok first_true 4 4 ops) as (q&->&?&?); [lia..|done].
Qed.


(** The queue with A's nonces 5 and 6 current and 7 future. *)
Definition exq : Queue ExTx :=
  run_from_new [Op_import txA5 Ignore; Op_import txA6 Ignore; Op_import txA7 Ignore;
                Op_setFuture (tx_sha3 txA7)].
Definition exq' : Queue ExTx := setFuture (tx_sha3 txA6) exq.


Lemma setFuture_spec_witness :
  let q' := setFuture (tx_sha3 txA5) exq in
  is_future q' txA5 ∧ is_future q' txA6 ∧ m_known q' = m_known exq.
Proof.
  destruct (setFuture_spec (tx_sha3 txA5) exq txA5) as (_&Hk&_&H);
    [apply run_from_new_ok|vm_compute; reflexivity|].
  split; [|split; [|exact Hk]]; apply H; right;
    (split; [vm_compute; (apply list_elem_of_here || (apply list_elem_of_further; apply list_elem_of_here))
            |split; [reflexivity|vm_compute; discriminate]]).
Defined.


Lemma maxNonce_spec_witness : 7 + 1 ≤ maxNonce 1 exq.
Proof.
  destruct (run_from_new_ok [Op_import txA5 Ignore; Op_import txA6 Ignore; Op_import txA7 Ignore;
                Op_setFuture (tx_sha3 txA7)]) as [Hwf _]. fold exq in Hwf.
  destruct (maxNonce_spec 1 exq Hwf) as [H _]; [|apply (H 7 txA7); vm_compute; reflexivity].
  assert (∀ n t, slot exq 1 n = Some t → n = 5 ∨ n = 6 ∨ n = 7) as Hall.
  { intros n t. unfold slot, find2.
    assert (m_currentByAddressAndNonce exq !! 1 = Some [(5, txA5); (6, txA6)]) as -> by reflexivity.
    assert (m_future exq !! 1 = Some [(7, txA7)]) as -> by reflexivity. simpl.
    destruct (Z.eqb_spec n 5), (Z.eqb_spec n 6), (Z.eqb_spec n 7); naive_solver. }
  intros n t [->|[->| ->]]%Hall; vm_compute; reflexivity.
Defined.

(** The order of the priority queue is not kept when a sender's smallest
    nonce changes, although the comparator takes it into account: after two
    transactions of one sender and one of another were imported and the first
    one was dropped, the remaining two are in the queue in an order that the
    comparator contradicts, the one with the higher gas price last. *)
Theorem priority_order_not_kept :
  ∃ q, run first_true
         [Op_import txA5 Ignore; Op_import txB10 Ignore; Op_import txA6 Ignore;
          Op_drop (tx_sha3 txA5)] (new_queue 4 4) = Some q ∧
    topTransactions 4 ∅ q = [txB10; txA6] ∧
    compare (m_currentByAddressAndNonce q) txA6 txB10 = Some true.
Proof. eexists. split; [vm_compute; reflexivity|]. split; vm_compute; reflexivity. Qed.

(** [m_known] does not hold just the hashes of the transactions in the
    queue: when a future transaction is replaced by one with a higher gas
    price its hash stays known, so that importing it again is refused as
    [AlreadyKnown], even with a retry, though the queue does not hold it. *)
Theorem replaced_future_stays_known :
  ∃ q, run first_true
         [Op_import txA5 Ignore; Op_setFuture (tx_sha3 txA5); Op_import (mkTx 1 5 2) Ignore]
         (new_queue 4 4) = Some q ∧
    ¬ queued q txA5 ∧ tx_sha3 txA5 ∈ m_known q ∧
    import first_true txA5 Retry q = Some (q, AlreadyKnown).
Proof.
  destruct (run_new_ok first_true 4 4 [Op_import txA5 Ignore; Op_setFuture (tx_sha3 txA5);
    Op_import (mkTx 1 5 2) Ignore]) as (q&Hq&Hwf&_); [lia..|].
  exists q. split; [exact Hq|]. rewrite queued_slot by exact Hwf.
  vm_compute in Hq. injection Hq as <-.
  split_and!; [vm_compute; discriminate|apply (bool_decide_unpack (tx_sha3 txA5 ∈ m_known _)); vm_compute; exact I|
    vm_compute; reflexivity].
Qed.

End TransactionQueue.
