(* ===== verification/Instruction.v ===== *)
(** * Instructions and the gas schedule (libevm/Instruction.h, Instruction.cpp,
    libwingcore/EVMSchedule.h)

    The opcodes, the table of their stack effects and gas tiers, and the
    schedules of the protocol versions. *)
From S2P Require Import Prelude.

Module Instruction.

(** [enum class Instruction]; the families PUSH1-32, DUP1-16, SWAP1-16 and
    LOG0-4 carry their number, a byte without a name is [I_UNDEFINED]. *)
Inductive Instruction :=
| I_STOP | I_ADD | I_MUL | I_SUB | I_DIV | I_SDIV | I_MOD | I_SMOD | I_ADDMOD | I_MULMOD
| I_EXP | I_SIGNEXTEND | I_LT | I_GT | I_SLT | I_SGT | I_EQ | I_ISZERO | I_AND | I_OR
| I_XOR | I_NOT | I_BYTE | I_SHL | I_SHR | I_SAR | I_SHA3 | I_ADDRESS | I_BALANCE
| I_ORIGIN | I_CALLER | I_CALLVALUE | I_CALLDATALOAD | I_CALLDATASIZE | I_CALLDATACOPY
| I_CODESIZE | I_CODECOPY | I_GASPRICE | I_EXTCODESIZE | I_EXTCODECOPY
| I_RETURNDATASIZE | I_RETURNDATACOPY | I_BLOCKHASH | I_COINBASE | I_TIMESTAMP
| I_NUMBER | I_DIFFICULTY | I_GASLIMIT | I_POP | I_MLOAD | I_MSTORE | I_MSTORE8
| I_SLOAD | I_SSTORE | I_JUMP | I_JUMPI | I_PC | I_MSIZE | I_GAS | I_JUMPDEST | I_PUSHC
| I_JUMPC | I_JUMPCI | I_JUMPTO | I_JUMPIF | I_JUMPSUB | I_JUMPV | I_JUMPSUBV
| I_BEGINSUB | I_BEGINDATA | I_RETURNSUB | I_PUTLOCAL | I_GETLOCAL | I_XADD | I_XMUL
| I_XSUB | I_XDIV | I_XSDIV | I_XMOD | I_XSMOD | I_XLT | I_XGT | I_XSLT | I_XSGT | I_XEQ
| I_XISZERO | I_XAND | I_XOOR | I_XXOR | I_XNOT | I_XSHL | I_XSHR | I_XSAR | I_XROL
| I_XROR | I_XPUSH | I_XMLOAD | I_XMSTORE | I_XSLOAD | I_XSSTORE | I_XVTOWIDE
| I_XWIDETOV | I_XGET | I_XPUT | I_XSWIZZLE | I_XSHUFFLE | I_CREATE | I_CALL
| I_CALLCODE | I_RETURN | I_DELEGATECALL | I_STATICCALL | I_CREATE2 | I_REVERT
| I_INVALID | I_SUICIDE
| I_PUSH (n : Z) | I_DUP (n : Z) | I_SWAP (n : Z) | I_LOG (n : Z) | I_UNDEFINED (b : Z).

(** The values of the enumerators. *)
Definition opcodes : list (Z * Instruction) :=
  [
   (0x0, I_STOP); (0x1, I_ADD); (0x2, I_MUL); (0x3, I_SUB); (0x4, I_DIV); (0x5, I_SDIV);
   (0x6, I_MOD); (0x7, I_SMOD); (0x8, I_ADDMOD); (0x9, I_MULMOD); (0xa, I_EXP);
   (0xb, I_SIGNEXTEND); (0x10, I_LT); (0x11, I_GT); (0x12, I_SLT); (0x13, I_SGT); (0x14, I_EQ);
   (0x15, I_ISZERO); (0x16, I_AND); (0x17, I_OR); (0x18, I_XOR); (0x19, I_NOT); (0x1a, I_BYTE);
   (0x1b, I_SHL); (0x1c, I_SHR); (0x1d, I_SAR); (0x20, I_SHA3); (0x30, I_ADDRESS);
   (0x31, I_BALANCE); (0x32, I_ORIGIN); (0x33, I_CALLER); (0x34, I_CALLVALUE);
   (0x35, I_CALLDATALOAD); (0x36, I_CALLDATASIZE); (0x37, I_CALLDATACOPY); (0x38, I_CODESIZE);
   (0x39, I_CODECOPY); (0x3a, I_GASPRICE); (0x3b, I_EXTCODESIZE); (0x3c, I_EXTCODECOPY);
   (0x3d, I_RETURNDATASIZE); (0x3e, I_RETURNDATACOPY); (0x40, I_BLOCKHASH); (0x41, I_COINBASE);
   (0x42, I_TIMESTAMP); (0x43, I_NUMBER); (0x44, I_DIFFICULTY); (0x45, I_GASLIMIT);
   (0x50, I_POP); (0x51, I_MLOAD); (0x52, I_MSTORE); (0x53, I_MSTORE8); (0x54, I_SLOAD);
   (0x55, I_SSTORE); (0x56, I_JUMP); (0x57, I_JUMPI); (0x58, I_PC); (0x59, I_MSIZE);
   (0x5a, I_GAS); (0x5b, I_JUMPDEST); (0xac, I_PUSHC); (0xad, I_JUMPC); (0xae, I_JUMPCI);
   (0xb0, I_JUMPTO); (0xb1, I_JUMPIF); (0xb2, I_JUMPSUB); (0xb3, I_JUMPV); (0xb4, I_JUMPSUBV);
   (0xb5, I_BEGINSUB); (0xb6, I_BEGINDATA); (0xb7, I_RETURNSUB); (0xb8, I_PUTLOCAL);
   (0xb9, I_GETLOCAL); (0xc1, I_XADD); (0xc2, I_XMUL); (0xc3, I_XSUB); (0xc4, I_XDIV);
   (0xc5, I_XSDIV); (0xc6, I_XMOD); (0xc7, I_XSMOD); (0xd0, I_XLT); (0xd1, I_XGT);
   (0xd2, I_XSLT); (0xd3, I_XSGT); (0xd4, I_XEQ); (0xd5, I_XISZERO); (0xd6, I_XAND);
   (0xd7, I_XOOR); (0xd8, I_XXOR); (0xd9, I_XNOT); (0xdb, I_XSHL); (0xdc, I_XSHR);
   (0xdd, I_XSAR); (0xde, I_XROL); (0xdf, I_XROR); (0xe0, I_XPUSH); (0xe1, I_XMLOAD);
   (0xe2, I_XMSTORE); (0xe4, I_XSLOAD); (0xe5, I_XSSTORE); (0xe6, I_XVTOWIDE);
   (0xe7, I_XWIDETOV); (0xe8, I_XGET); (0xe9, I_XPUT); (0xea, I_XSWIZZLE); (0xeb, I_XSHUFFLE);
   (0xf0, I_CREATE); (0xf1, I_CALL); (0xf2, I_CALLCODE); (0xf3, I_RETURN);
   (0xf4, I_DELEGATECALL); (0xfa, I_STATICCALL); (0xfb, I_CREATE2); (0xfd, I_REVERT);
   (0xfe, I_INVALID); (0xff, I_SUICIDE)].

(** [Instruction(b)] for a byte of the code *)
Definition instruction_of (b : Z) : Instruction :=
  if (0x60 <=? b) && (b <=? 0x7f) then I_PUSH (b - 0x60 + 1)
  else if (0x80 <=? b) && (b <=? 0x8f) then I_DUP (b - 0x80 + 1)
  else if (0x90 <=? b) && (b <=? 0x9f) then I_SWAP (b - 0x90 + 1)
  else if (0xa0 <=? b) && (b <=? 0xa4) then I_LOG (b - 0xa0)
  else match om_find b opcodes with Some i => i | None => I_UNDEFINED b end.

(** [enum class Tier] *)
Inductive Tier := Zero | Base | VeryLow | Low | Mid | High | Ext | Special | Invalid.

(** [InstructionInfo] without the name *)
Record InstructionInfo := mkInfo {
  additional : Z; args : nat; ret : nat; gasPriceTier : Tier
}.

(** [c_instructionInfo] and [instructionInfo]: the table lists [XOR] twice, of
    which the first row counts, and has no row for [XOOR]. *)
Definition instructionInfo (i : Instruction) : InstructionInfo :=
  match i with
  | I_STOP => mkInfo 0 0 0 Zero
  | I_ADD => mkInfo 0 2 1 VeryLow
  | I_MUL => mkInfo 0 2 1 Low
  | I_SUB => mkInfo 0 2 1 VeryLow
  | I_DIV => mkInfo 0 2 1 Low
  | I_SDIV => mkInfo 0 2 1 Low
  | I_MOD => mkInfo 0 2 1 Low
  | I_SMOD => mkInfo 0 2 1 Low
  | I_ADDMOD => mkInfo 0 3 1 Mid
  | I_MULMOD => mkInfo 0 3 1 Mid
  | I_EXP => mkInfo 0 2 1 Special
  | I_SIGNEXTEND => mkInfo 0 2 1 Low
  | I_LT => mkInfo 0 2 1 VeryLow
  | I_GT => mkInfo 0 2 1 VeryLow
  | I_SLT => mkInfo 0 2 1 VeryLow
  | I_SGT => mkInfo 0 2 1 VeryLow
  | I_EQ => mkInfo 0 2 1 VeryLow
  | I_ISZERO => mkInfo 0 1 1 VeryLow
  | I_AND => mkInfo 0 2 1 VeryLow
  | I_OR => mkInfo 0 2 1 VeryLow
  | I_XOR => mkInfo 0 2 1 VeryLow
  | I_NOT => mkInfo 0 1 1 VeryLow
  | I_BYTE => mkInfo 0 2 1 VeryLow
  | I_SHL => mkInfo 0 2 1 VeryLow
  | I_SHR => mkInfo 0 2 1 VeryLow
  | I_SAR => mkInfo 0 2 1 VeryLow
  | I_SHA3 => mkInfo 0 2 1 Special
  | I_ADDRESS => mkInfo 0 0 1 Base
  | I_BALANCE => mkInfo 0 1 1 Special
  | I_ORIGIN => mkInfo 0 0 1 Base
  | I_CALLER => mkInfo 0 0 1 Base
  | I_CALLVALUE => mkInfo 0 0 1 Base
  | I_CALLDATALOAD => mkInfo 0 1 1 VeryLow
  | I_CALLDATASIZE => mkInfo 0 0 1 Base
  | I_CALLDATACOPY => mkInfo 0 3 0 VeryLow
  | I_CODESIZE => mkInfo 0 0 1 Base
  | I_CODECOPY => mkInfo 0 3 0 VeryLow
  | I_GASPRICE => mkInfo 0 0 1 Base
  | I_EXTCODESIZE => mkInfo 0 1 1 Special
  | I_EXTCODECOPY => mkInfo 0 4 0 Special
  | I_RETURNDATASIZE => mkInfo 0 0 1 Base
  | I_RETURNDATACOPY => mkInfo 0 3 0 VeryLow
  | I_BLOCKHASH => mkInfo 0 1 1 Special
  | I_COINBASE => mkInfo 0 0 1 Base
  | I_TIMESTAMP => mkInfo 0 0 1 Base
  | I_NUMBER => mkInfo 0 0 1 Base
  | I_DIFFICULTY => mkInfo 0 0 1 Base
  | I_GASLIMIT => mkInfo 0 0 1 Base
  | I_POP => mkInfo 0 1 0 Base
  | I_MLOAD => mkInfo 0 1 1 VeryLow
  | I_MSTORE => mkInfo 0 2 0 VeryLow
  | I_MSTORE8 => mkInfo 0 2 0 VeryLow
  | I_SLOAD => mkInfo 0 1 1 Special
  | I_SSTORE => mkInfo 0 2 0 Special
  | I_JUMP => mkInfo 0 1 0 Mid
  | I_JUMPI => mkInfo 0 2 0 High
  | I_PC => mkInfo 0 0 1 Base
  | I_MSIZE => mkInfo 0 0 1 Base
  | I_GAS => mkInfo 0 0 1 Base
  | I_JUMPDEST => mkInfo 0 0 0 Special
  | I_PUSHC => mkInfo 3 0 1 VeryLow
  | I_JUMPC => mkInfo 0 1 0 Mid
  | I_JUMPCI => mkInfo 0 2 0 High
  | I_JUMPTO => mkInfo 2 1 0 VeryLow
  | I_JUMPIF => mkInfo 2 2 0 Low
  | I_JUMPSUB => mkInfo 2 1 0 Low
  | I_JUMPV => mkInfo 2 1 0 Mid
  | I_JUMPSUBV => mkInfo 2 1 0 Mid
  | I_BEGINSUB => mkInfo 0 0 0 Special
  | I_BEGINDATA => mkInfo 0 0 0 Special
  | I_RETURNSUB => mkInfo 0 1 0 Mid
  | I_PUTLOCAL => mkInfo 2 1 0 VeryLow
  | I_GETLOCAL => mkInfo 2 0 1 VeryLow
  | I_XADD => mkInfo 1 0 0 Special
  | I_XMUL => mkInfo 1 2 1 Special
  | I_XSUB => mkInfo 1 2 1 Special
  | I_XDIV => mkInfo 1 2 1 Special
  | I_XSDIV => mkInfo 1 2 1 Special
  | I_XMOD => mkInfo 1 2 1 Special
  | I_XSMOD => mkInfo 1 2 1 Special
  | I_XLT => mkInfo 1 2 1 Special
  | I_XGT => mkInfo 1 2 1 Special
  | I_XSLT => mkInfo 1 2 1 Special
  | I_XSGT => mkInfo 1 2 1 Special
  | I_XEQ => mkInfo 1 2 1 Special
  | I_XISZERO => mkInfo 1 2 1 Special
  | I_XAND => mkInfo 1 1 1 Special
  | I_XOOR => mkInfo 0 0 0 Invalid
  | I_XXOR => mkInfo 1 2 1 Special
  | I_XNOT => mkInfo 1 2 1 Special
  | I_XSHL => mkInfo 1 2 1 Special
  | I_XSHR => mkInfo 1 2 1 Special
  | I_XSAR => mkInfo 1 2 1 Special
  | I_XROL => mkInfo 1 2 1 Special
  | I_XROR => mkInfo 1 2 1 Special
  | I_XPUSH => mkInfo 1 1 1 VeryLow
  | I_XMLOAD => mkInfo 1 1 1 VeryLow
  | I_XMSTORE => mkInfo 1 2 0 VeryLow
  | I_XSLOAD => mkInfo 1 1 1 Special
  | I_XSSTORE => mkInfo 1 2 0 Special
  | I_XVTOWIDE => mkInfo 1 1 1 VeryLow
  | I_XWIDETOV => mkInfo 1 1 1 VeryLow
  | I_XGET => mkInfo 1 2 1 Special
  | I_XPUT => mkInfo 1 3 1 Special
  | I_XSWIZZLE => mkInfo 1 2 1 Special
  | I_XSHUFFLE => mkInfo 1 3 1 Special
  | I_CREATE => mkInfo 0 3 1 Special
  | I_CALL => mkInfo 0 7 1 Special
  | I_CALLCODE => mkInfo 0 7 1 Special
  | I_RETURN => mkInfo 0 2 0 Zero
  | I_DELEGATECALL => mkInfo 0 6 1 Special
  | I_STATICCALL => mkInfo 0 6 1 Special
  | I_CREATE2 => mkInfo 0 4 1 Special
  | I_REVERT => mkInfo 0 2 0 Special
  | I_INVALID => mkInfo 0 0 0 Zero
  | I_SUICIDE => mkInfo 0 1 0 Special
  | I_PUSH n => mkInfo n 0 1 VeryLow
  | I_DUP n => mkInfo 0 (Z.to_nat n) (Z.to_nat n + 1) VeryLow
  | I_SWAP n => mkInfo 0 (Z.to_nat n + 1) (Z.to_nat n + 1) VeryLow
  | I_LOG n => mkInfo 0 (Z.to_nat n + 2) 0 Special
  | I_UNDEFINED _ => mkInfo 0 0 0 Invalid
  end.

(** [EVMSchedule]: [tierStepGas] has the costs of the eight tiers up to
    [Special]; [tierStepGas_end] is what an access behind its end reads. *)
Record EVMSchedule := mkSchedule {
  exceptionalFailedCodeDeposit : bool; haveDelegateCall : bool;
  eip150Mode : bool; eip158Mode : bool; haveBitwiseShifting : bool; haveRevert : bool;
  haveReturnData : bool; haveStaticCall : bool; haveCreate2 : bool;
  tierStepGas : list Z; tierStepGas_end : Z;
  expGas : Z; expByteGas : Z; sha3Gas : Z; sha3WordGas : Z; sloadGas : Z;
  sstoreSetGas : Z; sstoreResetGas : Z; sstoreRefundGas : Z; jumpdestGas : Z;
  logGas : Z; logDataGas : Z; logTopicGas : Z; createGas : Z; callGas : Z; callStipend : Z;
  callValueTransferGas : Z; callNewAccountGas : Z; suicideRefundGas : Z;
  memoryGas : Z; quadCoeffDiv : Z; createDataGas : Z; txGas : Z; txCreateGas : Z;
  txDataZeroGas : Z; txDataNonZeroGas : Z; copyGas : Z;
  extcodesizeGas : Z; extcodecopyGas : Z; balanceGas : Z; suicideGas : Z;
  blockhashGas : Z; maxCodeSize : Z; blockRewardOverwrite : option Z;
}.

Definition staticCallDepthLimit (s : EVMSchedule) : bool := negb (eip150Mode s).
Definition suicideChargesNewAccountGas (s : EVMSchedule) : bool := eip150Mode s.
Definition emptinessIsNonexistence (s : EVMSchedule) : bool := eip158Mode s.
Definition zeroValueTransferChargesNewAccountGas (s : EVMSchedule) : bool := negb (eip158Mode s).

(** The three constructors, with the member initialisers; an access behind
    [tierStepGas] reads the next member, [expGas]. *)
Definition schedule (efcd hdc : bool) (txCreate : Z) : EVMSchedule :=
  mkSchedule efcd hdc false false false false false false false
    [0; 2; 3; 5; 8; 10; 20; 0] 10
    10 10 30 6 50 20000 5000 15000 1 375 8 375 32000 40 2300 9000 25000 24000
    3 512 200 21000 txCreate 4 68 3 20 20 20 0 20 (2 ^ 32 - 1) None.
Definition DefaultSchedule : EVMSchedule := schedule true true 53000.
Definition FrontierSchedule : EVMSchedule := schedule false false 21000.
Definition HomesteadSchedule : EVMSchedule := schedule true true 53000.

Definition EIP150Schedule : EVMSchedule :=
  mkSchedule true true true false false false false false false
    [0; 2; 3; 5; 8; 10; 20; 0] 10
    10 10 30 6 200 20000 5000 15000 1 375 8 375 32000 700 2300 9000 25000 24000
    3 512 200 21000 53000 4 68 3 700 700 400 5000 20 (2 ^ 32 - 1) None.
Definition EIP158Schedule : EVMSchedule :=
  mkSchedule true true true true false false false false false
    [0; 2; 3; 5; 8; 10; 20; 0] 10
    10 50 30 6 200 20000 5000 15000 1 375 8 375 32000 700 2300 9000 25000 24000
    3 512 200 21000 53000 4 68 3 700 700 400 5000 20 0x6000 None.
Definition ByzantiumSchedule : EVMSchedule :=
  mkSchedule true true true true false true true true false
    [0; 2; 3; 5; 8; 10; 20; 0] 10
    10 50 30 6 200 20000 5000 15000 1 375 8 375 32000 700 2300 9000 25000 24000
    3 512 200 21000 53000 4 68 3 700 700 400 5000 20 0x6000 (Some (3 * 10 ^ 18)).
Definition EWASMSchedule : EVMSchedule :=
  mkSchedule true true true true false true true true false
    [0; 2; 3; 5; 8; 10; 20; 0] 10
    10 50 30 6 200 20000 5000 15000 1 375 8 375 32000 700 2300 9000 25000 24000
    3 512 200 21000 53000 68 68 3 700 700 400 5000 20 (2 ^ 32 - 1) (Some (3 * 10 ^ 18)).
Definition ConstantinopleSchedule : EVMSchedule :=
  mkSchedule true true true true true true true true true
    [0; 2; 3; 5; 8; 10; 20; 0] 10
    10 50 30 6 200 20000 5000 15000 1 375 8 375 32000 700 2300 9000 25000 24000
    3 512 200 21000 53000 4 68 3 700 700 400 5000 800 0x6000 (Some (3 * 10 ^ 18)).

(** [m_schedule->tierStepGas[tier]] *)
Definition tier_index (t : Tier) : nat :=
  match t with
  | Zero => 0 | Base => 1 | VeryLow => 2 | Low => 3 | Mid => 4 | High => 5 | Ext => 6
  | Special => 7 | Invalid => 8
  end.
Definition tier_gas (s : EVMSchedule) (t : Tier) : Z :=
  nth (tier_index t) (tierStepGas s) (tierStepGas_end s).

(** ** Schedules the interpreter can run with *)

(** What the proofs use of a schedule; the protocol's schedules satisfy it. *)
Record sched_ok (s : EVMSchedule) : Prop := {
  so_tier t : 0 ≤ tier_gas s t < 2 ^ 32;
  so_tier_pos t : t ≠ Zero → t ≠ Special → 0 < tier_gas s t;
  so_exp : 0 < expGas s ∧ 0 ≤ expByteGas s ∧ expGas s + 32 * expByteGas s < 2 ^ 32;
  so_sha3 : 0 < sha3Gas s < 2 ^ 32 ∧ 0 ≤ sha3WordGas s < 2 ^ 32;
  so_sload : 0 < sloadGas s < 2 ^ 32;
  so_sstore : 0 < sstoreSetGas s < 2 ^ 32 ∧ 0 < sstoreResetGas s < 2 ^ 32;
  so_log : 0 < logGas s ∧ 0 ≤ logTopicGas s ∧ logGas s + 4 * logTopicGas s < 2 ^ 32
           ∧ 0 ≤ logDataGas s < 2 ^ 32;
  so_create : 0 < createGas s < 2 ^ 32;
  so_call : 0 < callGas s < 2 ^ 32 ∧ 0 ≤ callNewAccountGas s < 2 ^ 32
            ∧ 0 ≤ callStipend s ≤ callValueTransferGas s ∧ callValueTransferGas s < 2 ^ 32;
  so_mem : 0 ≤ memoryGas s < 2 ^ 32 ∧ 0 < quadCoeffDiv s < 2 ^ 32 ∧ 0 ≤ copyGas s < 16;
  so_ext : 0 < extcodesizeGas s < 2 ^ 32 ∧ 0 < extcodecopyGas s < 2 ^ 32
           ∧ 0 < balanceGas s < 2 ^ 32 ∧ 0 < blockhashGas s < 2 ^ 32;
  so_suicide : 0 ≤ suicideGas s < 2 ^ 32;
}.

Definition schedules : list EVMSchedule :=
  [DefaultSchedule; FrontierSchedule; HomesteadSchedule; EIP150Schedule; EIP158Schedule;
   ByzantiumSchedule; EWASMSchedule; ConstantinopleSchedule].
Lemma schedules_ok s : s ∈ schedules → sched_ok s.
Proof.
  unfold schedules. intros Hin.
  repeat (apply elem_of_cons in Hin as [->|Hin]); [..|by apply elem_of_nil in Hin];
    constructor; repeat split; try (intros []; repeat split; try done; vm_compute; congruence);
    try destruct t; vm_compute; congruence.
Qed.

Lemma Constantinople_ok : sched_ok ConstantinopleSchedule.
Proof. apply schedules_ok. unfold schedules. by rewrite !elem_of_cons; right; right; right; right; right; right; right; left. Qed.

End Instruction.
