(* ===== verification/LegacyVM.v ===== *)
(** * The interpreter of the virtual machine (libevm/LegacyVM.h, LegacyVM.cpp,
    LegacyVMCalls.cpp, LegacyVMOpt.cpp)

    The build without EIP 615, EIP 616 and the optimisations, as VMConfig.h
    sets it.  The members of class [LegacyVM] are the record [VM], a member
    function is a computation in the monad [M] of states and exceptions; what
    the code would do with memory that does not exist is the exception
    [Undefined].  The tracing calls [ON_OP()] are left out. *)
From S2P Require Import Prelude CommonData Instruction.

Module LegacyVM.
Import Instruction CommonData.

(** [CallParameters] *)
Record CallParameters := mkCallParameters {
  senderAddress : Z; codeAddress : Z; receiveAddress : Z;
  valueTransfer : Z; apparentValue : Z; gas : Z; data : bytes; staticCall_ : bool;
}.

(** An operation of the world with state [E]; [None] is an exception that is
    not one of the machine's. *)
Definition world (E A : Type) : Type := E → option (E * A).

(** The virtual functions of [ExtVMFace] over a state [E] of the world, and
    the refund counter of its sub-state; [create] returns the address, the
    output and the gas that is left, [call] a success flag in place of the
    address. *)
Class ExtVMFace (E : Type) := {
  ext_store : Z → world E Z;
  ext_setStore : Z → Z → world E unit;
  ext_balance : Z → world E Z;
  ext_codeAt : Z → world E bytes;
  ext_codeSizeAt : Z → world E Z;
  ext_exists : Z → world E bool;
  ext_suicide : Z → world E unit;
  ext_create : Z → Z → bytes → bool → Z → world E (Z * bytes * Z);
  ext_call : CallParameters → world E (bool * bytes * Z);
  ext_log : list Z → bytes → world E unit;
  ext_blockHash : Z → world E Z;
  ext_add_refund : Z → world E unit;
  ext_sha3 : bytes → Z;
}.

(** The data members of [ExtVMFace] and of its [EnvInfo]. *)
Record Env := mkEnv {
  myAddress : Z; caller : Z; origin : Z; value : Z; gasPrice : Z;
  ext_data : bytes; ext_code : bytes; depth : Z; staticCall : bool;
  author : Z; timestamp : Z; number : Z; difficulty : Z; gasLimit : Z;
  evmSchedule : EVMSchedule;
}.

Definition len (bs : bytes) : Z := Z.of_nat (length bs).
(** Bytes that a buffer holds *)
Definition buffer_ok (bs : bytes) : Prop := bytes_ok bs ∧ len bs < 2 ^ 62.

(** The parameters of a call from the frame [env]: they are words and a
    buffer, and the gas fits into 64 bits. *)
Record params_ok (env : Env) (p : CallParameters) : Prop := {
  po_words : Forall (in_word 256)
    [senderAddress p; codeAddress p; receiveAddress p; valueTransfer p; apparentValue p];
  po_gas : 0 ≤ gas p < 2 ^ 64;
  po_data : buffer_ok (data p);
  po_receive : receiveAddress p = codeAddress p ∨ receiveAddress p = myAddress env;
}.

(** [f] does not throw on [e], takes a step, and leaves what [Q] says. *)
Definition does {E A} (step : E → E → Prop) (f : world E A) (e : E) (Q : E → A → Prop) : Prop :=
  ∃ e' a, f e = Some (e', a) ∧ step e e' ∧ Q e' a.

(** What the interpreter relies on in the frame [env].  [ext_ok] is the
    invariant of the world, [ext_step] relates the worlds before and after
    operations, [ext_can_pay e v] says that the account of the frame has [v].
    Operations on a good world do not throw, results are words and buffers,
    and a call or a creation does not give back more gas than it was given. *)
Class ExtVMFaceLaws (E : Type) `{ExtVMFace E} (env : Env) := {
  ext_ok : E → Prop;
  ext_step : E → E → Prop;
  ext_can_pay : E → Z → Prop;
  ext_step_refl e : ext_ok e → ext_step e e;
  ext_step_trans e1 e2 e3 : ext_step e1 e2 → ext_step e2 e3 → ext_step e1 e3;
  ext_step_ok e e' : ext_ok e → ext_step e e' → ext_ok e';
  ext_store_ok e k : ext_ok e → does ext_step (ext_store k) e (λ _, in_word 256);
  ext_setStore_ok e k v :
    ext_ok e → in_word 256 k → in_word 256 v → does ext_step (ext_setStore k v) e (λ _ _, True);
  ext_balance_ok e a :
    ext_ok e → does ext_step (ext_balance a) e (λ e' b, in_word 256 b ∧
      (a = myAddress env → ∀ v, 0 ≤ v ≤ b → ext_can_pay e' v));
  ext_codeAt_ok e a : ext_ok e → does ext_step (ext_codeAt a) e (λ _, buffer_ok);
  ext_codeSizeAt_ok e a : ext_ok e → does ext_step (ext_codeSizeAt a) e (λ _, in_word 256);
  ext_exists_ok e a : ext_ok e → does ext_step (ext_exists a) e (λ _ _, True);
  ext_suicide_ok e a : ext_ok e → in_word 256 a → does ext_step (ext_suicide a) e (λ _ _, True);
  ext_log_ok e ts d : ext_ok e → does ext_step (ext_log ts d) e (λ _ _, True);
  ext_blockHash_ok e n : ext_ok e → in_word 256 n → does ext_step (ext_blockHash n) e (λ _, in_word 256);
  ext_add_refund_ok e n : ext_ok e → does ext_step (ext_add_refund n) e (λ _ _, True);
  ext_sha3_word bs : in_word 256 (ext_sha3 bs);
  ext_call_ok e p :
    ext_ok e → depth env < 1024 → params_ok env p →
    valueTransfer p = 0 ∨ senderAddress p = myAddress env ∧ ext_can_pay e (valueTransfer p) →
    does ext_step (ext_call p) e (λ _ r, buffer_ok r.1.2 ∧ 0 ≤ r.2 ≤ gas p);
  ext_create_ok e v g c two salt :
    ext_ok e → depth env < 1024 → ext_can_pay e v → in_word 256 v → 0 ≤ g < 2 ^ 64 →
    buffer_ok c → in_word 256 salt →
    does ext_step (ext_create v g c two salt) e (λ _ r, buffer_ok r.1.2 ∧ 0 ≤ r.2 ≤ g);
}.

(** An instance for examples: one storage, empty accounts, calls and creations
    that return at once with half of their gas. *)
#[export] Instance storage_ext : ExtVMFace (list (Z * Z)) := {
  ext_store k e := Some (e, u256 (default 0 (om_find k e)));
  ext_setStore k v e := Some (om_insert k v e, ());
  ext_balance _ e := Some (e, 0);
  ext_codeAt _ e := Some (e, []);
  ext_codeSizeAt _ e := Some (e, 0);
  ext_exists _ e := Some (e, false);
  ext_suicide _ e := Some (e, ());
  ext_create _ g _ _ _ e := Some (e, (1, [], g / 2));
  ext_call p e := Some (e, (true, [], gas p / 2));
  ext_log _ _ e := Some (e, ());
  ext_blockHash _ e := Some (e, 0);
  ext_add_refund _ e := Some (e, ());
  ext_sha3 _ := 0;
}.
#[export] Instance storage_ext_laws env : ExtVMFaceLaws (list (Z * Z)) env.
Proof.
  assert (in_word 256 0) by done. assert (buffer_ok []) by by split; [constructor|].
  refine {| ext_ok _ := True; ext_step _ _ := True; ext_can_pay _ _ := True |}; try done;
    simpl; intros; do 2 eexists; (split; [reflexivity|]); split; try done;
    try (by apply wrap_in_word).
  - destruct (po_gas _ _ H3). simpl. split; [done|dlia].
  - simpl. split; [done|dlia].
Defined.

(** A frame for examples: code that runs with the Constantinople schedule. *)
Definition example_env (code : bytes) : Env :=
  mkEnv 1 2 3 0 5 [1; 2; 3] code 0 false 0 0 0 0 0 ConstantinopleSchedule.

(** Exceptions; [WorldException] is one of the world that is not an exception
    of the machine, [Undefined] an access out of bounds. *)
Inductive VMError :=
| OutOfGas | BadInstruction | BadJumpDestination | StackUnderflow | OutOfStack
| DisallowedStateChange | BufferOverrun | RevertInstruction (output : bytes)
| WorldException | Undefined.

(** [m_bounce]: the next function of the trampoline, [Stop] for 0 *)
Inductive Bounce := initEntry_ | interpretCases_ | caseCreate_ | caseCall_ | Stop.

Section LegacyVM.
Context `{ExtVMFace E} (env : Env).
Notation sched := (evmSchedule env).

(** The members of [LegacyVM]; a stack pointer is the list of the items from
    it to the end of the stack, its first item on top. *)
Record VM := mkVM {
  m_io_gas : Z;
  m_ext : E;
  m_output : bytes;
  m_mem : bytes;
  m_code : bytes;
  m_returnData : bytes;
  m_OP : Instruction;
  m_PC : Z;
  m_SP : list Z;
  m_SPP : list Z;
  m_runGas : Z;
  m_newMemSize : Z;
  m_copyMemSize : Z;
  m_jumpDests : list Z;
  m_bounce : Bounce;
}.

(** ** States and exceptions *)

Definition M (A : Type) : Type := VM → VM * result VMError A.
#[local] Instance M_ret : MRet M := λ A a st, (st, Ok a).
#[local] Instance M_bind : MBind M := λ A B f m st,
  match m st with
  | (st', Ok a) => f a st'
  | (st', Err e) => (st', Err e)
  end.
Definition throw {A} (e : VMError) : M A := λ st, (st, Err e).
Definition get {A} (f : VM → A) : M A := λ st, (st, Ok (f st)).
Definition modify (f : VM → VM) : M unit := λ st, (f st, Ok ()).
Definition throw_when (b : bool) (e : VMError) : M unit := if b then throw e else mret ().

Definition with_gas (g : Z) (s : VM) : VM :=
  mkVM g (m_ext s) (m_output s) (m_mem s) (m_code s) (m_returnData s) (m_OP s) (m_PC s)
    (m_SP s) (m_SPP s) (m_runGas s) (m_newMemSize s) (m_copyMemSize s) (m_jumpDests s) (m_bounce s).
Definition with_ext (e : E) (s : VM) : VM :=
  mkVM (m_io_gas s) e (m_output s) (m_mem s) (m_code s) (m_returnData s) (m_OP s) (m_PC s)
    (m_SP s) (m_SPP s) (m_runGas s) (m_newMemSize s) (m_copyMemSize s) (m_jumpDests s) (m_bounce s).
Definition with_output (o : bytes) (s : VM) : VM :=
  mkVM (m_io_gas s) (m_ext s) o (m_mem s) (m_code s) (m_returnData s) (m_OP s) (m_PC s)
    (m_SP s) (m_SPP s) (m_runGas s) (m_newMemSize s) (m_copyMemSize s) (m_jumpDests s) (m_bounce s).
Definition with_mem (m : bytes) (s : VM) : VM :=
  mkVM (m_io_gas s) (m_ext s) (m_output s) m (m_code s) (m_returnData s) (m_OP s) (m_PC s)
    (m_SP s) (m_SPP s) (m_runGas s) (m_newMemSize s) (m_copyMemSize s) (m_jumpDests s) (m_bounce s).
Definition with_code (c : bytes) (j : list Z) (s : VM) : VM :=
  mkVM (m_io_gas s) (m_ext s) (m_output s) (m_mem s) c (m_returnData s) (m_OP s) (m_PC s)
    (m_SP s) (m_SPP s) (m_runGas s) (m_newMemSize s) (m_copyMemSize s) j (m_bounce s).
Definition with_returnData (d : bytes) (s : VM) : VM :=
  mkVM (m_io_gas s) (m_ext s) (m_output s) (m_mem s) (m_code s) d (m_OP s) (m_PC s)
    (m_SP s) (m_SPP s) (m_runGas s) (m_newMemSize s) (m_copyMemSize s) (m_jumpDests s) (m_bounce s).
Definition with_OP (i : Instruction) (s : VM) : VM :=
  mkVM (m_io_gas s) (m_ext s) (m_output s) (m_mem s) (m_code s) (m_returnData s) i (m_PC s)
    (m_SP s) (m_SPP s) (m_runGas s) (m_newMemSize s) (m_copyMemSize s) (m_jumpDests s) (m_bounce s).
Definition with_PC (p : Z) (s : VM) : VM :=
  mkVM (m_io_gas s) (m_ext s) (m_output s) (m_mem s) (m_code s) (m_returnData s) (m_OP s) p
    (m_SP s) (m_SPP s) (m_runGas s) (m_newMemSize s) (m_copyMemSize s) (m_jumpDests s) (m_bounce s).
Definition with_SP (p : list Z) (s : VM) : VM :=
  mkVM (m_io_gas s) (m_ext s) (m_output s) (m_mem s) (m_code s) (m_returnData s) (m_OP s) (m_PC s)
    p (m_SPP s) (m_runGas s) (m_newMemSize s) (m_copyMemSize s) (m_jumpDests s) (m_bounce s).
Definition with_SPP (p : list Z) (s : VM) : VM :=
  mkVM (m_io_gas s) (m_ext s) (m_output s) (m_mem s) (m_code s) (m_returnData s) (m_OP s) (m_PC s)
    (m_SP s) p (m_runGas s) (m_newMemSize s) (m_copyMemSize s) (m_jumpDests s) (m_bounce s).
Definition with_runGas (g : Z) (s : VM) : VM :=
  mkVM (m_io_gas s) (m_ext s) (m_output s) (m_mem s) (m_code s) (m_returnData s) (m_OP s) (m_PC s)
    (m_SP s) (m_SPP s) g (m_newMemSize s) (m_copyMemSize s) (m_jumpDests s) (m_bounce s).
Definition with_newMemSize (n : Z) (s : VM) : VM :=
  mkVM (m_io_gas s) (m_ext s) (m_output s) (m_mem s) (m_code s) (m_returnData s) (m_OP s) (m_PC s)
    (m_SP s) (m_SPP s) (m_runGas s) n (m_copyMemSize s) (m_jumpDests s) (m_bounce s).
Definition with_copyMemSize (n : Z) (s : VM) : VM :=
  mkVM (m_io_gas s) (m_ext s) (m_output s) (m_mem s) (m_code s) (m_returnData s) (m_OP s) (m_PC s)
    (m_SP s) (m_SPP s) (m_runGas s) (m_newMemSize s) n (m_jumpDests s) (m_bounce s).

Definition with_bounce (b : Bounce) (s : VM) : VM :=
  mkVM (m_io_gas s) (m_ext s) (m_output s) (m_mem s) (m_code s) (m_returnData s) (m_OP s) (m_PC s)
    (m_SP s) (m_SPP s) (m_runGas s) (m_newMemSize s) (m_copyMemSize s) (m_jumpDests s) b.

(** A call of a virtual function of [*m_ext] *)
Definition ext {A} (f : world E A) : M A := λ st,
  match f (m_ext st) with
  | Some (e, a) => (with_ext e st, Ok a)
  | None => (st, Err WorldException)
  end.


(** [m_SP[i]] *)
Definition sp (i : nat) : M Z :=
  st ← get id; match m_SP st !! i with Some v => mret v | None => throw Undefined end.
(** [m_SPP[0] = v] *)
Definition set_spp (v : Z) : M unit :=
  st ← get id; match m_SPP st with _ :: l => modify (with_SPP (v :: l)) | [] => throw Undefined end.

(** A range of a buffer; an empty range may lie anywhere. *)
Definition slice (bs : bytes) (off size : Z) : M bytes :=
  if size =? 0 then mret []
  else if off + size <=? len bs then mret (take (Z.to_nat size) (drop (Z.to_nat off) bs))
  else throw Undefined.
(** [std::memcpy(m_mem.data() + off, ...)] *)
Definition write_mem (off : Z) (bs : bytes) : M unit :=
  mem ← get m_mem;
  if len bs =? 0 then mret ()
  else if off + len bs <=? len mem
  then modify (with_mem (take (Z.to_nat off) mem ++ bs ++ drop (Z.to_nat off + length bs) mem))
  else throw Undefined.

(** ** Metering *)

Definition toInt63 (v : Z) : M Z := if 0x7FFFFFFFFFFFFFFF <? v then throw OutOfGas else mret v.

(** [memNeed] *)
Definition memNeed (offset size : Z) : M Z :=
  toInt63 (if negb (size =? 0) then u512 (offset + size) else 0).

(** [gasForMem] *)
Definition gasForMem (size : Z) : M Z :=
  let s := size / 32 in
  toInt63 (u512 (memoryGas sched * s + u512 (s * s) / quadCoeffDiv sched)).

(** [updateIOGas] *)
Definition updateIOGas : M unit :=
  st ← get id;
  if m_io_gas st <? m_runGas st then throw OutOfGas
  else modify (with_gas (m_io_gas st - m_runGas st)).

(** [updateGas] *)
Definition updateGas : M unit :=
  st ← get id;
  (if len (m_mem st) <? m_newMemSize st then
     g1 ← gasForMem (m_newMemSize st);
     g0 ← gasForMem (len (m_mem st));
     d ← toInt63 (u64 (g1 - g0));
     modify (with_runGas (u64 (m_runGas st + d)))
   else mret ());;
  st ← get id;
  let copy := u64 (copyGas sched * (u64 (m_copyMemSize st + 31) / 32)) in
  modify (with_runGas (u64 (m_runGas st + copy)));;
  st ← get id;
  throw_when (m_io_gas st <? m_runGas st) OutOfGas.

(** [updateMem] *)
Definition updateMem (newMem : Z) : M unit :=
  modify (with_newMemSize (u64 (u64 (newMem + 31) / 32 * 32)));;
  updateGas;;
  st ← get id;
  if len (m_mem st) <? m_newMemSize st
  then modify (with_mem (m_mem st ++ replicate (Z.to_nat (m_newMemSize st - len (m_mem st))) 0))
  else mret ().

Definition set_runGas (v : Z) : M unit := g ← toInt63 v; modify (with_runGas g).
Definition add_runGas (v : Z) : M unit :=
  g ← get m_runGas; modify (with_runGas (u64 (g + v))).

(** [updateSSGas] *)
Definition updateSSGas : M unit :=
  k ← sp 0; v ← sp 1;
  old ← ext (ext_store k);
  if (old =? 0) && negb (v =? 0) then set_runGas (sstoreSetGas sched)
  else
    old ← ext (ext_store k);
    if negb (old =? 0) && (v =? 0) then
      set_runGas (sstoreResetGas sched);;
      ext (ext_add_refund (sstoreRefundGas sched))
    else set_runGas (sstoreResetGas sched).

(** [logGasMem], for the LOG instruction of [n] topics *)
Definition logGasMem (n : Z) : M unit :=
  off ← sp 0; size ← sp 1;
  set_runGas (u512 (u32 (logGas sched + u32 (logTopicGas sched * n)) + u512 (logDataGas sched * size)));;
  need ← memNeed off size;
  updateMem need.

(** [adjustStack]; a slot that is added holds what the array held. *)
Definition adjustStack (removed added : nat) : M unit :=
  st ← get id;
  let stack := m_SPP st in
  modify (with_SP stack);;
  if (length stack <? removed)%nat then throw StackUnderflow
  else if (1024 <? length stack - removed + added)%nat then throw OutOfStack
  else modify (with_SPP (if (added <=? removed)%nat then drop (removed - added) stack
                         else replicate (added - removed) 0 ++ stack)).

(** [fetchInstruction] *)
Definition fetchInstruction : M unit :=
  st ← get id;
  match m_code st !! Z.to_nat (m_PC st) with
  | None => throw Undefined
  | Some b =>
    let op := instruction_of b in
    modify (with_OP op);;
    adjustStack (args (instructionInfo op)) (ret (instructionInfo op));;
    set_runGas (tier_gas sched (gasPriceTier (instructionInfo op)));;
    modify (λ s, with_copyMemSize 0 (with_newMemSize (len (m_mem s)) s))
  end.

(** ** Helpers of the instructions *)

(** [u2s] and [s2u] *)
Definition u2s (u : Z) : Z := if Z.testbit u 255 then - (2 ^ 256 - u) else u.
Definition s2u (s : Z) : Z := if 0 <=? s then s else 2 ^ 256 + s.
(** [divWorkaround], [modWorkaround]: the division of [s512] truncates. *)
Definition divWorkaround (a b : Z) : Z := Z.quot a b.
Definition modWorkaround (a b : Z) : Z := Z.rem a b.

Definition b2z (b : bool) : Z := if b then 1 else 0.
Definition asAddress (v : Z) : Z := u160 v.

(** [exp256]: the exponent loses a bit in each round. *)
Fixpoint exp256_loop (fuel : nat) (base exponent result : Z) : Z :=
  match fuel with
  | O => result
  | S fuel =>
    if exponent =? 0 then result
    else
      let result := if Z.odd exponent then u256 (result * base) else result in
      exp256_loop fuel (u256 (base * base)) (Z.shiftr exponent 1) result
  end.
Definition exp256 (base exponent : Z) : Z := exp256_loop 256 base exponent 1.

(** [h256(v).firstBitSet()]: the leading zero bits, 256 for 0 *)
Fixpoint lead_bits (fuel : nat) (d ret : Z) : Z :=
  match fuel with
  | O => ret
  | S fuel => if negb (Z.land d 0x80 =? 0) then ret else lead_bits fuel (u8 (Z.shiftl d 1)) (ret + 1)
  end.
Fixpoint firstBitSet (bs : bytes) (ret : Z) : Z :=
  match bs with
  | [] => ret
  | d :: bs => if negb (d =? 0) then lead_bits 8 d ret else firstBitSet bs (ret + 8)
  end.

(** BYTE, SAR and SIGNEXTEND *)
Definition op_byte (i v : Z) : Z :=
  if i <? 32 then Z.land (Z.shiftr v (8 * (31 - i))) 0xff else 0.
Definition hibit : Z := 2 ^ 255.
Definition allbits : Z := 2 ^ 256 - 1.
Definition op_sar (n shiftee : Z) : Z :=
  if 256 <=? n then (if negb (Z.land shiftee hibit =? 0) then allbits else 0)
  else
    let r := Z.shiftr shiftee n in
    if negb (Z.land shiftee hibit =? 0)
    then Z.lor r (u256 (Z.shiftl allbits (256 - n))) else r.
Definition op_signextend (k number : Z) : Z :=
  if k <? 31 then
    let testBit := k * 8 + 7 in
    let mask := Z.shiftl 1 testBit - 1 in
    if Z.testbit number testBit then Z.lor number (Z.lxor allbits mask)
    else Z.land number mask
  else number.
Definition op_sdiv (a b : Z) : Z :=
  if negb (b =? 0) then s2u (divWorkaround (u2s a) (u2s b)) else 0.
Definition op_smod (a b : Z) : Z :=
  if negb (b =? 0) then s2u (modWorkaround (u2s a) (u2s b)) else 0.

(** CALLDATALOAD: 32 bytes of the input, zeros behind its end *)
Definition calldata_load (d : bytes) (i : Z) : Z :=
  if i + 31 <? len d then fromBigEndian u256 (take 32 (drop (Z.to_nat i) d))
  else if len d <=? i then 0
  else fromBigEndian u256 (map (λ j, nth (Z.to_nat i + j) d 0) (seq 0 32)).

(** [copyDataToMemory(_data, m_SP + i)] *)
Definition copyDataToMemory (d : bytes) (i : nat) : M unit :=
  offset ← sp i; bigIndex ← sp (i + 1); size ← sp (i + 2);
  let offset := u64 offset in
  let index := u64 bigIndex in
  let size := u64 size in
  let sizeToBeCopied :=
    if len d <? bigIndex + size then (if len d <? bigIndex then 0 else u64 (len d - index))
    else size in
  bs ← slice d index sizeToBeCopied;
  write_mem offset bs;;
  write_mem (offset + sizeToBeCopied) (replicate (Z.to_nat (size - sizeToBeCopied)) 0).

(** [verifyJumpDest]: [std::binary_search] on a sorted vector *)
Definition verifyJumpDest (dest : Z) : M Z :=
  st ← get id;
  if (dest <=? 0x7FFFFFFFFFFFFFFF) && existsb (Z.eqb dest) (m_jumpDests st)
  then mret dest else throw BadJumpDestination.

(** ** Entry: [copyCode] and [optimize] *)

Definition copyCode (code : bytes) (extraBytes : nat) : bytes := code ++ replicate extraBytes 0.

(** The loop of [optimize] at [pc]: instructions that only the optimiser may
    make become INVALID, the positions of the JUMPDEST instructions are
    collected; push data is skipped. *)
Fixpoint optimize_loop (fuel : nat) (nBytes pc : Z) (code : bytes) (dests : list Z)
    : bytes * list Z :=
  match fuel with
  | O => (code, dests)
  | S fuel =>
    if pc <? nBytes then
      match code !! Z.to_nat pc with
      | None => (code, dests)
      | Some b =>
        let op := instruction_of b in
        let code := match op with
                    | I_PUSHC | I_JUMPC | I_JUMPCI => <[Z.to_nat pc := 0xfe]> code
                    | _ => code
                    end in
        match op with
        | I_JUMPDEST => optimize_loop fuel nBytes (pc + 1) code (dests ++ [pc])
        | I_PUSH n => optimize_loop fuel nBytes (pc + n + 1) code dests
        | _ => optimize_loop fuel nBytes (pc + 1) code dests
        end
      end
    else (code, dests)
  end.
Definition optimize (code : bytes) : bytes * list Z :=
  optimize_loop (length code) (len code) 0 (copyCode code 33) [].

(** [initEntry] *)
Definition initEntry : M unit :=
  modify (with_bounce interpretCases_);;
  let r := optimize (ext_code env) in
  modify (with_code r.1 r.2).

(** ** Instructions that call out *)

(** [caseCreate] *)
Definition caseCreate : M unit :=
  modify (with_bounce interpretCases_);;
  set_runGas (createGas sched);;
  op ← get m_OP;
  endowment ← sp 0;
  x1 ← sp 1; x2 ← sp 2;
  args ← (match op with
          | I_CREATE => mret (0, x1, x2)
          | _ => x3 ← sp 3; mret (x1, x2, x3)
          end : M (Z * Z * Z));
  let '(salt, initOff, initSize) := args in
  need ← memNeed initOff initSize;
  updateMem need;;
  updateIOGas;;
  modify (with_returnData []);;
  balance ← ext (ext_balance (myAddress env));
  (if (endowment <=? balance) && (depth env <? 1024) then
     st ← get id;
     let g := m_io_gas st in
     let createGas := if staticCallDepthLimit sched then g else g - g / 64 in
     initCode ← slice (m_mem st) (u64 initOff) (u64 initSize);
     result ← ext (ext_create endowment createGas initCode
                     (match op with I_CREATE2 => true | _ => false end) salt);
     set_spp (u160 result.1.1);;
     modify (with_returnData result.1.2);;
     modify (with_gas (u64 (u256 (g - u256 (createGas - result.2)))))
   else set_spp 0);;
  modify (λ s, with_PC (u64 (m_PC s + 1)) s).

(** What [caseCallSetup] leaves to its caller: the parameters of the call,
    and where the output goes when the call is made. *)
Record CallSetup := mkCallSetup { callParams : CallParameters; o_output : option (Z * Z) }.

(** [caseCallSetup] *)
Definition caseCallSetup : M CallSetup :=
  set_runGas (callGas sched);;
  st ← get id;
  let op := m_OP st in
  let staticCall_ := match op with I_STATICCALL => true | _ => staticCall env end in
  let haveValueArg := match op with I_CALL | I_CALLCODE => true | _ => false end in
  x1 ← sp 1;
  x2 ← sp 2;
  let destinationAddr := asAddress x1 in
  (match op with
   | I_CALL =>
     exists_ ← ext (ext_exists destinationAddr);
     if negb exists_ && ((0 <? x2) || zeroValueTransferChargesNewAccountGas sched)
     then g ← toInt63 (callNewAccountGas sched); add_runGas g else mret ()
   | _ => mret ()
   end);;
  (if haveValueArg && (0 <? x2)
   then g ← toInt63 (callValueTransferGas sched); add_runGas g else mret ());;
  let sizesOffset := if haveValueArg then 3%nat else 2%nat in
  inputOffset ← sp sizesOffset;
  inputSize ← sp (sizesOffset + 1);
  outputOffset ← sp (sizesOffset + 2);
  outputSize ← sp (sizesOffset + 3);
  inputMemNeed ← memNeed inputOffset inputSize;
  outputMemNeed ← memNeed outputOffset outputSize;
  updateMem (Z.max inputMemNeed outputMemNeed);;
  updateIOGas;;
  x0 ← sp 0;
  io_gas ← get m_io_gas;
  let gas := if staticCallDepthLimit sched then x0 else Z.min x0 (io_gas - io_gas / 64) in
  set_runGas gas;;
  updateIOGas;;
  let gas := if haveValueArg && (0 <? x2) then u256 (gas + callStipend sched) else gas in
  let valueTransfer := if haveValueArg then x2 else 0 in
  let apparentValue := match op with
                       | I_CALL | I_CALLCODE => x2
                       | I_DELEGATECALL => value env
                       | _ => 0
                       end in
  balance ← ext (ext_balance (myAddress env));
  if (valueTransfer <=? balance) && (depth env <? 1024) then
    st ← get id;
    d ← slice (m_mem st) (u64 inputOffset) (u64 inputSize);
    mret (mkCallSetup
      (mkCallParameters
         (match op with I_DELEGATECALL => caller env | _ => myAddress env end)
         destinationAddr
         (match op with I_CALL | I_STATICCALL => destinationAddr | _ => myAddress env end)
         valueTransfer apparentValue gas d staticCall_)
      (Some (u64 outputOffset, u64 outputSize)))
  else
    mret (mkCallSetup
      (mkCallParameters 0 destinationAddr 0 valueTransfer apparentValue gas [] staticCall_) None).

(** [caseCall]; [result.output.copyTo(output)] copies what fits. *)
Definition caseCall : M unit :=
  modify (with_bounce interpretCases_);;
  modify (with_returnData []);;
  setup ← caseCallSetup;
  gas ← (match o_output setup with
         | Some (off, size) =>
           result ← ext (ext_call (callParams setup));
           write_mem off (take (Z.to_nat size) result.1.2);;
           modify (with_returnData result.1.2);;
           set_spp (b2z result.1.1);;
           mret result.2
         | None => set_spp 0;; mret (gas (callParams setup))
         end : M Z);
  modify (λ s, with_gas (u64 (m_io_gas s + u64 gas)) s);;
  modify (λ s, with_PC (u64 (m_PC s + 1)) s).

(** ** The cases of [interpretCases]

    A case ends with [NEXT] ([++m_PC]), with [CONTINUE], or with [BREAK], which
    gives control back to the trampoline. *)

Inductive Flow := NEXT | CONTINUE | BREAK.

Definition bounce_to (b : Bounce) : M Flow := modify (with_bounce b);; mret BREAK.

(** CREATE2 ... CALLCODE *)
Definition cases_call (op : Instruction) : option (M Flow) :=
  match op with
  | I_CREATE2 => Some (
      throw_when (negb (haveCreate2 sched)) BadInstruction;;
      bounce_to caseCreate_)
  | I_CREATE => Some (
      throw_when (staticCall env) DisallowedStateChange;;
      bounce_to caseCreate_)
  | I_DELEGATECALL => Some (
      throw_when (negb (haveDelegateCall sched)) BadInstruction;;
      bounce_to caseCall_)
  | I_STATICCALL => Some (
      throw_when (negb (haveStaticCall sched)) BadInstruction;;
      bounce_to caseCall_)
  | I_CALL => Some (
      v ← sp 2;
      throw_when (staticCall env && negb (v =? 0)) DisallowedStateChange;;
      bounce_to caseCall_)
  | I_CALLCODE => Some (bounce_to caseCall_)
  | _ => None
  end.

(** The memory [m_SP[0]], [m_SP[1]] that RETURN and REVERT leave; it is moved
    out of the machine. *)
Definition take_output : M bytes :=
  modify (with_copyMemSize 0);;
  off ← sp 0; size ← sp 1;
  need ← memNeed off size;
  updateMem need;;
  updateIOGas;;
  mem ← get m_mem;
  modify (with_mem []);;
  slice mem (u64 off) (u64 size).

(** RETURN ... STOP *)
Definition cases_halt (op : Instruction) : option (M Flow) :=
  match op with
  | I_RETURN => Some (
      out ← take_output;
      modify (with_output out);;
      bounce_to Stop)
  | I_REVERT => Some (
      throw_when (negb (haveRevert sched)) BadInstruction;;
      out ← take_output;
      throw (RevertInstruction out))
  | I_SUICIDE => Some (
      throw_when (staticCall env) DisallowedStateChange;;
      set_runGas (suicideGas sched);;
      x0 ← sp 0;
      let dest := asAddress x0 in
      balance ← ext (ext_balance (myAddress env));
      (if ((0 <? balance) || zeroValueTransferChargesNewAccountGas sched)
          && suicideChargesNewAccountGas sched
       then exists_ ← ext (ext_exists dest);
            if negb exists_ then add_runGas (callNewAccountGas sched) else mret ()
       else mret ());;
      updateIOGas;;
      ext (ext_suicide dest);;
      bounce_to Stop)
  | I_STOP => Some (updateIOGas;; bounce_to Stop)
  | _ => None
  end.

(** The topics [m_SP[2]] ... [m_SP[n+1]] of a LOG instruction *)
Fixpoint topics (i n : nat) : M (list Z) :=
  match n with
  | O => mret []
  | S n => t ← sp i; ts ← topics (S i) n; mret (t :: ts)
  end.

(** MLOAD ... LOG4 *)
Definition cases_memory (op : Instruction) : option (M Flow) :=
  match op with
  | I_MLOAD => Some (
      off ← sp 0;
      need ← toInt63 off;
      updateMem (u64 (need + 32));;
      updateIOGas;;
      mem ← get m_mem;
      w ← slice mem (u32 off) 32;
      set_spp (fromBigEndian u256 w);;
      mret NEXT)
  | I_MSTORE => Some (
      off ← sp 0;
      need ← toInt63 off;
      updateMem (u64 (need + 32));;
      updateIOGas;;
      v ← sp 1;
      write_mem (u32 off) (toBigEndian v (replicate 32 0));;
      mret NEXT)
  | I_MSTORE8 => Some (
      off ← sp 0;
      need ← toInt63 off;
      updateMem (u64 (need + 1));;
      updateIOGas;;
      v ← sp 1;
      write_mem (u32 off) [Z.land v 0xff];;
      mret NEXT)
  | I_SHA3 => Some (
      off ← sp 0; size ← sp 1;
      set_runGas (u512 (sha3Gas sched + u512 (u512 (size + 31) / 32 * sha3WordGas sched)));;
      need ← memNeed off size;
      updateMem need;;
      updateIOGas;;
      mem ← get m_mem;
      d ← slice mem (u64 off) (u64 size);
      set_spp (ext_sha3 d);;
      mret NEXT)
  | I_LOG n => Some (
      throw_when (staticCall env) DisallowedStateChange;;
      logGasMem n;;
      updateIOGas;;
      ts ← topics 2 (Z.to_nat n);
      off ← sp 0; size ← sp 1;
      st ← get id;
      d ← slice (m_mem st) (u64 off) (u64 size);
      ext (ext_log ts d);;
      mret NEXT)
  | _ => None
  end.

(** [ON_OP(); updateIOGas(); m_SPP[0] = v] *)
Definition case_const (v : M Z) : M Flow := updateIOGas;; x ← v; set_spp x;; mret NEXT.
Definition case_unary (f : Z → Z) : M Flow := case_const (a ← sp 0; mret (f a)).
Definition case_binary (f : Z → Z → Z) : M Flow :=
  case_const (a ← sp 0; b ← sp 1; mret (f a b)).
Definition case_ternary (f : Z → Z → Z → Z) : M Flow :=
  case_const (a ← sp 0; b ← sp 1; c ← sp 2; mret (f a b c)).

(** EXP ... BYTE *)
Definition cases_arith (op : Instruction) : option (M Flow) :=
  match op with
  | I_EXP => Some (
      expon ← sp 1;
      set_runGas (u32 (expGas sched
        + u32 (expByteGas sched * (32 - firstBitSet (toBigEndian expon (replicate 32 0)) 0 / 8))));;
      case_binary exp256)
  | I_ADD => Some (case_binary (λ a b, u256 (a + b)))
  | I_MUL => Some (case_binary (λ a b, u256 (a * b)))
  | I_SUB => Some (case_binary (λ a b, u256 (a - b)))
  | I_DIV => Some (case_binary (λ a b, if negb (b =? 0) then divWorkaround a b else 0))
  | I_SDIV => Some (case_binary op_sdiv)
  | I_MOD => Some (case_binary (λ a b, if negb (b =? 0) then modWorkaround a b else 0))
  | I_SMOD => Some (case_binary op_smod)
  | I_NOT => Some (case_unary (λ a, Z.lxor allbits a))
  | I_LT => Some (case_binary (λ a b, b2z (a <? b)))
  | I_GT => Some (case_binary (λ a b, b2z (b <? a)))
  | I_SLT => Some (case_binary (λ a b, b2z (u2s a <? u2s b)))
  | I_SGT => Some (case_binary (λ a b, b2z (u2s b <? u2s a)))
  | I_EQ => Some (case_binary (λ a b, b2z (a =? b)))
  | I_ISZERO => Some (case_unary (λ a, b2z (a =? 0)))
  | I_AND => Some (case_binary Z.land)
  | I_OR => Some (case_binary Z.lor)
  | I_XOR => Some (case_binary Z.lxor)
  | I_BYTE => Some (case_binary op_byte)
  | _ => None
  end.

(** SHL ... SIGNEXTEND; SIGNEXTEND changes [m_SP[1]], which is [m_SPP[0]]. *)
Definition cases_shift (op : Instruction) : option (M Flow) :=
  match op with
  | I_SHL => Some (
      throw_when (negb (haveBitwiseShifting sched)) BadInstruction;;
      case_binary (λ n v, if 256 <=? n then 0 else u256 (Z.shiftl v n)))
  | I_SHR => Some (
      throw_when (negb (haveBitwiseShifting sched)) BadInstruction;;
      case_binary (λ n v, if 256 <=? n then 0 else Z.shiftr v n))
  | I_SAR => Some (
      throw_when (negb (haveBitwiseShifting sched)) BadInstruction;;
      case_binary op_sar)
  | I_ADDMOD => Some (case_ternary (λ a b n, if negb (n =? 0) then u256 (u512 (a + b) mod n) else 0))
  | I_MULMOD => Some (case_ternary (λ a b n, if negb (n =? 0) then u256 (u512 (a * b) mod n) else 0))
  | I_SIGNEXTEND => Some (case_binary op_signextend)
  | _ => None
  end.

(** ADDRESS ... EXTCODESIZE; CALLDATALOAD changes [m_SP[0]], which is
    [m_SPP[0]]. *)
Definition cases_env (op : Instruction) : option (M Flow) :=
  match op with
  | I_ADDRESS => Some (case_const (mret (myAddress env)))
  | I_ORIGIN => Some (case_const (mret (origin env)))
  | I_BALANCE => Some (
      set_runGas (balanceGas sched);;
      case_const (x ← sp 0; ext (ext_balance (asAddress x))))
  | I_CALLER => Some (case_const (mret (caller env)))
  | I_CALLVALUE => Some (case_const (mret (value env)))
  | I_CALLDATALOAD => Some (case_unary (calldata_load (ext_data env)))
  | I_CALLDATASIZE => Some (case_const (mret (len (ext_data env))))
  | I_RETURNDATASIZE => Some (
      throw_when (negb (haveReturnData sched)) BadInstruction;;
      case_const (d ← get m_returnData; mret (len d)))
  | I_CODESIZE => Some (case_const (mret (len (ext_code env))))
  | I_EXTCODESIZE => Some (
      set_runGas (extcodesizeGas sched);;
      case_const (x ← sp 0; ext (ext_codeSizeAt (asAddress x))))
  | I_GASPRICE => Some (case_const (mret (gasPrice env)))
  | I_BLOCKHASH => Some (
      set_runGas (blockhashGas sched);;
      case_const (x ← sp 0; ext (ext_blockHash x)))
  | I_COINBASE => Some (case_const (mret (author env)))
  | I_TIMESTAMP => Some (case_const (mret (timestamp env)))
  | I_NUMBER => Some (case_const (mret (number env)))
  | I_DIFFICULTY => Some (case_const (mret (difficulty env)))
  | I_GASLIMIT => Some (case_const (mret (gasLimit env)))
  | _ => None
  end.

(** The charge of a copying instruction with its arguments from [m_SP[i]] on,
    and the copy *)
Definition charge_copy (i : nat) : M unit :=
  size ← sp (i + 2);
  copy ← toInt63 size;
  modify (with_copyMemSize copy);;
  off ← sp i;
  need ← memNeed off size;
  updateMem need;;
  updateIOGas.

(** CALLDATACOPY ... EXTCODECOPY *)
Definition cases_copy (op : Instruction) : option (M Flow) :=
  match op with
  | I_CALLDATACOPY => Some (charge_copy 0;; copyDataToMemory (ext_data env) 0;; mret NEXT)
  | I_RETURNDATACOPY => Some (
      throw_when (negb (haveReturnData sched)) BadInstruction;;
      d ← get m_returnData; off ← sp 1; size ← sp 2;
      throw_when (len d <? off + size) BufferOverrun;;
      charge_copy 0;;
      copyDataToMemory d 0;;
      mret NEXT)
  | I_CODECOPY => Some (charge_copy 0;; copyDataToMemory (ext_code env) 0;; mret NEXT)
  | I_EXTCODECOPY => Some (
      set_runGas (extcodecopyGas sched);;
      charge_copy 1;;
      x ← sp 0; c ← ext (ext_codeAt (asAddress x));
      copyDataToMemory c 1;;
      mret NEXT)
  | _ => None
  end.

(** The number in [n] bytes of the code at [pc] *)
Definition push_value (code : bytes) (pc n : Z) : M Z :=
  bs ← slice code pc n;
  mret (fold_left (λ v b, u256 (Z.lor (Z.shiftl v 8) b)) bs 0).

(** POP ... SWAP16 *)
Definition cases_flow (op : Instruction) : option (M Flow) :=
  match op with
  | I_POP => Some (updateIOGas;; mret NEXT)
  | I_PUSH n => Some (
      updateIOGas;;
      st ← get id;
      v ← push_value (m_code st) (m_PC st + 1) n;
      set_spp v;;
      modify (with_PC (u64 (m_PC st + 1 + n)));;
      mret CONTINUE)
  | I_JUMP => Some (
      updateIOGas;;
      x ← sp 0; pc ← verifyJumpDest x;
      modify (with_PC pc);;
      mret CONTINUE)
  | I_JUMPI => Some (
      updateIOGas;;
      c ← sp 1;
      if negb (c =? 0)
      then x ← sp 0; pc ← verifyJumpDest x; modify (with_PC pc);; mret CONTINUE
      else modify (λ s, with_PC (u64 (m_PC s + 1)) s);; mret CONTINUE)
  | I_DUP n => Some (case_const (sp (Z.to_nat (n - 1))))
  | I_SWAP n => Some (
      updateIOGas;;
      a ← sp 0; b ← sp (Z.to_nat n);
      modify (λ s, with_SPP (<[Z.to_nat n := a]> (<[0%nat := b]> (m_SPP s))) s);;
      mret NEXT)
  | _ => None
  end.

(** SLOAD ... JUMPDEST *)
Definition cases_state (op : Instruction) : option (M Flow) :=
  match op with
  | I_SLOAD => Some (
      set_runGas (sloadGas sched);;
      case_const (k ← sp 0; ext (ext_store k)))
  | I_SSTORE => Some (
      throw_when (staticCall env) DisallowedStateChange;;
      updateSSGas;;
      updateIOGas;;
      k ← sp 0; v ← sp 1;
      ext (ext_setStore k v);;
      mret NEXT)
  | I_PC => Some (case_const (get m_PC))
  | I_MSIZE => Some (case_const (mem ← get m_mem; mret (len mem)))
  | I_GAS => Some (case_const (get m_io_gas))
  | I_JUMPDEST => Some (modify (with_runGas 1);; updateIOGas;; mret NEXT)
  | _ => None
  end.

(** The switch; what is left are INVALID, the undefined opcodes, and the
    instructions of EIP 615, EIP 616 and the optimiser. *)
Fixpoint first_some {A} (l : list (option A)) : option A :=
  match l with [] => None | Some a :: _ => Some a | None :: l => first_some l end.
Definition switch (op : Instruction) : M Flow :=
  match first_some [cases_call op; cases_halt op; cases_memory op; cases_arith op;
                    cases_shift op; cases_env op; cases_copy op; cases_flow op;
                    cases_state op] with
  | Some m => m
  | None => throw BadInstruction
  end.

(** An iteration of the loop of [interpretCases] *)
Definition interpretCases : M unit :=
  fetchInstruction;;
  op ← get m_OP;
  flow ← switch op;
  match flow with
  | NEXT => modify (λ s, with_PC (u64 (m_PC s + 1)) s)
  | CONTINUE | BREAK => mret ()
  end.

(** [(this->*m_bounce)()] *)
Definition round (b : Bounce) : M unit :=
  match b with
  | initEntry_ => initEntry
  | caseCreate_ => caseCreate
  | caseCall_ => caseCall
  | interpretCases_ => interpretCases
  | Stop => mret ()
  end.

(** The trampoline of [exec].  Within the loop of [interpretCases] [m_bounce]
    is [interpretCases], so that a [CONTINUE] and a way through the trampoline
    are the same; [None] is no result with this fuel. *)
Fixpoint trampoline (fuel : nat) (st : VM) : option (VM * result VMError unit) :=
  match m_bounce st with
  | Stop => Some (st, Ok ())
  | b =>
    match fuel with
    | O => None
    | S fuel =>
      match round b st with
      | (st', Ok _) => trampoline fuel st'
      | (st', Err e) => Some (st', Err e)
      end
    end
  end.

Definition initial (io_gas : Z) (x : E) : VM :=
  mkVM (u64 io_gas) x [] [] [] [] I_STOP 0 [] [] 0 0 0 [] initEntry_.

(** The gas that is left, the state of the world, and the output. *)
Definition exec (fuel : nat) (io_gas : Z) (x : E) : option (Z * E * result VMError bytes) :=
  match trampoline fuel (initial io_gas x) with
  | None => None
  | Some (st, r) =>
    Some (m_io_gas st, m_ext st, match r with Ok _ => Ok (m_output st) | Err e => Err e end)
  end.

End LegacyVM.
End LegacyVM.
