(* ===== verification/LegacyVMCode.v ===== *)
(** * The code the interpreter runs, and its table of jump destinations
    (libevm/LegacyVMOpt.cpp)

    [optimize] against a reference definition of the instructions of a code:
    the positions that are reached from the first one by stepping over the
    instructions with their push data. *)
From S2P Require Import Prelude CommonData Instruction LegacyVM.
From Stdlib Require Import Sorted.

Module LegacyVMCode.
Import Instruction LegacyVM.

Definition push_size (op : Instruction) : Z := match op with I_PUSH n => n | _ => 0 end.

(** An instruction starts at [pc]. *)
Inductive boundary (code : bytes) : Z → Prop :=
| boundary_0 : boundary code 0
| boundary_next pc b :
    boundary code pc → code !! Z.to_nat pc = Some b →
    boundary code (pc + push_size (instruction_of b) + 1).

(** The instructions that only the optimiser may make *)
Definition synthetic (op : Instruction) : bool :=
  match op with I_PUSHC | I_JUMPC | I_JUMPCI => true | _ => false end.

Lemma instruction_byte b :
  in_word 8 b →
  0 ≤ push_size (instruction_of b) ≤ 32 ∧ (instruction_of b = I_JUMPDEST ↔ b = 0x5b).
Proof.
  intros Hb.
  pose proof (byte_forall (λ b,
    (0 <=? push_size (instruction_of b)) && (push_size (instruction_of b) <=? 32)
    && eqb (match instruction_of b with I_JUMPDEST => true | _ => false end) (b =? 0x5b))
    ltac:(by vm_compute) b Hb) as Hf. cbv beta in Hf.
  apply andb_prop in Hf as [[H1 H2]%andb_prop H3%eqb_prop]. split; [lia|].
  destruct (Z.eqb_spec b 0x5b) as [->|Hne]; [done|]. split; [|done].
  intros Heq. by rewrite Heq in H3.
Qed.

Section Code.
Variables (code : bytes).
Hypothesis Hok : bytes_ok code.

Lemma code_byte i b : code !! i = Some b →
  0 ≤ push_size (instruction_of b) ≤ 32 ∧ (instruction_of b = I_JUMPDEST ↔ b = 0x5b).
Proof. intros. by eapply instruction_byte, bytes_ok_lookup. Qed.

Lemma boundary_nonneg pc : boundary code pc → 0 ≤ pc.
Proof. induction 1 as [|pc b ?? Hb]; [done|]. pose proof (code_byte _ _ Hb). lia. Qed.

(** Two instructions do not overlap. *)
Lemma boundary_disjoint x b y :
  boundary code x → code !! Z.to_nat x = Some b → boundary code y → x < y →
  x + push_size (instruction_of b) + 1 ≤ y.
Proof.
  intros Hx Hb Hy Hlt. pose proof (boundary_nonneg _ Hx) as H.
  revert x b Hx Hb Hlt H. induction (Z.lt_wf 0 y) as [y _ IH] in Hy |- *.
  intros x b Hx Hb Hlt Hx0. destruct Hy as [|p b' Hp Hb'].
  { lia. }
  pose proof (boundary_nonneg _ Hp). pose proof (code_byte _ _ Hb').
  destruct (Z.lt_trichotomy x p) as [Hxp|[->|Hpx]].
  - specialize (IH p ltac:(lia) Hp x b Hx Hb Hxp Hx0). lia.
  - simplify_eq. lia.
  - specialize (IH x ltac:(lia) Hx p b' Hp Hb' Hpx ltac:(done)). lia.
Qed.

(** What the loop of [optimize] has done before [pc]. *)
Record scanned (pc : Z) (c : bytes) (dests : list Z) : Prop := {
  sc_boundary : boundary code pc;
  sc_length : length c = length (copyCode code 33);
  sc_dests x : x ∈ dests ↔ x < pc ∧ boundary code x ∧ code !! Z.to_nat x = Some 0x5b;
  sc_sorted : StronglySorted Z.lt dests;
  sc_code i : c !! i = copyCode code 33 !! i ∨
    c !! i = Some 0xfe ∧ Z.of_nat i < pc ∧ boundary code (Z.of_nat i) ∧
    ∃ b, code !! i = Some b ∧ synthetic (instruction_of b) = true;
  sc_synthetic i b : boundary code (Z.of_nat i) → Z.of_nat i < pc → code !! i = Some b →
    synthetic (instruction_of b) = true → c !! i = Some 0xfe;
}.

Lemma boundary_between pc b x :
  boundary code pc → code !! Z.to_nat pc = Some b → boundary code x →
  x < pc + push_size (instruction_of b) + 1 ↔ x < pc ∨ x = pc.
Proof.
  intros Hpc Hb Hx. pose proof (code_byte _ _ Hb). split; [|lia].
  intros Hlt. destruct (Z.lt_trichotomy x pc) as [|[|Hgt]]; [auto..|].
  pose proof (boundary_disjoint _ _ _ Hpc Hb Hx Hgt). lia.
Qed.

(** An iteration of the loop *)
Lemma scanned_step pc c dests b :
  scanned pc c dests → code !! Z.to_nat pc = Some b →
  scanned (pc + push_size (instruction_of b) + 1)
    (if synthetic (instruction_of b) then <[Z.to_nat pc := 0xfe]> c else c)
    (if b =? 0x5b then dests ++ [pc] else dests).
Proof.
  intros [Hpc Hlen Hd Hs Hc Hsyn] Hb. pose proof (boundary_nonneg _ Hpc) as H0.
  pose proof (λ x, boundary_between _ _ x Hpc Hb) as Hbet.
  assert (Z.to_nat pc < length code)%nat as Hltc by by eapply lookup_lt_Some.
  assert (Z.to_nat pc < length c)%nat as Hltc'.
  { rewrite Hlen. unfold copyCode. rewrite length_app. lia. }
  split.
  - by apply boundary_next.
  - case_match; [by rewrite length_insert|done].
  - intros x. destruct (Z.eqb_spec b 0x5b) as [->|Hne].
    + rewrite elem_of_app, list_elem_of_singleton, Hd. split.
      * intros [(?&?&?)| ->]; (split; [|done]); apply Hbet; auto.
      * intros (Hx&Hxb&?). apply Hbet in Hx as [?| ->]; auto.
    + rewrite Hd. split.
      * intros (?&?&?); (split; [|done]); apply Hbet; auto.
      * intros (Hx&Hxb&?). apply Hbet in Hx as [?| ->]; [auto|simplify_eq|done].
  - destruct (Z.eqb_spec b 0x5b); [|done]. clear -Hs Hd.
    assert (Forall (λ x, x < pc) dests) as Hall.
    { apply Forall_forall. intros x [Hx _]%Hd. done. }
    clear Hd. induction Hs as [|x l Hs IH Hx]; [repeat constructor|].
    apply Forall_cons in Hall as [? Hall]. simpl. constructor; [auto|].
    apply Forall_app. auto.
  - intros i. specialize (Hc i). destruct (synthetic (instruction_of b)) eqn:Hsb.
    + destruct (decide (i = Z.to_nat pc)) as [->|Hne].
      * right. rewrite list_lookup_insert_eq by done. rewrite Z2Nat.id by done.
        split_and!; [done|apply Hbet; auto|done|by exists b].
      * rewrite list_lookup_insert_ne by done. destruct Hc as [|(?&?&?&?)]; [auto|].
        right. split_and!; [done|apply Hbet; auto|done..].
    + destruct Hc as [|(?&?&?&?)]; [auto|]. right. split_and!; [done|apply Hbet; auto|done..].
  - intros i b' Hi Hlt Hb' Hsb'. apply Hbet in Hlt as [Hlt|Heq]; [| |done].
    + specialize (Hsyn i b' Hi Hlt Hb' Hsb'). case_match; [|done].
      rewrite list_lookup_insert_ne by lia. done.
    + assert (i = Z.to_nat pc) as -> by lia. simplify_eq. rewrite Hsb'.
      by apply list_lookup_insert_eq.
Qed.

Lemma scanned_read pc c dests :
  scanned pc c dests → pc < len code →
  ∃ b, c !! Z.to_nat pc = Some b ∧ code !! Z.to_nat pc = Some b.
Proof.
  intros [Hpc _ _ _ Hc _] Hlt. pose proof (boundary_nonneg _ Hpc). unfold len in *.
  destruct (lookup_lt_is_Some_2 code (Z.to_nat pc)) as [b Hb]; [lia|]. exists b. split; [|done].
  destruct (Hc (Z.to_nat pc)) as [->|(_&?&_)]; [|lia].
  unfold copyCode. by rewrite lookup_app_l by lia.
Qed.

Lemma optimize_loop_scanned fuel pc c dests :
  scanned pc c dests → len code - pc ≤ Z.of_nat fuel →
  ∃ pc', len code ≤ pc' ∧
    scanned pc' (optimize_loop fuel (len code) pc c dests).1
      (optimize_loop fuel (len code) pc c dests).2.
Proof.
  revert pc c dests. induction fuel as [|fuel IH]; intros pc c dests Hsc Hfuel; simpl.
  { exists pc. split; [lia|done]. }
  destruct (Z.ltb_spec pc (len code)) as [Hlt|]; [|by exists pc].
  destruct (scanned_read _ _ _ Hsc Hlt) as (b&->&Hb).
  pose proof (scanned_step _ _ _ _ Hsc Hb) as Hstep.
  destruct (code_byte _ _ Hb) as [Hps Hjd].
  assert (∀ c' d', scanned (pc + push_size (instruction_of b) + 1) c' d' →
    ∃ pc', len code ≤ pc' ∧
      scanned pc' (optimize_loop fuel (len code) (pc + push_size (instruction_of b) + 1) c' d').1
        (optimize_loop fuel (len code) (pc + push_size (instruction_of b) + 1) c' d').2) as Hrec
    by (intros; apply IH; [done|lia]).
  destruct (Z.eqb_spec b 0x5b) as [Heq|Hne].
  - apply Hjd in Heq. rewrite Heq in *. simpl in *. rewrite Z.add_0_r in *. by apply Hrec.
  - specialize (Hrec _ _ Hstep). destruct (instruction_of b) eqn:Hop; simpl in *;
      rewrite ?Z.add_0_r in *; try exact Hrec.
    destruct Hne. by apply Hjd.
Qed.

(** [optimize] keeps the code, with 33 zeros behind it, but for the
    instructions only the optimiser may make, which become INVALID; the table
    of jump destinations has, in ascending order, the positions of the
    JUMPDEST instructions, none of which lies in the data of a PUSH. *)
Definition optimized (c : bytes) (dests : list Z) : Prop :=
  length c = (length code + 33)%nat ∧ StronglySorted Z.lt dests ∧
  (∀ x, x ∈ dests ↔ boundary code x ∧ code !! Z.to_nat x = Some 0x5b) ∧
  (∀ i b, code !! i = Some b →
     (boundary code (Z.of_nat i) ∧ synthetic (instruction_of b) = true ∧ c !! i = Some 0xfe) ∨
     (¬ (boundary code (Z.of_nat i) ∧ synthetic (instruction_of b) = true) ∧ c !! i = Some b)) ∧
  (∀ i, (length code ≤ i < length code + 33)%nat → c !! i = Some 0).

Lemma copyCode_lookup_end i :
  (length code ≤ i < length code + 33)%nat → copyCode code 33 !! i = Some 0.
Proof.
  intros Hi. unfold copyCode. rewrite lookup_app_r by lia. apply lookup_replicate_2. lia.
Qed.

Lemma scanned_optimized pc c dests : len code ≤ pc → scanned pc c dests → optimized c dests.
Proof.
  unfold len. intros Hpc [Hb Hlen Hd Hs Hc Hsyn]. split_and!.
  - rewrite Hlen. unfold copyCode. by rewrite length_app, length_replicate.
  - done.
  - intros x. rewrite Hd. split; [tauto|]. intros [Hx Hx']. split; [|done].
    pose proof (boundary_nonneg _ Hx). apply lookup_lt_Some in Hx'. lia.
  - intros i b Hi. pose proof (lookup_lt_Some _ _ _ Hi) as Hlt.
    destruct (Hc i) as [Heq|(Heq&_&Hbi&b'&Hb'&Hsb)].
    + unfold copyCode in Heq. rewrite lookup_app_l, Hi in Heq by done.
      destruct (decide (b = 0xfe)) as [->|Hne].
      { right. split; [|done]. by intros [_ ?]. }
      right. split; [|done]. intros [Hbi Hsb].
      pose proof (Hsyn i b Hbi ltac:(lia) Hi Hsb). simplify_eq.
    + left. by simplify_eq.
  - intros i Hi. destruct (Hc i) as [->|(_&_&_&b&Hb'&_)]; [by apply copyCode_lookup_end|].
    apply lookup_lt_Some in Hb'. lia.
Qed.

Lemma optimize_optimized : optimized (optimize code).1 (optimize code).2.
Proof.
  destruct (optimize_loop_scanned (length code) 0 (copyCode code 33) []) as (pc'&Hpc'&Hsc).
  - split; [constructor|done| |constructor|auto|].
    + intros x. split; [by intros ?%elem_of_nil|]. intros (?&Hx&_).
      pose proof (boundary_nonneg _ Hx). lia.
    + intros. lia.
  - unfold len. lia.
  - by eapply scanned_optimized.
Qed.

End Code.

(** C19. The table of jump destinations, and the code that is run, are those of the
    instructions of the code. *)
Theorem optimize_spec code :
  bytes_ok code → optimized code (optimize code).1 (optimize code).2.
Proof. apply optimize_optimized. Qed.

(** A JUMPDEST, one in the data of a PUSH1, and an instruction of the
    optimiser *)
Lemma optimize_spec_witness :
  optimized [0x5b; 0x60; 0x5b; 0xac; 0x5b] (optimize [0x5b; 0x60; 0x5b; 0xac; 0x5b]).1 [0; 4].
Proof.
  refine (optimize_spec [0x5b; 0x60; 0x5b; 0xac; 0x5b] _). by apply bytes_okb_spec.
Defined.

End LegacyVMCode.
