(* ===== verification/LegacyVMArith.v ===== *)
(** * What the arithmetic instructions compute

    The helpers of LegacyVM.v against arithmetic on integers: signed words are
    read with [to_signed], results are taken modulo 2^256. *)
From S2P Require Import Prelude CommonData Instruction LegacyVM.

Module LegacyVMArith.
Import Instruction LegacyVM CommonData.

Abbreviation signed := (to_signed 256).
Abbreviation word := (in_word 256).

Lemma word_u256 z : word (u256 z).
Proof. by apply wrap_in_word. Qed.
Lemma word_0 : word 0.
Proof. done. Qed.
Lemma word_u160 z : word (u160 z).
Proof. pose proof (wrap_in_word 160 z ltac:(lia)) as [? ?]. split; [done|]. lia. Qed.
Lemma word_b2z b : word (b2z b).
Proof. by destruct b. Qed.

Lemma testbit_top w z : 0 < w → in_word w z → Z.testbit z (w - 1) = (2 ^ (w - 1) <=? z).
Proof.
  intros Hw [Hz Hlt]. rewrite Z.testbit_eqb, Z.eqb_compare by lia.
  assert (2 ^ w = 2 * 2 ^ (w - 1)) as Hpow by (rewrite <-Z.pow_succ_r by lia; f_equal; lia).
  assert (0 < 2 ^ (w - 1)) by (apply Z.pow_pos_nonneg; lia).
  destruct (Z.leb_spec (2 ^ (w - 1)) z).
  - replace (z / 2 ^ (w - 1)) with 1; [done|]. apply Z.div_unique with (z - 2 ^ (w - 1)); lia.
  - by rewrite Z.div_small by lia.
Qed.

Lemma u2s_signed a : word a → u2s a = signed a.
Proof.
  intros Ha. unfold u2s, to_signed. rewrite wrap_small by done.
  pose proof (testbit_top 256 a ltac:(lia) Ha) as Ht. change (256 - 1) with 255 in *. rewrite Ht.
  destruct (Z.leb_spec (2 ^ 255) a), (Z.ltb_spec a (2 ^ 255)); lia.
Qed.
Lemma signed_range w a : 0 < w → - 2 ^ (w - 1) ≤ to_signed w a < 2 ^ (w - 1).
Proof.
  intros Hw. unfold to_signed. pose proof (wrap_in_word w a ltac:(lia)) as Hr.
  unfold in_word in Hr.
  assert (2 ^ w = 2 * 2 ^ (w - 1)) as Hpow by (rewrite <-Z.pow_succ_r by lia; f_equal; lia).
  case_match; lia.
Qed.
Lemma s2u_wrap s : - 2 ^ 256 ≤ s < 2 ^ 256 → s2u s = u256 s.
Proof.
  intros Hs. unfold s2u, wrap. case_match.
  - by rewrite Z.mod_small by lia.
  - rewrite <-(Z.mod_add s 1) by done. rewrite Z.mod_small; lia.
Qed.
Lemma signed_eq_0 a : word a → a ≠ 0 → signed a ≠ 0.
Proof. intros [] ?. unfold to_signed. rewrite wrap_small by done. case_match; lia. Qed.

Lemma op_sdiv_spec a b :
  word a → word b → op_sdiv a b = if b =? 0 then 0 else u256 (Z.quot (signed a) (signed b)).
Proof.
  intros Ha Hb. unfold op_sdiv, divWorkaround. rewrite !u2s_signed by done.
  destruct (Z.eqb_spec b 0); [done|]. simpl. apply s2u_wrap.
  pose proof (signed_range 256 a ltac:(lia)). pose proof (signed_eq_0 b Hb).
  enough (Z.abs (Z.quot (signed a) (signed b)) ≤ 2 ^ 255) by lia.
  rewrite <-Z.quot_abs by auto.
  transitivity (Z.abs (signed a)); [|lia].
  rewrite Z.quot_div_nonneg by lia. apply Z.div_le_upper_bound; nia.
Qed.
Lemma op_smod_spec a b :
  word a → word b → op_smod a b = if b =? 0 then 0 else u256 (Z.rem (signed a) (signed b)).
Proof.
  intros Ha Hb. unfold op_smod, modWorkaround. rewrite !u2s_signed by done.
  destruct (Z.eqb_spec b 0); [done|]. simpl. apply s2u_wrap.
  pose proof (signed_range 256 b ltac:(lia)). pose proof (signed_eq_0 b Hb).
  pose proof (Z.rem_bound_abs (signed a) (signed b)). lia.
Qed.

(** [exp256] is exponentiation modulo 2^256. *)
Lemma exp256_loop_spec fuel base e r :
  0 ≤ e < 2 ^ Z.of_nat fuel → word r → exp256_loop fuel base e r = u256 (r * base ^ e).
Proof.
  revert base e r. induction fuel as [|fuel IH]; intros base e r He Hr; simpl exp256_loop.
  { replace e with 0 by (simpl in He; lia). by rewrite Z.pow_0_r, Z.mul_1_r, wrap_small. }
  destruct (Z.eqb_spec e 0) as [->|Hne].
  { by rewrite Z.pow_0_r, Z.mul_1_r, wrap_small. }
  rewrite Nat2Z.inj_succ, Z.pow_succ_r in He by lia.
  rewrite Z.shiftr_div_pow2, Z.pow_1_r by lia.
  rewrite IH; [|dlia|case_match; [apply word_u256|done]].
  assert (∀ x, u256 (x * u256 (base * base) ^ (e / 2)) = u256 (x * base ^ (2 * (e / 2)))) as Hsq.
  { intros x. unfold wrap. rewrite <-(Z.mul_mod_idemp_r x (_ ^ _)), Z.mod_pow_l by done.
    rewrite Z.mul_mod_idemp_r by done. rewrite Z.pow_mul_r, Z.pow_2_r by dlia. done. }
  rewrite Hsq, <-Z.div2_div. rewrite (Z.div2_odd e) at 3. destruct (Z.odd e); simpl Z.b2z.
  - rewrite Z.pow_add_r, Z.pow_1_r by (rewrite ?Z.div2_div; dlia).
    unfold wrap. rewrite Z.mul_mod_idemp_l by done. f_equal. lia.
  - by rewrite Z.add_0_r.
Qed.
Lemma exp256_spec base e : word e → exp256 base e = u256 (base ^ e).
Proof.
  intros He. unfold exp256. rewrite exp256_loop_spec; [f_equal; lia|done|by vm_compute].
Qed.

Lemma div_word a b : word a → word b → b ≠ 0 → word (a / b).
Proof.
  intros Ha Hb Hne. destruct Ha, Hb. split; [apply Z.div_pos; lia|].
  apply Z.div_lt_upper_bound; nia.
Qed.
Lemma mod_word a b : word b → b ≠ 0 → word (a mod b).
Proof. intros [] ?. pose proof (Z.mod_pos_bound a b). split; lia. Qed.
Lemma divWorkaround_spec a b : word a → word b → divWorkaround a b = a / b.
Proof.
  intros [] []. unfold divWorkaround. destruct (decide (b = 0)) as [->|].
  - by rewrite Z.quot_0_r_ext, Zdiv_0_r by done.
  - by rewrite Z.quot_div_nonneg by lia.
Qed.
Lemma modWorkaround_spec a b : word a → word b → b ≠ 0 → modWorkaround a b = a mod b.
Proof. intros [] [] ?. unfold modWorkaround. by rewrite Z.rem_mod_nonneg by lia. Qed.

(** BYTE is a digit of the number in base 256. *)
Lemma op_byte_spec i v :
  0 ≤ i → op_byte i v = if i <? 32 then v / 256 ^ (31 - i) mod 256 else 0.
Proof.
  intros Hi. unfold op_byte. case_match; [|done].
  rewrite land_255, Z.shiftr_div_pow2, Z.pow_mul_r by lia. done.
Qed.

(** ** Shifts *)

Lemma land_hibit v : word v → negb (Z.land v hibit =? 0) = (2 ^ 255 <=? v).
Proof.
  intros Hv. rewrite <-(testbit_top 256) by done. change (256 - 1) with 255.
  assert (Z.land v hibit = if Z.testbit v 255 then hibit else 0) as ->.
  { apply Z.bits_inj'. intros n Hn. unfold hibit. rewrite Z.land_spec, Z.pow2_bits_eqb by lia.
    destruct (Z.eqb_spec 255 n) as [<-|].
    - destruct (Z.testbit v 255); [by rewrite Z.pow2_bits_true by lia|by rewrite Z.bits_0].
    - rewrite andb_false_r. destruct (Z.testbit v 255); [|by rewrite Z.bits_0].
      by rewrite Z.pow2_bits_false. }
  by destruct (Z.testbit v 255).
Qed.

(** The high [n] bits of a word over a number that leaves them free *)
Lemma lor_high r n :
  0 ≤ n ≤ 256 → 0 ≤ r < 2 ^ (256 - n) →
  Z.lor r (u256 (Z.shiftl allbits (256 - n))) = r + (2 ^ 256 - 2 ^ (256 - n)).
Proof.
  intros Hn Hr. rewrite Z.shiftl_mul_pow2 by lia.
  assert (2 ^ 256 = 2 ^ n * 2 ^ (256 - n)) as Hpow
    by (rewrite <-Z.pow_add_r by lia; f_equal; lia).
  assert (u256 (allbits * 2 ^ (256 - n)) = Z.shiftl (2 ^ n - 1) (256 - n)) as ->.
  { rewrite Z.shiftl_mul_pow2 by lia. unfold wrap, allbits.
    rewrite <-(Z.mod_add _ (- (2 ^ (256 - n) - 1))) by done.
    replace ((2 ^ 256 - 1) * 2 ^ (256 - n) + - (2 ^ (256 - n) - 1) * 2 ^ 256)
      with (2 ^ 256 - 2 ^ (256 - n)) by lia.
    assert (0 < 2 ^ (256 - n)) by (apply Z.pow_pos_nonneg; lia).
    assert (0 < 2 ^ n) by (apply Z.pow_pos_nonneg; lia).
    rewrite Z.mod_small by nia. lia. }
  rewrite Z.lor_comm, lor_shiftl_add by lia. lia.
Qed.

Lemma op_sar_spec n v : 0 ≤ n → word v → op_sar n v = u256 (signed v / 2 ^ n).
Proof.
  intros Hn Hv. unfold op_sar. rewrite land_hibit by done.
  assert (0 < 2 ^ n) by (apply Z.pow_pos_nonneg; lia).
  assert (signed v = if 2 ^ 255 <=? v then v - 2 ^ 256 else v) as ->.
  { unfold to_signed. rewrite wrap_small by done. change (256 - 1) with 255.
    destruct (Z.ltb_spec v (2 ^ 255)), (Z.leb_spec (2 ^ 255) v); lia. }
  destruct Hv as [Hv Hv']. destruct (Z.leb_spec 256 n).
  - assert (2 ^ 256 ≤ 2 ^ n) by (apply Z.pow_le_mono_r; lia).
    case_match.
    + assert ((v - 2 ^ 256) / 2 ^ n = -1) as ->; [|done].
      symmetry. apply Z.div_unique with (v - 2 ^ 256 + 2 ^ n); lia.
    + by rewrite Z.div_small by lia.
  - rewrite Z.shiftr_div_pow2 by lia.
    assert (2 ^ 256 = 2 ^ (256 - n) * 2 ^ n) as Hpow
      by (rewrite <-Z.pow_add_r by lia; f_equal; lia).
    assert (0 ≤ v / 2 ^ n < 2 ^ (256 - n)) as Hr
      by (split; [by apply Z.div_pos|apply Z.div_lt_upper_bound; lia]).
    assert (2 ^ (256 - n) ≤ 2 ^ 256) by (apply Z.pow_le_mono_r; lia).
    case_match.
    + rewrite lor_high by lia. rewrite Hpow at 2.
      replace (v - 2 ^ (256 - n) * 2 ^ n) with (v + - 2 ^ (256 - n) * 2 ^ n) by lia.
      rewrite Z.div_add by lia. unfold wrap. rewrite <-(Z.mod_add (_ + _) 1) by done.
      rewrite Z.mod_small; lia.
    + rewrite wrap_small; [done|]. unfold in_word. lia.
Qed.

(** SIGNEXTEND reads the low [k + 1] bytes as a signed number. *)
Lemma lxor_allbits a : word a → Z.lxor allbits a = 2 ^ 256 - 1 - a.
Proof.
  intros Ha. change allbits with (Z.ones 256).
  replace (2 ^ 256 - 1) with (Z.ones 256) by done.
  rewrite Z.sub_nocarry_ldiff.
  - apply Z.bits_inj'. intros n Hn. rewrite Z.lxor_spec, Z.ldiff_spec.
    destruct (Z.lt_ge_cases n 256).
    + rewrite Z.ones_spec_low by lia. by destruct (Z.testbit a n).
    + rewrite Z.ones_spec_high by lia.
      rewrite (Z.bits_above_log2 a n); [done|destruct Ha; lia|].
      destruct Ha. destruct (decide (a = 0)) as [->|]; [simpl; lia|].
      apply Z.log2_lt_pow2; [lia|]. eapply Z.lt_le_trans; [done|]. apply Z.pow_le_mono_r; lia.
  - apply Z.bits_inj'. intros n Hn. rewrite Z.ldiff_spec, Z.bits_0.
    destruct (Z.lt_ge_cases n 256).
    + rewrite Z.ones_spec_low by lia. apply andb_false_r.
    + rewrite (Z.bits_above_log2 a n); [done|destruct Ha; lia|].
      destruct Ha. destruct (decide (a = 0)) as [->|]; [simpl; lia|].
      apply Z.log2_lt_pow2; [lia|]. eapply Z.lt_le_trans; [done|]. apply Z.pow_le_mono_r; lia.
Qed.

Lemma lor_mask x t :
  0 ≤ t < 256 → word x →
  Z.lor x (Z.lxor allbits (2 ^ t - 1)) = x mod 2 ^ t + (2 ^ 256 - 2 ^ t).
Proof.
  intros Ht [Hx Hx'].
  assert (2 ^ 256 = 2 ^ (256 - t) * 2 ^ t) as Hpow
    by (rewrite <-Z.pow_add_r by lia; f_equal; lia).
  assert (0 < 2 ^ t) by (apply Z.pow_pos_nonneg; lia).
  assert (0 < 2 ^ (256 - t)) by (apply Z.pow_pos_nonneg; lia).
  assert (2 ^ t ≤ 2 ^ 256) by (apply Z.pow_le_mono_r; lia).
  rewrite lxor_allbits by (unfold in_word; lia).
  replace (2 ^ 256 - 1 - (2 ^ t - 1)) with (Z.shiftl (Z.ones (256 - t)) t)
    by (rewrite Z.shiftl_mul_pow2, Z.ones_equiv by lia; lia).
  pose proof (Z.mod_pos_bound x (2 ^ t) ltac:(lia)).
  assert (x = Z.lor (x mod 2 ^ t) (Z.shiftl (x / 2 ^ t) t)) as Heq.
  { rewrite Z.lor_comm, lor_shiftl_add by lia. pose proof (Z.div_mod x (2 ^ t)). lia. }
  rewrite Heq at 1. rewrite <-Z.lor_assoc, <-Z.shiftl_lor.
  rewrite Z.lor_ones_low.
  - rewrite Z.lor_comm, lor_shiftl_add, Z.ones_equiv by lia. lia.
  - apply Z.div_pos; lia.
  - destruct (decide (x / 2 ^ t = 0)) as [->|]; [simpl; lia|].
    assert (0 ≤ x / 2 ^ t) by (apply Z.div_pos; lia).
    apply Z.log2_lt_pow2; [lia|]. apply Z.div_lt_upper_bound; lia.
Qed.

Lemma mod_succ_pow x t :
  0 ≤ t → x mod 2 ^ (t + 1) = x mod 2 ^ t + (if Z.testbit x t then 2 ^ t else 0).
Proof.
  intros Ht. assert (0 < 2 ^ t) by (apply Z.pow_pos_nonneg; lia).
  rewrite Z.pow_add_r, Z.pow_1_r by lia. rewrite Z.rem_mul_r by lia.
  rewrite Z.testbit_eqb by done. pose proof (Z.mod_pos_bound (x / 2 ^ t) 2).
  destruct (Z.eqb_spec ((x / 2 ^ t) mod 2) 1) as [->|]; [lia|].
  replace ((x / 2 ^ t) mod 2) with 0 by lia. lia.
Qed.

Lemma op_signextend_spec k x :
  0 ≤ k → word x → op_signextend k x = if k <? 31 then u256 (to_signed (8 * (k + 1)) x) else x.
Proof.
  intros Hk Hx. unfold op_signextend. destruct (Z.ltb_spec k 31); [|done].
  rewrite Z.shiftl_mul_pow2, Z.mul_1_l by lia. set (t := k * 8 + 7).
  assert (0 < 2 ^ t) by (apply Z.pow_pos_nonneg; lia).
  pose proof (Z.mod_pos_bound x (2 ^ t) ltac:(lia)).
  assert (2 ^ (t + 1) ≤ 2 ^ 256) as Hle by (apply Z.pow_le_mono_r; lia).
  assert (2 ^ (t + 1) = 2 * 2 ^ t) as Hpow
    by (rewrite Z.pow_add_r, Z.pow_1_r by lia; lia).
  unfold to_signed, wrap. replace (8 * (k + 1)) with (t + 1) by lia.
  replace (t + 1 - 1) with t by lia. rewrite mod_succ_pow by lia.
  destruct (Z.testbit x t).
  - rewrite lor_mask by (done || lia). destruct (Z.ltb_spec (x mod 2 ^ t + 2 ^ t) (2 ^ t)); [lia|].
    rewrite <-(Z.mod_add (_ - _) 1) by done. rewrite (Z.mod_small (_ + _)); lia.
  - rewrite Z.add_0_r. destruct (Z.ltb_spec (x mod 2 ^ t) (2 ^ t)); [|lia].
    replace (2 ^ t - 1) with (Z.ones t) by (rewrite Z.ones_equiv; lia).
    rewrite Z.land_ones, (Z.mod_small (x mod _)) by lia. done.
Qed.

(** ** Ranges of the bit operations *)

Lemma word_land a b : word a → word b → word (Z.land a b).
Proof.
  intros Ha Hb. rewrite <-(wrap_small 256 a) by done. unfold wrap.
  rewrite <-Z.land_ones, <-Z.land_assoc, (Z.land_comm _ b), Z.land_assoc, Z.land_ones by lia.
  by apply wrap_in_word.
Qed.
Lemma word_bits a : 0 ≤ a → (∀ n, 256 ≤ n → Z.testbit a n = false) → word a.
Proof.
  intros Ha Hbits. split; [done|]. destruct (decide (a = 0)) as [->|]; [done|].
  apply Z.log2_lt_pow2; [lia|]. destruct (Z.lt_ge_cases (Z.log2 a) 256); [done|].
  specialize (Hbits _ H). rewrite Z.bit_log2 in Hbits by lia. done.
Qed.
Lemma word_testbit a n : word a → 256 ≤ n → Z.testbit a n = false.
Proof.
  intros [Ha Hlt] Hn. destruct (decide (a = 0)) as [->|]; [by rewrite Z.bits_0|].
  apply Z.bits_above_log2; [done|].
  apply Z.lt_le_trans with 256; [apply Z.log2_lt_pow2; [lia|exact Hlt]|done].
Qed.
Lemma word_lor a b : word a → word b → word (Z.lor a b).
Proof.
  intros Ha Hb. apply word_bits.
  - apply Z.lor_nonneg. destruct Ha, Hb. lia.
  - intros. by rewrite Z.lor_spec, !word_testbit.
Qed.
Lemma word_lxor a b : word a → word b → word (Z.lxor a b).
Proof.
  intros Ha Hb. apply word_bits.
  - apply Z.lxor_nonneg. destruct Ha, Hb. lia.
  - intros. by rewrite Z.lxor_spec, !word_testbit.
Qed.

(** ** The length of an exponent *)

Lemma lead_bits_from fuel d ret : lead_bits fuel d ret = ret + lead_bits fuel d 0.
Proof.
  revert d ret. induction fuel as [|fuel IH]; intros d ret; simpl; [lia|].
  case_match; [lia|]. rewrite IH, (IH _ (0 + 1)). lia.
Qed.
Lemma lead_bits_lt d : in_word 8 d → d ≠ 0 → 0 ≤ lead_bits 8 d 0 < 8.
Proof.
  intros [Hd Hd'] Hne. change (2 ^ 8) with 256 in Hd'.
  assert (forallb (λ d, (0 <=? lead_bits 8 d 0) && (lead_bits 8 d 0 <? 8))
            (map Z.of_nat (seq 1 255)) = true) as Hall by by vm_compute.
  rewrite forallb_forall in Hall. specialize (Hall d). apply andb_prop in Hall; [lia|].
  apply in_map_iff. exists (Z.to_nat d). split; [lia|]. apply in_seq. lia.
Qed.

Lemma firstBitSet_spec bs m :
  bytes_ok bs →
  firstBitSet bs (8 * m) / 8 = m + len bs - bytesRequired (be_val bs).
Proof.
  revert m. induction bs as [|b bs IH]; intros m; cbn [firstBitSet].
  { intros _. unfold len. simpl. change (bytesRequired (be_val [])) with 0. dlia. }
  intros Hok. pose proof Hok as [Hb Hbs]%bytes_ok_cons.
  destruct (Z.eqb_spec b 0) as [->|Hne]; cbn [negb].
  - replace (8 * m + 8) with (8 * (m + 1)) by lia. rewrite IH by done.
    rewrite be_val_cons, Z.mul_0_l, Z.add_0_l. unfold len. simpl length. lia.
  - change (if true then ?x else _) with x.
    rewrite lead_bits_from. rewrite bytesRequired_be_val by done.
    pose proof (lead_bits_lt b Hb Hne). unfold len. dlia.
Qed.

Lemma word_be v : word v → be_val (toBigEndian v (replicate 32 0)) = v.
Proof.
  intros Hv. destruct (toBigEndian_spec v (replicate 32 0)) as [_ ->].
  rewrite length_replicate. change (256 ^ Z.of_nat 32) with (2 ^ 256). by apply Z.mod_small.
Qed.

(** The number of the bytes of an exponent that are paid for *)
Lemma exp_bytes e :
  word e →
  32 - firstBitSet (toBigEndian e (replicate 32 0)) 0 / 8 = bytesRequired e ∧
  0 ≤ bytesRequired e ≤ 32.
Proof.
  intros He. pose proof (word_be e He) as Hval.
  destruct (toBigEndian_spec e (replicate 32 0)) as [Hok _].
  pose proof (firstBitSet_spec (toBigEndian e (replicate 32 0)) 0 Hok) as Hf.
  rewrite Hval in Hf. change (8 * 0) with 0 in Hf. unfold len in Hf.
  rewrite length_toBigEndian, length_replicate in Hf.
  split; [rewrite Hf; lia|]. destruct He as [He He'].
  destruct (bytesRequired_spec e He) as (n&->&_&Hge).
  destruct (decide (n ≤ 32)%nat); [lia|].
  assert (256 ^ 32 ≤ 256 ^ (Z.of_nat n - 1)) by (apply Z.pow_le_mono_r; lia).
  change (256 ^ 32) with (2 ^ 256) in *. specialize (Hge ltac:(lia)). lia.
Qed.

(** ** Input data *)

Lemma fromBigEndian_word bs : word (fromBigEndian u256 bs).
Proof.
  unfold fromBigEndian. destruct bs as [|b bs _] using rev_ind; [by vm_compute|].
  rewrite foldl_app. simpl. apply word_u256.
Qed.
Lemma calldata_load_word d i : word (calldata_load d i).
Proof. unfold calldata_load. repeat case_match; [..|by vm_compute|]; apply fromBigEndian_word. Qed.

(** ** The instructions *)

(** What an instruction leaves for the first items [x], [y], [z] of the stack,
    and what it costs. *)
Definition arith_spec (op : Instruction) (x y z : Z) : option Z :=
  match op with
  | I_ADD => Some (u256 (x + y))
  | I_MUL => Some (u256 (x * y))
  | I_SUB => Some (u256 (x - y))
  | I_DIV => Some (if y =? 0 then 0 else x / y)
  | I_SDIV => Some (if y =? 0 then 0 else u256 (Z.quot (signed x) (signed y)))
  | I_MOD => Some (if y =? 0 then 0 else x mod y)
  | I_SMOD => Some (if y =? 0 then 0 else u256 (Z.rem (signed x) (signed y)))
  | I_ADDMOD => Some (if z =? 0 then 0 else (x + y) mod z)
  | I_MULMOD => Some (if z =? 0 then 0 else (x * y) mod z)
  | I_EXP => Some (u256 (x ^ y))
  | I_SIGNEXTEND => Some (if x <? 31 then u256 (to_signed (8 * (x + 1)) y) else y)
  | I_LT => Some (b2z (x <? y))
  | I_GT => Some (b2z (y <? x))
  | I_SLT => Some (b2z (signed x <? signed y))
  | I_SGT => Some (b2z (signed y <? signed x))
  | I_EQ => Some (b2z (x =? y))
  | I_ISZERO => Some (b2z (x =? 0))
  | I_AND => Some (Z.land x y)
  | I_OR => Some (Z.lor x y)
  | I_XOR => Some (Z.lxor x y)
  | I_NOT => Some (2 ^ 256 - 1 - x)
  | I_BYTE => Some (if x <? 32 then y / 256 ^ (31 - x) mod 256 else 0)
  | I_SHL => Some (u256 (y * 2 ^ x))
  | I_SHR => Some (y / 2 ^ x)
  | I_SAR => Some (u256 (signed y / 2 ^ x))
  | _ => None
  end.
Definition arith_cost (s : EVMSchedule) (op : Instruction) (y : Z) : Z :=
  match op with
  | I_EXP => expGas s + expByteGas s * bytesRequired y
  | _ => tier_gas s (gasPriceTier (instructionInfo op))
  end.

Lemma shl_spec n v : 0 ≤ n → (if 256 <=? n then 0 else u256 (Z.shiftl v n)) = u256 (v * 2 ^ n).
Proof.
  intros Hn. rewrite Z.shiftl_mul_pow2 by done. destruct (Z.leb_spec 256 n); [|done].
  replace n with (n - 256 + 256) by lia. rewrite Z.pow_add_r by lia.
  unfold wrap. rewrite Z.mul_assoc, Z.mod_mul by done. done.
Qed.
Lemma shr_spec n v : 0 ≤ n → word v → (if 256 <=? n then 0 else Z.shiftr v n) = v / 2 ^ n.
Proof.
  intros Hn [Hv Hv']. rewrite Z.shiftr_div_pow2 by done. destruct (Z.leb_spec 256 n); [|done].
  assert (2 ^ 256 ≤ 2 ^ n) by (apply Z.pow_le_mono_r; lia). by rewrite Z.div_small by lia.
Qed.
Lemma addmod_spec s n : 0 ≤ s < 2 ^ 512 → word n →
  (if negb (n =? 0) then u256 (u512 s mod n) else 0) = if n =? 0 then 0 else s mod n.
Proof.
  intros Hs Hn. destruct (Z.eqb_spec n 0); [done|]. simpl.
  rewrite (wrap_small 512) by done. by apply wrap_small, mod_word.
Qed.
Lemma pow_word v n : word v → 0 ≤ n → word (v / 2 ^ n).
Proof.
  intros [] ?. assert (0 < 2 ^ n) by (apply Z.pow_pos_nonneg; lia).
  split; [by apply Z.div_pos|]. apply Z.div_lt_upper_bound; nia.
Qed.

Lemma arith_spec_word op x y z r :
  word x → word y → word z → arith_spec op x y z = Some r → word r.
Proof.
  intros Hx Hy Hz Hr. pose proof (word_u256 0) as H0.
  destruct op; simplify_eq/=; repeat case_match;
    rewrite ?Z.eqb_neq in *;
    try apply word_u256; try apply word_b2z; try done;
    try (by apply div_word); try (by apply mod_word).
  all: try (apply pow_word; [done|by destruct Hx]).
  - by apply word_land.
  - by apply word_lor.
  - by apply word_lxor.
  - destruct Hx. split; lia.
Qed.

Section Step.
#[local] Existing Instance M_ret.
#[local] Existing Instance M_bind.
Context `{ExtVMFace E} (env : Env).
Notation sched := (evmSchedule env).
Notation VM := (@VM E).
Implicit Types (st : VM) (l tl : list Z).

Definition paid st : VM := with_gas (m_io_gas st - m_runGas st) st.

Lemma updateIOGas_run st : m_runGas st ≤ m_io_gas st → updateIOGas st = (paid st, Ok ()).
Proof.
  intros Hle. unfold updateIOGas, mbind, M_bind, get, id.
  rewrite (proj2 (Z.ltb_ge _ _)) by done. done.
Qed.
Lemma sp_run st i v : m_SP st !! i = Some v → sp i st = (st, Ok v).
Proof. intros Hi. unfold sp, mbind, M_bind, get, id. by rewrite Hi. Qed.
Lemma set_spp_run st v x tl : m_SPP st = x :: tl → set_spp v st = (with_SPP (v :: tl) st, Ok ()).
Proof. intros Hl. unfold set_spp, mbind, M_bind, get, id. by rewrite Hl. Qed.

Lemma skip_throw {B} e (m : () → @M E B) st : (throw_when false e ≫= m) st = m () st.
Proof. done. Qed.

Section Cases.
Variables (st : VM) (v0 : Z) (tl : list Z).
Hypothesis Hgas : m_runGas st ≤ m_io_gas st.
Hypothesis Htl : m_SPP st = v0 :: tl.
Lemma case_const_run m v :
  m (paid st) = (paid st, Ok v) → case_const m st = (with_SPP (v :: tl) (paid st), Ok NEXT).
Proof.
  intros Hm. unfold case_const, mbind, M_bind. rewrite updateIOGas_run by done. rewrite Hm.
  by rewrite (set_spp_run _ _ v0 tl) by done.
Qed.
Lemma case_unary_run f x l :
  m_SP st = x :: l → case_unary f st = (with_SPP (f x :: tl) (paid st), Ok NEXT).
Proof.
  intros Hl. apply case_const_run. unfold mbind, M_bind.
  by rewrite (sp_run _ 0 x) by (simpl; by rewrite Hl).
Qed.
Lemma case_binary_run f x y l :
  m_SP st = x :: y :: l → case_binary f st = (with_SPP (f x y :: tl) (paid st), Ok NEXT).
Proof.
  intros Hl. apply case_const_run. unfold mbind, M_bind.
  rewrite (sp_run _ 0 x) by (simpl; by rewrite Hl).
  by rewrite (sp_run _ 1 y) by (simpl; by rewrite Hl).
Qed.
Lemma case_ternary_run f x y z l :
  m_SP st = x :: y :: z :: l →
  case_ternary f st = (with_SPP (f x y z :: tl) (paid st), Ok NEXT).
Proof.
  intros Hl. apply case_const_run. unfold mbind, M_bind.
  rewrite (sp_run _ 0 x) by (simpl; by rewrite Hl).
  rewrite (sp_run _ 1 y) by (simpl; by rewrite Hl).
  by rewrite (sp_run _ 2 z) by (simpl; by rewrite Hl).
Qed.
End Cases.

Definition is_shift (op : Instruction) : bool :=
  match op with I_SHL | I_SHR | I_SAR => true | _ => false end.

(** The switch, with the gas of the instruction in [m_runGas] *)
Lemma arith_switch st op x y z r l v0 tl :
  arith_spec op x y z = Some r → op ≠ I_EXP → word x → word y → word z →
  m_SP st = take (args (instructionInfo op)) [x; y; z] ++ l → m_SPP st = v0 :: tl →
  (is_shift op = true → haveBitwiseShifting sched = true) →
  m_runGas st ≤ m_io_gas st →
  switch env op st = (with_SPP (r :: tl) (paid st), Ok NEXT).
Proof.
  intros Hr Hexp Hx Hy Hz HSP HSPP Hshift Hgas.
  pose proof (proj1 Hx). pose proof (proj1 Hy). pose proof (proj1 Hz).
  destruct op; try discriminate Hr; try done; apply (inj Some) in Hr as <-;
    unfold switch; cbn [first_some cases_call cases_halt cases_memory cases_arith cases_shift cases_env cases_copy
      cases_flow cases_state]; simpl in HSP; cbn [is_shift] in Hshift.
  all: try (rewrite Hshift by done; cbn [negb]; rewrite skip_throw).
  all: first [ rewrite (case_binary_run st v0 tl Hgas HSPP _ x y l HSP)
             | rewrite (case_unary_run st v0 tl Hgas HSPP _ x l HSP)
             | rewrite (case_ternary_run st v0 tl Hgas HSPP _ x y z l HSP) ].
  all: f_equal; f_equal; f_equal.
  all: rewrite ?u2s_signed by done.
  all: try done.
  - destruct (Z.eqb_spec y 0); [done|]. simpl. by apply divWorkaround_spec.
  - by apply op_sdiv_spec.
  - destruct (Z.eqb_spec y 0); [done|]. simpl. by apply modWorkaround_spec.
  - by apply op_smod_spec.
  - apply addmod_spec; [|done]. destruct Hx, Hy. lia.
  - apply addmod_spec; [|done]. destruct Hx, Hy. nia.
  - by apply op_signextend_spec.
  - by apply lxor_allbits.
  - by apply op_byte_spec.
  - by apply shl_spec.
  - by apply shr_spec.
  - by apply op_sar_spec.
Qed.

(** The state behind [fetchInstruction] *)
Definition fetched (op : Instruction) st : VM :=
  with_copyMemSize 0 (with_newMemSize (len (m_mem st))
    (with_runGas (tier_gas sched (gasPriceTier (instructionInfo op)))
      (with_SPP (let removed := args (instructionInfo op) in
                 let added := ret (instructionInfo op) in
                 if (added <=? removed)%nat then drop (removed - added) (m_SPP st)
                 else replicate (added - removed) 0 ++ m_SPP st)
        (with_SP (m_SPP st) (with_OP op st))))).

Lemma fetch_run st b op :
  m_code st !! Z.to_nat (m_PC st) = Some b → instruction_of b = op →
  (args (instructionInfo op) ≤ length (m_SPP st))%nat →
  (length (m_SPP st) - args (instructionInfo op) + ret (instructionInfo op) ≤ 1024)%nat →
  tier_gas sched (gasPriceTier (instructionInfo op)) < 2 ^ 63 →
  fetchInstruction env st = (fetched op st, Ok ()).
Proof.
  intros Hb <- Hargs Hret Htier.
  unfold fetchInstruction, adjustStack, set_runGas, toInt63, mbind, M_bind, get, modify, id.
  rewrite Hb. cbn [m_SPP with_SP with_OP].
  rewrite (proj2 (Nat.ltb_ge _ _)) by done. rewrite (proj2 (Nat.ltb_ge _ _)) by done.
  rewrite (proj2 (Z.ltb_ge _ _)) by lia. done.
Qed.

Lemma arith_stack op x y z r :
  arith_spec op x y z = Some r →
  ret (instructionInfo op) = 1%nat ∧ (1 ≤ args (instructionInfo op) ≤ 3)%nat.
Proof. destruct op; try discriminate; intros _; simpl; lia. Qed.

Lemma arith_exp st x y l v0 tl :
  sched_ok sched → word y → m_SP st = x :: y :: l → m_SPP st = v0 :: tl →
  arith_cost sched I_EXP y ≤ m_io_gas st →
  switch env I_EXP st
  = (with_SPP (u256 (x ^ y) :: tl) (paid (with_runGas (arith_cost sched I_EXP y) st)), Ok NEXT).
Proof.
  intros Hs Hy HSP HSPP Hgas. destruct (exp_bytes y Hy) as [Heq Hb].
  destruct (so_exp _ Hs) as (?&?&?). unfold arith_cost in *.
  unfold switch. cbn [first_some cases_call cases_halt cases_memory cases_arith].
  unfold mbind at 1, M_bind at 1. rewrite (sp_run _ 1 y) by by rewrite HSP.
  rewrite Heq. rewrite (wrap_small 32 (_ * _)), wrap_small by (unfold in_word; nia).
  unfold set_runGas, toInt63, modify, mbind, M_bind, mret, M_ret.
  rewrite (proj2 (Z.ltb_ge _ _)) by nia.
  rewrite (case_binary_run (with_runGas (expGas sched + expByteGas sched * bytesRequired y) st)
             v0 tl Hgas HSPP _ x y l HSP).
  by rewrite exp256_spec.
Qed.

(** C18. A step of the interpreter at an arithmetic instruction: it takes its
    operands from the stack, leaves the value of [arith_spec], pays
    [arith_cost] and goes to the next instruction; nothing else that a
    program can see changes. *)
Theorem arith_step st b op x y z r l :
  sched_ok sched →
  m_code st !! Z.to_nat (m_PC st) = Some b → instruction_of b = op →
  arith_spec op x y z = Some r → word x → word y → word z →
  m_SPP st = take (args (instructionInfo op)) [x; y; z] ++ l →
  (length (m_SPP st) ≤ 1024)%nat →
  (is_shift op = true → haveBitwiseShifting sched = true) →
  arith_cost sched op y ≤ m_io_gas st →
  ∃ st', interpretCases env st = (st', Ok ()) ∧
    m_SPP st' = r :: l ∧ m_io_gas st' = m_io_gas st - arith_cost sched op y ∧
    m_PC st' = u64 (m_PC st + 1) ∧ m_mem st' = m_mem st ∧ m_ext st' = m_ext st ∧
    m_returnData st' = m_returnData st ∧ m_bounce st' = m_bounce st.
Proof.
  intros Hs Hb Hop Hr Hx Hy Hz HSPP Hlen Hshift Hgas.
  pose proof (arith_stack _ _ _ _ _ Hr) as [Hret Hargs].
  assert (args (instructionInfo op) ≤ length (m_SPP st))%nat as Hargs'.
  { rewrite HSPP, length_app, length_take. simpl. lia. }
  pose proof (so_tier _ Hs (gasPriceTier (instructionInfo op))) as Ht.
  assert (∃ v0, m_SPP (fetched op st) = v0 :: l) as [v0 Hv0].
  { unfold fetched. cbn -[instructionInfo Nat.leb]. rewrite Hret.
    rewrite (proj2 (Nat.leb_le _ _)) by lia. rewrite HSPP.
    destruct (args (instructionInfo op)) as [|[|[|[|]]]]; simpl; eauto; lia. }
  assert (switch env op (fetched op st)
          = (with_SPP (r :: l) (paid (with_runGas (arith_cost sched op y) (fetched op st))), Ok NEXT))
    as Hsw.
  { assert (op = I_EXP ∨ op ≠ I_EXP) as [->|Hne] by (clear; destruct op; first [left; reflexivity|right; discriminate]).
    - apply (inj Some) in Hr as <-.
      exact (arith_exp (fetched I_EXP st) x y l v0 l Hs Hy HSPP Hv0 Hgas).
    - assert (arith_cost sched op y = m_runGas (fetched op st)) as Hc by by destruct op.
      rewrite Hc in *. erewrite arith_switch; [done|..]; done. }
  unfold interpretCases, mbind, M_bind.
  rewrite (fetch_run st b op) by (done || lia). unfold get at 1.
  change (m_OP (fetched op st)) with op. rewrite Hsw.
  eexists. split; [reflexivity|]. done.
Qed.
End Step.

(** SDIV of -7 by 2 is -3. *)
Lemma arith_step_witness :
  let st := mkVM 100 [] [] [] [5; 0] [] I_STOP 0 [] [2 ^ 256 - 7; 2; 9] 0 0 0 [] interpretCases_ in
  ∃ st', interpretCases (example_env [5]) st = (st', Ok ()) ∧
    m_SPP st' = [2 ^ 256 - 3; 9] ∧ m_io_gas st' = 95 ∧ m_PC st' = 1.
Proof.
  intros st.
  destruct (arith_step (example_env [5]) st 5 I_SDIV (2 ^ 256 - 7) 2 0 (2 ^ 256 - 3) [9]
              Constantinople_ok) as (st'&Hrun&HSP&Hgas&HPC&_);
    [reflexivity|reflexivity|reflexivity|done|done|done|reflexivity|by apply leb_complete|done
    |by apply Z.leb_le|].
  exists st'. by rewrite Hrun, HSP, Hgas, HPC.
Defined.

End LegacyVMArith.
