(* ===== verification/LegacyVMLogic.v ===== *)
(** * A program logic for the interpreter

    Weakest preconditions for the monad of LegacyVM.v ([wp]), the invariant of
    the machine within an instruction ([core]), rules for the primitives that
    keep it, and the tactics that run an instruction symbolically. *)
From S2P Require Import Prelude CommonData Instruction LegacyVM LegacyVMCode LegacyVMArith.

Module LegacyVMLogic.
Import Instruction LegacyVM CommonData LegacyVMCode LegacyVMArith.

(** The values of the frame of a call are words and buffers. *)
Class env_ok (env : Env) : Prop := {
  eo_words : Forall (in_word 256)
    [myAddress env; caller env; origin env; value env; gasPrice env; author env;
     timestamp env; number env; difficulty env; gasLimit env];
  eo_data : buffer_ok (ext_data env);
  eo_code : buffer_ok (ext_code env);
  eo_sched : sched_ok (evmSchedule env);
}.

(** Reads members of a state that setters built. *)
Ltac vm :=
  unfold id in *;
  cbn [m_io_gas m_ext m_output m_mem m_code m_returnData m_OP m_PC m_SP m_SPP m_runGas
       m_newMemSize m_copyMemSize m_jumpDests m_bounce
       with_gas with_ext with_output with_mem with_code with_returnData with_OP with_PC with_SP
       with_SPP with_runGas with_newMemSize with_copyMemSize with_bounce] in *.

(** The world at the start of the run is good. *)
Class world_ok `{EL : ExtVMFaceLaws E env} (x0 : E) : Prop := world_start : ext_ok x0.

(** The exceptions that a run may throw *)
Definition exn_ok (e : VMError) : Prop :=
  match e with
  | WorldException | Undefined => False
  | RevertInstruction output => buffer_ok output
  | _ => True
  end.

Section Logic.
Context `{EF : ExtVMFace E} (env : Env) `{EL : !ExtVMFaceLaws E env} `{EO : !env_ok env}.
Context {x0 : E} `{WO : !world_ok x0}.
Notation sched := (evmSchedule env).
Notation VM := (@VM E).
Notation M := (@M E).

#[local] Existing Instance M_ret.
#[local] Existing Instance M_bind.

(** ** The program logic

    An exception leaves no more gas than there was, [g0], and a world that
    [x0] can step to; it is never an access out of bounds. *)

Definition exc (g0 : Z) (e : VMError) (st : VM) : Prop :=
  exn_ok e ∧ 0 ≤ m_io_gas st ≤ g0 ∧ ext_step x0 (m_ext st).
Definition wp (g0 : Z) {A} (m : M A) (Q : A → VM → Prop) (st : VM) : Prop :=
  match m st with (st', Ok a) => Q a st' | (st', Err e) => exc g0 e st' end.

Lemma wp_ret g0 {A} (a : A) Q st : Q a st → wp g0 (M_ret A a) Q st.
Proof. done. Qed.
Lemma wp_bind g0 {A B} (m : M A) (f : A → M B) Q st :
  wp g0 m (λ a st', wp g0 (f a) Q st') st → wp g0 (M_bind A B f m) Q st.
Proof. unfold wp, M_bind. by destruct (m st) as [st' []]. Qed.
Lemma wp_mono g0 {A} (m : M A) (Q Q' : A → VM → Prop) st :
  wp g0 m Q st → (∀ a st', Q a st' → Q' a st') → wp g0 m Q' st.
Proof. unfold wp. destruct (m st) as [st' []]; auto. Qed.
Lemma wp_throw g0 {A} e (Q : A → VM → Prop) st : exc g0 e st → wp g0 (throw e) Q st.
Proof. done. Qed.
Lemma wp_get g0 {A} (f : VM → A) Q st : Q (f st) st → wp g0 (get f) Q st.
Proof. done. Qed.
Lemma wp_modify g0 f Q st : Q () (f st) → wp g0 (modify f) Q st.
Proof. done. Qed.
Lemma wp_throw_when g0 b e Q st :
  exc g0 e st → (b = false → Q () st) → wp g0 (throw_when b e) Q st.
Proof. unfold throw_when. destruct b; [done|]. intros _ HQ. by apply wp_ret, HQ. Qed.

Lemma wp_sp g0 i Q st :
  (i < length (m_SP st))%nat → (∀ v, m_SP st !! i = Some v → Q v st) → wp g0 (sp i) Q st.
Proof.
  intros [v Hv]%lookup_lt_is_Some HQ. apply wp_bind, wp_get. unfold id. rewrite Hv.
  by apply wp_ret, HQ.
Qed.
Lemma wp_set_spp g0 v Q st :
  m_SPP st ≠ [] → Q () (with_SPP (v :: tail (m_SPP st)) st) → wp g0 (set_spp v) Q st.
Proof.
  intros Hne HQ. apply wp_bind, wp_get. unfold id. destruct (m_SPP st); [done|].
  by apply wp_modify.
Qed.
Lemma wp_toInt63 g0 v Q st :
  exc g0 OutOfGas st → (v < 2 ^ 63 → Q v st) → wp g0 (toInt63 v) Q st.
Proof. unfold toInt63. intros. case_match; [by apply wp_throw|]. apply wp_ret. auto with lia. Qed.
Lemma wp_set_runGas g0 v Q st :
  exc g0 OutOfGas st → (v < 2 ^ 63 → Q () (with_runGas v st)) → wp g0 (set_runGas v) Q st.
Proof. intros. apply wp_bind, wp_toInt63; [done|]. intros. apply wp_modify. auto. Qed.
Lemma wp_updateIOGas g0 Q st :
  exc g0 OutOfGas st →
  (m_runGas st ≤ m_io_gas st → Q () (with_gas (m_io_gas st - m_runGas st) st)) →
  wp g0 updateIOGas Q st.
Proof.
  intros. apply wp_bind, wp_get. unfold id. case_match; [by apply wp_throw|].
  apply wp_modify. auto with lia.
Qed.

(** ** Memory *)

(** The price of [n] bytes of memory. *)
Definition mem_cost (n : Z) : Z :=
  let s := n / 32 in memoryGas sched * s + s * s / quadCoeffDiv sched.

Lemma mem_cost_mono n n' : 0 ≤ n ≤ n' → 0 ≤ mem_cost n ≤ mem_cost n'.
Proof.
  intros Hn. destruct (so_mem _ eo_sched) as (?&?&?). unfold mem_cost.
  assert (0 ≤ n / 32 ≤ n' / 32) as [Hs Hs'].
  { split; [apply Z.div_pos; lia|apply Z.div_le_mono; lia]. }
  assert (0 ≤ n / 32 * (n / 32) / quadCoeffDiv sched) by (apply Z.div_pos; nia).
  assert (n / 32 * (n / 32) / quadCoeffDiv sched ≤ n' / 32 * (n' / 32) / quadCoeffDiv sched)
    by (apply Z.div_le_mono; nia).
  nia.
Qed.

(** Memory that can be paid for is small. *)
Lemma mem_cost_bound n : 0 ≤ n → mem_cost n < 2 ^ 63 → n < 2 ^ 54.
Proof.
  intros Hn Hc. destruct (so_mem _ eo_sched) as (?&?&?). unfold mem_cost in Hc.
  destruct (Z.lt_ge_cases n (2 ^ 54)) as [|Hge]; [done|]. exfalso.
  assert (2 ^ 49 ≤ n / 32) by (apply Z.div_le_lower_bound; lia).
  assert (2 ^ 63 ≤ n / 32 * (n / 32) / quadCoeffDiv sched) by (apply Z.div_le_lower_bound; nia).
  nia.
Qed.

Lemma mem_cost_u512 n :
  0 ≤ n < 2 ^ 64 →
  u512 (memoryGas sched * (n / 32) + u512 (n / 32 * (n / 32)) / quadCoeffDiv sched) = mem_cost n.
Proof.
  intros Hn. destruct (so_mem _ eo_sched) as (?&?&?). unfold mem_cost.
  assert (0 ≤ n / 32 < 2 ^ 59) by (split; [apply Z.div_pos; lia|apply Z.div_lt_upper_bound; lia]).
  assert (0 ≤ n / 32 * (n / 32) < 2 ^ 118) by nia.
  rewrite (wrap_small 512 (_ * _)) by (unfold in_word; lia).
  apply wrap_small. unfold in_word.
  assert (0 ≤ n / 32 * (n / 32) / quadCoeffDiv sched < 2 ^ 118).
  { split; [apply Z.div_pos; lia|]. apply Z.div_lt_upper_bound; [lia|]. nia. }
  nia.
Qed.

Lemma wp_gasForMem g0 n Q st :
  0 ≤ n < 2 ^ 64 → exc g0 OutOfGas st →
  (mem_cost n < 2 ^ 63 → Q (mem_cost n) st) → wp g0 (gasForMem env n) Q st.
Proof.
  intros Hn He HQ. unfold gasForMem. rewrite mem_cost_u512 by done. by apply wp_toInt63.
Qed.

(** The charge for copying [n] bytes *)
Definition copy_cost (n : Z) : Z := copyGas sched * ((n + 31) / 32).

Definition gas_state (g0 : Z) (st : VM) : Prop :=
  0 ≤ m_io_gas st ≤ g0 ∧ 0 ≤ m_runGas st < 2 ^ 63 ∧
  0 ≤ m_copyMemSize st < 2 ^ 63 ∧ (m_copyMemSize st = 0 ∨ m_runGas st < 2 ^ 33).

Lemma copy_cost_bound n : 0 ≤ n < 2 ^ 63 → 0 ≤ copy_cost n < 2 ^ 62.
Proof.
  intros Hn. destruct (so_mem _ eo_sched) as (?&?&?). unfold copy_cost.
  assert (0 ≤ (n + 31) / 32 ≤ 2 ^ 58)
    by (split; [apply Z.div_pos; lia|apply Z.lt_succ_r, Z.div_lt_upper_bound; lia]).
  nia.
Qed.
Lemma copy_cost_0 : copy_cost 0 = 0.
Proof. unfold copy_cost. change ((0 + 31) / 32) with 0. lia. Qed.

Lemma copy_cost_u64 n :
  0 ≤ n < 2 ^ 63 → u64 (copyGas sched * (u64 (n + 31) / 32)) = copy_cost n.
Proof.
  intros Hn. rewrite (wrap_small 64 (_ + _)) by (unfold in_word; lia).
  apply wrap_small. pose proof (copy_cost_bound n Hn). unfold in_word, copy_cost in *. lia.
Qed.

Lemma with_runGas_id (st : VM) : with_runGas (m_runGas st) st = st.
Proof. by destruct st. Qed.
Lemma with_mem_id (st : VM) : with_mem (m_mem st) st = st.
Proof. by destruct st. Qed.
Lemma with_runGas_twice r r' (st : VM) : with_runGas r (with_runGas r' st) = with_runGas r st.
Proof. done. Qed.

(** The rule of [updateGas]: the price of the new memory and of the copy. *)
Lemma wp_updateGas g0 Q st :
  gas_state g0 st → ext_step x0 (m_ext st) →
  0 ≤ m_newMemSize st < 2 ^ 64 → len (m_mem st) < 2 ^ 64 →
  (let r := m_runGas st
            + (mem_cost (Z.max (len (m_mem st)) (m_newMemSize st)) - mem_cost (len (m_mem st)))
            + copy_cost (m_copyMemSize st) in
   m_runGas st ≤ r ≤ m_io_gas st →
   (len (m_mem st) < m_newMemSize st → m_newMemSize st < 2 ^ 54) →
   Q () (with_runGas r st)) →
  wp g0 (updateGas env) Q st.
Proof.
  intros (Hio&Hrun&Hcp&Hor) Hstep Hnew Hmem HQ. unfold updateGas.
  assert (∀ st', m_io_gas st' = m_io_gas st → m_ext st' = m_ext st → exc g0 OutOfGas st') as Hexc.
  { intros st' Hg He. unfold exc. rewrite Hg, He. by split. }
  assert (0 ≤ len (m_mem st)) by (unfold len; lia).
  set (d := mem_cost (Z.max (len (m_mem st)) (m_newMemSize st)) - mem_cost (len (m_mem st))) in *.
  set (c := copy_cost (m_copyMemSize st)) in *.
  pose proof (copy_cost_bound _ Hcp) as Hc. fold c in Hc.
  assert (m_copyMemSize st = 0 → c = 0) as Hc0.
  { intros Heq. unfold c. rewrite Heq. apply copy_cost_0. }
  apply wp_bind, wp_get. vm. apply wp_bind.
  assert (∀ x, 0 ≤ x < 2 ^ 63 → x = d →
    (len (m_mem st) < m_newMemSize st → m_newMemSize st < 2 ^ 54) →
    wp g0 (st0 ← get id;
      modify (with_runGas (u64 (m_runGas st0 + u64 (copyGas sched * (u64 (m_copyMemSize st0 + 31) / 32)))));;
      st1 ← get id; throw_when (m_io_gas st1 <? m_runGas st1) OutOfGas : M unit)
      Q (with_runGas (m_runGas st + x) st)) as Hrest.
  { intros x Hx -> Hsmall. apply wp_bind, wp_get. vm.
    rewrite copy_cost_u64 by done. fold c.
    rewrite wrap_small by (unfold in_word; lia).
    apply wp_bind, wp_modify, wp_bind, wp_get. vm.
    apply wp_throw_when; [by apply Hexc|].
    intros Hle%Z.ltb_ge. rewrite with_runGas_twice. apply HQ; [|done]. clearbody c d. simpl. lia. }
  case_match eqn:Hlt.
  - apply wp_bind, wp_gasForMem; [lia|auto|]. intros.
    apply wp_bind, wp_gasForMem; [lia|auto|]. intros.
    pose proof (mem_cost_mono (len (m_mem st)) (m_newMemSize st)) as Hmono.
    unfold d in *. rewrite Z.max_r in * by lia.
    rewrite wrap_small by (unfold in_word; lia).
    apply wp_bind, wp_toInt63; [auto|]. intros. apply wp_modify.
    rewrite wrap_small by (unfold in_word; lia).
    apply Hrest; [lia|lia|]. intros _. apply mem_cost_bound; lia.
  - unfold d in *. rewrite Z.max_l in * by lia.
    apply wp_ret. specialize (Hrest 0). rewrite Z.add_0_r, with_runGas_id in Hrest.
    apply Hrest; lia.
Qed.

(** The rule of [updateMem]: a multiple of 32 bytes that has room for
    [newMem]; what is added is zero. *)
Definition mem_ok (mem : bytes) : Prop :=
  bytes_ok mem ∧ len mem < 2 ^ 60 ∧ len mem mod 32 = 0.

Lemma ceil32 n : 0 ≤ n → n ≤ (n + 31) / 32 * 32 < n + 32.
Proof. intros. dlia. Qed.

Lemma wp_updateMem g0 newMem Q st :
  gas_state g0 st → ext_step x0 (m_ext st) → 0 ≤ newMem ≤ 2 ^ 64 - 64 → mem_ok (m_mem st) →
  (∀ mem' ns k,
     let r := m_runGas st + (mem_cost (len mem') - mem_cost (len (m_mem st)))
              + copy_cost (m_copyMemSize st) in
     mem' = m_mem st ++ replicate k 0 → mem_ok mem' →
     len mem' = Z.max (len (m_mem st)) ((newMem + 31) / 32 * 32) →
     m_runGas st ≤ r ≤ m_io_gas st →
     Q () (with_mem mem' (with_runGas r (with_newMemSize ns st)))) →
  wp g0 (updateMem env newMem) Q st.
Proof.
  intros Hgas Hstep Hnew (Hok&Hlen&Hmod) HQ. unfold updateMem.
  rewrite (wrap_small 64 (newMem + 31)) by (unfold in_word; lia).
  pose proof (ceil32 newMem) as Hceil.
  rewrite wrap_small by (unfold in_word; lia).
  set (ns := (newMem + 31) / 32 * 32) in *.
  assert (ns mod 32 = 0) as Hnsmod by (apply Z.mod_mul; lia). clearbody ns.
  apply wp_bind, wp_modify, wp_bind, wp_updateGas; vm; [done|done|lia|lia|].
  intros Hr Hsmall. apply wp_bind, wp_get. vm. assert (0 ≤ len (m_mem st)) by (unfold len; lia).
  case_match eqn:Hlt.
  - apply wp_modify. vm. rewrite Z.max_r in Hr |- * by lia.
    assert (len (m_mem st ++ replicate (Z.to_nat (ns - len (m_mem st))) 0) = ns) as Hlen'.
    { unfold len in *. rewrite length_app, length_replicate. lia. }
    specialize (HQ (m_mem st ++ replicate (Z.to_nat (ns - len (m_mem st))) 0) ns _ eq_refl).
    rewrite Hlen' in HQ. apply HQ; [|lia|done]. split; [|by rewrite Hlen'; split; [lia|]].
    apply bytes_ok_app. split; [done|]. apply Forall_replicate. by vm_compute.
  - apply wp_ret. rewrite Z.max_l in Hr |- * by lia.
    specialize (HQ (m_mem st) ns 0%nat). rewrite app_nil_r in HQ.
    apply HQ; [done|done|lia|done].
Qed.

(** [memNeed]: an empty range needs nothing. *)
Lemma wp_memNeed g0 off size Q st :
  in_word 256 off → in_word 256 size → exc g0 OutOfGas st →
  (∀ n, 0 ≤ n < 2 ^ 63 → (size ≠ 0 → n = off + size) → (size = 0 → n = 0) → Q n st) →
  wp g0 (memNeed off size) Q st.
Proof.
  unfold in_word. intros Hoff Hsize He HQ. unfold memNeed.
  rewrite wrap_small by (unfold in_word; lia).
  apply wp_toInt63; [done|]. intros. apply HQ; case_bool_decide || destruct (Z.eqb_spec size 0); simpl in *; lia.
Qed.

(** The memory holds a range that was paid for. *)
Definition in_mem (off size : Z) (mem : bytes) : Prop := size = 0 ∨ 0 ≤ off ∧ 0 ≤ size ∧ off + size ≤ len mem.

Lemma wp_slice g0 bs off size Q st :
  in_mem off size bs → bytes_ok bs →
  (∀ bs', bytes_ok bs' → (0 ≤ size → len bs' = size) → 
     bs' = take (Z.to_nat size) (drop (Z.to_nat off) bs) → Q bs' st) →
  wp g0 (slice bs off size) Q st.
Proof.
  intros Hin Hok HQ. unfold slice. destruct (Z.eqb_spec size 0) as [->|Hne].
  - apply wp_ret, HQ; [constructor|done|]. by rewrite take_0.
  - destruct Hin as [|(?&?&?)]; [done|]. rewrite (proj2 (Z.leb_le _ _)) by done.
    apply wp_ret, HQ; [by apply Forall_take, Forall_drop| |done].
    intros _. unfold len in *. rewrite length_take, length_drop. lia.
Qed.

Lemma wp_write_mem g0 off bs Q st :
  in_mem off (len bs) (m_mem st) → mem_ok (m_mem st) → bytes_ok bs →
  (∀ mem', mem_ok mem' → len mem' = len (m_mem st) → Q () (with_mem mem' st)) →
  wp g0 (write_mem off bs) Q st.
Proof.
  intros Hin (Hok&Hlen&Hmod) Hbs HQ. unfold write_mem. apply wp_bind, wp_get.
  destruct (Z.eqb_spec (len bs) 0) as [Heq|Hne].
  - apply wp_ret. rewrite <-(with_mem_id st). by apply HQ.
  - destruct Hin as [|(?&?&?)]; [done|]. rewrite (proj2 (Z.leb_le _ _)) by done.
    apply wp_modify.
    assert (len (take (Z.to_nat off) (m_mem st) ++ bs
                 ++ drop (Z.to_nat off + length bs) (m_mem st)) = len (m_mem st)) as Heq.
    { unfold len in *. rewrite !length_app, length_take, length_drop. lia. }
    apply HQ; [|done]. unfold mem_ok. rewrite Heq. split_and!; [|done..].
    apply bytes_ok_app. split; [by apply Forall_take|].
    apply bytes_ok_app. split; [done|by apply Forall_drop].
Qed.

(** ** The invariant *)

Definition stack_ok (l : list Z) : Prop := Forall (in_word 256) l ∧ (length l ≤ 1024)%nat.

(** What holds at every point of an instruction, with [g0] units of gas at
    its start. *)
Record core (g0 : Z) (st : VM) : Prop := {
  core_gas : 0 ≤ m_io_gas st ≤ g0;
  core_gas64 : g0 < 2 ^ 64;
  core_mem : mem_ok (m_mem st);
  core_SP : stack_ok (m_SP st);
  core_SPP : stack_ok (m_SPP st);
  core_ret : buffer_ok (m_returnData st);
  core_out : buffer_ok (m_output st);
  core_ext : ext_step x0 (m_ext st);
  core_code : (m_code st, m_jumpDests st) = optimize (ext_code env);
  core_PC : 0 ≤ m_PC st ≤ len (ext_code env) + 32;
}.

Lemma core_exc g0 e st : core g0 st → exn_ok e → exc g0 e st.
Proof. intros [] ?. by split. Qed.
Lemma core_world g0 st : core g0 st → ext_ok (m_ext st).
Proof. intros Hc. eapply ext_step_ok; [exact world_start|]. apply Hc. Qed.

Section Setters.
Variables (g0 : Z) (st : VM).
Hypothesis Hst : core g0 st.
Lemma core_with_gas g : 0 ≤ g ≤ g0 → core g0 (with_gas g st).
Proof. destruct Hst. by constructor. Qed.
Lemma core_with_ext e : ext_step x0 e → core g0 (with_ext e st).
Proof. destruct Hst. by constructor. Qed.
Lemma core_with_output o : buffer_ok o → core g0 (with_output o st).
Proof. destruct Hst. by constructor. Qed.
Lemma core_with_mem mem : mem_ok mem → core g0 (with_mem mem st).
Proof. destruct Hst. by constructor. Qed.
Lemma core_with_returnData d : buffer_ok d → core g0 (with_returnData d st).
Proof. destruct Hst. by constructor. Qed.
Lemma core_with_OP op : core g0 (with_OP op st).
Proof. destruct Hst. by constructor. Qed.
Lemma core_with_PC pc : 0 ≤ pc ≤ len (ext_code env) + 32 → core g0 (with_PC pc st).
Proof. destruct Hst. by constructor. Qed.
Lemma core_with_SP l : stack_ok l → core g0 (with_SP l st).
Proof. destruct Hst. by constructor. Qed.
Lemma core_with_SPP l : stack_ok l → core g0 (with_SPP l st).
Proof. destruct Hst. by constructor. Qed.
Lemma core_with_runGas r : core g0 (with_runGas r st).
Proof. destruct Hst. by constructor. Qed.
Lemma core_with_newMemSize n : core g0 (with_newMemSize n st).
Proof. destruct Hst. by constructor. Qed.
Lemma core_with_copyMemSize n : core g0 (with_copyMemSize n st).
Proof. destruct Hst. by constructor. Qed.
Lemma core_with_bounce b : core g0 (with_bounce b st).
Proof. destruct Hst. by constructor. Qed.
End Setters.

Lemma stack_ok_lookup l i v : stack_ok l → l !! i = Some v → in_word 256 v.
Proof. intros [Hl _] Hi. by eapply Forall_lookup_1. Qed.
Lemma stack_ok_push v l : stack_ok l → l ≠ [] → in_word 256 v → stack_ok (v :: tail l).
Proof.
  intros [Hl Hlen] Hne Hv. destruct l as [|x l]; [done|]. simpl in *.
  apply Forall_cons in Hl as [_ Hl]. split; [by constructor|done].
Qed.

(** ** The rules with the invariant *)

Section Rules.
Variables (g0 : Z) (st : VM).
Hypothesis Hst : core g0 st.

Lemma r_throw {A} e (Q : A → VM → Prop) : exn_ok e → wp g0 (throw e) Q st.
Proof. intros. by apply wp_throw, core_exc. Qed.
Lemma r_throw_when b e Q :
  exn_ok e → (b = false → Q () st) → wp g0 (throw_when b e) Q st.
Proof. intros. apply wp_throw_when; [by apply core_exc|done]. Qed.
Lemma r_sp i Q :
  (i < length (m_SP st))%nat →
  (∀ v, m_SP st !! i = Some v → word v → Q v st) → wp g0 (sp i) Q st.
Proof.
  intros Hi HQ. apply wp_sp; [done|]. intros v Hv. apply HQ; [done|].
  eapply stack_ok_lookup; [by apply Hst|done].
Qed.
Lemma r_set_spp v Q :
  m_SPP st ≠ [] → word v →
  (core g0 (with_SPP (v :: tail (m_SPP st)) st) → Q () (with_SPP (v :: tail (m_SPP st)) st)) →
  wp g0 (set_spp v) Q st.
Proof.
  intros Hne Hv HQ. apply wp_set_spp; [done|]. apply HQ, core_with_SPP; [done|].
  apply stack_ok_push; [by apply Hst|done..].
Qed.
Lemma r_toInt63 v Q : (v < 2 ^ 63 → Q v st) → wp g0 (toInt63 v) Q st.
Proof. intros. apply wp_toInt63; [by apply core_exc|done]. Qed.
Lemma r_set_runGas v Q :
  (v < 2 ^ 63 → core g0 (with_runGas v st) → Q () (with_runGas v st)) →
  wp g0 (set_runGas v) Q st.
Proof.
  intros HQ. apply wp_set_runGas; [by apply core_exc|]. intros. apply HQ; [done|].
  by apply core_with_runGas.
Qed.
Lemma r_add_runGas v Q :
  0 ≤ m_runGas st + v < 2 ^ 64 →
  (core g0 (with_runGas (m_runGas st + v) st) → Q () (with_runGas (m_runGas st + v) st)) →
  wp g0 (add_runGas v) Q st.
Proof.
  intros Hv HQ. apply wp_bind, wp_get, wp_modify. rewrite wrap_small by done.
  by apply HQ, core_with_runGas.
Qed.
Lemma r_updateIOGas Q :
  0 ≤ m_runGas st →
  (m_runGas st ≤ m_io_gas st → core g0 (with_gas (m_io_gas st - m_runGas st) st) →
   Q () (with_gas (m_io_gas st - m_runGas st) st)) →
  wp g0 updateIOGas Q st.
Proof.
  intros Hr HQ. apply wp_updateIOGas; [by apply core_exc|]. intros. apply HQ; [done|].
  apply core_with_gas; [done|]. pose proof (core_gas _ _ Hst). lia.
Qed.
Lemma r_updateMem newMem Q :
  0 ≤ m_runGas st < 2 ^ 63 →
  0 ≤ m_copyMemSize st < 2 ^ 63 → (m_copyMemSize st = 0 ∨ m_runGas st < 2 ^ 33) →
  0 ≤ newMem ≤ 2 ^ 64 - 64 →
  (∀ mem' r ns, len (m_mem st) ≤ len mem' → newMem ≤ len mem' → mem_ok mem' →
     m_runGas st ≤ r ≤ m_io_gas st →
     core g0 (with_mem mem' (with_runGas r (with_newMemSize ns st))) →
     Q () (with_mem mem' (with_runGas r (with_newMemSize ns st)))) →
  wp g0 (updateMem env newMem) Q st.
Proof.
  intros Hrun Hcopy Hor Hnew HQ.
  apply wp_updateMem; [split; [by apply (core_gas _ _ Hst)|done]|by apply Hst|done|by apply Hst|].
  intros mem' ns k r Hmem Hok Hlen Hr. pose proof (ceil32 newMem).
  apply HQ; [lia|lia|done|done|].
  by apply core_with_mem, Hok; apply core_with_runGas, core_with_newMemSize.
Qed.
Lemma r_memNeed off size Q :
  word off → word size →
  (∀ n, 0 ≤ n < 2 ^ 63 → (∀ mem, n ≤ len mem → in_mem (u64 off) (u64 size) mem) → Q n st) →
  wp g0 (memNeed off size) Q st.
Proof.
  intros Hoff Hsize HQ. apply wp_memNeed; [done|done|by apply core_exc|].
  intros n Hn H1 H2. apply HQ; [done|]. intros mem Hmem. destruct Hoff, Hsize.
  destruct (decide (size = 0)) as [->|]; [by left|]. specialize (H1 ltac:(done)).
  rewrite !wrap_small by (unfold in_word; lia). right. lia.
Qed.
Lemma r_slice bs off size Q :
  in_mem off size bs → mem_ok bs → (∀ bs', buffer_ok bs' → Q bs' st) →
  wp g0 (slice bs off size) Q st.
Proof.
  intros Hin (Hok&Hlen&_) HQ. apply wp_slice; [done..|]. intros bs' Hbs' _ ->.
  apply HQ. split; [done|]. unfold len in *. rewrite length_take, length_drop. lia.
Qed.
Lemma r_write_mem off bs Q :
  in_mem off (len bs) (m_mem st) → bytes_ok bs →
  (∀ mem', mem_ok mem' → len mem' = len (m_mem st) → core g0 (with_mem mem' st) →
     Q () (with_mem mem' st)) →
  wp g0 (write_mem off bs) Q st.
Proof.
  intros ?? HQ. apply wp_write_mem; [done|by apply Hst|done|]. intros mem' Hm Hl.
  apply HQ; [done|done|by apply core_with_mem].
Qed.
Lemma r_modify f Q :
  core g0 (f st) → (core g0 (f st) → Q () (f st)) → wp g0 (modify f) Q st.
Proof. intros. apply wp_modify. auto. Qed.
Lemma r_ext {A} (f : world E A) (P : E → A → Prop) Q :
  (ext_ok (m_ext st) → does ext_step f (m_ext st) P) →
  (∀ e a, P e a → core g0 (with_ext e st) → Q a (with_ext e st)) → wp g0 (ext f) Q st.
Proof.
  intros Hf HQ. destruct (Hf (core_world _ _ Hst)) as (e&a&Heq&Hstep&HP).
  unfold wp, ext. rewrite Heq. apply HQ; [done|]. apply core_with_ext; [done|].
  eapply ext_step_trans; [exact (core_ext _ _ Hst)|done].
Qed.
Lemma r_gas64 : 0 ≤ m_io_gas st ≤ g0 ∧ g0 < 2 ^ 64.
Proof. split; apply Hst. Qed.
End Rules.

(** ** The instructions

    [pre op st]: the state between [fetchInstruction] and the switch. *)

(** The numbers of the families of instructions *)
Definition op_okb (op : Instruction) : bool :=
  match op with
  | I_PUSH n => (1 <=? n) && (n <=? 32)
  | I_DUP n | I_SWAP n => (1 <=? n) && (n <=? 16)
  | I_LOG n => (0 <=? n) && (n <=? 4)
  | _ => true
  end.
Notation op_ok op := (op_okb op = true).
Lemma instruction_ok b : in_word 8 b → op_ok (instruction_of b).
Proof. apply (byte_forall (λ b, op_okb (instruction_of b))). by vm_compute. Qed.

Record pre (op : Instruction) (st : VM) : Prop := {
  pre_core : core (m_io_gas st) st;
  pre_OP : m_OP st = op;
  pre_op : op_ok op;
  pre_args : (args (instructionInfo op) ≤ length (m_SP st))%nat;
  pre_ret : (length (m_SPP st) = length (m_SP st) - args (instructionInfo op) + ret (instructionInfo op))%nat;
  pre_run : m_runGas st = tier_gas sched (gasPriceTier (instructionInfo op));
  pre_copy : m_copyMemSize st = 0;
  pre_bounce : m_bounce st = interpretCases_;
  pre_PC : op = I_STOP ∨ m_PC st < len (ext_code env);
}.

Definition calls_out (op : Instruction) (b : Bounce) : Prop :=
  b = caseCreate_ ∧ op ∈ [I_CREATE; I_CREATE2] ∨
  b = caseCall_ ∧ op ∈ [I_CALL; I_CALLCODE; I_DELEGATECALL; I_STATICCALL].

(** What an instruction leaves: it is paid for, unless it stops or goes on in
    [caseCreate] or [caseCall]. *)
Definition post (st0 : VM) (flow : Flow) (st : VM) : Prop :=
  core (m_io_gas st0) st ∧
  match flow with
  | NEXT => m_io_gas st < m_io_gas st0 ∧ m_PC st = m_PC st0 ∧ m_bounce st = interpretCases_ ∧
            m_OP st0 ≠ I_STOP ∧ push_size (m_OP st0) = 0
  | CONTINUE => m_io_gas st < m_io_gas st0 ∧ m_bounce st = interpretCases_ ∧
                (m_PC st ∈ (optimize (ext_code env)).2 ∨
                 m_PC st = m_PC st0 + push_size (m_OP st0) + 1)
  | BREAK => m_bounce st = Stop ∨ calls_out (m_OP st0) (m_bounce st) ∧ st = with_bounce (m_bounce st) st0
  end.

Lemma sched_ok_env : sched_ok sched.
Proof. apply EO. Qed.

Lemma pre_nonempty op st : pre op st → (0 < ret (instructionInfo op))%nat → m_SPP st ≠ [].
Proof. intros [] ? Hnil. rewrite Hnil in *. simpl in *. lia. Qed.
Lemma pre_tier op st :
  pre op st → 0 ≤ m_runGas st < 2 ^ 32 ∧
  (gasPriceTier (instructionInfo op) ≠ Zero → gasPriceTier (instructionInfo op) ≠ Special →
   0 < m_runGas st).
Proof.
  intros Hpre. rewrite (pre_run _ _ Hpre). split; [apply so_tier, EO|].
  intros. apply so_tier_pos; [apply EO|done..].
Qed.

End Logic.

#[global] Arguments wp {E EF env EL x0} g0 {A} m Q st.
#[global] Arguments core_gas {E EF env EL x0}.
#[global] Arguments wp_mono {E EF env EL x0} g0 {A} m Q Q' st.
#[global] Arguments core_out {E EF env EL x0}.
#[global] Arguments core_ext {E EF env EL x0}.
#[global] Arguments core_gas64 {E EF env EL x0}.
#[global] Arguments core_mem {E EF env EL x0}.
#[global] Arguments core_SP {E EF env EL x0}.
#[global] Arguments core_SPP {E EF env EL x0}.
#[global] Arguments core_ret {E EF env EL x0}.
#[global] Arguments core_code {E EF env EL x0}.
#[global] Arguments core_PC {E EF env EL x0}.
#[global] Arguments pre_OP {E EF env EL x0}.
#[global] Arguments pre_op {E EF env EL x0}.
#[global] Arguments pre_args {E EF env EL x0}.
#[global] Arguments pre_ret {E EF env EL x0}.
#[global] Arguments pre_run {E EF env EL x0}.
#[global] Arguments pre_copy {E EF env EL x0}.
#[global] Arguments pre_bounce {E EF env EL x0}.
#[global] Arguments pre_PC {E EF env EL x0}.
#[global] Arguments pre_core {E EF env EL x0}.
#[global] Arguments pre_tier {E EF env EL EO x0}.
#[global] Arguments pre_nonempty {E EF env EL x0}.
#[global] Arguments r_gas64 {E EF env EL x0}.
#[global] Arguments sched_ok_env {env EO}.

Ltac solve_word :=
  repeat match goal with
  | |- in_word 256 (if ?b then _ else _) => destruct b eqn:?
  end;
  lazymatch goal with
  | |- in_word 256 (wrap 256 _) => apply word_u256
  | |- in_word 256 (wrap 160 _) => apply word_u160
  | |- in_word 256 (b2z _) => apply word_b2z
  | |- in_word 256 0 => exact word_0
  | |- in_word 256 (Z.land _ _) => by apply word_land
  | |- in_word 256 (Z.lor _ _) => by apply word_lor
  | |- in_word 256 (Z.lxor _ _) => by apply word_lxor
  | Hb : negb (?b =? 0) = true |- in_word 256 (divWorkaround _ ?b) =>
    apply negb_true_iff, Z.eqb_neq in Hb; rewrite divWorkaround_spec by done; by apply div_word
  | Hb : negb (?b =? 0) = true |- in_word 256 (modWorkaround _ ?b) =>
    apply negb_true_iff, Z.eqb_neq in Hb; rewrite modWorkaround_spec by done; by apply mod_word
  | |- in_word 256 (op_sdiv _ _) =>
    rewrite op_sdiv_spec by done; case_match; [exact word_0|apply word_u256]
  | |- in_word 256 (op_smod _ _) =>
    rewrite op_smod_spec by done; case_match; [exact word_0|apply word_u256]
  | |- in_word 256 (exp256 _ _) => rewrite exp256_spec by done; apply word_u256
  | _ => assumption
  end.

(** The hypothesis about the current state, without unification of states *)
Ltac core_hyp :=
  match goal with
  | Hc : core _ _ ?s |- core _ _ ?s' => constr_eq s s'; exact Hc
  end.

(** The invariant of a state that setters built *)
Ltac solve_core :=
  vm; repeat lazymatch goal with
  | |- core _ _ (with_ext _ _) => first [core_hyp | simple apply core_with_ext]
  | |- core _ _ (with_runGas _ _) => first [core_hyp | simple apply core_with_runGas]
  | |- core _ _ (with_newMemSize _ _) => first [core_hyp | simple apply core_with_newMemSize]
  | |- core _ _ (with_copyMemSize _ _) => first [core_hyp | simple apply core_with_copyMemSize]
  | |- core _ _ (with_bounce _ _) => first [core_hyp | simple apply core_with_bounce]
  | |- core _ _ (with_OP _ _) => first [core_hyp | simple apply core_with_OP]
  | |- core _ _ (with_output _ _) => first [core_hyp | simple apply core_with_output]
  | |- core _ _ (with_mem _ _) => first [core_hyp | simple apply core_with_mem]
  | |- core _ _ (with_returnData _ _) => first [core_hyp | simple apply core_with_returnData]
  | |- core _ _ (with_PC _ _) => first [core_hyp | simple apply core_with_PC]
  | |- core _ _ (with_SP _ _) => first [core_hyp | simple apply core_with_SP]
  | |- core _ _ (with_SPP _ _) => first [core_hyp | simple apply core_with_SPP]
  | |- core _ _ (with_gas _ _) => first [core_hyp | simple apply core_with_gas]
  | |- core _ _ _ => core_hyp
  | |- stack_ok _ => assumption
  | |- mem_ok _ => assumption
  | |- buffer_ok _ => assumption
  end.

(** What an operation of the world does, by its law *)
Ltac solve_does Hok :=
  lazymatch goal with
  | |- does _ (ext_store _) _ _ => exact (ext_store_ok _ _ Hok)
  | |- does _ (ext_setStore _ _) _ _ => apply (ext_setStore_ok _ _ _ Hok); assumption
  | |- does _ (ext_balance _) _ _ => exact (ext_balance_ok _ _ Hok)
  | |- does _ (ext_codeAt _) _ _ => exact (ext_codeAt_ok _ _ Hok)
  | |- does _ (ext_codeSizeAt _) _ _ => exact (ext_codeSizeAt_ok _ _ Hok)
  | |- does _ (ext_exists _) _ _ => exact (ext_exists_ok _ _ Hok)
  | |- does _ (ext_suicide _) _ _ => apply (ext_suicide_ok _ _ Hok), word_u160
  | |- does _ (ext_log _ _) _ _ => exact (ext_log_ok _ _ _ Hok)
  | |- does _ (ext_blockHash _) _ _ => apply (ext_blockHash_ok _ _ Hok); assumption
  | |- does _ (ext_add_refund _) _ _ => exact (ext_add_refund_ok _ _ Hok)
  | |- does _ (ext_call _) _ _ => apply (ext_call_ok _ _ Hok)
  | |- does _ (ext_create _ _ _ _ _) _ _ => apply (ext_create_ok _ _ _ _ _ _ Hok)
  end.

(** One step of the symbolic execution of an instruction; the invariant of the
    current state is a hypothesis. *)
Ltac wp1 :=
  vm;
  lazymatch goal with
  | |- wp _ (mbind _ _) _ _ => apply wp_bind
  | |- wp _ (mret _) _ _ => apply wp_ret
  | |- wp _ (get _) _ _ => apply wp_get
  | |- wp _ (modify _) _ _ => eapply r_modify; [solve_core|intros ?Hc]
  | |- wp _ (ext _) _ _ =>
    match goal with WO : world_ok _ |- _ => eapply (r_ext _ (WO:=WO)) end;
    [first [core_hyp|eassumption]|vm; intros ?Hok; solve_does Hok|
     let He := fresh "He" in let Hpay := fresh "Hpay" in
     intros ?e ?a He ?Hc; cbn beta in He;
     try lazymatch type of He with _ ∧ _ => destruct He as [He Hpay] end]
  | |- wp _ (throw _) _ _ => eapply r_throw; [first [core_hyp|eassumption]|exact I]
  | |- wp _ (throw_when _ _) _ _ => eapply r_throw_when; [first [core_hyp|eassumption]|exact I|intros ?]
  | |- wp _ (sp _) _ _ => eapply r_sp; [first [core_hyp|eassumption]|vm; lia|intros ?v ?Hv ?Hw]
  | |- wp _ (set_spp _) _ _ => eapply r_set_spp; [first [core_hyp|eassumption]|vm; assumption|vm; try solve_word|intros ?Hc]
  | |- wp _ (toInt63 _) _ _ => eapply r_toInt63; [first [core_hyp|eassumption]|intros ?Hlt]
  | |- wp _ (set_runGas _) _ _ => eapply r_set_runGas; [first [core_hyp|eassumption]|intros ?Hlt ?Hc]
  | |- wp _ (add_runGas _) _ _ => eapply r_add_runGas; [first [core_hyp|eassumption]|vm; try lia|intros ?Hc]
  | |- wp _ updateIOGas _ _ => eapply r_updateIOGas; [first [core_hyp|eassumption]|vm; try lia|intros ?Hle ?Hc]
  | |- wp _ (updateMem ?env _) _ _ =>
    eapply (r_updateMem env);
    [first [core_hyp|eassumption]|vm; try lia|vm; try lia|vm; try lia|try lia|intros ?mem ?r ?ns ?Hm1 ?Hm2 ?Hmo ?Hr ?Hc]
  | |- wp _ (memNeed _ _) _ _ => eapply r_memNeed; [first [core_hyp|eassumption]|assumption|assumption|intros ?n ?Hn ?Hin]
  end.

(** The end of an instruction that is paid for *)
Ltac wp_done HOP :=
  vm;
  lazymatch goal with
  | |- post _ _ _ _ => split; [first [core_hyp|eassumption]|vm; first [by split_and!; [lia|..|congruence|rewrite HOP] | 
      split_and!; [lia|done|first [by left | right; rewrite HOP, wrap_small by (unfold in_word; lia);
                                             simpl; lia]]]]
  end.

Ltac wp_start Hm Hpre :=
  pose proof (pre_core _ _ Hpre) as Hc0;
  pose proof (pre_tier _ _ Hpre) as [Hrun Hpos]; pose proof (pre_args _ _ Hpre) as Hargs;
  pose proof (pre_nonempty _ _ Hpre) as Hne; pose proof (pre_bounce _ _ Hpre) as Hb;
  pose proof (pre_copy _ _ Hpre) as Hcopy; pose proof (pre_OP _ _ Hpre) as HOP; pose proof sched_ok_env as Hs.
Ltac group Hm Hpre :=
  wp_start Hm Hpre;
  match type of Hm with _ ?op = _ => destruct op end;
  try discriminate Hm; apply (inj Some) in Hm as <-.

End LegacyVMLogic.
