(* ===== verification/LegacyVMSafety.v ===== *)
(** * The instructions keep the invariant and are paid for

    For each group of cases of [interpretCases] a rule from the state behind
    [fetchInstruction] ([pre]) to what the group leaves ([post]). *)
From S2P Require Import Prelude CommonData Instruction LegacyVM LegacyVMCode LegacyVMArith.
From S2P Require Import LegacyVMLogic.

Module LegacyVMSafety.
Import Instruction LegacyVM CommonData LegacyVMCode LegacyVMArith LegacyVMLogic.

Section Safety.
Context `{EF : ExtVMFace E} (env : Env) `{EL : !ExtVMFaceLaws E env} `{EO : !env_ok env}.
Context {x0 : E} `{WO : !world_ok x0}.
Notation sched := (evmSchedule env).
Notation VM := (@VM E).
Notation M := (@M E).
#[local] Existing Instance M_ret.
#[local] Existing Instance M_bind.
Notation wp := (LegacyVMLogic.wp (env:=env) (x0:=x0)).
Notation core := (LegacyVMLogic.core env (x0:=x0)).
Notation pre := (LegacyVMLogic.pre env (x0:=x0)).
Notation post := (LegacyVMLogic.post env (x0:=x0)).

Lemma allbits_word : word allbits.
Proof. done. Qed.
Lemma op_byte_word i v : word i → word (op_byte i v).
Proof.
  intros [Hi _]. rewrite op_byte_spec by done. case_match; [|exact word_0].
  pose proof (Z.mod_pos_bound (v / 256 ^ (31 - i)) 256 ltac:(lia)). split; lia.
Qed.

Lemma exp_gas e :
  word e →
  0 < u32 (expGas sched + u32 (expByteGas sched
             * (32 - firstBitSet (toBigEndian e (replicate 32 0)) 0 / 8))).
Proof.
  intros He. destruct (exp_bytes e He) as [-> Hb]. destruct (so_exp _ sched_ok_env) as (?&?&?).
  rewrite (wrap_small 32 (_ * _)), wrap_small by (unfold in_word; nia). nia.
Qed.

Lemma arith_wp op m st :
  cases_arith env op = Some m → pre op st → wp (m_io_gas st) m (post st) st.
Proof.
  intros Hm Hpre. wp_start Hm Hpre.
  destruct op; try discriminate Hm; apply (inj Some) in Hm as <-; simpl in Hargs, Hne, Hpos;
    specialize (Hne ltac:(lia)); try specialize (Hpos ltac:(done) ltac:(done));
    unfold case_unary, case_binary, case_ternary, case_const.
  all: repeat wp1; try wp_done HOP.
  - by apply Z.lt_le_incl, exp_gas.
  - pose proof (exp_gas _ Hw). wp_done HOP.
  - by apply op_byte_word.
Qed.

Lemma shift_wp op m st :
  cases_shift env op = Some m → pre op st → wp (m_io_gas st) m (post st) st.
Proof.
  intros Hm Hpre. wp_start Hm Hpre.
  destruct op; try discriminate Hm; apply (inj Some) in Hm as <-; simpl in Hargs, Hne, Hpos;
    specialize (Hne ltac:(lia)); try specialize (Hpos ltac:(done) ltac:(done));
    unfold case_unary, case_binary, case_ternary, case_const.
  all: repeat wp1; try wp_done HOP.
  - rewrite op_signextend_spec by (done || apply Hw). case_match; [apply word_u256|done].
  - rewrite shr_spec by (done || apply Hw). apply pow_word; [done|apply Hw].
  - rewrite op_sar_spec by (done || apply Hw). apply word_u256.
Qed.

Lemma env_words :
  word (myAddress env) ∧ word (caller env) ∧ word (origin env) ∧ word (value env) ∧
  word (gasPrice env) ∧ word (author env) ∧ word (timestamp env) ∧ word (number env) ∧
  word (difficulty env) ∧ word (gasLimit env).
Proof.
  pose proof eo_words as Hw. rewrite !Forall_cons in Hw. tauto.
Qed.
Lemma len_word (bs : bytes) : len bs < 2 ^ 64 → word (len bs).
Proof. unfold len. split; lia. Qed.
Lemma buffer_len_word bs : buffer_ok bs → word (len bs).
Proof. intros [_ Hl]. apply len_word. lia. Qed.

Lemma env_wp op m st :
  cases_env env op = Some m → pre op st → wp (m_io_gas st) m (post st) st.
Proof.
  intros Hm Hpre. pose proof env_words as (?&?&?&?&?&?&?&?&?&?).
  pose proof eo_data. pose proof eo_code as [_ ?].
  destruct (so_ext _ sched_ok_env) as (?&?&?&?).
  group Hm Hpre; simpl in Hargs, Hne, Hpos;
    specialize (Hne ltac:(lia)); try specialize (Hpos ltac:(done) ltac:(done));
    unfold case_unary, case_const; repeat wp1; try wp_done HOP.
  - apply calldata_load_word.
  - by apply buffer_len_word.
  - apply buffer_len_word, eo_code.
  - by apply buffer_len_word, (core_ret _ _ Hc0).
Qed.

Lemma state_wp op m st :
  cases_state env op = Some m → pre op st → wp (m_io_gas st) m (post st) st.
Proof.
  intros Hm Hpre. destruct (so_sstore _ sched_ok_env) as [??].
  pose proof (so_sload _ sched_ok_env). 
  group Hm Hpre; simpl in Hargs, Hne, Hpos; try specialize (Hne ltac:(lia));
    try specialize (Hpos ltac:(done) ltac:(done));
    unfold case_unary, case_const, updateSSGas; repeat wp1; try wp_done HOP.
  - case_match; repeat wp1; [wp_done HOP|]. case_match; repeat wp1; wp_done HOP.
  - destruct (core_PC _ _ Hc0). destruct eo_code. unfold len in *. split; lia.
  - apply len_word. destruct (core_mem _ _ Hc0). lia.
  - pose proof (r_gas64 _ _ Hc0). split; lia.
Qed.

Lemma call_wp op m st :
  cases_call env op = Some m → pre op st → wp (m_io_gas st) m (post st) st.
Proof.
  intros Hm Hpre. group Hm Hpre; simpl in Hargs; unfold bounce_to; repeat wp1;
    (split; [solve_core|right; vm; split; [|done]]; rewrite HOP; unfold calls_out; set_solver).
Qed.

Lemma mem_ok_nil : mem_ok [].
Proof. split; [constructor|done]. Qed.

Lemma r_take_output g0 st Q :
  core g0 st → (2 ≤ length (m_SP st))%nat → 0 ≤ m_runGas st < 2 ^ 32 →
  (∀ out st', buffer_ok out → core g0 st' → Q out st') → wp g0 (take_output env) Q st.
Proof.
  intros Hc Hargs Hrun HQ. unfold take_output. repeat wp1.
  - apply mem_ok_nil.
  - eapply r_slice; [by apply Hin|done|]. intros bs Hbs. by apply HQ.
Qed.

Lemma halt_wp op m st :
  cases_halt env op = Some m → pre op st → wp (m_io_gas st) m (post st) st.
Proof.
  intros Hm Hpre. destruct (so_call _ sched_ok_env) as (_&?&_).
  pose proof (so_suicide _ sched_ok_env).
  group Hm Hpre; simpl in Hargs; unfold bounce_to; repeat wp1.
  - split; [solve_core|by left].
  - eapply r_take_output; [eassumption|lia|done|]. intros out st' Hout Hc'. repeat wp1.
    split; [eassumption|by left].
  - eapply r_take_output; [eassumption|lia|done|]. intros out st' Hout Hc'.
    vm. by eapply r_throw.
  - case_match; repeat wp1; [|split; [eassumption|by left]].
    case_match; repeat wp1; (split; [eassumption|by left]).
Qed.

Lemma r_verifyJumpDest g0 st dest Q :
  core g0 st →
  (∀ pc, pc ∈ (optimize (ext_code env)).2 → 0 ≤ pc < len (ext_code env) → Q pc st) →
  wp g0 (verifyJumpDest dest) Q st.
Proof.
  intros Hc HQ. unfold verifyJumpDest. apply wp_bind, wp_get. vm.
  case_match eqn:Hd; [|by eapply r_throw]. apply wp_ret.
  apply andb_prop in Hd as [_ (x&Hx&->%Z.eqb_eq)%existsb_exists].
  apply list_elem_of_In in Hx. destruct eo_code as [Hok _].
  destruct (optimize_optimized _ Hok) as (_&_&Hd&_).
  pose proof (core_code _ _ Hc) as Heq. rewrite <-Heq in Hd. apply HQ; [by rewrite <-Heq|].
  apply Hd in Hx as [Hx Hlt].
  apply lookup_lt_Some in Hlt. pose proof (boundary_nonneg _ Hok _ Hx). unfold len. lia.
Qed.

(** The code that is run *)
Lemma core_code_spec g0 st :
  core g0 st → bytes_ok (m_code st) ∧ len (m_code st) = len (ext_code env) + 33 ∧
  ∀ i, len (ext_code env) ≤ Z.of_nat i < len (ext_code env) + 33 → m_code st !! i = Some 0.
Proof.
  intros Hc. destruct eo_code as [Hok _].
  destruct (optimize_optimized _ Hok) as (Hlen&_&_&Hcode&Hend).
  rewrite <-(core_code _ _ Hc) in *. simpl in *. split_and!.
  - apply Forall_lookup. intros i b Hi. pose proof (lookup_lt_Some _ _ _ Hi).
    destruct (decide (i < length (ext_code env))%nat) as [Hlt|].
    + destruct (lookup_lt_is_Some_2 _ _ Hlt) as [b' Hb'].
      destruct (Hcode _ _ Hb') as [(_&_&Hx)|[_ Hx]]; simplify_eq; [done|].
      by eapply bytes_ok_lookup.
    + rewrite Hend in Hi by lia. by simplify_eq.
  - unfold len. lia.
  - intros i Hi. apply Hend. unfold len in Hi. lia.
Qed.

Lemma push_value_word (bs : bytes) v :
  word v → word (fold_left (λ v b, u256 (Z.lor (Z.shiftl v 8) b)) bs v).
Proof. revert v. induction bs as [|b bs IH]; intros v Hv; simpl; [done|]. apply IH, word_u256. Qed.

Lemma stack_ok_insert i v l : stack_ok l → word v → stack_ok (<[i:=v]> l).
Proof. intros [Hl Hlen] Hv. split; [by apply Forall_insert|by rewrite length_insert]. Qed.

Lemma flow_wp op m st :
  cases_flow op = Some m → pre op st → wp (m_io_gas st) m (post st) st.
Proof.
  intros Hm Hpre. destruct eo_code as [Hok Hlen]. pose proof (pre_op _ _ Hpre) as Hop.
  pose proof (pre_PC _ _ Hpre) as HPC. destruct (core_PC _ _ (pre_core _ _ Hpre)) as [HPC0 _].
  pose proof (pre_ret _ _ Hpre) as Hret.
  assert (0 ≤ len (ext_code env)) by (unfold len; lia).
  group Hm Hpre; destruct HPC as [?|HPC]; try done; simpl in Hargs, Hne, Hpos, Hop, Hret;
    specialize (Hpos ltac:(done) ltac:(done)); unfold case_const; repeat wp1; try wp_done HOP.
  - eapply r_verifyJumpDest; [eassumption|]. intros pc Hpd Hpc. repeat wp1; [lia|wp_done HOP].
  - case_match; repeat wp1.
    + eapply r_verifyJumpDest; [eassumption|]. intros pc Hpd Hpc. repeat wp1; [lia|wp_done HOP].
    + rewrite wrap_small; unfold in_word; lia.
    + wp_done HOP.
  - destruct (core_code_spec _ _ Hc0) as (Hcok&Hclen&_).
    unfold push_value. wp1. eapply wp_slice; [right; vm; lia|done|]. intros bs Hbs _ _.
    specialize (Hne ltac:(lia)). repeat wp1.
    + by apply push_value_word.
    + rewrite wrap_small; unfold in_word; lia.
    + wp_done HOP.
  - specialize (Hne ltac:(lia)). repeat wp1. wp_done HOP.
  - apply stack_ok_insert; [|done]. apply stack_ok_insert; [apply Hc0|done].
Qed.

Lemma r_topics g0 st i n Q :
  core g0 st → (i + n ≤ length (m_SP st))%nat → (∀ ts, Q ts st) → wp g0 (topics i n) Q st.
Proof.
  intros Hc. revert i Q. induction n as [|n IH]; intros i Q Hlen HQ; simpl; wp1; [done|].
  wp1. wp1. apply IH; [lia|]. intros ts. repeat wp1. apply HQ.
Qed.

Lemma in_mem_u32 off size (mem : bytes) :
  0 ≤ off → 0 ≤ size → off < 2 ^ 63 → u64 (off + size) ≤ len mem → size ≤ 32 →
  in_mem (u32 off) size mem.
Proof.
  intros Hoff Hsize Hlt Hle Hs. right. rewrite wrap_small in Hle by (unfold in_word; lia).
  pose proof (Z.mod_le off (2 ^ 32) Hoff ltac:(lia)).
  pose proof (Z.mod_pos_bound off (2 ^ 32) ltac:(lia)). unfold wrap. lia.
Qed.

Lemma sha3_gas size :
  word size → 0 < u512 (sha3Gas sched + u512 (u512 (size + 31) / 32 * sha3WordGas sched)).
Proof.
  intros [Hs Hs']. destruct (so_sha3 _ sched_ok_env) as [??].
  rewrite (wrap_small 512 (size + 31)) by (unfold in_word; lia).
  assert (0 ≤ (size + 31) / 32 < 2 ^ 256)
    by (split; [apply Z.div_pos; lia|apply Z.div_lt_upper_bound; lia]).
  rewrite (wrap_small 512 (_ * _)), wrap_small by (unfold in_word; nia). nia.
Qed.
Lemma log_gas n size :
  0 ≤ n ≤ 4 → word size →
  0 < u512 (u32 (logGas sched + u32 (logTopicGas sched * n)) + u512 (logDataGas sched * size)).
Proof.
  intros Hn [Hs Hs']. destruct (so_log _ sched_ok_env) as (?&?&?&?).
  rewrite (wrap_small 32 (_ * _)), (wrap_small 32) by (unfold in_word; nia).
  rewrite (wrap_small 512 (_ * size)), wrap_small by (unfold in_word; nia). nia.
Qed.
Lemma need_u64 v k : word v → v < 2 ^ 63 → 0 ≤ k ≤ 32 → 0 ≤ u64 (v + k) ≤ 2 ^ 64 - 64.
Proof. intros [Hv _] Hlt Hk. rewrite wrap_small by (unfold in_word; lia). lia. Qed.

Lemma memory_wp op m st :
  cases_memory env op = Some m → pre op st → wp (m_io_gas st) m (post st) st.
Proof.
  intros Hm Hpre. pose proof (pre_op _ _ Hpre) as Hop.
  destruct (so_sha3 _ sched_ok_env) as [??]. destruct (so_log _ sched_ok_env) as (?&?&?&?).
  group Hm Hpre; simpl in Hargs, Hne, Hpos, Hop; try specialize (Hne ltac:(lia));
    try specialize (Hpos ltac:(done) ltac:(done)); unfold logGasMem; repeat wp1.
  all: try (pose proof (sha3_gas _ Hw0); lia).
  all: try (pose proof (log_gas n _ ltac:(lia) Hw0); lia).
  all: try (apply need_u64; [done|done|lia]).
  - eapply r_slice; [by apply Hin|done|]. intros bs Hbs.
    pose proof (sha3_gas _ Hw0). repeat wp1; [apply ext_sha3_word|wp_done HOP].
  - eapply r_slice; [by apply in_mem_u32; [apply Hw|..]|done|]. intros bs Hbs.
    repeat wp1; [apply fromBigEndian_word|wp_done HOP].
  - eapply r_write_mem; [eassumption| |by apply toBigEndian_spec|].
    { unfold len at 1. rewrite length_toBigEndian, length_replicate. vm.
      by apply in_mem_u32; [apply Hw|..]. }
    intros mem' Hmo' Hlen' Hc'. repeat wp1. wp_done HOP.
  - eapply r_write_mem; [eassumption|vm; by apply in_mem_u32; [apply Hw|..]| |].
    { apply bytes_ok_single. rewrite land_255. by apply (wrap_in_word 8). }
    intros mem' Hmo' Hlen' Hc'. repeat wp1. wp_done HOP.
  - pose proof (log_gas n _ ltac:(lia) Hw0).
    eapply r_topics; [eassumption|vm; lia|]. intros ts. repeat wp1. simplify_eq.
    eapply r_slice; [by apply Hin|done|]. intros bs Hbs. repeat wp1. wp_done HOP.
Qed.

Lemma r_copyDataToMemory g0 st d i off idx size Q :
  core g0 st → buffer_ok d →
  m_SP st !! i = Some off → m_SP st !! (i + 1)%nat = Some idx → m_SP st !! (i + 2)%nat = Some size →
  word idx → word size → size < 2 ^ 63 → in_mem (u64 off) (u64 size) (m_mem st) →
  (∀ mem', core g0 (with_mem mem' st) → Q () (with_mem mem' st)) →
  wp g0 (copyDataToMemory d i) Q st.
Proof.
  intros Hc [Hd Hdlen] Hoff Hidx Hsize [Hi _] [Hs _] Hs63 Hin HQ. unfold copyDataToMemory.
  apply wp_bind, wp_sp; [by eapply lookup_lt_Some|]. intros ? ?; simplify_eq.
  apply wp_bind, wp_sp; [by eapply lookup_lt_Some|]. intros ? ?; simplify_eq.
  apply wp_bind, wp_sp; [by eapply lookup_lt_Some|]. intros ? ?; simplify_eq.
  rewrite (wrap_small 64 size) in * by (unfold in_word; lia).
  set (copied := if len d <? idx + size then _ else size).
  assert (0 ≤ len d < 2 ^ 63) as Hdl by (unfold len in *; lia).
  assert (0 ≤ copied ≤ size ∧ in_mem (u64 idx) copied d) as [Hcop Hind].
  { unfold copied. destruct (Z.ltb_spec (len d) (idx + size)).
    - destruct (Z.ltb_spec (len d) idx); [split; [lia|by left]|].
      rewrite !(wrap_small 64) by (unfold in_word; rewrite ?(wrap_small 64); unfold in_word; lia).
      split; [lia|right; lia].
    - rewrite (wrap_small 64) by (unfold in_word; lia). split; [lia|right; lia]. }
  clearbody copied. apply wp_bind, wp_slice; [done|done|]. intros bs Hbs Hlen _.
  specialize (Hlen ltac:(lia)).
  assert (∀ off' n, 0 ≤ n → off' = u64 off + (size - n) → n ≤ size → in_mem off' n (m_mem st))
    as Hsub.
  { intros off' n Hn -> Hle. destruct Hin as [->|(?&?&?)]; [left; lia|right; lia]. }
  apply wp_bind. eapply r_write_mem; [eassumption| |done|].
  { rewrite Hlen. destruct Hin as [->|(?&?&?)]; [left; lia|right; lia]. }
  intros mem1 Hok1 Hlen1 Hc1. eapply r_write_mem; [eassumption| |by apply Forall_replicate|].
  { unfold len at 1. rewrite length_replicate, Z2Nat.id by lia. vm.
    destruct Hin as [->|(?&?&?)]; [left; lia|right; lia]. }
  intros mem2 Hok2 Hlen2 Hc2. by apply HQ.
Qed.

Lemma r_charge_copy g0 st i off size Q :
  core g0 st → (i + 2 < length (m_SP st))%nat → 0 ≤ m_runGas st < 2 ^ 32 →
  m_SP st !! i = Some off → m_SP st !! (i + 2)%nat = Some size →
  (∀ st', core g0 st' → m_SP st' = m_SP st → m_PC st' = m_PC st → m_bounce st' = m_bounce st →
     m_io_gas st' ≤ m_io_gas st - m_runGas st → size < 2 ^ 63 →
     in_mem (u64 off) (u64 size) (m_mem st') → Q () st') →
  wp g0 (charge_copy env i) Q st.
Proof.
  intros Hc Hlen Hrun Hoff Hsize HQ. unfold charge_copy. 
  assert (word size) as [Hs0 _] by (eapply stack_ok_lookup; [apply Hc|done]).
  repeat wp1; simplify_eq; [lia|].
  apply HQ; vm; try done; [lia|by apply Hin].
Qed.

Lemma stack_item (st : VM) i :
  stack_ok (m_SP st) → (i < length (m_SP st))%nat → ∃ v, m_SP st !! i = Some v ∧ word v.
Proof.
  intros Hs [v Hv]%lookup_lt_is_Some. exists v. split; [done|]. by eapply stack_ok_lookup.
Qed.

(** A copying instruction with its arguments from [m_SP[i]] on: [k]
    finds the buffer and copies from it. *)
Lemma copy_body st0 st i (k : M Flow) :
  core (m_io_gas st0) st → (i + 2 < length (m_SP st))%nat → 0 < m_runGas st < 2 ^ 32 →
  m_io_gas st = m_io_gas st0 → m_PC st = m_PC st0 → m_bounce st = interpretCases_ →
  m_OP st0 ≠ I_STOP → push_size (m_OP st0) = 0 →
  (∀ st' Q, core (m_io_gas st0) st' → m_SP st' = m_SP st →
     (∀ bs st'', buffer_ok bs → core (m_io_gas st0) st'' → (∃ e, st'' = with_ext e st') →
       wp (m_io_gas st0) (copyDataToMemory bs i) (λ _, wp (m_io_gas st0) (mret NEXT) Q) st'') →
     wp (m_io_gas st0) k Q st') →
  wp (m_io_gas st0) (charge_copy env i) (λ _, wp (m_io_gas st0) k (post st0)) st.
Proof.
  intros Hc Hlen Hrun Hio HPC Hb HOP Hps Hd. pose proof (core_SP _ _ Hc) as Hs.
  destruct (stack_item st i Hs ltac:(lia)) as (off&Hoff&_).
  destruct (stack_item st (i + 1) Hs ltac:(lia)) as (idx&Hidx&Hwi).
  destruct (stack_item st (i + 2) Hs ltac:(lia)) as (size&Hsize&Hws).
  eapply r_charge_copy; [done..|lia|done|done|].
  intros st' Hc' HSP HPC' Hb' Hio' Hlt Hin. apply Hd; [done|done|]. intros bs st'' Hbs Hc'' [e ->].
  rewrite <-HSP in *. eapply r_copyDataToMemory; [done..|]. intros mem' Hc2.
  apply wp_ret. split; [done|]. vm. split; [lia|]. split_and!; congruence.
Qed.

Lemma same_ext (st : VM) : ∃ e, st = with_ext e st.
Proof. exists (m_ext st). by destruct st. Qed.

Lemma copy_wp op m st :
  cases_copy env op = Some m → pre op st → wp (m_io_gas st) m (post st) st.
Proof.
  intros Hm Hpre. destruct (so_ext _ sched_ok_env) as (?&?&?&?).
  destruct eo_code as [??]. pose proof eo_data.
  group Hm Hpre; simpl in Hargs, Hpos; try specialize (Hpos ltac:(done) ltac:(done)).
  - wp1. apply copy_body; try done; [lia|congruence|by rewrite HOP|].
    intros st' Q Hc' _ HQ. wp1. by apply HQ; [..|by eapply same_ext].
  - wp1. apply copy_body; try done; [lia|congruence|by rewrite HOP|].
    intros st' Q Hc' _ HQ. wp1. by apply HQ; [..|by eapply same_ext].
  - repeat wp1.
    apply (copy_body st (with_runGas (extcodecopyGas sched) st)); vm; try done; [congruence|by rewrite HOP|].
    vm. intros st' Q Hc' HSP HQ. rewrite <-HSP in Hargs. repeat wp1. apply HQ; [done..|by eexists].
  - repeat wp1. apply copy_body; try done; [lia|congruence|by rewrite HOP|].
    intros st' Q Hc' _ HQ. wp1. by apply HQ; [apply Hc0|..|by eapply same_ext].
Qed.

Lemma switch_wp op st : pre op st → wp (m_io_gas st) (switch env op) (post st) st.
Proof.
  intros Hpre. unfold switch.
  destruct (first_some _) as [m|] eqn:Hf; [|eapply r_throw; [apply Hpre|done]].
  simpl in Hf.
  destruct (cases_call env op) eqn:?; [simplify_eq; by eapply call_wp|].
  destruct (cases_halt env op) eqn:?; [simplify_eq; by eapply halt_wp|].
  destruct (cases_memory env op) eqn:?; [simplify_eq; by eapply memory_wp|].
  destruct (cases_arith env op) eqn:?; [simplify_eq; by eapply arith_wp|].
  destruct (cases_shift env op) eqn:?; [simplify_eq; by eapply shift_wp|].
  destruct (cases_env env op) eqn:?; [simplify_eq; by eapply env_wp|].
  destruct (cases_copy env op) eqn:?; [simplify_eq; by eapply copy_wp|].
  destruct (cases_flow op) eqn:?; [simplify_eq; by eapply flow_wp|].
  destruct (cases_state env op) eqn:?; [simplify_eq; by eapply state_wp|done].
Qed.

End Safety.

#[global] Arguments core_code_spec {E EF env EL EO x0}.

End LegacyVMSafety.
