(* ===== verification/LegacyVMCalls.v ===== *)
(** * What a call costs (libevm/LegacyVMCalls.cpp)

    The rule of [caseCallSetup]: what is charged before a call covers the gas
    the call is given. *)
From S2P Require Import Prelude CommonData Instruction LegacyVM LegacyVMCode LegacyVMArith.
From S2P Require Import LegacyVMLogic LegacyVMSafety.

Module LegacyVMCalls.
Import Instruction LegacyVM CommonData LegacyVMCode LegacyVMArith LegacyVMLogic LegacyVMSafety.

Section Safety.
Context `{EF : ExtVMFace E} (env : Env) `{EL : !ExtVMFaceLaws E env} `{EO : !env_ok env}.
Context {x0 : E} `{WO : !world_ok x0}.
Notation sched := (evmSchedule env).
Notation VM := (@VM E).
Notation M := (@M E).
#[local] Existing Instance M_ret.
#[local] Existing Instance M_bind.
Notation wp := (LegacyVMLogic.wp (env:=env) (x0:=x0)).
Notation core := (LegacyVMLogic.core env (x0:=x0)).
Notation pre := (LegacyVMLogic.pre env (x0:=x0)).

Lemma all_but_64 g : 0 ≤ g → 0 ≤ g - g / 64 ≤ g.
Proof. intros. dlia. Qed.
Lemma buffer_ok_nil : buffer_ok [].
Proof. split; [constructor|done]. Qed.
Lemma params_ok_intro snd code rcv v av g d static :
  word snd → word code → word v → word av → 0 ≤ g < 2 ^ 64 → buffer_ok d →
  rcv = code ∨ rcv = myAddress env →
  params_ok env (mkCallParameters snd code rcv v av g d static).
Proof.
  intros Hs Hc Hv Hav Hg Hd Hr. destruct (env_words env) as [Hm _].
  split; try done. simpl. rewrite !Forall_cons. split_and!; try done. by destruct Hr as [->| ->].
Qed.

(** What [caseCallSetup] leaves in [st'] for the call, from the state [st0]:
    the gas of the call is paid for, the stipend with the transfer. *)
Definition setup_post (st0 : VM) (setup : CallSetup) (st' : VM) : Prop :=
  core (m_io_gas st0) st' ∧ m_bounce st' = m_bounce st0 ∧ m_PC st' = m_PC st0 ∧
  m_SPP st' = m_SPP st0 ∧
  0 ≤ gas (callParams setup) ∧ m_io_gas st' + gas (callParams setup) < m_io_gas st0 ∧
  match o_output setup with
  | Some (off, size) =>
    in_mem off size (m_mem st') ∧ 0 ≤ size ∧ depth env < 1024 ∧ params_ok env (callParams setup) ∧
    (valueTransfer (callParams setup) = 0 ∨
     senderAddress (callParams setup) = myAddress env ∧
     ext_can_pay (m_ext st') (valueTransfer (callParams setup)))
  | None => True
  end.

Lemma setup_intro (st0 : VM) setup st' :
  core (m_io_gas st0) st' → m_bounce st' = m_bounce st0 → m_PC st' = m_PC st0 →
  m_SPP st' = m_SPP st0 →
  0 ≤ gas (callParams setup) ∧ m_io_gas st' + gas (callParams setup) < m_io_gas st0 →
  (0 ≤ gas (callParams setup) < 2 ^ 64 →
   match o_output setup with
   | Some (off, size) =>
     in_mem off size (m_mem st') ∧ 0 ≤ size ∧ depth env < 1024 ∧ params_ok env (callParams setup) ∧
     (valueTransfer (callParams setup) = 0 ∨
      senderAddress (callParams setup) = myAddress env ∧
      ext_can_pay (m_ext st') (valueTransfer (callParams setup)))
   | None => True
   end) →
  setup_post st0 setup st'.
Proof.
  intros Hc ??? [Hg Hle] Hout. pose proof (r_gas64 _ _ Hc).
  split_and!; try done. apply Hout. lia.
Qed.

Definition has_value (op : Instruction) : bool :=
  match op with I_CALL | I_CALLCODE => true | _ => false end.

Lemma r_surcharge g0 st (b : bool) v Q :
  core g0 st → 0 ≤ v < 2 ^ 32 → 0 ≤ m_runGas st < 2 ^ 40 →
  (∀ r, m_runGas st ≤ r ≤ m_runGas st + v → (b = true → r = m_runGas st + v) →
     core g0 (with_runGas r st) → Q () (with_runGas r st)) →
  wp g0 (if b then g ← toInt63 v; add_runGas g else mret ()) Q st.
Proof.
  intros Hc Hv Hrun HQ. destruct b; repeat wp1; [apply HQ; [lia|done|done]|].
  specialize (HQ (m_runGas st)). rewrite with_runGas_id in HQ. apply HQ; [lia|done|done].
Qed.

Lemma call_gas_nonneg x io :
  0 ≤ x → 0 ≤ io → 0 ≤ if staticCallDepthLimit sched then x else Z.min x (io - io / 64).
Proof. intros ? Hio. pose proof (all_but_64 io Hio). destruct (staticCallDepthLimit sched); lia. Qed.

Lemma caseCallSetup_wp st :
  core (m_io_gas st) st → m_copyMemSize st = 0 →
  (args (instructionInfo (m_OP st)) ≤ length (m_SP st))%nat →
  m_OP st ∈ [I_CALL; I_CALLCODE; I_DELEGATECALL; I_STATICCALL] →
  wp (m_io_gas st) (caseCallSetup env) (setup_post st) st.
Proof.
  intros Hc0 Hcopy Hargs Hop. destruct (so_call _ sched_ok_env) as (?&?&?&?).
  pose proof (env_words env) as (Hwm&Hwc&_&Hwv&_).
  assert (∀ op, m_OP st = op → (if has_value op then 7 else 6) ≤ length (m_SP st))%nat as Hlen.
  { intros op Heq. rewrite Heq in *.
    rewrite !elem_of_cons, elem_of_nil in Hop; destruct Hop as [->|[->|[->|[->|[]]]]]; done. }
  clear Hargs. unfold caseCallSetup.
  rewrite !elem_of_cons, elem_of_nil in Hop. destruct Hop as [Hop|[Hop|[Hop|[Hop|[]]]]];
    specialize (Hlen _ Hop); simpl in Hlen; do 4 wp1; vm; rewrite Hop; cbn [andb].
  all: repeat (wp1 || (eapply r_surcharge; [eassumption|lia|vm; lia|intros ?r ?Hrr ?Hreq ?Hc])).
  all: destruct (r_gas64 _ _ Hc0).
  all: match goal with |- context [if staticCallDepthLimit sched then ?x else Z.min _ ?m] =>
    assert (0 ≤ if staticCallDepthLimit sched then x else Z.min x m) as Hgas0
      by (apply call_gas_nonneg; [by match goal with H : word x |- _ => apply H end|lia]);
    set (gas0 := if staticCallDepthLimit sched then x else Z.min x m) in * end.
  all: try done.
  all: clearbody gas0; vm; match goal with |- wp _ (if ?b then _ else _) _ _ => destruct b eqn:Hguard end.
  all: try (do 3 wp1; vm; eapply r_slice; [first [apply Hin|apply Hin0]; lia|done|]; intros d Hd).
  all: wp1; assert (u256 (gas0 + callStipend sched) = gas0 + callStipend sched) as Hst
         by (apply wrap_small; unfold in_word; lia).
  all: eapply setup_intro; [eassumption|done|done|done|vm; cbn [callParams gas]|].
  all: try (destruct (Z.ltb_spec 0 v0) as [Hv0pos|]; rewrite ?Hst; try lia;
    specialize (Hreq0 ltac:(done)) || specialize (Hreq ltac:(done)); lia).
  all: try lia.
  all: vm; cbn [callParams o_output gas valueTransfer senderAddress]; intros Hg; try done.
  all: apply andb_prop in Hguard as [Hbal%Z.leb_le Hdepth%Z.ltb_lt].
  all: split_and!; try done; try (first [apply Hin|apply Hin0]; lia);
    try (by apply (wrap_in_word 64)).
  all: try (apply params_ok_intro; try done; try apply word_u160; try solve [by left|by right]).
  all: try by left.
  all: right; split; [done|]; apply Hpay; [done|]; by match goal with H : word ?v |- 0 ≤ ?v ≤ _ => destruct H end.
Qed.

End Safety.
End LegacyVMCalls.
