(* ===== verification/LegacyVMExec.v ===== *)
(** * The machine runs safely and stops (libevm/LegacyVM.cpp,
    LegacyVMCalls.cpp)

    The invariant between two rounds of the trampoline ([vm_ok]), the measure
    that every round decreases ([rounds]), and what they mean for [exec]. *)
From S2P Require Import Prelude CommonData Instruction LegacyVM LegacyVMCode LegacyVMArith.
From S2P Require Import LegacyVMLogic LegacyVMSafety LegacyVMCalls.

Module LegacyVMExec.
Import Instruction LegacyVM CommonData LegacyVMCode LegacyVMArith LegacyVMLogic LegacyVMSafety LegacyVMCalls.

Section Safety.
Context `{EF : ExtVMFace E} (env : Env) `{EL : !ExtVMFaceLaws E env} `{EO : !env_ok env}.
Context {x0 : E} `{WO : !world_ok x0}.
Notation sched := (evmSchedule env).
Notation VM := (@VM E).
Notation M := (@M E).
#[local] Existing Instance M_ret.
#[local] Existing Instance M_bind.
Notation wp := (LegacyVMLogic.wp (env:=env) (x0:=x0)).
Notation core := (LegacyVMLogic.core env (x0:=x0)).
Notation pre := (LegacyVMLogic.pre env (x0:=x0)).

(** An instruction starts at [pc], or the code ends before it. *)
Definition on_path (pc : Z) : Prop := len (ext_code env) ≤ pc ∨ boundary (ext_code env) pc.

(** Before [caseCreate] and [caseCall] *)
Definition ready (st : VM) : Prop :=
  calls_out (m_OP st) (m_bounce st) ∧ on_path (m_PC st + 1) ∧
  ∃ st0, st = with_bounce (m_bounce st) st0 ∧ pre (m_OP st) st0.

(** The invariant between two rounds of the trampoline, and what is left to
    do: two rounds for a unit of gas, one more to stop. *)
Record vm_ok (st : VM) : Prop := {
  vm_core : core (m_io_gas st) st;
  vm_bounce : m_bounce st = interpretCases_ ∨ m_bounce st = Stop ∨ ready st;
  vm_PC : m_bounce st = Stop ∨ on_path (m_PC st);
}.
Definition rounds (st : VM) : Z :=
  match m_bounce st with
  | Stop => 0
  | interpretCases_ => 2 * m_io_gas st + 2
  | _ => 2 * m_io_gas st + 1
  end.

Lemma core_shrink g0 st : core g0 st → core (m_io_gas st) st.
Proof. intros []. constructor; try done; lia. Qed.

(** What a round of the trampoline leaves *)
Definition round_post (st : VM) (_ : unit) (st' : VM) : Prop :=
  vm_ok st' ∧ m_io_gas st' ≤ m_io_gas st ∧ rounds st' < rounds st.

Lemma fetch_wp st Q :
  core (m_io_gas st) st → m_bounce st = interpretCases_ →
  (∀ b st', m_code st !! Z.to_nat (m_PC st) = Some b → pre (instruction_of b) st' →
     m_io_gas st' = m_io_gas st → m_PC st' = m_PC st → Q () st') →
  wp (m_io_gas st) (fetchInstruction env) Q st.
Proof.
  intros Hc Hb HQ. destruct (core_code_spec _ _ Hc) as (Hok&Hlen&Hend).
  destruct (core_PC _ _ Hc) as [HPC0 HPC]. unfold fetchInstruction, adjustStack.
  wp1. wp1. vm. destruct (m_code st !! Z.to_nat (m_PC st)) as [b|] eqn:Hbyte; cycle 1.
  { apply lookup_ge_None in Hbyte. unfold len in *. lia. }
  pose proof (instruction_ok b (bytes_ok_lookup _ _ _ Hok Hbyte)) as Hop.
  assert (instruction_of b = I_STOP ∨ m_PC st < len (ext_code env)) as Hstop.
  { destruct (Z.lt_ge_cases (m_PC st) (len (ext_code env))); [by right|]. left.
    rewrite Hend in Hbyte by lia. by simplify_eq. }
  pose proof (core_SPP _ _ Hc) as HSPP.
  set (a := args (instructionInfo (instruction_of b))) in *.
  set (r := ret (instructionInfo (instruction_of b))) in *.
  repeat wp1.
  destruct (length (m_SPP st) <? a)%nat eqn:Ha; [repeat wp1|].
  destruct (1024 <? length (m_SPP st) - a + r)%nat eqn:Hr; [repeat wp1|].
  apply Nat.ltb_ge in Ha, Hr. repeat wp1.
  - destruct HSPP as [Hw Hl]. case_match eqn:Hle.
    + split; [by apply Forall_drop|rewrite length_drop; lia].
    + split; [apply Forall_app; split; [by apply Forall_replicate|done]|].
      apply Nat.leb_gt in Hle. rewrite length_app, length_replicate. lia.
  - apply (HQ b); [done| |done|done]. split; vm; try done.
    fold a r. case_match eqn:Hle.
    + apply Nat.leb_le in Hle. rewrite length_drop. lia.
    + apply Nat.leb_gt in Hle. rewrite length_app, length_replicate. lia.
Qed.

Lemma next_on_path g0 st b :
  core g0 st → on_path (m_PC st) → m_code st !! Z.to_nat (m_PC st) = Some b →
  on_path (m_PC st + push_size (instruction_of b) + 1).
Proof.
  intros Hc Hpath Hb. destruct eo_code as [Hok _]. destruct (core_code_spec _ _ Hc) as (Hcok&_).
  pose proof (instruction_byte b (bytes_ok_lookup _ _ _ Hcok Hb)) as [Hps _].
  destruct (Z.lt_ge_cases (m_PC st) (len (ext_code env))) as [Hlt|]; [|left; lia].
  destruct Hpath as [|Hpath]; [lia|]. right.
  destruct (optimize_optimized _ Hok) as (_&_&_&Hcode&_).
  pose proof (boundary_nonneg _ Hok _ Hpath).
  destruct (lookup_lt_is_Some_2 (ext_code env) (Z.to_nat (m_PC st))) as [b0 Hb0];
    [unfold len in *; lia|].
  pose proof (boundary_next _ _ _ Hpath Hb0) as Hnext.
  pose proof (core_code _ _ Hc) as Heq. rewrite <-Heq in Hcode. simpl in Hcode.
  destruct (Hcode _ _ Hb0) as [(_&Hsyn&Hx)|[_ Hx]]; rewrite Hb in Hx; simplify_eq; [|done].
  enough (push_size (instruction_of b0) = 0) as Hz by by rewrite Hz in Hnext.
  by destruct (instruction_of b0).
Qed.
Lemma jump_on_path pc : pc ∈ (optimize (ext_code env)).2 → on_path pc.
Proof.
  destruct eo_code as [Hok _]. destruct (optimize_optimized _ Hok) as (_&_&Hd&_).
  intros [Hpc _]%Hd. by right.
Qed.

Lemma interpretCases_wp st :
  vm_ok st → m_bounce st = interpretCases_ →
  wp (m_io_gas st) (interpretCases env) (round_post st) st.
Proof.
  intros [Hc _ Hpath] Hb. destruct Hpath as [?|Hpath]; [congruence|].
  unfold interpretCases. wp1. apply fetch_wp; [done..|].
  intros b st1 Hbyte Hpre Hio HPCst. pose proof (next_on_path _ _ _ Hc Hpath Hbyte) as Hnext.
  rewrite <-Hio. wp1. wp1. rewrite <-HPCst in Hnext, Hpath. clear HPCst.
  pose proof (pre_OP _ _ Hpre) as HOP. rewrite HOP.
  apply wp_bind. eapply wp_mono; [by apply switch_wp|].
  intros flow st2 [Hc2 Hflow]. destruct eo_code as [_ Hlen].
  assert (rounds st = 2 * m_io_gas st1 + 2) as Hrounds by (unfold rounds; rewrite Hb, Hio; done).
  destruct (core_gas _ _ Hc2). destruct flow.
  - destruct Hflow as (Hlt&HPC&Hb2&Hne&Hps). rewrite HOP in Hne, Hps.
    destruct (pre_PC _ _ Hpre) as [|HPC1]; [done|]. destruct (core_PC _ _ (pre_core _ _ Hpre)).
    assert (u64 (m_PC st2 + 1) = m_PC st2 + 1) as Hu by (rewrite wrap_small; unfold in_word; lia).
    wp1; [rewrite Hu; lia|]. unfold round_post. split_and!.
    + split; [|vm; auto|vm; right; rewrite Hu, HPC; by rewrite Hps, Z.add_0_r in Hnext].
      vm. by eapply (core_shrink _ (with_PC _ _)).
    + vm. lia.
    + rewrite Hrounds. unfold rounds. vm. rewrite Hb2. lia.
  - destruct Hflow as (Hlt&Hb2&HPC2). rewrite HOP in HPC2. wp1. unfold round_post.
    split_and!; [|lia|].
    + split; [by eapply core_shrink|auto|]. right.
      destruct HPC2 as [Hj| ->]; [by apply jump_on_path|done].
    + rewrite Hrounds. unfold rounds. rewrite Hb2. lia.
  - wp1. unfold round_post. destruct Hflow as [Hb2|[Hcall Heq]]; split_and!; try lia.
    + split; [by eapply core_shrink|auto..].
    + rewrite Hrounds. unfold rounds. rewrite Hb2. lia.
    + assert (push_size (instruction_of b) = 0) as Hps.
      { rewrite HOP in Hcall.
        destruct Hcall as [[_ Hop]|[_ Hop]]; repeat (apply elem_of_cons in Hop as [-> |Hop]; [done|]);
          by apply elem_of_nil in Hop. }
      rewrite Hps, Z.add_0_r in Hnext.
      assert (m_PC st2 = m_PC st1) as HPC by (rewrite Heq; done).
      split; [by eapply core_shrink| |].
      * right. right. rewrite Heq. unfold ready. vm. split; [done|]. split; [done|].
        exists st1. by rewrite HOP.
      * right. by rewrite HPC.
    + rewrite Hrounds, Heq. unfold rounds. vm. destruct Hcall as [[-> _]|[-> _]]; lia.
Qed.

(** The end of [caseCreate] and [caseCall]: [++m_PC] *)
Lemma next_PC pc : 0 ≤ pc < len (ext_code env) → 0 ≤ u64 (pc + 1) ≤ len (ext_code env) + 32.
Proof. destruct eo_code. intros. rewrite wrap_small; unfold in_word; lia. Qed.
Lemma round_done g0 st0 st :
  core g0 st → m_bounce st = interpretCases_ → m_io_gas st < m_io_gas st0 →
  rounds st0 = 2 * m_io_gas st0 + 1 → on_path (m_PC st) → round_post st0 () st.
Proof.
  intros Hc Hb Hlt Hrounds Hpath. unfold round_post. split_and!; [|lia|].
  - split; [by eapply core_shrink|auto..].
  - rewrite Hrounds. unfold rounds. rewrite Hb. lia.
Qed.

(** What [ready] gives to [caseCreate] and [caseCall] *)
Lemma ready_pre st :
  ready st →
  ∃ st0, st = with_bounce (m_bounce st) st0 ∧ core (m_io_gas st0) st0 ∧
    rounds st = 2 * m_io_gas st0 + 1 ∧ m_copyMemSize st0 = 0 ∧ m_SPP st0 ≠ [] ∧
    0 ≤ m_PC st0 < len (ext_code env) ∧ on_path (u64 (m_PC st0 + 1)) ∧
    (args (instructionInfo (m_OP st0)) ≤ length (m_SP st0))%nat ∧ calls_out (m_OP st0) (m_bounce st).
Proof.
  intros (Hcall&Hpath&st0&Heq&Hpre). exists st0.
  destruct eo_code as [_ Hlen]. destruct (core_PC _ _ (pre_core _ _ Hpre)).
  assert (m_PC st0 = m_PC st) as HPC by (rewrite Heq at 1; done).
  assert (m_OP st0 = m_OP st) as HOP by (rewrite Heq at 1; done).
  assert (m_io_gas st0 = m_io_gas st) as Hio by (rewrite Heq at 1; done).
  assert (ret (instructionInfo (m_OP st)) = 1%nat ∧ m_OP st ≠ I_STOP) as [Hret Hstop].
  { destruct Hcall as [[_ Hop]|[_ Hop]]; repeat (apply elem_of_cons in Hop as [-> |Hop]; [done|]);
      by apply elem_of_nil in Hop. }
  split_and!; try done.
  - apply Hpre.
  - unfold rounds. rewrite Hio. destruct Hcall as [[-> _]|[-> _]]; done.
  - apply Hpre.
  - eapply pre_nonempty; [done|]. lia.
  - destruct (pre_PC _ _ Hpre); [done|lia].
  - destruct (pre_PC _ _ Hpre); [done|]. rewrite HPC, wrap_small; unfold in_word; (done || lia).
  - rewrite HOP. apply Hpre.
  - by rewrite HOP.
Qed.

Lemma caseCreate_wp st :
  vm_ok st → m_bounce st = caseCreate_ → wp (m_io_gas st) (caseCreate env) (round_post st) st.
Proof.
  intros [_ [?|[?|Hready]] _] Hb; [congruence..|].
  destruct (ready_pre _ Hready) as (st0&Heq&Hc0&Hrounds&Hcopy&HSPP&HPC&Hpath&Hargs&Hcall).
  rewrite Hb in *. destruct Hcall as [[_ Hop]|[? _]]; [|done]. clear Hready. subst st.
  pose proof (so_create _ sched_ok_env) as Hcreate.
  assert ((3 ≤ length (m_SP st0))%nat ∧
    (m_OP st0 = I_CREATE ∨ m_OP st0 = I_CREATE2 ∧ 4 ≤ length (m_SP st0))%nat) as [Hlen3 Hcases].
  { rewrite !elem_of_cons, elem_of_nil in Hop. destruct Hop as [Hop|[Hop|[]]];
      rewrite Hop in Hargs |- *; simpl in Hargs; split; auto; lia. }
  unfold caseCreate. repeat wp1.
  match goal with |- wp _ _ _ ?s =>
    apply (wp_mono _ _ (λ a s', s' = s ∧ word a.1.1 ∧ word a.1.2 ∧ word a.2)) end.
  { destruct Hcases as [->|[-> Hlen4]]; repeat wp1; by split_and!. }
  intros [[salt initOff] initSize] s' (->&Hwsalt&Hwo&Hws). simpl in Hwsalt, Hwo, Hws. repeat wp1.
  { exact buffer_ok_nil. }
  destruct (core_PC _ _ Hc0). match goal with |- wp _ (if ?b then _ else _) _ _ => destruct b eqn:Hguard end.
  - apply andb_prop in Hguard as [Hbal%Z.leb_le Hdepth%Z.ltb_lt].
    repeat wp1. eapply r_slice; [by apply Hin|done|]. intros initCode Hinit. vm.
    set (given := if staticCallDepthLimit sched then _ else _) in *.
    assert (0 ≤ given ≤ m_io_gas st0 - r) as Hgiven.
    { unfold given. destruct (staticCallDepthLimit sched); [lia|apply all_but_64; lia]. }
    destruct (r_gas64 _ _ Hc0).
    wp1. wp1; [done|apply Hpay; [done|]; destruct Hw; lia|done|lia|done|done|].
    destruct a0 as [[address out] gas']. simpl in He0, Hpay0. vm. cbn [fst snd].
    assert (u64 (u256 (m_io_gas st0 - r - u256 (given - gas'))) = m_io_gas st0 - r - (given - gas'))
      as Hleft by (rewrite (wrap_small 256 (given - gas')), (wrap_small 256), wrap_small;
                   unfold in_word; lia).
    repeat wp1; [rewrite Hleft; lia|by apply next_PC|].
    eapply round_done; [eassumption|done| |done|done]. vm. rewrite Hleft. lia.
  - repeat wp1; [by apply next_PC|]. eapply round_done; [eassumption|done| |done|done]. vm. lia.
Qed.

Lemma caseCall_wp st :
  vm_ok st → m_bounce st = caseCall_ → wp (m_io_gas st) (caseCall env) (round_post st) st.
Proof.
  intros [_ [?|[?|Hready]] _] Hb; [congruence..|].
  destruct (ready_pre _ Hready) as (st0&Heq&Hc0&Hrounds&Hcopy&HSPP&HPC&Hpath&Hargs&Hcall).
  rewrite Hb in *. destruct Hcall as [[? _]|[_ Hop]]; [done|]. clear Hready. subst st.
  destruct (r_gas64 _ _ Hc0). destruct (core_PC _ _ Hc0).
  unfold caseCall. repeat wp1; [apply buffer_ok_nil|].
  match goal with |- wp _ _ _ ?s => assert (m_io_gas st0 = m_io_gas s) as Hio by done end.
  eapply wp_mono; [rewrite Hio; apply caseCallSetup_wp; vm; try done; by solve_core|].
  intros setup st' (Hc'&Hb'&HPC'&HSPP'&Hg&Hgas&Hout). vm. clear Hio.
  assert (m_SPP st' ≠ []) as Hne by by rewrite HSPP'.
  apply wp_bind. apply (wp_mono _ _ (λ g s, core (m_io_gas st0) s ∧ m_bounce s = interpretCases_ ∧
    m_PC s = m_PC st0 ∧ m_io_gas s = m_io_gas st' ∧ 0 ≤ g ≤ gas (callParams setup))).
  { destruct (o_output setup) as [[off size]|]; [|repeat wp1; by split_and!].
    destruct Hout as (Hin&Hs&Hdepth&Hparams&Hpay). wp1. wp1; [done..|].
    destruct a as [[ok out] g]. simpl in He, Hpay0. destruct He as [Hobytes Holen].
    wp1. eapply r_write_mem; [eassumption| |by apply Forall_take|].
    { vm. cbn [fst snd].
      assert (0 ≤ len (take (Z.to_nat size) out) ≤ size) by (unfold len; rewrite length_take; lia).
      destruct Hin as [->|(?&?&?)]; [left; lia|right; lia]. }
    intros mem' Hmo' Hlen' Hcm. repeat wp1; [by split|]. split_and!; cbn [fst snd]; (done || lia). }
  intros g s (Hcs&Hbs&HPCs&Hios&Hgs).
  destruct (r_gas64 _ _ Hcs).
  assert (u64 (m_io_gas s + u64 g) = m_io_gas s + g) as Hleft
    by (rewrite (wrap_small 64 g), wrap_small; unfold in_word; lia).
  repeat wp1; [rewrite Hleft; lia|rewrite HPCs; by apply next_PC|].
  eapply round_done; [eassumption|done| |done|vm; by rewrite HPCs]. vm. rewrite Hleft. lia.
Qed.

Lemma round_wp st :
  vm_ok st → m_bounce st ≠ Stop →
  wp (m_io_gas st) (round env (m_bounce st)) (round_post st) st.
Proof.
  intros Hst Hne. destruct (m_bounce st) eqn:Hb; simpl.
  - destruct Hst as [_ [?|[?|[[[? _]|[? _]] _]]] _]; congruence.
  - by apply interpretCases_wp.
  - by apply caseCreate_wp.
  - by apply caseCall_wp.
  - done.
Qed.

Lemma rounds_nonneg st : vm_ok st → 0 ≤ rounds st.
Proof. intros [Hc _ _]. destruct (core_gas _ _ Hc). unfold rounds. case_match; lia. Qed.

Lemma trampoline_stop fuel st : m_bounce st = Stop → trampoline env fuel st = Some (st, Ok ()).
Proof. intros Hb. destruct fuel; simpl; by rewrite Hb. Qed.
Lemma trampoline_round fuel st :
  m_bounce st ≠ Stop →
  trampoline env (S fuel) st =
    match round env (m_bounce st) st with
    | (st', Ok _) => trampoline env fuel st'
    | (st', Err e) => Some (st', Err e)
    end.
Proof. intros Hb. simpl. by destruct (m_bounce st). Qed.

(** How a run may end: the output is a buffer, an exception is one of the
    machine. *)
Definition ends_well (r : result VMError bytes) : Prop :=
  match r with Ok output => buffer_ok output | Err e => exn_ok e end.

Lemma trampoline_ok fuel st :
  vm_ok st → rounds st ≤ Z.of_nat fuel →
  ∃ st' r, trampoline env fuel st = Some (st', r) ∧
    0 ≤ m_io_gas st' ≤ m_io_gas st ∧ ext_step x0 (m_ext st') ∧
    match r with Ok _ => buffer_ok (m_output st') | Err e => exn_ok e end.
Proof.
  revert st. induction fuel as [|fuel IH]; intros st Hst Hfuel.
  - pose proof (rounds_nonneg st Hst). pose proof (core_gas _ _ (vm_core _ Hst)) as Hgas.
    assert (m_bounce st = Stop) as Hb.
    { unfold rounds in *. destruct (m_bounce st); (done || lia). }
    exists st, (Ok ()). rewrite trampoline_stop by done. by destruct (vm_core _ Hst).
  - pose proof (core_gas _ _ (vm_core _ Hst)) as Hgas.
    assert (m_bounce st = Stop ∨ m_bounce st ≠ Stop) as [Hb|Hb]
      by (destruct (m_bounce st); (by left) || by right).
    { exists st, (Ok ()). rewrite trampoline_stop by done. by destruct (vm_core _ Hst). }
    rewrite trampoline_round by done.
    pose proof (round_wp st Hst Hb) as Hwp. unfold LegacyVMLogic.wp in Hwp.
    destruct (round env (m_bounce st) st) as [st1 [u|e]].
    + destruct Hwp as (Hst1&Hio&Hr). destruct (IH st1 Hst1 ltac:(lia)) as (st'&r&->&Hio'&Hrest).
      exists st', r. split; [done|]. split; [lia|done].
    + destruct Hwp as (Hne&Hio&Hstep). by exists st1, (Err e).
Qed.

Lemma initEntry_ok io_gas :
  ∃ st, initEntry env (initial io_gas x0) = (st, Ok ()) ∧ vm_ok st ∧
    m_bounce st = interpretCases_ ∧ m_io_gas st = u64 io_gas ∧ m_ext st = x0.
Proof.
  exists (with_code (optimize (ext_code env)).1 (optimize (ext_code env)).2
            (with_bounce interpretCases_ (initial io_gas x0))).
  split; [reflexivity|]. split; [|done].
  assert (0 ≤ len (ext_code env)) by (unfold len; lia).
  pose proof (wrap_in_word 64 io_gas ltac:(lia)) as [? ?]. pose proof mem_ok_nil.
  split; [|by left|right; right; constructor].
  change (m_io_gas _) with (u64 io_gas).
  split; vm; try done; try lia.
  - split; [constructor|simpl; lia].
  - split; [constructor|simpl; lia].
  - apply buffer_ok_nil.
  - apply buffer_ok_nil.
  - apply ext_step_refl, world_start.
  - by destruct (optimize (ext_code env)).
  - simpl. lia.
Qed.

(** The fuel that is enough *)
Definition exec_fuel (io_gas : Z) : nat := Z.to_nat (2 * u64 io_gas + 3).

Lemma exec_fuel_enough io_gas fuel :
  (exec_fuel io_gas ≤ fuel)%nat →
  ∃ st r, trampoline env fuel (initial io_gas x0) = Some (st, r) ∧
    0 ≤ m_io_gas st ≤ u64 io_gas ∧ ext_step x0 (m_ext st) ∧
    match r with Ok _ => buffer_ok (m_output st) | Err e => exn_ok e end.
Proof.
  intros Hfuel. destruct (initEntry_ok io_gas) as (st1&Hentry&Hok&Hb&Hgas&_).
  pose proof (wrap_in_word 64 io_gas ltac:(lia)) as [? ?].
  unfold exec_fuel in Hfuel. destruct fuel as [|fuel]; [lia|].
  rewrite trampoline_round by done. change (m_bounce (initial io_gas x0)) with initEntry_.
  unfold round. rewrite Hentry. rewrite <-Hgas. apply trampoline_ok; [done|].
  unfold rounds. rewrite Hb. lia.
Qed.

(** [exec] with enough fuel, for the code that runs a machine *)
Lemma exec_spec io_gas fuel :
  (exec_fuel io_gas ≤ fuel)%nat →
  ∃ gas' x' r, exec env fuel io_gas x0 = Some (gas', x', r) ∧
    0 ≤ gas' ≤ u64 io_gas ∧ ext_step x0 x' ∧ ends_well r.
Proof.
  intros Hfuel. destruct (exec_fuel_enough io_gas fuel Hfuel) as (st&r&Ht&Hgas&Hstep&Hr).
  unfold exec. rewrite Ht. do 3 eexists. split; [done|]. split; [done|]. split; [done|].
  by destruct r.
Qed.

(** The states between the rounds of the trampoline *)
Inductive reachable (io_gas : Z) : VM → Prop :=
| reachable_entry st :
    round env initEntry_ (initial io_gas x0) = (st, Ok ()) → reachable io_gas st
| reachable_round st st' :
    reachable io_gas st → m_bounce st ≠ Stop →
    round env (m_bounce st) st = (st', Ok ()) → reachable io_gas st'.

Lemma reachable_vm_ok io_gas st :
  reachable io_gas st → vm_ok st ∧ m_io_gas st ≤ u64 io_gas.
Proof.
  induction 1 as [st Hst|st st' Hst [Hok Hio] Hb Hround].
  - destruct (initEntry_ok io_gas) as (st1&Hentry&Hok&_&Hgas&_).
    simpl in Hst. rewrite Hst in Hentry. simplify_eq. split; [done|lia].
  - pose proof (round_wp st Hok Hb) as Hwp. unfold LegacyVMLogic.wp in Hwp. rewrite Hround in Hwp.
    destruct Hwp as (Hok'&Hio'&_). split; [done|lia].
Qed.

End Safety.
#[global] Arguments reachable {E EF} env x0 io_gas st.

(** ** The properties of the machine *)

(** C7. [exec] of any code on any good world returns: with [2 * gas + 3] rounds
    of the trampoline and more it gives a result, it never reads or writes
    outside the stack, the code, the memory or a buffer, the world never throws
    at it, and it leaves no more gas than it was given, a buffer as output and
    a world that the steps of its operations lead to. *)
Theorem exec_total `{EF : ExtVMFace E} (env : Env) `{EL : !ExtVMFaceLaws E env} io_gas (x : E) fuel :
  env_ok env → ext_ok x → (exec_fuel io_gas ≤ fuel)%nat →
  ∃ gas' x' r, exec env fuel io_gas x = Some (gas', x', r) ∧
    0 ≤ gas' ≤ u64 io_gas ∧ ext_step x x' ∧
    match r with
    | Ok output => buffer_ok output
    | Err (RevertInstruction output) => buffer_ok output
    | Err e => e ≠ Undefined ∧ e ≠ WorldException
    end.
Proof.
  intros EO WO Hfuel. destruct (exec_spec env (WO:=WO) io_gas fuel Hfuel) as (g&x'&r&He&Hg&Hs&Hr).
  exists g, x', r. split; [done|]. split; [done|]. split; [done|]. by destruct r as [|[]].
Qed.

(** C8. At every round of the trampoline the stack has at most 1024 items, all of
    them words, the memory consists of whole words of 32 bytes, the code and
    the jump table are those of [optimize], and the program counter is at the
    start of an instruction of the code or behind its end. *)
Theorem reachable_safe `{EF : ExtVMFace E} (env : Env) `{EL : !ExtVMFaceLaws E env} io_gas (x : E) st :
  env_ok env → ext_ok x → reachable env x io_gas st →
  stack_ok (m_SPP st) ∧ mem_ok (m_mem st) ∧
  (m_code st, m_jumpDests st) = optimize (ext_code env) ∧
  0 ≤ m_io_gas st ≤ u64 io_gas ∧
  (m_bounce st = Stop ∨ len (ext_code env) ≤ m_PC st ∨ boundary (ext_code env) (m_PC st)).
Proof.
  intros EO WO Hr. destruct (reachable_vm_ok env (WO:=WO) _ _ Hr) as [[Hc _ Hpath] Hio].
  pose proof (core_gas _ _ Hc). split_and!; try apply Hc; [lia|done].
Qed.

(** ** Witnesses *)

Lemma example_env_ok code : buffer_ok code → env_ok (example_env code).
Proof.
  intros Hcode. constructor; [|split; [|done]|done|apply Constantinople_ok].
  - rewrite !Forall_cons. by split_and!.
  - by apply bytes_okb_spec.
Qed.

(** PUSH1 2 PUSH1 3 EXP, and the first PUSH1 after its round *)
Lemma exec_total_witness :
  ∃ gas' x' r, exec (example_env [0x60; 2; 0x60; 3; 0x0a]) 300 100 ([] : list (Z * Z)) = Some (gas', x', r) ∧
    0 ≤ gas' ≤ 100 ∧ r ≠ Err Undefined.
Proof.
  destruct (exec_total (example_env [0x60; 2; 0x60; 3; 0x0a]) 100 ([] : list (Z * Z)) 300)
    as (g&x'&r&He&Hg&_&Hr).
  - apply example_env_ok. split; [by apply bytes_okb_spec|done].
  - exact I.
  - by apply leb_complete.
  - exists g, x', r. split; [exact He|]. split; [exact Hg|]. intros ->. exact (proj1 Hr eq_refl).
Defined.

Definition example_state : @VM (list (Z * Z)) :=
  mkVM 97 [] [] [] (0x60 :: 2 :: replicate 33 0) [] (I_PUSH 1) 2 [] [2] 3 0 0 [] interpretCases_.

Lemma reachable_safe_witness :
  reachable (example_env [0x60; 2]) [] 100 example_state ∧ stack_ok (m_SPP example_state).
Proof.
  assert (reachable (example_env [0x60; 2]) [] 100 example_state) as Hr.
  { apply (reachable_round _ _ (mkVM 100 [] [] [] (0x60 :: 2 :: replicate 33 0) [] I_STOP 0 [] []
                                    0 0 0 [] interpretCases_)).
    - by apply reachable_entry.
    - done.
    - reflexivity. }
  split; [exact Hr|].
  apply (reachable_safe (example_env [0x60; 2]) 100 ([] : list (Z * Z)) example_state).
  - apply example_env_ok. split; [by apply bytes_okb_spec|done].
  - exact I.
  - exact Hr.
Defined.

End LegacyVMExec.
