(* ===== verification/TransactionBase.v ===== *)
(** * Transactions (libwingcore/TransactionBase.h, TransactionBase.cpp,
    libwing/Transaction.h, Transaction.cpp, libdevcrypto/Common.h)

    The members of a transaction, its sender and the checks of its signature.
    The hash function and the recovery of a public key from a signature are
    the class [Crypto]. *)
From S2P Require Import Prelude CommonData RLP Instruction.

(** [SignatureStruct] *)
Record SignatureStruct := mkSignature { sig_r : Z; sig_s : Z; sig_v : Z }.

(** [sha3] of libdevcore and [recover] of libdevcrypto: 64 bytes, all 0 when
    there is no key. *)
Class Crypto := {
  tx_hash : bytes → Z;
  recover : SignatureStruct → Z → bytes;
}.

Module TransactionBase.
Import CommonData RLP Instruction.

(** [TransactionBase::Type] *)
Inductive Type_ := NullTransaction | ContractCreation | MessageCall.
#[export] Instance Type_eq_dec : EqDecision Type_.
Proof. solve_decision. Defined.

(** [enum class TransactionException] *)
Inductive TransactionException :=
| None_ | Unknown | BadRLP | InvalidFormat | OutOfGasIntrinsic | InvalidSignature_ | InvalidNonce_
| NotEnoughCash_ | OutOfGasBase | BlockGasLimitReached_ | BadInstruction_ | BadJumpDestination_
| OutOfGas_ | OutOfStack_ | StackUnderflow_ | RevertInstruction_ | InvalidZeroSignatureFormat
| AddressAlreadyUsed.
#[export] Instance TransactionException_eq_dec : EqDecision TransactionException.
Proof. solve_decision. Defined.

(** The exceptions of libwingcore/Exceptions.h that checking a transaction
    throws *)
Inductive TxError :=
| InvalidTransactionFormat | InvalidSignature | TransactionIsUnsigned | RLPException
| InvalidZeroSignatureTransaction | OutOfGasIntrinsicError | BlockGasLimitReached
| InvalidNonce | NotEnoughCash.
#[export] Instance TxError_eq_dec : EqDecision TxError.
Proof. solve_decision. Defined.

(** [toTransactionException] of these exceptions *)
Definition toTransactionException (e : TxError) : TransactionException :=
  match e with
  | RLPException => BadRLP
  | OutOfGasIntrinsicError => OutOfGasIntrinsic
  | InvalidSignature => InvalidSignature_
  | InvalidNonce => InvalidNonce_
  | NotEnoughCash => NotEnoughCash_
  | BlockGasLimitReached => BlockGasLimitReached_
  | InvalidTransactionFormat | TransactionIsUnsigned | InvalidZeroSignatureTransaction => Unknown
  end.

(** The members of class [TransactionBase]; [m_sender] is 0 when it is not
    known yet. *)
Record TransactionBase := mkTransaction {
  m_type : Type_;
  m_nonce : Z;
  m_value : Z;
  m_receiveAddress : Z;
  m_gasPrice : Z;
  m_gas : Z;
  m_data : bytes;
  m_vrs : option SignatureStruct;
  m_chainId : Z;
  m_sender : Z;
}.

(** [TransactionBase()] *)
Definition null : TransactionBase := mkTransaction NullTransaction 0 0 0 0 0 [] None (-4) 0.
(** [explicit operator bool] *)
Definition non_null (t : TransactionBase) : bool := negb (bool_decide (m_type t = NullTransaction)).
Definition isCreation (t : TransactionBase) : bool := bool_decide (m_type t = ContractCreation).
Definition forceSender (a : Z) (t : TransactionBase) : TransactionBase :=
  mkTransaction (m_type t) (m_nonce t) (m_value t) (m_receiveAddress t) (m_gasPrice t) (m_gas t)
    (m_data t) (m_vrs t) (m_chainId t) a.

(** [isZeroSignature], [hasZeroSignature], [hasSignature] *)
Definition isZeroSignature (r s : Z) : bool := (r =? 0) && (s =? 0).
Definition hasZeroSignature (t : TransactionBase) : bool :=
  match m_vrs t with Some v => isZeroSignature (sig_r v) (sig_s v) | None => false end.
Definition hasSignature (t : TransactionBase) : bool := if m_vrs t then true else false.
Definition isReplayProtected (t : TransactionBase) : bool := negb (m_chainId t =? -4).

(** [SignatureStruct::isValid] *)
Definition secp256k1n : Z :=
  115792089237316195423570985008687907852837564279074904382605163141518161494337.
Definition isValid (v : SignatureStruct) : bool :=
  (sig_v v <=? 1) && (0 <? sig_r v) && (0 <? sig_s v) && (sig_r v <? secp256k1n) &&
  (sig_s v <? secp256k1n).

Definition checkLowS (t : TransactionBase) : result TxError unit :=
  match m_vrs t with
  | None => Err TransactionIsUnsigned
  | Some v => throw_if (secp256k1n / 2 <? sig_s v) InvalidSignature
  end.
Definition checkChainId (chainId : Z) (t : TransactionBase) : result TxError unit :=
  throw_if (negb (m_chainId t =? chainId) && negb (m_chainId t =? -4)) InvalidSignature.

(** [baseGasRequired], with the wrap-around of [int64_t] left out: the data of
    a transaction is in memory. *)
Definition baseGasRequired_of (creation : bool) (data : bytes) (es : EVMSchedule) : Z :=
  fold_left (λ g i, g + (if negb (i =? 0) then txDataNonZeroGas es else txDataZeroGas es)) data
    (if creation then txCreateGas es else txGas es).
Definition baseGasRequired (t : TransactionBase) (es : EVMSchedule) : Z :=
  baseGasRequired_of (isCreation t) (m_data t) es.

(** [MaxAddress] *)
Definition MaxAddress : Z := 2 ^ 160 - 1.

(** ** Serialisation *)

(** An exception of the reader or the writer *)
Definition lift {A} (r : result RLPError A) : result TxError A :=
  match r with Ok a => Ok a | Err _ => Err RLPException end.
(** [operator<<] of an [int], which [append(unsigned)] takes *)
Definition append_unsigned (i : Z) (s : RLPStream) : result RLPError RLPStream := append_int (u32 i) s.
Definition append_u256 (i : Z) (s : RLPStream) : result RLPError RLPStream := append_int i s.

(** [streamRLP]; the hashes of the signature are written as numbers. *)
Definition streamRLP (t : TransactionBase) (sig forEip155hash : bool) (s : RLPStream)
    : result TxError RLPStream :=
  if bool_decide (m_type t = NullTransaction) then Ok s
  else
    s ← lift (s ← appendList ((if sig || forEip155hash then 3 else 0) + 6) s;
              s ← append_u256 (m_nonce t) s;
              s ← append_u256 (m_gasPrice t) s;
              s ← append_u256 (m_gas t) s;
              s ← (if bool_decide (m_type t = MessageCall)
                   then append_hash (toBigEndian_u160 (m_receiveAddress t)) false false s
                   else append [] false s);
              s ← append_u256 (m_value t) s;
              append (m_data t) false s);
    if sig then
      match m_vrs t with
      | None => Err TransactionIsUnsigned
      | Some v =>
        let i := if hasZeroSignature t then m_chainId t
                 else to_signed 32 (sig_v v + to_signed 32 (m_chainId t * 2 + 35)) in
        lift (s ← append_unsigned i s; s ← append_u256 (sig_r v) s; append_u256 (sig_s v) s)
      end
    else if forEip155hash then
      lift (s ← append_unsigned (m_chainId t) s; s ← append_unsigned 0 s; append_unsigned 0 s)
    else Ok s.

(** [rlp] *)
Definition rlp_of (t : TransactionBase) (sig : bool) : result TxError bytes :=
  s ← streamRLP t sig false empty_stream; lift (out s).

(** [sha3], the cache of the hash left out *)
Definition sha3_of `{Crypto} (t : TransactionBase) (sig : bool) : result TxError Z :=
  s ← streamRLP t sig ((0 <? m_chainId t) && negb sig) empty_stream;
  bs ← lift (out s);
  Ok (tx_hash bs).

(** [sender], whose result is kept in [m_sender] *)
Definition sender `{Crypto} (t : TransactionBase) : result TxError Z :=
  if negb (m_sender t =? 0) then Ok (m_sender t)
  else if hasZeroSignature t then Ok MaxAddress
  else
    match m_vrs t with
    | None => Err TransactionIsUnsigned
    | Some v =>
      h ← sha3_of t false;
      let p := recover v h in
      if forallb (Z.eqb 0) p then Err InvalidSignature else Ok (u160 (tx_hash p))
    end.
(** [safeSender] *)
Definition safeSender `{Crypto} (t : TransactionBase) : Z :=
  match sender t with Ok a => a | Err _ => 0 end.

Inductive CheckTransaction := Check_None | Cheap | CheckEverything.

(** [rlp[i]], with the reader's cache *)
Definition field (d : bytes) (i : Z) (c : Cache) : result TxError (Cache * bytes) :=
  match index d i c with (c, Ok b) => Ok (c, b) | (_, Err _) => Err RLPException end.

(** The constructor from RLP *)
Definition of_rlp `{Crypto} (d : bytes) (check : CheckTransaction) : result TxError TransactionBase :=
  d ← lift (construct VeryStrict d);
  _ ← throw_if (negb (isList d)) InvalidTransactionFormat;
  '(c, f) ← field d 0 new_cache; nonce ← lift (toInt_u256 Strict f);
  '(c, f) ← field d 1 c; gasPrice ← lift (toInt_u256 Strict f);
  '(c, f) ← field d 2 c; gas ← lift (toInt_u256 Strict f);
  '(c, f) ← field d 3 c;
  let type := if isEmpty f then ContractCreation else MessageCall in
  '(c, f) ← field d 3 c;
  '(c, receive) ← (if isEmpty f then Ok (c, 0)
                   else '(c, f) ← field d 3 c;
                        h ← lift (toHash 20 VeryStrict f); Ok (c, be_val h));
  '(c, f) ← field d 4 c; value ← lift (toInt_u256 Strict f);
  '(c, f) ← field d 5 c;
  _ ← throw_if (negb (isData f)) InvalidTransactionFormat;
  '(c, f) ← field d 5 c; data ← lift (toBytes LaissezFaire f);
  '(c, f) ← field d 6 c; v ← lift (toInt (to_signed 32) (Some 4) Strict f);
  '(c, f) ← field d 7 c; r ← lift (toInt_u256 Strict f);
  '(c, f) ← field d 8 c; s ← lift (toInt_u256 Strict f);
  let make vrs chain sender :=
    mkTransaction type nonce value receive gasPrice gas data (Some vrs) chain sender in
  t ← (if isZeroSignature r s then Ok (make (mkSignature r s 0) v 0)
       else
         chain ← (if 36 <? v then Ok ((v - 35) / 2)
                  else if (v =? 27) || (v =? 28) then Ok (-4)
                  else Err InvalidSignature);
         let vrs := mkSignature r s (u8 (v - (chain * 2 + 35))) in
         _ ← throw_if (match check with Check_None => false | _ => true end && negb (isValid vrs))
               InvalidSignature;
         Ok (make vrs chain 0));
  t ← (match check with
       | CheckEverything => a ← sender t; Ok (forceSender a t)
       | _ => Ok t
       end);
  match itemCount d with
  | Some (Ok n) => _ ← throw_if (9 <? n) InvalidTransactionFormat; Ok t
  | _ => Err RLPException
  end.

End TransactionBase.
