(* ===== verification/TransactionCodec.v ===== *)
(** * Transactions as bytes

    What [streamRLP] writes, the constructor from RLP reads back; the checks of
    the signature are the only reason to refuse it. *)
From S2P Require Import Prelude CommonData RLP RLPCodec RLPFields TransactionBase.

Module TransactionCodec.
Import CommonData RLP RLPCodec RLPFields TransactionBase.

(** ** The fields *)

(** The field of the receiver and the one that holds [v] or the chain *)
Definition to_field (t : TransactionBase) : item :=
  if bool_decide (m_type t = MessageCall) then Data (hash_bytes 20 (m_receiveAddress t)) else Data [].
Definition v_field (t : TransactionBase) (v : SignatureStruct) : Z :=
  u32 (if hasZeroSignature t then m_chainId t
       else to_signed 32 (sig_v v + to_signed 32 (m_chainId t * 2 + 35))).
Definition fields (t : TransactionBase) (v : SignatureStruct) : list item :=
  [num (m_nonce t); num (m_gasPrice t); num (m_gas t); to_field t; num (m_value t); Data (m_data t);
   num (v_field t v); num (sig_r v); num (sig_s v)].

(** A signed transaction: its chain is none ([-4]) or has a number, from 1 on
    when the signature says who the sender is; a contract is created at no
    address. *)
Record signed (t : TransactionBase) (v : SignatureStruct) : Prop := {
  sg_vrs : m_vrs t = Some v;
  sg_type : m_type t = MessageCall ∨ m_type t = ContractCreation ∧ m_receiveAddress t = 0;
  sg_words : Forall (in_word 256)
    [m_nonce t; m_gasPrice t; m_gas t; m_value t; sig_r v; sig_s v];
  sg_receive : in_word 160 (m_receiveAddress t);
  sg_data : bytes_ok (m_data t) ∧ size (m_data t) < 2 ^ 60;
  sg_chain :
    if isZeroSignature (sig_r v) (sig_s v) then 0 ≤ m_chainId t < 2 ^ 31 ∧ sig_v v = 0
    else 0 ≤ sig_v v ≤ 1 ∧ (m_chainId t = -4 ∨ 1 ≤ m_chainId t < 2 ^ 30 - 18);
}.

Section Codec.
Context (t : TransactionBase) (v : SignatureStruct) (S : signed t v).

(** What is written for [v] *)
Definition v_written : Z :=
  if isZeroSignature (sig_r v) (sig_s v) then m_chainId t else sig_v v + (m_chainId t * 2 + 35).
Lemma zero_sig : hasZeroSignature t = isZeroSignature (sig_r v) (sig_s v).
Proof. unfold hasZeroSignature. by rewrite (sg_vrs _ _ S). Qed.
Lemma v_field_spec : v_field t v = v_written ∧ 0 ≤ v_written < 2 ^ 31.
Proof.
  pose proof (sg_chain _ _ S) as Hc. unfold v_field, v_written. rewrite zero_sig.
  pose proof (λ z, to_signed_small 32 z ltac:(done)) as Hts. unfold in_word in Hts. change (32 - 1) with 31 in Hts. change (2 ^ 31) with 2147483648 in *.
  change (2 ^ 30) with 1073741824 in *.
  assert (∀ z, 0 ≤ z < 2147483648 → u32 z = z) as Hu.
  { intros z Hz. apply wrap_small. split; [lia|]. change (2 ^ 32) with 4294967296. lia. }
  destruct (isZeroSignature _ _); destruct Hc as [Hc1 Hc2].
  - rewrite Hu by lia. split; [reflexivity|lia].
  - rewrite (Hts (m_chainId t * 2 + 35)) by lia. rewrite Hts by lia. rewrite Hu by lia.
    split; [reflexivity|lia].
Qed.

Lemma fields_good : Forall field_good (fields t v).
Proof.
  pose proof (sg_words _ _ S) as Hw. rewrite !Forall_cons in Hw. destruct Hw as (?&?&?&?&?&?&_).
  destruct v_field_spec as [Hv Hvb]. destruct (sg_data _ _ S) as [Hd Hds].
  assert (∀ w z, in_word w z → 0 ≤ w < 2 ^ 32 → field_good (num z)) as Hnum.
  { intros w z Hz Hwz. by apply (num_good z w). }
  unfold fields. repeat (apply Forall_cons; split); try by apply (Hnum 256).
  - unfold to_field. destruct (bool_decide _); [|apply bytes_good; [by apply Forall_nil|reflexivity]].
    apply hash_good; [apply S|lia].
  - apply bytes_good; [done|]. eapply Z.lt_trans; [exact Hds|reflexivity].
  - rewrite Hv. apply (Hnum 31); [exact Hvb|done].
  - by apply Forall_nil.
Qed.
Lemma fields_small : size (concat (map encode (fields t v))) < 2 ^ 62.
Proof.
  assert (∀ z, in_word 256 z → size (encode (num z)) ≤ 100) as Hnum.
  { intros z Hz. pose proof (num_size z 256 Hz ltac:(done)). change (256 / 8) with 32 in *. lia. }
  pose proof (sg_words _ _ S) as Hw. rewrite !Forall_cons in Hw. destruct Hw as (H1&H2&H3&H4&H5&H6&_).
  destruct v_field_spec as [Hv Hvb]. destruct (sg_data _ _ S) as [Hd Hds].
  change (2 ^ 60) with 1152921504606846976 in *.
  destruct (encode_data_ok (m_data t) Hd) as [_ Hsd]; [lia|].
  assert (size (encode (to_field t)) ≤ 100) as Hto.
  { unfold to_field. destruct (bool_decide _); [|done].
    pose proof (hash_size 20 (m_receiveAddress t) (sg_receive _ _ S) ltac:(lia)). lia. }
  assert (size (encode (num (v_field t v))) ≤ 100) as Hvs.
  { apply Hnum. rewrite Hv. split; [lia|]. eapply Z.lt_trans; [apply Hvb|done]. }
  unfold fields. cbn [map concat]. rewrite !size_app, size_nil.
  pose proof (Hnum _ H1). pose proof (Hnum _ H2). pose proof (Hnum _ H3).
  pose proof (Hnum _ H4). pose proof (Hnum _ H5). pose proof (Hnum _ H6).
  change (2 ^ 62) with 4611686018427387904. lia.
Qed.

Lemma rlp_of_fields : rlp_of t true = Ok (encode (List (fields t v))).
Proof.
  destruct (fields_ok (fields t v)) as [Hok Hsz]; [apply fields_good|apply fields_small|].
  pose proof (write_fields (fields t v) Hok Hsz) as Hw.
  pose proof (sg_words _ _ S) as Hn. rewrite !Forall_cons in Hn.
  destruct Hn as (Hn1&Hn2&Hn3&Hn4&Hn5&Hn6&_). destruct v_field_spec as [Hv Hvb].
  assert (∀ i s, in_word 256 i → append_int i s = write (num i) s) as Hnum.
  { intros i s Hi. by apply (write_word 256). }
  unfold rlp_of, streamRLP, append_u256, append_unsigned.
  assert (bool_decide (m_type t = NullTransaction) = false) as ->.
  { apply bool_decide_eq_false. destruct (sg_type _ _ S) as [-> | [-> _]]; discriminate. }
  rewrite (sg_vrs _ _ S). fold (v_field t v). cbn [orb].
  change (3 + 6) with (Z.of_nat (length (fields t v))).
  destruct (appendList _ _) as [s0|]; [|done]. cbn [mbind result_bind] in *.
  unfold fields in Hw at 1. cbn [foldM mbind result_bind] in Hw.
  assert (∀ s, (if bool_decide (m_type t = MessageCall)
                then append_hash (toBigEndian_u160 (m_receiveAddress t)) false false s
                else append [] false s) = write (to_field t) s) as Hto.
  { intros s. unfold to_field. by destruct (bool_decide _). }
  rewrite (Hnum (m_nonce t)) by done. step_write Hw. rewrite (Hnum (m_gasPrice t)) by done.
  step_write Hw. rewrite (Hnum (m_gas t)) by done. step_write Hw. rewrite Hto. step_write Hw.
  rewrite (Hnum (m_value t)) by done. step_write Hw. change (append (m_data t) false) with (write (Data (m_data t))).
  step_write Hw. cbn [lift mbind result_bind]. rewrite (write_word 31 (v_field t v)) by (rewrite ?Hv; done). step_write Hw.
  rewrite (Hnum (sig_r v)) by done. step_write Hw. rewrite (Hnum (sig_s v)) by done. step_write Hw.
  cbn [lift mbind result_bind]. by rewrite Hw.
Qed.
(** Reading: the fields one after the other *)
Notation d := (encode (List (fields t v))).
Lemma field_at i x c :
  fields t v !! i = Some x → cache_ok (map encode (fields t v)) c →
  ∃ c', field d (Z.of_nat i) c = Ok (c', encode x) ∧ cache_ok (map encode (fields t v)) c'.
Proof.
  intros Hx Hc. destruct (fields_index _ fields_good fields_small i x c Hx Hc) as (c'&Hi&Hc').
  exists c'. split; [|done]. unfold field. by rewrite Hi.
Qed.
Lemma num_reads z : in_word 256 z → lift (toInt_u256 Strict (encode (num z))) = Ok z.
Proof. intros Hz. by rewrite toInt_u256_num. Qed.
Lemma v_reads : lift (toInt (to_signed 32) (Some 4) Strict (encode (num (v_field t v)))) = Ok v_written.
Proof.
  destruct v_field_spec as [-> Hv]. rewrite toInt_num; [done| |lia| |].
  - apply (num_good _ 31); [exact Hv|done].
  - destruct (num_good v_written 31) as [_ Hb]; [exact Hv|done|]. exact Hb.
  - intros w Hw. apply to_signed_small; [done|]. split; [lia|]. change (32 - 1) with 31. lia.
Qed.
Lemma to_reads :
  isEmpty (encode (to_field t)) = negb (bool_decide (m_type t = MessageCall)) ∧
  (m_type t = MessageCall →
   lift (toHash 20 VeryStrict (encode (to_field t))) = Ok (hash_bytes 20 (m_receiveAddress t))).
Proof.
  unfold to_field. destruct (hash_bytes_spec 20 (m_receiveAddress t)) as (Hok&Hl&_); [apply S|].
  case_bool_decide; [|done]. split.
  - apply isEmpty_hash. unfold size. rewrite Hl. lia.
  - intros _. rewrite toHash_data; [done| |].
    + apply hash_good; [apply S|lia].
    + unfold size. by rewrite Hl.
Qed.

(** What the signature decides *)
Definition sig_refused (check : CheckTransaction) : bool :=
  negb (isZeroSignature (sig_r v) (sig_s v)) &&
  (match check with Check_None => false | _ => true end && negb (isValid v)).
Lemma chain_read :
  isZeroSignature (sig_r v) (sig_s v) = false →
  (if 36 <? v_written then Ok ((v_written - 35) / 2)
   else if (v_written =? 27) || (v_written =? 28) then Ok (-4) else Err InvalidSignature)
  = Ok (m_chainId t) ∧
  u8 (v_written - (m_chainId t * 2 + 35)) = sig_v v.
Proof.
  intros Hz. pose proof (sg_chain _ _ S) as Hc. unfold v_written. rewrite Hz in *.
  destruct Hc as [Hsv Hc]. split.
  - destruct Hc as [-> |Hc].
    + assert (sig_v v = 0 ∨ sig_v v = 1) as [-> | ->] by lia; reflexivity.
    + destruct (Z.ltb_spec 36 (sig_v v + (m_chainId t * 2 + 35))); [|lia]. f_equal.
      assert (sig_v v = 0 ∨ sig_v v = 1) as [-> | ->] by lia.
      * symmetry. apply Z.div_unique with 0; lia.
      * symmetry. apply Z.div_unique with 1; lia.
  - replace (_ - _) with (sig_v v) by lia. apply wrap_small. split; [lia|].
    change (2 ^ 8) with 256. lia.
Qed.

Context `{Crypto}.
Definition read_result (check : CheckTransaction) : result TxError TransactionBase :=
  if sig_refused check then Err InvalidSignature
  else match check with
       | CheckEverything => a ← sender (forceSender 0 t); Ok (forceSender a t)
       | _ => Ok (forceSender 0 t)
       end.
Ltac read_field n Hc :=
  let c := fresh "c" in let E := fresh "E" in let Hc' := fresh "Hc" in
  destruct (field_at n _ _ eq_refl Hc) as (c&E&Hc');
  let k := eval compute in (Z.of_nat n) in change (Z.of_nat n) with k in E;
  rewrite E; clear E Hc; rename Hc' into Hc; cbn [mbind result_bind].
Lemma of_rlp_fields check : of_rlp d check = read_result check.
Proof.
  unfold of_rlp. rewrite (fields_construct _ fields_good fields_small). cbn [lift mbind result_bind].
  rewrite (fields_isList _ fields_good fields_small). cbn [negb throw_if mbind result_bind].
  pose proof (sg_words _ _ S) as Hn. rewrite !Forall_cons in Hn.
  destruct Hn as (Hn1&Hn2&Hn3&Hn4&Hn5&Hn6&_). destruct to_reads as [Hto1 Hto2].
  pose proof (cache_new (map encode (fields t v))) as Hc.
  read_field 0%nat Hc. rewrite num_reads by exact Hn1. cbn [mbind result_bind].
  read_field 1%nat Hc. rewrite num_reads by exact Hn2. cbn [mbind result_bind].
  read_field 2%nat Hc. rewrite num_reads by exact Hn3. cbn [mbind result_bind].
  read_field 3%nat Hc. read_field 3%nat Hc. rewrite Hto1.
  match goal with |- context [if ?x then Ok (?c, 0) else ?b] =>
    assert (∃ c', (if x then Ok (c, 0) else b) = Ok (c', m_receiveAddress t) ∧
                  cache_ok (map encode (fields t v)) c') as (c'&->&Hc')
  end.
  { case_bool_decide as Ht; cbn [negb].
    - specialize (Hto2 Ht). read_field 3%nat Hc. rewrite Hto2. cbn [mbind result_bind].
      eexists. split; [|exact Hc]. by destruct (hash_bytes_spec 20 (m_receiveAddress t)) as (_&_&->); [apply S|].
    - exists c3. split; [|exact Hc]. by destruct (sg_type _ _ S) as [?|[_ ->]]. }
  clear Hc. rename Hc' into Hc. cbn [mbind result_bind].
  read_field 4%nat Hc. rewrite num_reads by exact Hn4. cbn [mbind result_bind].
  destruct (sg_data _ _ S) as [Hd Hds].
  assert (field_good (Data (m_data t))) as Hdg.
  { apply bytes_good; [exact Hd|]. eapply Z.lt_trans; [exact Hds|reflexivity]. }
  read_field 5%nat Hc. rewrite isData_data by exact Hdg. cbn [negb throw_if mbind result_bind].
  read_field 5%nat Hc. rewrite toBytes_data by exact Hdg. cbn [lift mbind result_bind].
  read_field 6%nat Hc. rewrite v_reads. cbn [mbind result_bind].
  read_field 7%nat Hc. rewrite num_reads by exact Hn5. cbn [mbind result_bind].
  read_field 8%nat Hc. rewrite num_reads by exact Hn6. cbn [mbind result_bind].
  rewrite (fields_count _ fields_good fields_small).
  change (throw_if (9 <? Z.of_nat (length (fields t v))) InvalidTransactionFormat) with (@Ok TxError unit ()).
  unfold read_result, sig_refused, forceSender.
  assert ((if negb (bool_decide (m_type t = MessageCall)) then ContractCreation else MessageCall) = m_type t)
    as ->.
  { destruct (sg_type _ _ S) as [-> | [-> _]]; reflexivity. }
  rewrite (sg_vrs _ _ S). pose proof (sg_chain _ _ S) as Hch. unfold v_written in *.
  assert (∀ w, sig_v v = w → mkSignature (sig_r v) (sig_s v) w = v) as Hsig by (by intros w <-; destruct v).
  destruct (isZeroSignature _ _) eqn:Hz; cbn [negb andb mbind result_bind].
  - destruct Hch as [_ Hv0]. rewrite (Hsig 0 Hv0). destruct check; [reflexivity..|]. by destruct (sender _).
  - destruct (chain_read Hz) as [Hch1 Hu]. unfold v_written in Hch1, Hu. rewrite Hz in Hch1, Hu.
    rewrite Hch1. cbn [mbind result_bind]. rewrite Hu, (Hsig (sig_v v) eq_refl).
    destruct (_ && _); [reflexivity|]. cbn [throw_if mbind result_bind].
    destruct check; [reflexivity..|]. by destruct (sender _).
Qed.
End Codec.

(** C23. A transaction that is signed is written, and read back as it was written:
    the sender is the only member that is not kept, and is computed again when
    everything is checked; an impossible signature is the only reason to refuse
    what was written, unless the sender cannot be recovered. *)
Theorem tx_roundtrip `{Crypto} t v check :
  signed t v →
  ∃ d, rlp_of t true = Ok d ∧
    of_rlp d check =
      if sig_refused v check then Err InvalidSignature
      else match check with
           | CheckEverything => a ← sender (forceSender 0 t); Ok (forceSender a t)
           | _ => Ok (forceSender 0 t)
           end.
Proof.
  intros S. exists (encode (List (fields t v))).
  split; [by apply rlp_of_fields|by apply of_rlp_fields].
Qed.
(** A key that signs, and two transactions on chain 1: a call and a contract;
    the key is found, and is then the sender. *)
Definition one_key : Crypto := {| tx_hash := λ bs, size bs; recover := λ _ _, [1] |}.
Definition sig_1 : SignatureStruct := mkSignature 5 6 1.
Definition call_1 : TransactionBase :=
  mkTransaction MessageCall 1 300 (2 ^ 159 + 3) 20 21000 [] (Some sig_1) 1 0.
Definition create_1 : TransactionBase :=
  mkTransaction ContractCreation 1 300 0 20 90000 [96; 0; 129] (Some sig_1) (-4) 0.
Ltac words := repeat (apply Forall_cons; split; [split; [discriminate|reflexivity]|]); by apply Forall_nil.
Lemma call_1_signed : signed call_1 sig_1.
Proof.
  constructor; [reflexivity|by left|words|split; [discriminate|reflexivity]|split; [words|reflexivity]|].
  split; [split; discriminate|]. right. split; [discriminate|reflexivity].
Defined.
Lemma create_1_signed : signed create_1 sig_1.
Proof.
  constructor; [reflexivity|by right|words|split; [discriminate|reflexivity]|split; [words|reflexivity]|].
  split; [split; discriminate|by left].
Defined.

Lemma tx_roundtrip_witness :
  (∃ d, rlp_of call_1 true = Ok d ∧
     @of_rlp one_key d CheckEverything = Ok (forceSender 1 call_1)) ∧
  (∃ d, rlp_of create_1 true = Ok d ∧ @of_rlp one_key d Cheap = Ok create_1).
Proof.
  split.
  - destruct (@tx_roundtrip one_key call_1 sig_1 CheckEverything call_1_signed) as (d&Hw&Hr).
    exists d. split; [exact Hw|]. rewrite Hr. vm_compute. reflexivity.
  - destruct (@tx_roundtrip one_key create_1 sig_1 Cheap create_1_signed) as (d&Hw&Hr).
    exists d. split; [exact Hw|]. rewrite Hr. vm_compute. reflexivity.
Defined.

(** A transaction for chain 0: its [v] is 35 or 36, which is no chain to the
    reader. *)
Definition call_0 : TransactionBase :=
  mkTransaction MessageCall 1 300 (2 ^ 159 + 3) 20 21000 [] (Some sig_1) 0 0.
Example chain_0_refused :
  match rlp_of call_0 true with
  | Ok d => @of_rlp one_key d Check_None = Err InvalidSignature
  | Err _ => False
  end.
Proof. vm_compute. reflexivity. Qed.
(** The empty list is read as no receiver. *)
Example list_as_receiver :
  @of_rlp one_key [0xc9; 1; 2; 3; 0xc0; 4; 5; 27; 6; 7] Check_None =
  Ok (mkTransaction ContractCreation 1 4 0 2 3 [5] (Some (mkSignature 6 7 0)) (-4) 0).
Proof. vm_compute. reflexivity. Qed.

End TransactionCodec.
