(* ===== verification/Receipt.v ===== *)
(** * Receipts, log entries and filters (libwingcore/LogEntry.h, LogEntry.cpp,
    libwing/TransactionReceipt.h, TransactionReceipt.cpp, LogFilter.h,
    LogFilter.cpp, and the bloom filters of libdevcore/FixedHash.h)

    The events that a transaction leaves, the receipt that holds them, their
    bloom filter, and the search for them. *)
From S2P Require Import Prelude CommonData RLP RLPCodec RLPFields TransactionBase.

(** [LogEntry] *)
Record LogEntry := mkLog { log_address : Z; log_topics : list Z; log_data : bytes }.
#[export] Instance LogEntry_eq_dec : EqDecision LogEntry.
Proof. solve_decision. Defined.

Module Receipt.
Import CommonData RLP RLPFields TransactionBase(append_unsigned, append_u256).

(** The variant of a status code and a state root, and [TransactionReceipt] *)
Inductive StatusOrRoot := StatusCode (s : Z) | StateRoot (r : Z).
Record TransactionReceipt := mkReceipt {
  m_statusCodeOrStateRoot : StatusOrRoot;
  m_gasUsed : Z;
  m_bloom : Z;
  m_log : list LogEntry;
}.

(** The exceptions of reading and asking a receipt, the assertion of a log
    entry, and undefined behaviour of a filter *)
Inductive ReceiptError :=
| InvalidTransactionReceiptFormat | TransactionReceiptVersionError | ReceiptRLP | AssertionFailed
| OutOfRange.
#[export] Instance ReceiptError_eq_dec : EqDecision ReceiptError.
Proof. solve_decision. Defined.

Definition hasStatusCode (r : TransactionReceipt) : bool :=
  match m_statusCodeOrStateRoot r with StatusCode _ => true | StateRoot _ => false end.
Definition statusCode (r : TransactionReceipt) : result ReceiptError Z :=
  match m_statusCodeOrStateRoot r with StatusCode s => Ok s | StateRoot _ => Err TransactionReceiptVersionError end.
Definition stateRoot (r : TransactionReceipt) : result ReceiptError Z :=
  match m_statusCodeOrStateRoot r with StatusCode _ => Err TransactionReceiptVersionError | StateRoot s => Ok s end.

(** ** Bloom filters *)

(** [bloomPart<3>] of a hash, into 256 bytes: bit [index % 8] of byte
    [255 - index / 8] is bit [index] of the number. *)
Definition c_bloomBits : Z := 256 * 8.
Definition c_mask : Z := c_bloomBits - 1.
Definition bloom_index (b0 b1 : Z) : Z :=
  Z.land (Z.lor (Z.shiftl (Z.lor (Z.shiftl 0 8) b0) 8) b1) c_mask.
Fixpoint bloomPart_loop (P : nat) (p : bytes) (ret : Z) : Z :=
  match P, p with
  | S P, b0 :: b1 :: p => bloomPart_loop P p (Z.lor ret (Z.shiftl 1 (bloom_index b0 b1)))
  | _, _ => ret
  end.
Definition bloomPart (h : Z) : Z := bloomPart_loop 3 (hash_bytes 32 h) 0.
(** [shiftBloom<3>], [containsBloom<3>], [contains] *)
Definition shiftBloom (h b : Z) : Z := Z.lor b (bloomPart h).
Definition contains (b c : Z) : bool := Z.land b c =? c.
Definition containsBloom (h b : Z) : bool := contains b (bloomPart h).

Section Hashes.
Context `{Crypto}.

(** [sha3] of an address and of a topic *)
Definition sha3_address (a : Z) : Z := tx_hash (hash_bytes 20 a).
Definition sha3_topic (t : Z) : Z := tx_hash (hash_bytes 32 t).
(** [LogEntry::bloom] and [bloom] of many entries *)
Definition entry_bloom (l : LogEntry) : Z :=
  fold_left (λ ret t, shiftBloom (sha3_topic t) ret) (log_topics l)
    (shiftBloom (sha3_address (log_address l)) 0).
Definition bloom (ls : list LogEntry) : Z := fold_left (λ ret l, Z.lor ret (entry_bloom l)) ls 0.

(** The constructor from a root or a status *)
Definition make (sr : StatusOrRoot) (gasUsed : Z) (log : list LogEntry) : TransactionReceipt :=
  mkReceipt sr gasUsed (bloom log) log.

(** ** Bytes *)

(** [LogEntry::streamRLP]; a vector is written with [appendVector]. *)
Definition appendVector_hash (v : list Z) (s : RLPStream) : result RLPError RLPStream :=
  s ← appendList (Z.of_nat (length v)) s;
  foldM (λ s t, append_hash (hash_bytes 32 t) false false s) s v.
Definition log_streamRLP (l : LogEntry) (s : RLPStream) : result RLPError RLPStream :=
  s ← appendList 3 s;
  s ← append_hash (hash_bytes 20 (log_address l)) false false s;
  s ← appendVector_hash (log_topics l) s;
  append (log_data l) false s.
(** [TransactionReceipt::streamRLP] and [rlp] *)
Definition streamRLP (r : TransactionReceipt) (s : RLPStream) : result RLPError RLPStream :=
  s ← appendList 4 s;
  s ← match m_statusCodeOrStateRoot r with
      | StatusCode c => append_unsigned c s
      | StateRoot h => append_hash (hash_bytes 32 h) false false s
      end;
  s ← append_u256 (m_gasUsed r) s;
  s ← append_hash (hash_bytes 256 (m_bloom r)) false false s;
  s ← appendList (Z.of_nat (length (m_log r))) s;
  foldM (λ s l, log_streamRLP l s) s (m_log r).
Definition rlp (r : TransactionReceipt) : result ReceiptError bytes :=
  match (s ← streamRLP r empty_stream; out s) with Ok d => Ok d | Err _ => Err ReceiptRLP end.

Definition read_error {A} (r : result RLPError A) : result ReceiptError A :=
  match r with Ok a => Ok a | Err _ => Err ReceiptRLP end.
(** [r[i]] with the reader's cache *)
Definition rfield (d : bytes) (i : Z) (c : Cache) : result ReceiptError (Cache * bytes) :=
  match index d i c with (c, Ok b) => Ok (c, b) | (_, Err _) => Err ReceiptRLP end.
(** [for (auto const& i: d)]; the items of a list are fewer than its bytes. *)
Definition for_items (d : bytes) : result ReceiptError (list bytes) :=
  match toList (S (length d)) LaissezFaire d with Some (Ok l) => Ok l | _ => Err ReceiptRLP end.
(** [toVector<h256>] *)
Definition toVector_hash (flags : Z) (d : bytes) : result ReceiptError (list Z) :=
  if isList d then
    items ← for_items d;
    foldM (λ v i, h ← read_error (toHash 32 flags i); Ok (v ++ [be_val h])) [] items
  else if has flags ThrowOnFail then Err ReceiptRLP else Ok [].
Definition count_is (d : bytes) (n : Z) : result ReceiptError bool :=
  match itemCount d with Some (Ok m) => Ok (m =? n) | _ => Err ReceiptRLP end.
(** [LogEntry(RLP)] *)
Definition log_of_rlp (d : bytes) : result ReceiptError LogEntry :=
  three ← count_is d 3;
  _ ← throw_if (negb three) AssertionFailed;
  '(c, f) ← rfield d 0 new_cache; address ← read_error (toHash 20 Strict f);
  '(c, f) ← rfield d 1 c; topics ← toVector_hash LaissezFaire f;
  '(c, f) ← rfield d 2 c; data ← read_error (toBytes LaissezFaire f);
  Ok (mkLog (be_val address) topics data).
(** [RLP::size] *)
Definition data_size (d : bytes) : result RLPError Z := if isData d then length_ d else Ok 0.
(** The constructor of a receipt from RLP; [f] is the first item. *)
Definition read_status (d f : bytes) (c : Cache) : result ReceiptError (Cache * StatusOrRoot) :=
  _ ← throw_if (negb (isData f)) InvalidTransactionReceiptFormat;
  '(c, f) ← rfield d 0 c;
  n ← read_error (data_size f);
  if n =? 32 then
    '(c, f) ← rfield d 0 c; h ← read_error (toHash 32 Strict f); Ok (c, StateRoot (be_val h))
  else
    '(c, f) ← rfield d 0 c; int ← read_error (isInt f);
    if int : bool then
      '(c, f) ← rfield d 0 c;
      s ← read_error (toInt u8 (Some 1) Strict f); Ok (c, StatusCode s)
    else Err InvalidTransactionReceiptFormat.
Definition of_rlp (d : bytes) : result ReceiptError TransactionReceipt :=
  d ← read_error (construct VeryStrict d);
  four ← (if isList d then count_is d 4 else Ok false);
  _ ← throw_if (negb four) InvalidTransactionReceiptFormat;
  '(c, f) ← rfield d 0 new_cache;
  '(c, sr) ← read_status d f c;
  '(c, f) ← rfield d 1 c; gasUsed ← read_error (toInt_u256 Strict f);
  '(c, f) ← rfield d 2 c; bloom ← read_error (toHash 256 Strict f);
  '(c, f) ← rfield d 3 c;
  items ← for_items f;
  log ← foldM (λ log i, l ← log_of_rlp i; Ok (log ++ [l])) [] items;
  Ok (mkReceipt sr gasUsed (be_val bloom) log).

(** ** Filters *)

(** [LogFilter]: a set is the list of its members in the order of iteration;
    there are four sets of topics. *)
Record LogFilter := mkFilter {
  m_addresses : list Z;
  m_topics : list (list Z);
  m_earliest : Z;
  m_latest : Z;
}.
Definition insert_set (x : Z) (l : list Z) : list Z := if bool_decide (x ∈ l) then l else l ++ [x].
Definition address (a : Z) (f : LogFilter) : LogFilter :=
  mkFilter (insert_set a (m_addresses f)) (m_topics f) (m_earliest f) (m_latest f).
Definition topic (index : Z) (t : Z) (f : LogFilter) : LogFilter :=
  if index <? 4
  then mkFilter (m_addresses f) (alter (insert_set t) (Z.to_nat index) (m_topics f)) (m_earliest f) (m_latest f)
  else f.
Definition withEarliest (e : Z) (f : LogFilter) : LogFilter := mkFilter (m_addresses f) (m_topics f) e (m_latest f).
Definition withLatest (e : Z) (f : LogFilter) : LogFilter := mkFilter (m_addresses f) (m_topics f) (m_earliest f) e.

Definition isRangeFilter (f : LogFilter) : bool :=
  match m_addresses f with
  | [] => forallb (λ t, match t with [] => true | _ => false end) (m_topics f)
  | _ => false
  end.
(** [matches] of a bloom filter *)
Definition matches_bloom (f : LogFilter) (b : Z) : bool :=
  match m_addresses f with
  | [] => true
  | l => existsb (λ i, containsBloom (sha3_address i) b) l
  end &&
  forallb (λ t, match t with
                | [] => true
                | _ => existsb (λ i, containsBloom (sha3_topic i) b) t
                end) (m_topics f).
(** [bloomPossibilities] *)
Definition topics_bloom (b : Z) (t : list Z) : Z := fold_left (λ b j, shiftBloom (sha3_topic j) b) t b.
Definition bloomPossibilities (f : LogFilter) : list Z :=
  let some_topics := List.filter (λ t, match t with [] => false | _ => true end) (m_topics f) in
  let ret := flat_map (λ i, map (topics_bloom (shiftBloom (sha3_address i) 0)) some_topics) (m_addresses f) in
  let ret := match ret with
             | [] => map (λ i, shiftBloom (sha3_address i) 0) (m_addresses f)
             | _ => ret
             end in
  match m_addresses f with
  | [] => ret ++ map (topics_bloom 0) some_topics
  | _ => ret
  end.

(** [matches] of a receipt: the topic behind the last one is read. *)
Fixpoint topics_match (ts : list (list Z)) (i : nat) (e : LogEntry) : result ReceiptError bool :=
  match ts with
  | [] => Ok true
  | [] :: ts => topics_match ts (S i) e
  | t :: ts =>
    if (length (log_topics e) <? i)%nat then Ok false
    else
      match log_topics e !! i with
      | None => Err OutOfRange
      | Some x => if bool_decide (x ∈ t) then topics_match ts (S i) e else Ok false
      end
  end.
Definition entry_match (f : LogFilter) (e : LogEntry) : result ReceiptError bool :=
  if match m_addresses f with [] => false | l => negb (bool_decide (log_address e ∈ l)) end then Ok false
  else topics_match (m_topics f) 0 e.
Definition matches (f : LogFilter) (m : TransactionReceipt) : result ReceiptError (list LogEntry) :=
  if isRangeFilter f then Ok (m_log m)
  else if matches_bloom f (m_bloom m) then
    foldM (λ ret e, b ← entry_match f e; Ok (if b : bool then ret ++ [e] else ret)) [] (m_log m)
  else Ok [].

End Hashes.
End Receipt.
