(* ===== verification/ReceiptSpec.v ===== *)
(** * Receipts as bytes, and the search for log entries

    A receipt is read back as it was written; the bloom filter never hides an
    entry that a filter asks for. *)
From S2P Require Import Prelude CommonData RLP RLPCodec RLPFields TransactionBase Receipt.

Module ReceiptSpec.
Import CommonData RLP RLPCodec RLPFields TransactionBase(append_unsigned, append_u256) Receipt.

(** ** Receipts as items *)

Definition topics_item (ts : list Z) : item := List (map (λ t, Data (hash_bytes 32 t)) ts).
Definition log_item (l : LogEntry) : item :=
  List [Data (hash_bytes 20 (log_address l)); topics_item (log_topics l); Data (log_data l)].
Definition status_item (sr : StatusOrRoot) : item :=
  match sr with StatusCode c => num c | StateRoot h => Data (hash_bytes 32 h) end.
Definition receipt_fields (r : TransactionReceipt) : list item :=
  [status_item (m_statusCodeOrStateRoot r); num (m_gasUsed r); Data (hash_bytes 256 (m_bloom r));
   List (map log_item (m_log r))].

Record log_ok (l : LogEntry) : Prop := {
  lo_address : in_word 160 (log_address l);
  lo_topics : Forall (in_word 256) (log_topics l) ∧ Z.of_nat (length (log_topics l)) < 2 ^ 32;
  lo_data : bytes_ok (log_data l) ∧ size (log_data l) < 2 ^ 48;
}.
Record receipt_ok (r : TransactionReceipt) : Prop := {
  ro_status : match m_statusCodeOrStateRoot r with StatusCode c => in_word 8 c | StateRoot h => in_word 256 h end;
  ro_gas : in_word 256 (m_gasUsed r);
  ro_bloom : in_word 2048 (m_bloom r);
  ro_log : Forall log_ok (m_log r) ∧ Z.of_nat (length (m_log r)) < 2 ^ 10;
}.

(** ** Writing *)

Lemma foldM_map {E A B C} (f : C → B → result E C) (g : A → B) l c :
  foldM f c (map g l) = foldM (λ c a, f c (g a)) c l.
Proof.
  revert c. induction l as [|a l IH]; intros c; [done|]. cbn [map foldM].
  destruct (f c (g a)); [apply IH|done].
Qed.
Lemma foldM_cong {E A B} (f g : B → A → result E B) l b :
  (∀ b a, f b a = g b a) → foldM f b l = foldM g b l.
Proof.
  intros Hfg. revert b. induction l as [|a l IH]; intros b; [done|]. cbn [foldM]. rewrite Hfg.
  destruct (g b a); [apply IH|done].
Qed.
Lemma write_log l s : log_streamRLP l s = write (log_item l) s.
Proof.
  unfold log_streamRLP, log_item. cbn [write length]. apply bind_cong; [done|intros s1]. cbn [foldM].
  apply bind_cong; [apply write_hash|intros s2]. apply bind_cong; [|intros s3; symmetry; apply bind_id].
  unfold appendVector_hash, topics_item. cbn [write]. rewrite length_map.
  apply bind_cong; [done|intros s4]. rewrite foldM_map. reflexivity.
Qed.
Lemma write_receipt r s : receipt_ok r → streamRLP r s = write (List (receipt_fields r)) s.
Proof.
  intros [Hst Hg _ _]. unfold streamRLP, receipt_fields. cbn [write length].
  apply bind_cong; [done|intros s1]. cbn [foldM]. apply bind_cong; [|intros s2].
  { destruct (m_statusCodeOrStateRoot r) as [c|h]; [|apply write_hash]. unfold append_unsigned.
    rewrite wrap_small by (split; [apply Hst|eapply Z.lt_trans; [apply Hst|done]]).
    by apply (write_word 8). }
  apply bind_cong; [by apply (write_word 256)|intros s3]. apply bind_cong; [apply write_hash|intros s4].
  rewrite bind_id. cbn [write]. rewrite length_map. apply bind_cong; [done|intros s5]. rewrite foldM_map. apply foldM_cong.
  intros. apply write_log.
Qed.

(** ** Sizes *)

Lemma topics_good ts :
  Forall (in_word 256) ts → Z.of_nat (length ts) < 2 ^ 32 →
  Forall field_good (map (λ t, Data (hash_bytes 32 t)) ts) ∧
  size (concat (map encode (map (λ t, Data (hash_bytes 32 t)) ts))) ≤ 2 ^ 32 * 41.
Proof.
  intros Hts Hl. split.
  - apply Forall_map. eapply Forall_impl; [exact Hts|]. intros t Ht. apply hash_good; [exact Ht|lia].
  - transitivity (Z.of_nat (length (map (λ t, Data (hash_bytes 32 t)) ts)) * 41).
    + apply fields_size, Forall_map. eapply Forall_impl; [exact Hts|]. intros t Ht.
      apply (hash_size 32 t Ht). lia.
    + rewrite length_map. lia.
Qed.
(** An item that is a list of good fields *)
Lemma list_good ts :
  Forall field_good ts → size (concat (map encode ts)) < 2 ^ 61 →
  field_good (List ts) ∧ size (encode (List ts)) ≤ 9 + size (concat (map encode ts)).
Proof.
  intros Hg Hs. change (2 ^ 61) with 2305843009213693952 in Hs.
  destruct (encode_list_ok ts) as [Hok Hsz].
  - eapply Forall_impl; [exact Hg|]. by intros t [? _].
  - change (2 ^ 63) with 9223372036854775808. lia.
  - split; [split; [done|]|done]. change (2 ^ 62) with 4611686018427387904. lia.
Qed.
Lemma log_good l : log_ok l →
  Forall field_good [Data (hash_bytes 20 (log_address l)); topics_item (log_topics l); Data (log_data l)] ∧
  size (concat (map encode [Data (hash_bytes 20 (log_address l)); topics_item (log_topics l); Data (log_data l)]))
    < 2 ^ 49.
Proof.
  intros [Ha [Ht Htl] [Hd Hds]]. destruct (topics_good _ Ht Htl) as [Hg Hs].
  change (2 ^ 32) with 4294967296 in *. change (2 ^ 48) with 281474976710656 in *.
  change (2 ^ 49) with 562949953421312. 
  destruct (list_good _ Hg) as [Htg Hts]; [change (2 ^ 61) with 2305843009213693952; lia|].
  pose proof (hash_size 20 (log_address l) Ha ltac:(lia)) as Hhs.
  destruct (encode_data_ok (log_data l) Hd) as [_ Hes]; [change (2 ^ 63) with 9223372036854775808; lia|].
  split.
  - repeat (apply Forall_cons; split); [apply hash_good; [exact Ha|lia]|exact Htg| |by apply Forall_nil].
    apply bytes_good; [done|]. change (2 ^ 61) with 2305843009213693952. lia.
  - cbn [map concat]. rewrite !size_app, size_nil. unfold topics_item. lia.
Qed.
Lemma logs_good ls : Forall log_ok ls → Z.of_nat (length ls) < 2 ^ 10 →
  Forall field_good (map log_item ls) ∧ size (concat (map encode (map log_item ls))) < 2 ^ 60.
Proof.
  intros Hls Hl. change (2 ^ 10) with 1024 in Hl.
  assert (Forall (λ l, field_good (log_item l) ∧ size (encode (log_item l)) ≤ 562949953421321) ls) as Hall.
  { eapply Forall_impl; [exact Hls|]. intros l Hok. destruct (log_good l Hok) as [Hg Hs].
    change (2 ^ 49) with 562949953421312 in Hs. destruct (list_good _ Hg) as [Hlg Hlsz].
    - change (2 ^ 61) with 2305843009213693952. lia.
    - split; [exact Hlg|]. unfold log_item. lia. }
  split.
  - apply Forall_map. eapply Forall_impl; [exact Hall|]. by intros l [? _].
  - eapply Z.le_lt_trans.
    + apply fields_size with (n := 562949953421321). apply Forall_map. eapply Forall_impl; [exact Hall|].
      by intros l [_ ?].
    + rewrite length_map. change (2 ^ 60) with 1152921504606846976. lia.
Qed.
Lemma receipt_good r : receipt_ok r →
  Forall field_good (receipt_fields r) ∧ size (concat (map encode (receipt_fields r))) < 2 ^ 62.
Proof.
  intros [Hst Hg Hb [Hl Hll]]. destruct (logs_good _ Hl Hll) as [Hlg Hls].
  change (2 ^ 60) with 1152921504606846976 in Hls.
  destruct (list_good _ Hlg) as [Hig His]; [change (2 ^ 61) with 2305843009213693952; lia|].
  assert (field_good (status_item (m_statusCodeOrStateRoot r)) ∧
          size (encode (status_item (m_statusCodeOrStateRoot r))) ≤ 41) as [Hsg Hss].
  { destruct (m_statusCodeOrStateRoot r) as [c|h]; cbn [status_item].
    - destruct (num_good c 8 Hst) as [? _]; [done|]. split; [done|].
      pose proof (num_size c 8 Hst ltac:(done)). change (8 / 8) with 1 in *. lia.
    - split; [apply hash_good; [exact Hst|lia]|]. apply (hash_size 32 h Hst). lia. }
  pose proof (num_size (m_gasUsed r) 256 Hg ltac:(done)) as Hgs. change (256 / 8) with 32 in Hgs.
  pose proof (hash_size 256 (m_bloom r) Hb ltac:(lia)) as Hbs.
  split.
  - repeat (apply Forall_cons; split); [exact Hsg|by apply (num_good _ 256)|apply hash_good; [exact Hb|lia]|
      exact Hig|by apply Forall_nil].
  - unfold receipt_fields. cbn [map concat]. rewrite !size_app, size_nil.
    change (2 ^ 62) with 4611686018427387904. cbn [map] in His. lia.
Qed.

(** ** Reading *)

Section Read.
Context (L : list item) (Hgood : Forall field_good L) (Hsmall : size (concat (map encode L)) < 2 ^ 62).
Lemma rfield_at i x c :
  L !! i = Some x → cache_ok (map encode L) c →
  ∃ c', rfield (encode (List L)) (Z.of_nat i) c = Ok (c', encode x) ∧ cache_ok (map encode L) c'.
Proof.
  intros Hx Hc. destruct (fields_index L Hgood Hsmall i x c Hx Hc) as (c'&Hi&Hc').
  exists c'. split; [|done]. unfold rfield. by rewrite Hi.
Qed.
Lemma for_items_read : for_items (encode (List L)) = Ok (map encode L).
Proof.
  unfold for_items. rewrite (fields_toList L Hgood Hsmall); [done|].
  cbn [encode]. unfold size. rewrite length_app. lia.
Qed.
Lemma count_read n : count_is (encode (List L)) n = Ok (Z.of_nat (length L) =? n).
Proof. unfold count_is. by rewrite (fields_count L Hgood Hsmall). Qed.
End Read.

Lemma small_62 z : z < 2 ^ 49 ∨ z < 2 ^ 60 → z < 2 ^ 62.
Proof. change (2 ^ 49) with 562949953421312. change (2 ^ 60) with 1152921504606846976.
  change (2 ^ 62) with 4611686018427387904. lia. Qed.
Lemma foldM_push {A B} (F : list B → A → result ReceiptError (list B)) l bs acc :
  Forall2 (λ a b, ∀ acc, F acc a = Ok (acc ++ [b])) l bs → foldM F acc l = Ok (acc ++ bs).
Proof.
  intros Hl. revert acc. induction Hl as [|a b l bs Ha _ IH]; intros acc; cbn [foldM].
  - by rewrite app_nil_r.
  - rewrite Ha. cbn [mbind result_bind]. rewrite IH. by rewrite <-app_assoc.
Qed.
Lemma read_hash_data n m flags z :
  Z.of_nat n = m → (n < 1000)%nat → in_word (8 * m) z →
  read_error (toHash m flags (encode (Data (hash_bytes n z)))) = Ok (hash_bytes n z) ∧
  be_val (hash_bytes n z) = z.
Proof.
  intros <- Hn Hz. destruct (hash_bytes_spec n z Hz) as (_&Hl&Hv). split; [|exact Hv].
  rewrite toHash_data; [done|by apply hash_good|unfold size; by rewrite Hl].
Qed.
Lemma read_topics ts :
  Forall (in_word 256) ts → Z.of_nat (length ts) < 2 ^ 32 →
  toVector_hash LaissezFaire (encode (topics_item ts)) = Ok ts.
Proof.
  intros Hts Hl. destruct (topics_good ts Hts Hl) as [Hg Hs]. change (2 ^ 32) with 4294967296 in Hs.
  assert (size (concat (map encode (map (λ t, Data (hash_bytes 32 t)) ts))) < 2 ^ 62) as Hs'.
  { change (2 ^ 62) with 4611686018427387904. lia. }
  unfold toVector_hash, topics_item. rewrite (fields_isList _ Hg Hs').
  apply (bind_Ok_intro _ _ _ _ (for_items_read _ Hg Hs')). cbv beta.
  apply (foldM_push _ _ ts []). rewrite map_map. clear -Hts.
  induction Hts as [|t ts Ht _ IH]; [constructor|]. constructor; [|exact IH]. intros acc.
  destruct (read_hash_data 32 32 LaissezFaire t eq_refl ltac:(lia) Ht) as [Hr Hv].
  apply (bind_Ok_intro _ _ _ _ Hr). by rewrite Hv.
Qed.
Lemma read_log l : log_ok l → log_of_rlp (encode (log_item l)) = Ok l.
Proof.
  intros Hok. destruct (log_good l Hok) as [Hg Hs]. pose proof (small_62 _ (or_introl Hs)) as Hs'.
  destruct Hok as [Ha [Ht Htl] [Hd Hds]]. unfold log_of_rlp, log_item.
  rewrite (count_read _ Hg Hs'). cbn [mbind result_bind length]. change (Z.of_nat 3 =? 3) with true.
  cbn [negb throw_if mbind result_bind].
  destruct (rfield_at _ Hg Hs' 0 (Data (hash_bytes 20 (log_address l))) _ eq_refl (cache_new _)) as (c0&E0&H0).
  change (Z.of_nat 0) with 0 in E0. apply (bind_Ok_intro _ _ _ _ E0). cbv beta iota.
  destruct (read_hash_data 20 20 Strict (log_address l) eq_refl ltac:(lia) Ha) as [Hr Hv].
  apply (bind_Ok_intro _ _ _ _ Hr). cbv beta.
  destruct (rfield_at _ Hg Hs' 1 (topics_item (log_topics l)) _ eq_refl H0) as (c1&E1&H1).
  change (Z.of_nat 1) with 1 in E1. apply (bind_Ok_intro _ _ _ _ E1). cbv beta iota.
  apply (bind_Ok_intro _ _ _ _ (read_topics _ Ht Htl)). cbv beta.
  destruct (rfield_at _ Hg Hs' 2 (Data (log_data l)) _ eq_refl H1) as (c2&E2&H2).
  change (Z.of_nat 2) with 2 in E2. apply (bind_Ok_intro _ _ _ _ E2). cbv beta iota.
  apply (bind_Ok_intro _ _ (log_data l)).
  - rewrite toBytes_data; [done|]. apply bytes_good; [done|]. eapply Z.lt_trans; [exact Hds|done].
  - rewrite Hv. by destruct l.
Qed.
Lemma read_status_ok sr c L (Hg : Forall field_good L) (Hs : size (concat (map encode L)) < 2 ^ 62) :
  L !! 0%nat = Some (status_item sr) → cache_ok (map encode L) c →
  match sr with StatusCode c => in_word 8 c | StateRoot h => in_word 256 h end →
  ∃ c', cache_ok (map encode L) c' ∧
    read_status (encode (List L)) (encode (status_item sr)) c = Ok (c', sr).
Proof.
  intros H0 Hc Hsr. unfold read_status.
  assert (field_good (status_item sr)) as Hsg.
  { rewrite Forall_lookup in Hg. by apply (Hg 0%nat). }
  assert (∃ bs, status_item sr = Data bs) as [bs Hbs] by (destruct sr; by eexists).
  rewrite Hbs in Hsg |- *. rewrite (isData_data bs Hsg). cbn [negb throw_if mbind result_bind].
  assert (∀ c, cache_ok (map encode L) c → ∃ c', rfield (encode (List L)) 0 c = Ok (c', encode (Data bs)) ∧
    cache_ok (map encode L) c') as Hat.
  { intros k Hk. rewrite Hbs in H0. exact (rfield_at L Hg Hs 0 _ k H0 Hk). }
  destruct (Hat c Hc) as (c1&E1&H1). rewrite E1. cbn [mbind result_bind].
  assert (data_size (encode (Data bs)) = Ok (size bs)) as ->.
  { unfold data_size. rewrite isData_data by done. by apply length_data. }
  cbn [read_error mbind result_bind].
  destruct (Hat c1 H1) as (c2&E2&H2). destruct sr as [k|h]; cbn [status_item] in Hbs.
  - assert (size bs ≤ 1) as Hsz.
    { injection Hbs as <-. destruct Hsr as [Hk0 Hk]. unfold size. rewrite length_toCompactBigEndian.
      destruct (bytesRequired_spec k Hk0) as (n&->&_&Hge). destruct (decide (n = 0%nat)) as [->|Hn]; [done|].
      specialize (Hge ltac:(lia)). assert (256 ^ (Z.of_nat n - 1) < 256 ^ 1) as Hlt.
      { eapply Z.le_lt_trans; [exact Hge|done]. }
      apply Z.pow_lt_mono_r_iff in Hlt; lia. }
    destruct (Z.eqb_spec (size bs) 32); [lia|]. rewrite E2. cbn [mbind result_bind].
    injection Hbs as <-. change (Data (toCompactBigEndian k 0)) with (num k) in *. rewrite (isInt_num k Hsg) by apply Hsr. cbn [read_error mbind result_bind].
    destruct (Hat c2 H2) as (c3&E3&H3). rewrite E3. cbn [mbind result_bind].
    exists c3. split; [exact H3|]. 
    assert (bytesRequired k ≤ 1) as Hb.
    { unfold size in Hsz. rewrite length_toCompactBigEndian in Hsz.
      destruct (bytesRequired_spec k) as (m&Hm&_); [apply Hsr|]. rewrite Hm in *. lia. }
    rewrite (toInt_num u8 1 k Hsg) by (first [apply Hsr | exact Hb |
      intros v [? ?]; apply wrap_small; split; [done|]; eapply Z.le_lt_trans; [done|apply Hsr]]).
    reflexivity.
  - injection Hbs as <-. destruct (hash_bytes_spec 32 h Hsr) as (_&Hl&_). unfold size at 1. rewrite Hl.
    change (Z.of_nat 32 =? 32) with true. cbv iota. rewrite E2. cbn [mbind result_bind].
    destruct (read_hash_data 32 32 Strict h eq_refl ltac:(lia) Hsr) as [Hr Hv]. rewrite Hr.
    cbn [mbind result_bind]. rewrite Hv. exists c2. split; [exact H2|reflexivity].
Qed.
Lemma of_rlp_receipt r : receipt_ok r → of_rlp (encode (List (receipt_fields r))) = Ok r.
Proof.
  intros R. destruct (receipt_good r R) as [Hg Hs]. destruct R as [Hst Hgas Hb [Hl Hll]].
  destruct (logs_good _ Hl Hll) as [Hlg Hls].
  unfold of_rlp. rewrite (fields_construct _ Hg Hs). cbn [read_error mbind result_bind].
  rewrite (fields_isList _ Hg Hs), (count_read _ Hg Hs). cbn [mbind result_bind].
  change (Z.of_nat (length (receipt_fields r)) =? 4) with true. cbn [negb throw_if mbind result_bind].
  destruct (rfield_at _ Hg Hs 0 (status_item (m_statusCodeOrStateRoot r)) _ eq_refl (cache_new _)) as (c0&E0&H0).
  change (Z.of_nat 0) with 0 in E0. apply (bind_Ok_intro _ _ _ _ E0). cbv beta iota.
  destruct (read_status_ok (m_statusCodeOrStateRoot r) c0 _ Hg Hs eq_refl H0 Hst) as (c1&H1&E1).
  apply (bind_Ok_intro _ _ _ _ E1). cbv beta iota.
  destruct (rfield_at _ Hg Hs 1 (num (m_gasUsed r)) _ eq_refl H1) as (c2&E2&H2).
  change (Z.of_nat 1) with 1 in E2. apply (bind_Ok_intro _ _ _ _ E2). cbv beta iota.
  apply (bind_Ok_intro _ _ (m_gasUsed r)); [by rewrite toInt_u256_num|]. cbv beta.
  destruct (rfield_at _ Hg Hs 2 (Data (hash_bytes 256 (m_bloom r))) _ eq_refl H2) as (c3&E3&H3).
  change (Z.of_nat 2) with 2 in E3. apply (bind_Ok_intro _ _ _ _ E3). cbv beta iota.
  destruct (read_hash_data 256 256 Strict (m_bloom r) eq_refl ltac:(lia) Hb) as [Hr Hv].
  apply (bind_Ok_intro _ _ _ _ Hr). cbv beta.
  destruct (rfield_at _ Hg Hs 3 (List (map log_item (m_log r))) _ eq_refl H3) as (c4&E4&H4).
  change (Z.of_nat 3) with 3 in E4. apply (bind_Ok_intro _ _ _ _ E4). cbv beta iota.
  apply (bind_Ok_intro _ _ _ _ (for_items_read _ Hlg (small_62 _ (or_intror Hls)))). cbv beta.
  apply (bind_Ok_intro _ _ (m_log r)).
  - apply (foldM_push _ _ (m_log r) []). rewrite map_map. clear -Hl.
    induction Hl as [|l ls Hok _ IH]; [constructor|]. constructor; [|exact IH]. intros acc.
    by rewrite (read_log l Hok).
  - rewrite Hv. by destruct r.
Qed.

(** C25. A receipt is read back as it was written, with its bloom filter and all its
    log entries. *)
Theorem receipt_roundtrip r :
  receipt_ok r → ∃ d, rlp r = Ok d ∧ of_rlp d = Ok r.
Proof.
  intros R. exists (encode (List (receipt_fields r))). split; [|by apply of_rlp_receipt].
  destruct (receipt_good r R) as [Hg Hs]. destruct (fields_ok _ Hg Hs) as [Hok Hsz].
  unfold rlp. rewrite write_receipt by done.
  assert ((s ← write (List (receipt_fields r)) empty_stream; out s) = Ok (encode (List (receipt_fields r)))) as ->.
  { by rewrite write_spec. }
  reflexivity.
Qed.

(** ** Bloom filters *)

Lemma contains_lor_l b c x : contains b c = true → contains (Z.lor b x) c = true.
Proof.
  unfold contains. rewrite !Z.eqb_eq. intros Hc. rewrite Z.land_lor_distr_l, Hc.
  apply Z.bits_inj'. intros n _. rewrite Z.lor_spec, Z.land_spec. by destruct (Z.testbit c n), (Z.testbit x n).
Qed.
Lemma contains_lor_r b c x : contains x c = true → contains (Z.lor b x) c = true.
Proof. rewrite Z.lor_comm. apply contains_lor_l. Qed.
Lemma contains_refl c : contains c c = true.
Proof. unfold contains. by rewrite Z.land_diag, Z.eqb_refl. Qed.
Lemma contains_lor b c d : contains b c = true → contains b d = true → contains b (Z.lor c d) = true.
Proof.
  unfold contains. rewrite !Z.eqb_eq. intros Hc Hd. by rewrite Z.land_lor_distr_r, Hc, Hd.
Qed.
Lemma contains_0 b : contains b 0 = true.
Proof. unfold contains. by rewrite Z.land_0_r. Qed.

Section Filter.
Context `{Crypto}.

(** A fold that adds bits keeps what is there, and has what it adds. *)
Lemma fold_keeps {A} (g : A → Z) (l : list A) b c :
  contains b c = true → contains (fold_left (λ ret a, Z.lor ret (g a)) l b) c = true.
Proof.
  revert b. induction l as [|a l IH]; intros b Hb; [done|]. cbn [fold_left]. apply IH, contains_lor_l, Hb.
Qed.
Lemma fold_has {A} (g : A → Z) (l : list A) b c a :
  a ∈ l → contains (g a) c = true → contains (fold_left (λ ret a, Z.lor ret (g a)) l b) c = true.
Proof.
  intros Ha Hc. revert b. induction Ha as [l|a a' l _ IH]; intros b; cbn [fold_left].
  - apply fold_keeps, contains_lor_r, Hc.
  - by apply IH.
Qed.
Lemma bloom_address ls e :
  e ∈ ls → contains (bloom ls) (bloomPart (sha3_address (log_address e))) = true.
Proof.
  intros He. apply (fold_has entry_bloom ls 0 _ e He). unfold entry_bloom, shiftBloom.
  apply (fold_keeps (λ t, bloomPart (sha3_topic t))). apply contains_lor_r, contains_refl.
Qed.
Lemma bloom_topic ls e t :
  e ∈ ls → t ∈ log_topics e → contains (bloom ls) (bloomPart (sha3_topic t)) = true.
Proof.
  intros He Ht. apply (fold_has entry_bloom ls 0 _ e He). unfold entry_bloom, shiftBloom.
  apply (fold_has (λ t, bloomPart (sha3_topic t)) _ _ _ t Ht), contains_refl.
Qed.

(** ** What a filter asks for *)

(** One of the addresses, if there are any, and at each index one of the
    topics, if there are any *)
Definition topic_wanted (e : LogEntry) (i : nat) (t : list Z) : bool :=
  match t with
  | [] => true
  | _ => match log_topics e !! i with Some x => bool_decide (x ∈ t) | None => false end
  end.
Definition wanted (f : LogFilter) (e : LogEntry) : bool :=
  match m_addresses f with [] => true | l => bool_decide (log_address e ∈ l) end &&
  forallb id (imap (topic_wanted e) (m_topics f)).
(** The filter does not ask for the topic just behind the last one of the entry. *)
Definition in_range (f : LogFilter) (e : LogEntry) : Prop :=
  match m_topics f !! length (log_topics e) with Some (_ :: _) => False | _ => True end.

Lemma topics_match_spec e ts i :
  match ts !! (length (log_topics e) - i)%nat with
  | Some (_ :: _) => (length (log_topics e) < i)%nat
  | _ => True
  end →
  topics_match ts i e = Ok (forallb id (imap (λ j, topic_wanted e (i + j)) ts)).
Proof.
  revert i. induction ts as [|t ts IH]; intros i Hr; [done|].
  cbn [topics_match imap forallb]. rewrite Nat.add_0_r.
  rewrite (imap_ext ((λ j, topic_wanted e (i + j)) ∘ S) (λ j, topic_wanted e (S i + j))).
  2: { intros j x _. cbn. by rewrite Nat.add_succ_r. }
  assert (match ts !! (length (log_topics e) - S i)%nat with
          | Some (_ :: _) => (length (log_topics e) < S i)%nat | _ => True end) as Hr'.
  { destruct (le_lt_dec (S i) (length (log_topics e))) as [Hle|Hlt].
    - replace (length (log_topics e) - i)%nat with (S (length (log_topics e) - S i)) in Hr by lia.
      cbn [lookup list_lookup] in Hr. destruct (ts !! _) as [[|? ?]|]; [done|lia|done].
    - destruct (ts !! _) as [[|? ?]|]; [done|lia|done]. }
  specialize (IH (S i) Hr'). destruct t as [|x t]; cbn [topic_wanted id andb].
  - exact IH.
  - destruct (Nat.ltb_spec (length (log_topics e)) i) as [Hlt|Hge].
    + by rewrite lookup_ge_None_2 by lia.
    + destruct (log_topics e !! i) as [y|] eqn:Hy.
      * case_bool_decide; [exact IH|done].
      * apply lookup_ge_None in Hy. replace (length (log_topics e) - i)%nat with 0%nat in Hr by lia.
        cbn in Hr. lia.
Qed.
Lemma entry_match_spec f e : in_range f e → entry_match f e = Ok (wanted f e).
Proof.
  intros Hr. unfold entry_match, wanted. 
  assert (topics_match (m_topics f) 0 e = Ok (forallb id (imap (topic_wanted e) (m_topics f)))) as Ht.
  { apply (topics_match_spec e (m_topics f) 0). rewrite Nat.sub_0_r. unfold in_range in Hr.
    by destruct (m_topics f !! length (log_topics e)) as [[|? ?]|]. }
  destruct (m_addresses f) as [|a l]; [exact Ht|]. by destruct (bool_decide _).
Qed.
Lemma wanted_topics f e i t :
  wanted f e = true → m_topics f !! i = Some t → t ≠ [] →
  ∃ x, log_topics e !! i = Some x ∧ x ∈ t.
Proof.
  intros [_ Hw]%andb_true_iff Ht Hne. rewrite forallb_forall in Hw.
  specialize (Hw (topic_wanted e i t)). unfold id in Hw. 
  assert (topic_wanted e i t = true) as Htw.
  { apply Hw, list_elem_of_In, list_elem_of_lookup. exists i. by rewrite list_lookup_imap, Ht. }
  unfold topic_wanted in Htw. destruct t as [|y t]; [done|]. destruct (log_topics e !! i) as [x|]; [|done].
  exists x. split; [done|]. by apply bool_decide_eq_true in Htw.
Qed.

(** The bloom filter of a log that holds a wanted entry matches. *)
Lemma matches_bloom_complete f ls e : e ∈ ls → wanted f e = true → matches_bloom f (bloom ls) = true.
Proof.
  intros He Hw. unfold matches_bloom. apply andb_true_iff. split.
  - pose proof Hw as [Ha _]%andb_true_iff. destruct (m_addresses f) as [|a l]; [done|].
    apply bool_decide_eq_true in Ha. apply existsb_exists. exists (log_address e).
    split; [by apply list_elem_of_In|by apply bloom_address].
  - apply forallb_forall. intros t Ht%list_elem_of_In. destruct t as [|y t]; [done|].
    apply list_elem_of_lookup in Ht as [i Hi].
    destruct (wanted_topics f e i _ Hw Hi) as (x&Hx&Hxt); [done|]. apply existsb_exists. exists x.
    split; [by apply list_elem_of_In|]. apply (bloom_topic ls e); [done|]. by eapply list_elem_of_lookup_2.
Qed.

(** A filter with nothing to ask for wants every entry. *)
Lemma range_filter_wanted f e : isRangeFilter f = true → wanted f e = true.
Proof.
  unfold isRangeFilter, wanted. destruct (m_addresses f); [|done]. cbn [andb].
  intros Hr. apply forallb_forall. intros b Hb%list_elem_of_In. apply list_elem_of_lookup in Hb as [i Hi].
  rewrite list_lookup_imap in Hi. destruct (m_topics f !! i) as [t|] eqn:Ht; [|done].
  injection Hi as <-. rewrite forallb_forall in Hr. specialize (Hr t).
  rewrite <-list_elem_of_In in Hr. destruct t; [done|]. discriminate Hr. by eapply list_elem_of_lookup_2.
Qed.
Lemma filter_loop f ls acc :
  Forall (in_range f) ls →
  foldM (λ ret e, b ← entry_match f e; Ok (if b : bool then ret ++ [e] else ret)) acc ls =
  Ok (acc ++ List.filter (wanted f) ls).
Proof.
  intros Hr. revert acc. induction Hr as [|e ls He _ IH]; intros acc; cbn [foldM List.filter].
  - by rewrite app_nil_r.
  - rewrite entry_match_spec by done. cbn [mbind result_bind]. destruct (wanted f e); rewrite IH; [|done].
    by rewrite <-app_assoc.
Qed.

(** The bloom of a combination is in the bloom of the log when all its parts
    are. *)
Lemma topics_bloom_in b c ts :
  contains b c = true → Forall (λ t, contains b (bloomPart (sha3_topic t)) = true) ts →
  contains b (topics_bloom c ts) = true.
Proof.
  intros Hc Hts. revert c Hc. induction Hts as [|t ts Ht _ IH]; intros c Hc; [done|]. cbn [topics_bloom fold_left].
  apply IH, contains_lor; done.
Qed.
Lemma possibility_of f ls e :
  e ∈ ls → wanted f e = true → isRangeFilter f = false →
  Forall (λ t, (length t ≤ 1)%nat) (m_topics f) →
  ∃ b, b ∈ bloomPossibilities f ∧ contains (bloom ls) b = true.
Proof.
  intros He Hw Hr Hone. unfold bloomPossibilities, isRangeFilter in *.
  set (some := List.filter (λ t : list Z, match t with [] => false | _ => true end) (m_topics f)).
  assert (∀ t, t ∈ some → ∀ c, contains (bloom ls) c = true → contains (bloom ls) (topics_bloom c t) = true) as Htop.
  { intros t Ht c Hc. apply list_elem_of_In, filter_In in Ht as [Ht Hne]. apply list_elem_of_In in Ht.
    apply topics_bloom_in; [done|]. rewrite Forall_forall in Hone. specialize (Hone t Ht).
    destruct t as [|x [|? ?]]; [done| |cbn in Hone; lia]. apply Forall_singleton.
    apply list_elem_of_lookup in Ht as [i Hi].
    destruct (wanted_topics f e i _ Hw Hi) as (y&Hy&Hxy); [done|]. apply list_elem_of_singleton in Hxy as ->.
    apply (bloom_topic ls e); [done|]. by eapply list_elem_of_lookup_2. }
  pose proof Hw as [Ha _]%andb_true_iff. destruct (m_addresses f) as [|a l] eqn:Hl.
  - cbn [flat_map map app]. destruct some as [|t ts] eqn:Hsome.
    + exfalso. apply not_true_iff_false in Hr. apply Hr, forallb_forall. intros t Ht.
      destruct t as [|x t]; [done|]. exfalso.
      assert (x :: t ∈ some) as Hin; [|by rewrite Hsome in Hin; apply not_elem_of_nil in Hin].
      by apply list_elem_of_In, filter_In.
    + exists (topics_bloom 0 t). split; [cbn; by left|]. apply Htop; [by left|apply contains_0].
  - apply bool_decide_eq_true in Ha.
    assert (contains (bloom ls) (shiftBloom (sha3_address (log_address e)) 0) = true) as Had.
    { apply contains_lor; [apply contains_0|by apply bloom_address]. }
    destruct some as [|t ts] eqn:Hsome.
    + assert (flat_map (λ i, map (topics_bloom (shiftBloom (sha3_address i) 0)) []) (a :: l) = []) as ->.
      { clear. induction (a :: l) as [|? ? IH]; [done|exact IH]. }
      exists (shiftBloom (sha3_address (log_address e)) 0). split; [|done].
      by apply list_elem_of_In, (in_map (λ i, shiftBloom (sha3_address i) 0)), list_elem_of_In.
    + set (b := topics_bloom (shiftBloom (sha3_address (log_address e)) 0) t).
      assert (b ∈ flat_map (λ i, map (topics_bloom (shiftBloom (sha3_address i) 0)) (t :: ts)) (a :: l)) as Hb.
      { apply list_elem_of_In, in_flat_map. exists (log_address e). split; [by apply list_elem_of_In|by left]. }
      exists b. split; [|apply Htop; [by left|done]].
      destruct (flat_map _ (a :: l)); [by apply not_elem_of_nil in Hb|done].
Qed.
End Filter.


(** ** A log of two entries *)

Definition test_hash : Crypto :=
  {| tx_hash := λ bs, foldl (λ h b, (h * 6364136223846793005 + b) mod 2 ^ 48) 7 bs * 2 ^ 208; recover := λ _ _, [] |}.
Definition test_log : list LogEntry := [mkLog 77 [5; 6] [1; 2; 3]; mkLog 78 [5] []].
Definition test_filter : LogFilter := mkFilter [77] [[5]; []; []; []] 0 1.
Definition test_receipt : TransactionReceipt := @make test_hash (StatusCode 1) 21000 test_log.

Ltac words := repeat (apply Forall_cons; split; [split; [discriminate|reflexivity]|]); by apply Forall_nil.
Lemma receipt_roundtrip_witness : ∃ d, rlp test_receipt = Ok d ∧ of_rlp d = Ok test_receipt.
Proof.
  apply receipt_roundtrip. constructor.
  - split; [discriminate|reflexivity].
  - split; [discriminate|reflexivity].
  - split; [vm_compute; discriminate|vm_compute; reflexivity].
  - split; [|reflexivity]. repeat (apply Forall_cons; split); [| |by apply Forall_nil].
    + constructor; [split; [discriminate|reflexivity]|split; [words|reflexivity]|split; [words|reflexivity]].
    + constructor; [split; [discriminate|reflexivity]|split; [words|reflexivity]|split; [words|reflexivity]].
Defined.

(** An entry without topics, and a filter for a first topic: the topic behind
    the last one is read. *)
Example filter_reads_behind :
  @matches test_hash (mkFilter [77] [[5]; []; []; []] 0 1)
    (@make test_hash (StatusCode 1) 0 [mkLog 77 [5] []; mkLog 77 [] []]) = Err OutOfRange.
Proof. vm_compute. reflexivity. Qed.
(** Two topics for one index: the only combination asks for both. *)
Example alternatives_hidden :
  let f := mkFilter [] [[5; 9]; []; []; []] 0 1 in
  @matches test_hash f test_receipt = Ok test_log ∧
  forallb (λ b, negb (contains (m_bloom test_receipt) b)) (@bloomPossibilities test_hash f) = true.
Proof. vm_compute. split; reflexivity. Qed.
End ReceiptSpec.
