(* ===== verification/BlockHeader.v ===== *)
(** * Block headers (libwingcore/BlockHeader.h, BlockHeader.cpp)

    The members of a header with its two memoised hashes, its fields as bytes
    and read from bytes, the header of a child, and the checks of a header
    against its parent and its block.  The hash function is the one of the
    class [Crypto], the root of the transactions that of TrieHash.v. *)
From S2P Require Import Prelude CommonData RLP RLPCodec RLPFields TrieCommon TrieHash TransactionBase.

Module BlockHeader.
Import CommonData RLP RLPCodec RLPFields TransactionBase.

(** [IncludeSeal], [Strictness] *)
Inductive IncludeSeal := WithoutSeal | WithSeal | OnlySeal.
Inductive Strictness := CheckEverything | JustSeal | QuickNonce | IgnoreSeal | CheckNothingNew.
#[export] Instance Strictness_eq_dec : EqDecision Strictness.
Proof. solve_decision. Defined.

(** The exceptions that reading and checking a header throws *)
Inductive HeaderError :=
| BadHeaderRLP | InvalidBlockFormat | InvalidNumber | TooMuchGasUsed | InvalidParentHash
| InvalidTimestamp | InvalidTransactionsRoot | InvalidUnclesHash
| InvalidDifficulty | InvalidGasLimit | ExtraDataTooBig | ExtraDataIncorrect | InvalidBlockNonce
| GenesisBlockCannotBeCalculated | DivisionByZero.
#[export] Instance HeaderError_eq_dec : EqDecision HeaderError.
Proof. solve_decision. Defined.

(** The members of [BlockHeader]; [m_hash] and [m_hashWithout] are 0 when they
    are not known. *)
Record BlockHeader := mkHeader {
  m_parentHash : Z;
  m_sha3Uncles : Z;
  m_stateRoot : Z;
  m_transactionsRoot : Z;
  m_receiptsRoot : Z;
  m_logBloom : Z;
  m_number : Z;
  m_gasLimit : Z;
  m_gasUsed : Z;
  m_extraData : bytes;
  m_timestamp : Z;
  m_author : Z;
  m_difficulty : Z;
  m_seal : list bytes;
  m_hash : Z;
  m_hashWithout : Z;
}.
#[export] Instance BlockHeader_eq_dec : EqDecision BlockHeader.
Proof. solve_decision. Defined.

(** [BlockHeader()]: the timestamp is -1. *)
Definition null_header : BlockHeader := mkHeader 0 0 0 0 0 0 0 0 0 [] (-1) 0 0 [] 0 0.
(** [explicit operator bool]: [m_timestamp != Invalid256], as 256-bit numbers *)
Definition is_set (h : BlockHeader) : bool := negb (u256 (m_timestamp h) =? 2 ^ 256 - 1).

(** [operator==]: the seal and the hashes are not compared. *)
Definition header_eqb (a b : BlockHeader) : bool :=
  (m_parentHash a =? m_parentHash b) && (m_sha3Uncles a =? m_sha3Uncles b) &&
  (m_author a =? m_author b) && (m_stateRoot a =? m_stateRoot b) &&
  (m_transactionsRoot a =? m_transactionsRoot b) && (m_receiptsRoot a =? m_receiptsRoot b) &&
  (m_logBloom a =? m_logBloom b) && (m_difficulty a =? m_difficulty b) &&
  (m_number a =? m_number b) && (m_gasLimit a =? m_gasLimit b) && (m_gasUsed a =? m_gasUsed b) &&
  (m_timestamp a =? m_timestamp b) && bool_decide (m_extraData a = m_extraData b).

(** ** Changing members *)

Definition with_memo (hash hashWithout : Z) (h : BlockHeader) : BlockHeader :=
  mkHeader (m_parentHash h) (m_sha3Uncles h) (m_stateRoot h) (m_transactionsRoot h) (m_receiptsRoot h)
    (m_logBloom h) (m_number h) (m_gasLimit h) (m_gasUsed h) (m_extraData h) (m_timestamp h)
    (m_author h) (m_difficulty h) (m_seal h) hash hashWithout.
Definition noteDirty : BlockHeader → BlockHeader := with_memo 0 0.

Definition setParentHash (v : Z) (h : BlockHeader) : BlockHeader :=
  mkHeader v (m_sha3Uncles h) (m_stateRoot h) (m_transactionsRoot h) (m_receiptsRoot h)
    (m_logBloom h) (m_number h) (m_gasLimit h) (m_gasUsed h) (m_extraData h) (m_timestamp h)
    (m_author h) (m_difficulty h) (m_seal h) 0 0.
Definition setSha3Uncles (v : Z) (h : BlockHeader) : BlockHeader :=
  mkHeader (m_parentHash h) v (m_stateRoot h) (m_transactionsRoot h) (m_receiptsRoot h)
    (m_logBloom h) (m_number h) (m_gasLimit h) (m_gasUsed h) (m_extraData h) (m_timestamp h)
    (m_author h) (m_difficulty h) (m_seal h) 0 0.
Definition setTimestamp (v : Z) (h : BlockHeader) : BlockHeader :=
  mkHeader (m_parentHash h) (m_sha3Uncles h) (m_stateRoot h) (m_transactionsRoot h) (m_receiptsRoot h)
    (m_logBloom h) (m_number h) (m_gasLimit h) (m_gasUsed h) (m_extraData h) v
    (m_author h) (m_difficulty h) (m_seal h) 0 0.
Definition setAuthor (v : Z) (h : BlockHeader) : BlockHeader :=
  mkHeader (m_parentHash h) (m_sha3Uncles h) (m_stateRoot h) (m_transactionsRoot h) (m_receiptsRoot h)
    (m_logBloom h) (m_number h) (m_gasLimit h) (m_gasUsed h) (m_extraData h) (m_timestamp h)
    v (m_difficulty h) (m_seal h) 0 0.
(** The roots of the transactions, the receipts, the uncles and the state *)
Definition setRoots (t r u s : Z) (h : BlockHeader) : BlockHeader :=
  mkHeader (m_parentHash h) u s t r
    (m_logBloom h) (m_number h) (m_gasLimit h) (m_gasUsed h) (m_extraData h) (m_timestamp h)
    (m_author h) (m_difficulty h) (m_seal h) 0 0.
Definition setGasUsed (v : Z) (h : BlockHeader) : BlockHeader :=
  mkHeader (m_parentHash h) (m_sha3Uncles h) (m_stateRoot h) (m_transactionsRoot h) (m_receiptsRoot h)
    (m_logBloom h) (m_number h) (m_gasLimit h) v (m_extraData h) (m_timestamp h)
    (m_author h) (m_difficulty h) (m_seal h) 0 0.
Definition setNumber (v : Z) (h : BlockHeader) : BlockHeader :=
  mkHeader (m_parentHash h) (m_sha3Uncles h) (m_stateRoot h) (m_transactionsRoot h) (m_receiptsRoot h)
    (m_logBloom h) v (m_gasLimit h) (m_gasUsed h) (m_extraData h) (m_timestamp h)
    (m_author h) (m_difficulty h) (m_seal h) 0 0.
Definition setGasLimit (v : Z) (h : BlockHeader) : BlockHeader :=
  mkHeader (m_parentHash h) (m_sha3Uncles h) (m_stateRoot h) (m_transactionsRoot h) (m_receiptsRoot h)
    (m_logBloom h) (m_number h) v (m_gasUsed h) (m_extraData h) (m_timestamp h)
    (m_author h) (m_difficulty h) (m_seal h) 0 0.
Definition setExtraData (v : bytes) (h : BlockHeader) : BlockHeader :=
  mkHeader (m_parentHash h) (m_sha3Uncles h) (m_stateRoot h) (m_transactionsRoot h) (m_receiptsRoot h)
    (m_logBloom h) (m_number h) (m_gasLimit h) (m_gasUsed h) v (m_timestamp h)
    (m_author h) (m_difficulty h) (m_seal h) 0 0.
Definition setLogBloom (v : Z) (h : BlockHeader) : BlockHeader :=
  mkHeader (m_parentHash h) (m_sha3Uncles h) (m_stateRoot h) (m_transactionsRoot h) (m_receiptsRoot h)
    v (m_number h) (m_gasLimit h) (m_gasUsed h) (m_extraData h) (m_timestamp h)
    (m_author h) (m_difficulty h) (m_seal h) 0 0.
Definition setDifficulty (v : Z) (h : BlockHeader) : BlockHeader :=
  mkHeader (m_parentHash h) (m_sha3Uncles h) (m_stateRoot h) (m_transactionsRoot h) (m_receiptsRoot h)
    (m_logBloom h) (m_number h) (m_gasLimit h) (m_gasUsed h) (m_extraData h) (m_timestamp h)
    (m_author h) v (m_seal h) 0 0.
(** [setSeal] of a hash of [n] bytes, given as its bytes: the seal grows up to
    the field. *)
Definition setSeal (offset : nat) (v : bytes) (h : BlockHeader) : BlockHeader :=
  let seal := m_seal h ++ replicate (S offset - length (m_seal h)) [] in
  mkHeader (m_parentHash h) (m_sha3Uncles h) (m_stateRoot h) (m_transactionsRoot h) (m_receiptsRoot h)
    (m_logBloom h) (m_number h) (m_gasLimit h) (m_gasUsed h) (m_extraData h) (m_timestamp h)
    (m_author h) (m_difficulty h) (<[offset := encode (Data v)]> seal) 0 0.
(** [seal<T>] of a hash of [n] bytes; 0 when the field is missing *)
Definition seal (n : Z) (offset : nat) (h : BlockHeader) : result HeaderError bytes :=
  match m_seal h !! offset with
  | None => Ok (replicate (Z.to_nat n) 0)
  | Some b =>
    match (d ← construct VeryStrict b; toHash n VeryStrict d) with
    | Ok v => Ok v
    | Err _ => Err BadHeaderRLP
    end
  end.

Section Hashes.
Context `{Crypto}.

(** [sha3] as bytes; [EmptyTrie] and [EmptyListSHA3] *)
Definition sha3_bytes (b : bytes) : bytes := hash_bytes 32 (tx_hash b).
Definition EmptyTrie : Z := tx_hash [0x80].
Definition EmptyListSHA3 : Z := tx_hash [0xc0].
Definition hasUncles (h : BlockHeader) : bool := negb (m_sha3Uncles h =? EmptyListSHA3).

(** [clear] *)
Definition clear (h : BlockHeader) : BlockHeader :=
  mkHeader 0 EmptyListSHA3 EmptyTrie EmptyTrie EmptyTrie 0 0 0 0 [] (-1) 0 0 [] 0 0.

(** ** Bytes *)

(** An exception of the reader or the writer *)
Definition rlp_error {A} (r : result RLPError A) : result HeaderError A :=
  match r with Ok a => Ok a | Err _ => Err BadHeaderRLP end.

(** [streamRLPFields]: the number and the timestamp are [int64_t], which
    [append(unsigned)] takes. *)
Definition streamRLPFields (h : BlockHeader) (s : RLPStream) : result RLPError RLPStream :=
  s ← append_hash (hash_bytes 32 (m_parentHash h)) false false s;
  s ← append_hash (hash_bytes 32 (m_sha3Uncles h)) false false s;
  s ← append_hash (hash_bytes 20 (m_author h)) false false s;
  s ← append_hash (hash_bytes 32 (m_stateRoot h)) false false s;
  s ← append_hash (hash_bytes 32 (m_transactionsRoot h)) false false s;
  s ← append_hash (hash_bytes 32 (m_receiptsRoot h)) false false s;
  s ← append_hash (hash_bytes 256 (m_logBloom h)) false false s;
  s ← append_u256 (m_difficulty h) s;
  s ← append_unsigned (m_number h) s;
  s ← append_u256 (m_gasLimit h) s;
  s ← append_u256 (m_gasUsed h) s;
  s ← append_unsigned (m_timestamp h) s;
  append (m_extraData h) false s.
Definition BasicFields : Z := 13.
(** [streamRLP] *)
Definition streamRLP (h : BlockHeader) (i : IncludeSeal) (s : RLPStream) : result RLPError RLPStream :=
  s ← match i with
      | OnlySeal => Ok s
      | WithoutSeal => s ← appendList BasicFields s; streamRLPFields h s
      | WithSeal => s ← appendList (BasicFields + Z.of_nat (length (m_seal h))) s; streamRLPFields h s
      end;
  match i with
  | WithoutSeal => Ok s
  | WithSeal | OnlySeal => foldM (λ s b, appendRaw b 1 s) s (m_seal h)
  end.
Definition header_rlp (h : BlockHeader) (i : IncludeSeal) : result HeaderError bytes :=
  rlp_error (s ← streamRLP h i empty_stream; out s).

(** [hash]: the hash and the header with the memo; nothing is kept for
    [OnlySeal]. *)
Definition hash (i : IncludeSeal) (h : BlockHeader) : result HeaderError (Z * BlockHeader) :=
  let memo := match i with WithSeal => m_hash h | WithoutSeal => m_hashWithout h | OnlySeal => 0 end in
  if memo =? 0 then
    d ← header_rlp h i;
    let v := tx_hash d in
    Ok (v, match i with
           | WithSeal => with_memo v (m_hashWithout h) h
           | WithoutSeal => with_memo (m_hash h) v h
           | OnlySeal => h
           end)
  else Ok (memo, h).

(** [_rlp[i]], with the reader's cache *)
Definition hfield (d : bytes) (i : Z) (c : Cache) : result HeaderError (Cache * bytes) :=
  match index d i c with (c, Ok b) => Ok (c, b) | (_, Err _) => Err BadHeaderRLP end.
(** The items [i], [i + 1], ... as bytes *)
Fixpoint fields_loop (n : nat) (d : bytes) (i : Z) (c : Cache) : result HeaderError (list bytes) :=
  match n with
  | O => Ok []
  | S n => '(c, f) ← hfield d i c; fs ← fields_loop n d (i + 1) c; Ok (f :: fs)
  end.
Definition fields_from (d : bytes) (i : Z) (c : Cache) : result HeaderError (list bytes) :=
  match itemCount d with
  | Some (Ok n) => fields_loop (Z.to_nat (n - i)) d i c
  | _ => Err BadHeaderRLP
  end.

(** [populate] *)
Definition read_hash (n : Z) (f : bytes) : result HeaderError Z :=
  b ← rlp_error (toHash n VeryStrict f); Ok (be_val b).
Definition populate (d : bytes) (h : BlockHeader) : result HeaderError BlockHeader :=
  '(c, f) ← hfield d 0 new_cache; parentHash ← read_hash 32 f;
  '(c, f) ← hfield d 1 c; sha3Uncles ← read_hash 32 f;
  '(c, f) ← hfield d 2 c; author ← read_hash 20 f;
  '(c, f) ← hfield d 3 c; stateRoot ← read_hash 32 f;
  '(c, f) ← hfield d 4 c; transactionsRoot ← read_hash 32 f;
  '(c, f) ← hfield d 5 c; receiptsRoot ← read_hash 32 f;
  '(c, f) ← hfield d 6 c; logBloom ← read_hash 256 f;
  '(c, f) ← hfield d 7 c; difficulty ← rlp_error (toInt_u256 Strict f);
  '(c, f) ← hfield d 8 c; number ← rlp_error (toPositiveInt64 Strict f);
  '(c, f) ← hfield d 9 c; gasLimit ← rlp_error (toInt_u256 Strict f);
  '(c, f) ← hfield d 10 c; gasUsed ← rlp_error (toInt_u256 Strict f);
  '(c, f) ← hfield d 11 c; timestamp ← rlp_error (toPositiveInt64 Strict f);
  '(c, f) ← hfield d 12 c; extraData ← rlp_error (toBytes LaissezFaire f);
  seal ← fields_from d 13 c;
  Ok (mkHeader parentHash sha3Uncles stateRoot transactionsRoot receiptsRoot logBloom number gasLimit
        gasUsed extraData timestamp author difficulty seal (m_hash h) (m_hashWithout h)).

Lemma populate_memo d g h : populate d g = Ok h → m_hash h = m_hash g.
Proof.
  unfold populate. intros Hp.
  do 13 (apply bind_Ok_inv in Hp as ([? ?]&_&Hp); apply bind_Ok_inv in Hp as (?&_&Hp)).
  apply bind_Ok_inv in Hp as (?&_&Hp). by injection Hp as <-.
Qed.

(** [extractHeader] *)
Definition extractHeader (block : bytes) : result HeaderError bytes :=
  root ← rlp_error (construct VeryStrict block);
  _ ← throw_if (negb (isList root)) InvalidBlockFormat;
  '(c, header) ← hfield root 0 new_cache;
  _ ← throw_if (negb (isList header)) InvalidBlockFormat;
  '(c, txs) ← hfield root 1 c;
  _ ← throw_if (negb (isList txs)) InvalidBlockFormat;
  '(c, uncles) ← hfield root 2 c;
  _ ← throw_if (negb (isList uncles)) InvalidBlockFormat;
  Ok header.
(** The constructor from the bytes of a header or of a block *)
Inductive BlockDataType := HeaderData | BlockData.
Definition of_bytes (d : bytes) (bdt : BlockDataType) (hashWith : Z) : result HeaderError BlockHeader :=
  header ← (match bdt with
            | BlockData => extractHeader d
            | HeaderData => rlp_error (construct VeryStrict d)
            end);
  let m := if negb (hashWith =? 0) then hashWith else tx_hash header in
  populate header (with_memo m 0 null_header).
(** [headerHashFromBlock] *)
Definition headerHashFromBlock (block : bytes) : result HeaderError Z :=
  root ← rlp_error (construct VeryStrict block);
  '(_, header) ← hfield root 0 new_cache;
  Ok (tx_hash header).

(** ** Children *)

(** [populateFromParent]: the memoised hash of the parent as it is *)
Definition populateFromParent (p h : BlockHeader) : BlockHeader :=
  mkHeader (m_hash p) (m_sha3Uncles h) (m_stateRoot p) (m_transactionsRoot h) (m_receiptsRoot h)
    (m_logBloom h) (m_number p + 1) (m_gasLimit p) 0 (m_extraData h) (m_timestamp h) (m_author h)
    (m_difficulty p) (m_seal h) (m_hash h) (m_hashWithout h).

(** [trieRootOver] of TrieHash.h *)
Definition trieRootOver (n : nat) (getKey getValue : Z → bytes) : Z :=
  be_val (TrieHash.hash256 sha3_bytes
    (foldl (λ m i, TrieHash.map_insert (getKey i) (getValue i) m) [] (seqZ 0 (Z.of_nat n)))).

(** [verify]; no parent is the header that is not set, no block the empty
    reference. *)
Definition verify_block (h : BlockHeader) (block : bytes) : result HeaderError unit :=
  root ← rlp_error (construct VeryStrict block);
  '(c, txList) ← hfield root 1 new_cache;
  txs ← fields_from txList 0 new_cache;
  let expectedRoot :=
    trieRootOver (length txs) TrieHash.index_key (λ i, nth (Z.to_nat i) txs []) in
  _ ← throw_if (negb (m_transactionsRoot h =? expectedRoot)) InvalidTransactionsRoot;
  '(c, uncles) ← hfield root 2 c;
  throw_if (negb (m_sha3Uncles h =? tx_hash uncles)) InvalidUnclesHash.
Definition verify (s : Strictness) (h parent : BlockHeader) (block : bytes) : result HeaderError unit :=
  _ ← throw_if (2 ^ 32 - 1 <? m_number h) InvalidNumber;
  _ ← throw_if (negb (bool_decide (s = CheckNothingNew)) && (m_gasLimit h <? m_gasUsed h)) TooMuchGasUsed;
  _ ← (if is_set parent then
         _ ← (if negb (m_parentHash h =? 0) then
                '(v, _) ← hash WithSeal parent;
                throw_if (negb (v =? m_parentHash h)) InvalidParentHash
              else Ok ());
         _ ← throw_if (m_timestamp h <=? m_timestamp parent) InvalidTimestamp;
         throw_if (negb (m_number h =? m_number parent + 1)) InvalidNumber
       else Ok ());
  match block with [] => Ok () | _ => verify_block h block end.

End Hashes.

(** When a header is accepted after its parent: what [verify] looks at before
    the block *)
Definition follows `{Crypto} (h p : BlockHeader) : Prop :=
  is_set p = true →
  (m_parentHash h = 0 ∨ ∃ p', hash WithSeal p = Ok (m_parentHash h, p')) ∧
  m_timestamp p < m_timestamp h ∧ m_number h = m_number p + 1.
Lemma verify_iff `{Crypto} s h p block :
  verify s h p block = Ok () ↔
  m_number h < 2 ^ 32 ∧ (s ≠ CheckNothingNew → m_gasUsed h ≤ m_gasLimit h) ∧ follows h p ∧
  (block ≠ [] → verify_block h block = Ok ()).
Proof.
  unfold verify, follows. change (2 ^ 32) with 4294967296.
  destruct (Z.ltb_spec (4294967296 - 1) (m_number h)) as [Hn|Hn]; cbn [throw_if mbind result_bind].
  { split; [discriminate|lia]. }
  assert ((s ≠ CheckNothingNew → m_gasUsed h ≤ m_gasLimit h) ↔
          negb (bool_decide (s = CheckNothingNew)) && (m_gasLimit h <? m_gasUsed h) = false) as ->.
  { case_bool_decide; cbn [negb andb]; [split; [done|by intros ? []]|]. rewrite Z.ltb_ge. naive_solver. }
  destruct (_ && _); cbn [throw_if mbind result_bind]; [split; [discriminate|naive_solver]|].
  match goal with |- (?r ≫= ?f) = _ ↔ _ =>
    assert (follows h p ↔ r = Ok ()) as Hf end.
  { unfold follows. destruct (is_set p); [|split; done].
    destruct (Z.eqb_spec (m_parentHash h) 0) as [H0|H0]; cbn [negb mbind result_bind].
    - destruct (Z.leb_spec (m_timestamp h) (m_timestamp p)); cbn [throw_if mbind result_bind];
        [split; [intros Hx; specialize (Hx eq_refl); lia|discriminate]|].
      destruct (Z.eqb_spec (m_number h) (m_number p + 1)); cbn [negb throw_if]; naive_solver.
    - destruct (hash WithSeal p) as [[v p']|e]; cbn [mbind result_bind].
      2: { split; [|discriminate]. intros Hx. destruct (Hx eq_refl) as ([?|[? ?]]&_); [done|discriminate]. }
      destruct (Z.eqb_spec v (m_parentHash h)) as [->|Hv]; cbn [negb throw_if mbind result_bind].
      2: { split; [|discriminate]. intros Hx. destruct (Hx eq_refl) as ([?|[? ?]]&_); [done|congruence]. }
      destruct (Z.leb_spec (m_timestamp h) (m_timestamp p)); cbn [throw_if mbind result_bind];
        [split; [intros Hx; specialize (Hx eq_refl); lia|discriminate]|].
      destruct (Z.eqb_spec (m_number h) (m_number p + 1)); cbn [negb throw_if]; naive_solver. }
  unfold follows in Hf. rewrite Hf. clear Hf.
  match goal with |- (?r ≫= ?f) = _ ↔ _ => destruct r as [[]|e]; cbn [mbind result_bind] end.
  2: { split; [discriminate|]. intros (_&_&?&_). discriminate. }
  destruct block as [|b q].
  - split; [|done]. intros _. split_and!; [lia|done..].
  - split; [|naive_solver]. intros Hv. split_and!; [lia|done..].
Qed.

End BlockHeader.
