(* ===== verification/BlockHeaderCodec.v ===== *)
(** * Block headers as bytes

    What [streamRLP] writes, the constructor from the bytes of a header reads
    back, for numbers and timestamps that an [unsigned] holds. *)
From S2P Require Import Prelude CommonData RLP RLPCodec RLPFields TrieHash TransactionBase BlockHeader.

Module BlockHeaderCodec.
Import CommonData RLP RLPCodec RLPFields TransactionBase(append_unsigned, append_u256).
Import BlockHeader.

(** ** The fields *)

Definition fields (h : BlockHeader) : list item :=
  [Data (hash_bytes 32 (m_parentHash h)); Data (hash_bytes 32 (m_sha3Uncles h));
   Data (hash_bytes 20 (m_author h)); Data (hash_bytes 32 (m_stateRoot h));
   Data (hash_bytes 32 (m_transactionsRoot h)); Data (hash_bytes 32 (m_receiptsRoot h));
   Data (hash_bytes 256 (m_logBloom h)); num (m_difficulty h); num (m_number h); num (m_gasLimit h);
   num (m_gasUsed h); num (m_timestamp h); Data (m_extraData h)].

(** A header whose members have their sizes, with the items [ts] as its seal *)
Record header_ok (h : BlockHeader) (ts : list item) : Prop := {
  ho_hashes : Forall (in_word 256)
    [m_parentHash h; m_sha3Uncles h; m_stateRoot h; m_transactionsRoot h; m_receiptsRoot h];
  ho_words : Forall (in_word 256) [m_difficulty h; m_gasLimit h; m_gasUsed h];
  ho_author : in_word 160 (m_author h);
  ho_bloom : in_word 2048 (m_logBloom h);
  ho_unsigned : Forall (in_word 32) [m_number h; m_timestamp h];
  ho_data : bytes_ok (m_extraData h) ∧ size (m_extraData h) < 2 ^ 60;
  ho_seal : m_seal h = map encode ts;
  ho_seal_good : Forall field_good ts ∧ size (concat (m_seal h)) < 2 ^ 60;
}.

(** ** Reading a list of fields *)

Section Read.
Context (L : list item) (Hgood : Forall field_good L) (Hsmall : size (concat (map encode L)) < 2 ^ 62).
Lemma hfield_at i x c :
  L !! i = Some x → cache_ok (map encode L) c →
  ∃ c', hfield (encode (List L)) (Z.of_nat i) c = Ok (c', encode x) ∧ cache_ok (map encode L) c'.
Proof.
  intros Hx Hc. destruct (fields_index L Hgood Hsmall i x c Hx Hc) as (c'&Hi&Hc').
  exists c'. split; [|done]. unfold hfield. by rewrite Hi.
Qed.
Lemma fields_loop_read n : ∀ i c,
  (i + n)%nat = length L → cache_ok (map encode L) c →
  fields_loop n (encode (List L)) (Z.of_nat i) c = Ok (map encode (drop i L)).
Proof.
  induction n as [|n IH]; intros i c Hl Hc; cbn [fields_loop].
  - rewrite drop_ge by lia. reflexivity.
  - destruct (L !! i) as [x|] eqn:Hx; [|apply lookup_ge_None in Hx; lia].
    destruct (hfield_at i x c Hx Hc) as (c'&->&Hc'). cbn [mbind result_bind].
    replace (Z.of_nat i + 1) with (Z.of_nat (S i)) by lia. rewrite IH by (done || lia).
    cbn [mbind result_bind]. by rewrite (drop_S L x i Hx).
Qed.
Lemma fields_from_read i c :
  (i ≤ length L)%nat → cache_ok (map encode L) c →
  fields_from (encode (List L)) (Z.of_nat i) c = Ok (map encode (drop i L)).
Proof.
  intros Hi Hc. unfold fields_from. rewrite (fields_count L Hgood Hsmall).
  apply fields_loop_read; [lia|done].
Qed.
End Read.

Section Codec.
Context (h : BlockHeader) (ts : list item) (H : header_ok h ts).

(** The fields with or without the seal *)
Definition all_fields (i : IncludeSeal) : list item :=
  fields h ++ match i with WithSeal => ts | WithoutSeal | OnlySeal => [] end.

Lemma header_fields_good : Forall field_good (fields h).
Proof.
  pose proof (ho_hashes _ _ H) as Hh. rewrite !Forall_cons in Hh. destruct Hh as (?&?&?&?&?&_).
  pose proof (ho_words _ _ H) as Hw. rewrite !Forall_cons in Hw. destruct Hw as (?&?&?&_).
  pose proof (ho_unsigned _ _ H) as Hu. rewrite !Forall_cons in Hu. destruct Hu as (?&?&_).
  destruct (ho_data _ _ H) as [Hd Hds].
  assert (∀ z, in_word 256 z → field_good (num z)) as Hn by (intros z Hz; by apply (num_good z 256)).
  assert (∀ z, in_word 32 z → field_good (num z)) as Hn' by (intros z Hz; by apply (num_good z 32)).
  assert (∀ z, in_word 256 z → field_good (Data (hash_bytes 32 z))) as Hhs.
  { intros z Hz. apply hash_good; [exact Hz|lia]. }
  unfold fields. repeat (apply Forall_cons; split); auto.
  - apply hash_good; [apply H|lia].
  - apply hash_good; [apply H|lia].
  - apply bytes_good; [done|]. eapply Z.lt_trans; [exact Hds|reflexivity].
Qed.
Lemma all_good i : Forall field_good (all_fields i).
Proof.
  apply Forall_app. split; [apply header_fields_good|]. destruct i; [by apply Forall_nil|apply H|by apply Forall_nil].
Qed.
Lemma all_small i : size (concat (map encode (all_fields i))) < 2 ^ 62.
Proof.
  unfold all_fields. rewrite map_app, concat_app, size_app.
  assert (size (concat (map encode (fields h))) ≤ 13 * 300 + 2 ^ 60) as Hf.
  { destruct (ho_data _ _ H) as [Hd Hds]. change (2 ^ 60) with 1152921504606846976 in *.
    destruct (encode_data_ok (m_extraData h) Hd) as [_ Hsd]; [lia|].
    pose proof (fields_size (take 12 (fields h)) 300) as Ht.
    rewrite <-(take_drop 12 (fields h)), map_app, concat_app, size_app.
    change (drop 12 (fields h)) with [Data (m_extraData h)]. cbn [map concat]. rewrite app_nil_r.
    change (length (take 12 (fields h))) with 12%nat in Ht.
    assert (size (concat (map encode (take 12 (fields h)))) ≤ 3600); [|lia]. apply Ht.
    pose proof (ho_hashes _ _ H) as Hh. rewrite !Forall_cons in Hh. destruct Hh as (?&?&?&?&?&_).
    pose proof (ho_words _ _ H) as Hw. rewrite !Forall_cons in Hw. destruct Hw as (?&?&?&_).
    pose proof (ho_unsigned _ _ H) as Hu. rewrite !Forall_cons in Hu. destruct Hu as (?&?&_).
    assert (∀ w z, w = 256 ∨ w = 32 → in_word w z → size (encode (num z)) ≤ 300) as Hn.
    { intros w z Hwz Hz. assert (0 ≤ w < 2 ^ 32) as Hw2 by (by destruct Hwz as [-> | ->]).
      pose proof (num_size z w Hz Hw2).
      destruct Hwz as [-> | ->]; [change (256 / 8) with 32 in *|change (32 / 8) with 4 in *]; lia. }
    assert (∀ z, in_word 256 z → size (encode (Data (hash_bytes 32 z))) ≤ 300) as Hhs.
    { intros z Hz. pose proof (hash_size 32 z Hz ltac:(lia)). lia. }
    unfold fields. cbn [take]. repeat (apply Forall_cons; split); eauto.
    - pose proof (hash_size 20 _ (ho_author _ _ H) ltac:(lia)). lia.
    - pose proof (hash_size 256 _ (ho_bloom _ _ H) ltac:(lia)). lia. }
  change (2 ^ 60) with 1152921504606846976 in *. change (2 ^ 62) with 4611686018427387904.
  destruct i; cbn [map concat]; rewrite ?size_nil; [lia| |lia].
  destruct (ho_seal_good _ _ H) as [_ Hs]. rewrite (ho_seal _ _ H) in Hs.
  change (2 ^ 60) with 1152921504606846976 in *. lia.
Qed.

(** ** Writing *)

Lemma write_seal s us :
  Forall field_good us →
  foldM (λ s b, appendRaw b 1 s) s (map encode us) = foldM (λ s t, write t s) s us.
Proof.
  intros Hg. revert s. induction Hg as [|t us [Hok Hs] _ IH]; intros s; [done|]. cbn [map foldM].
  rewrite (write_spec t s Hok) by (change (2 ^ 62) with 4611686018427387904 in *;
    change (2 ^ 63) with 9223372036854775808; lia).
  unfold appendRaw. destruct (noteAppended _ _) as [s'|e]; [|done]. cbn [mbind result_bind]. apply IH.
Qed.
(** The fields, in a list that is open *)
Lemma write_header_fields s : streamRLPFields h s = foldM (λ s t, write t s) s (fields h).
Proof.
  pose proof (ho_words _ _ H) as Hw. rewrite !Forall_cons in Hw. destruct Hw as (?&?&?&_).
  pose proof (ho_unsigned _ _ H) as Hu. rewrite !Forall_cons in Hu. destruct Hu as (?&?&_).
  assert (∀ i s, in_word 256 i → append_u256 i s = write (num i) s) as Hn.
  { intros i s' Hi. by apply (write_word 256). }
  assert (∀ i s, in_word 32 i → append_unsigned i s = write (num i) s) as Hn'.
  { intros i s' Hi. unfold append_unsigned. rewrite wrap_small by done. by apply (write_word 32). }
  unfold streamRLPFields, fields. cbn [foldM].
  do 7 (apply bind_cong; [apply write_hash|intros ?]).
  do 1 (apply bind_cong; [by apply Hn|intros ?]). apply bind_cong; [by apply Hn'|intros ?].
  do 2 (apply bind_cong; [by apply Hn|intros ?]). apply bind_cong; [by apply Hn'|intros ?].
  symmetry. apply bind_id.
Qed.
Lemma foldM_app {E A B} (f : B → A → result E B) (l1 l2 : list A) b :
  foldM f b (l1 ++ l2) = b' ← foldM f b l1; foldM f b' l2.
Proof.
  revert b. induction l1 as [|x l1 IH]; intros b; [done|]. cbn [app foldM].
  destruct (f b x); [apply IH|done].
Qed.
(** The bytes of a header with or without its seal *)
Lemma header_rlp_fields i : i ≠ OnlySeal → header_rlp h i = Ok (encode (List (all_fields i))).
Proof.
  intros Hi. destruct (fields_ok (all_fields i)) as [Hok Hsz]; [apply all_good|apply all_small|].
  pose proof (write_fields (all_fields i) Hok Hsz) as Hw.
  unfold header_rlp, streamRLP.
  assert (length (m_seal h) = length ts) as Hl by (by rewrite (ho_seal _ _ H), length_map).
  rewrite (ho_seal _ _ H). destruct (ho_seal_good _ _ H) as [Hg _].
  destruct i; [| |exfalso; by apply Hi].
  - change BasicFields with (Z.of_nat (length (all_fields WithoutSeal))).
    destruct (appendList _ _) as [s0|]; [|discriminate Hw]. cbn [mbind result_bind] in *.
    unfold all_fields in Hw at 1. rewrite foldM_app in Hw.
    rewrite write_header_fields. destruct (foldM _ s0 (fields h)) as [s1|]; [|discriminate Hw].
    cbn [mbind result_bind foldM] in *. rewrite Hw. reflexivity.
  - replace (BasicFields + Z.of_nat (length (map encode ts))) with (Z.of_nat (length (all_fields WithSeal))).
    2: { unfold all_fields. rewrite length_app, length_map. unfold BasicFields. change (length (fields h)) with 13%nat. lia. }
    destruct (appendList _ _) as [s0|]; [|discriminate Hw]. cbn [mbind result_bind] in *.
    unfold all_fields in Hw at 1. rewrite foldM_app in Hw.
    rewrite write_header_fields. destruct (foldM _ s0 (fields h)) as [s1|]; [|discriminate Hw].
    cbn [mbind result_bind] in *. rewrite write_seal by done. rewrite Hw. reflexivity.
Qed.

(** ** Reading *)

Notation L := (all_fields WithSeal).
Ltac read_field n Hc :=
  let c := fresh "c" in let E := fresh "E" in let Hc' := fresh "Hc" in
  let x := eval cbv [nth fields] in (nth n (fields h) (Data [])) in
  destruct (hfield_at L (all_good _) (all_small _) n x _ eq_refl Hc) as (c&E&Hc');
  let k := eval compute in (Z.of_nat n) in change (Z.of_nat n) with k in E;
  apply (bind_Ok_intro _ _ _ _ E); clear E Hc; rename Hc' into Hc; cbv beta iota.
Ltac read_value E := eapply bind_Ok_intro; [apply E; (assumption || apply H)|]; cbv beta.
Lemma read_hash_bytes n m z :
  Z.of_nat n = m → (n < 1000)%nat → in_word (8 * m) z →
  read_hash m (encode (Data (hash_bytes n z))) = Ok z.
Proof.
  intros <- Hn Hz. destruct (hash_bytes_spec n z Hz) as (_&Hl&Hv). unfold read_hash.
  rewrite toHash_data; [|by apply hash_good|unfold size; by rewrite Hl].
  cbn [rlp_error mbind result_bind]. by rewrite Hv.
Qed.
Lemma populate_fields g :
  populate (encode (List L)) g = Ok (with_memo (m_hash g) (m_hashWithout g) h).
Proof.
  pose proof (ho_hashes _ _ H) as Hh. rewrite !Forall_cons in Hh. destruct Hh as (Hh1&Hh2&Hh3&Hh4&Hh5&_).
  pose proof (ho_words _ _ H) as Hw. rewrite !Forall_cons in Hw. destruct Hw as (Hw1&Hw2&Hw3&_).
  pose proof (ho_unsigned _ _ H) as Hu. rewrite !Forall_cons in Hu. destruct Hu as (Hu1&Hu2&_).
  pose proof (λ z, read_hash_bytes 32 32 z ltac:(lia) ltac:(lia)) as Hr32. change (8 * 32) with 256 in Hr32.
  pose proof (λ z, read_hash_bytes 20 20 z ltac:(lia) ltac:(lia)) as Hr20. change (8 * 20) with 160 in Hr20.
  pose proof (λ z, read_hash_bytes 256 256 z ltac:(lia) ltac:(lia)) as Hr256. change (8 * 256) with 2048 in Hr256.
  assert (∀ z, in_word 256 z → rlp_error (toInt_u256 Strict (encode (num z))) = Ok z) as Hri.
  { intros z Hz. by rewrite toInt_u256_num. }
  assert (∀ z, in_word 32 z → rlp_error (toPositiveInt64 Strict (encode (num z))) = Ok z) as Hrt.
  { intros z [Hz0 Hz]. rewrite toPositiveInt64_num; [done|]. split; [done|]. eapply Z.lt_trans; [exact Hz|done]. }
  pose proof (cache_new (map encode L)) as Hc. unfold populate.
  read_field 0%nat Hc. read_value (Hr32).
  read_field 1%nat Hc. read_value (Hr32).
  read_field 2%nat Hc. read_value (Hr20).
  read_field 3%nat Hc. read_value (Hr32).
  read_field 4%nat Hc. read_value (Hr32).
  read_field 5%nat Hc. read_value (Hr32).
  read_field 6%nat Hc. read_value (Hr256).
  read_field 7%nat Hc. read_value (Hri).
  read_field 8%nat Hc. read_value (Hrt).
  read_field 9%nat Hc. read_value (Hri).
  read_field 10%nat Hc. read_value (Hri).
  read_field 11%nat Hc. read_value (Hrt).
  destruct (ho_data _ _ H) as [Hd Hds]. read_field 12%nat Hc.
  assert (field_good (Data (m_extraData h))) as Hdg.
  { apply bytes_good; [exact Hd|]. eapply Z.lt_trans; [exact Hds|reflexivity]. }
  apply (bind_Ok_intro _ _ (m_extraData h)); [by rewrite toBytes_data|]. cbv beta.
  pose proof (fields_from_read L (all_good _) (all_small _) 13 _ ltac:(cbn; lia) Hc) as Hf.
  change (Z.of_nat 13) with 13 in Hf. apply (bind_Ok_intro _ _ _ _ Hf). cbv beta.
  change (drop 13 L) with ts. rewrite <-(ho_seal _ _ H). reflexivity.
Qed.
End Codec.

(** C24. A header is read back as it was written, with its seal; its hash is the one
    that is given, or the hash of the bytes. *)
Theorem header_roundtrip `{Crypto} h ts hashWith :
  header_ok h ts →
  ∃ d, header_rlp h WithSeal = Ok d ∧
    of_bytes d HeaderData hashWith =
      Ok (with_memo (if negb (hashWith =? 0) then hashWith else tx_hash d) 0 h).
Proof.
  intros Hok. exists (encode (List (all_fields h ts WithSeal))). split; [by apply header_rlp_fields|].
  unfold of_bytes. rewrite (fields_construct _ (all_good h ts Hok _) (all_small h ts Hok _)).
  cbn [rlp_error mbind result_bind]. rewrite (populate_fields h ts Hok). reflexivity.
Qed.

(** ** Blocks *)

(** A block: its header with the seal, its transactions and its uncles *)
Section Block.
Context `{Crypto} (header : list item) (txs uncles : list item).
Definition block_items : list item := [List header; List txs; List uncles].
Definition block_bytes : bytes := encode (List block_items).
Record block_ok : Prop := {
  bo_header : Forall field_good header ∧ size (concat (map encode header)) < 2 ^ 60;
  bo_txs : Forall field_good txs ∧ size (concat (map encode txs)) < 2 ^ 60;
  bo_uncles : Forall field_good uncles ∧ size (concat (map encode uncles)) < 2 ^ 60;
}.
Context (B : block_ok).

Lemma list_field L : Forall field_good L ∧ size (concat (map encode L)) < 2 ^ 60 →
  field_good (List L) ∧ size (encode (List L)) < 2 ^ 60 + 100.
Proof.
  intros [Hg Hs]. change (2 ^ 60) with 1152921504606846976 in *.
  destruct (encode_list_ok L) as [Hok Hsz].
  - eapply Forall_impl; [exact Hg|]. by intros t [? _].
  - change (2 ^ 63) with 9223372036854775808. lia.
  - split; [split; [done|]|]; change (2 ^ 62) with 4611686018427387904; lia.
Qed.
Lemma block_good : Forall field_good block_items ∧ size (concat (map encode block_items)) < 2 ^ 62.
Proof.
  destruct (list_field header (bo_header B)) as [H1 S1]. destruct (list_field txs (bo_txs B)) as [H2 S2].
  destruct (list_field uncles (bo_uncles B)) as [H3 S3]. split.
  { repeat (apply Forall_cons; split); [done..|by apply Forall_nil]. }
  unfold block_items. cbn [map concat]. rewrite !size_app, size_nil.
  change (2 ^ 60) with 1152921504606846976 in *. change (2 ^ 62) with 4611686018427387904. lia.
Qed.
Lemma small_60 L : size (concat (map encode L)) < 2 ^ 60 → size (concat (map encode L)) < 2 ^ 62.
Proof. intros. eapply Z.lt_trans; [done|done]. Qed.
(** The parts of a block, through the reader *)
Lemma block_construct : construct VeryStrict block_bytes = Ok block_bytes ∧ isList block_bytes = true.
Proof.
  destruct block_good as [Hg Hs]. split; [by apply fields_construct|by apply fields_isList].
Qed.
Lemma extractHeader_block : extractHeader block_bytes = Ok (encode (List header)).
Proof.
  destruct block_good as [Hg Hs]. destruct block_construct as [Hc Hl]. unfold extractHeader.
  rewrite Hc. cbn [rlp_error mbind result_bind]. rewrite Hl. cbn [negb throw_if mbind result_bind].
  pose proof (cache_new (map encode block_items)) as Hk.
  destruct (hfield_at block_items Hg Hs 0 _ _ eq_refl Hk) as (c0&E0&H0). change (Z.of_nat 0) with 0 in E0.
  apply (bind_Ok_intro _ _ _ _ E0). cbv beta iota.
  assert (∀ L, Forall field_good L ∧ size (concat (map encode L)) < 2 ^ 60 → isList (encode (List L)) = true) as Hil.
  { intros L [Hg' Hs']. apply fields_isList; [done|by apply small_60]. }
  rewrite (Hil _ (bo_header B)). cbn [negb throw_if mbind result_bind].
  destruct (hfield_at block_items Hg Hs 1 _ _ eq_refl H0) as (c1&E1&H1). change (Z.of_nat 1) with 1 in E1.
  apply (bind_Ok_intro _ _ _ _ E1). cbv beta iota.
  rewrite (Hil _ (bo_txs B)). cbn [negb throw_if mbind result_bind].
  destruct (hfield_at block_items Hg Hs 2 _ _ eq_refl H1) as (c2&E2&H2). change (Z.of_nat 2) with 2 in E2.
  apply (bind_Ok_intro _ _ _ _ E2). cbv beta iota.
  rewrite (Hil _ (bo_uncles B)). reflexivity.
Qed.

(** The loop over the transactions gives [orderedTrieRoot]. *)
Lemma trieRootOver_ordered (l : list bytes) :
  trieRootOver (length l) TrieHash.index_key (λ i, nth (Z.to_nat i) l []) =
  be_val (TrieHash.orderedTrieRoot sha3_bytes l).
Proof.
  unfold trieRootOver, TrieHash.orderedTrieRoot. do 2 f_equal.
  assert (∀ (k : nat) m (l : list bytes) q, length q = k →
    foldl (λ m i, TrieHash.map_insert (TrieHash.index_key i) (nth (Z.to_nat i) (q ++ l) []) m) m
      (seqZ (Z.of_nat k) (Z.of_nat (length l))) =
    foldl (λ m e, TrieHash.map_insert e.1 e.2 m) m
      (imap (λ j v, (TrieHash.index_key (Z.of_nat (k + j)), v)) l)) as Hgen.
  { intros k m l'. revert k m. induction l' as [|x l' IH]; intros k m q Hq; [done|].
    rewrite (seqZ_cons (Z.of_nat k)) by (cbn [length]; lia).
    cbn [foldl imap length]. rewrite Nat2Z.id, app_nth2, Hq, Nat.sub_diag by lia. cbn [nth fst snd].
    replace (Z.succ (Z.of_nat k)) with (Z.of_nat (S k)) by lia.
    replace (Z.pred (Z.of_nat (S (length l')))) with (Z.of_nat (length l')) by lia.
    replace (q ++ x :: l') with ((q ++ [x]) ++ l') by by rewrite <-app_assoc.
    rewrite IH by (rewrite length_app; cbn; lia). rewrite Nat.add_0_r. f_equal. apply imap_ext.
    intros i y _. cbn. by rewrite Nat.add_succ_r. }
  apply (Hgen 0%nat [] l []). done.
Qed.
Lemma verify_block_iff h :
  verify_block h block_bytes = Ok () ↔
  m_transactionsRoot h = be_val (TrieHash.orderedTrieRoot sha3_bytes (map encode txs)) ∧
  m_sha3Uncles h = tx_hash (encode (List uncles)).
Proof.
  destruct block_good as [Hg Hs]. destruct block_construct as [Hc Hl]. unfold verify_block.
  rewrite Hc. cbn [rlp_error mbind result_bind]. unfold block_bytes.
  destruct (hfield_at block_items Hg Hs 1 _ _ eq_refl (cache_new _)) as (c1&E1&H1). change (Z.of_nat 1) with 1 in E1.
  rewrite E1. cbn [mbind result_bind]. destruct (bo_txs B) as [Htg Hts].
  pose proof (fields_from_read txs Htg (small_60 _ Hts) 0 _ ltac:(lia) (cache_new _)) as Hf.
  change (Z.of_nat 0) with 0 in Hf. rewrite drop_0 in Hf. rewrite Hf. cbn [mbind result_bind].
  rewrite trieRootOver_ordered. 
  destruct (Z.eqb_spec (m_transactionsRoot h)
    (be_val (TrieHash.orderedTrieRoot sha3_bytes (map encode txs)))) as [Heq|Hne]; cbn [negb throw_if mbind result_bind].
  2: { split; [discriminate|]. by intros [? _]. }
  destruct (hfield_at block_items Hg Hs 2 _ _ eq_refl H1) as (c2&E2&H2). change (Z.of_nat 2) with 2 in E2.
  rewrite E2. cbn [mbind result_bind].
  destruct (Z.eqb_spec (m_sha3Uncles h) (tx_hash (encode (List uncles)))) as [Heq'|Hne]; cbn [negb throw_if].
  - done.
  - split; [discriminate|]. by intros [_ ?].
Qed.
Lemma block_not_empty : ∃ b q, block_bytes = b :: q.
Proof.
  unfold block_bytes. cbn [encode]. unfold RLPCodec.header. destruct (_ <? _); cbn [app]; eauto.
Qed.
Lemma headerHash_block : headerHashFromBlock block_bytes = Ok (tx_hash (encode (List header))).
Proof.
  destruct block_good as [Hg Hs]. destruct block_construct as [Hc _]. unfold headerHashFromBlock.
  rewrite Hc. cbn [rlp_error mbind result_bind]. unfold block_bytes.
  destruct (hfield_at block_items Hg Hs 0 _ _ eq_refl (cache_new _)) as (c1&E1&H1). change (Z.of_nat 0) with 0 in E1.
  rewrite E1. reflexivity.
Qed.
End Block.

(** C12. A block, as bytes, is the header it begins with, and is accepted behind a
    parent exactly when: the number fits, the gas used is below the limit, the
    parent is the one that the header names, older and one number less, the
    root of the transactions is the root of the trie of the transactions under
    their indices, and the hash of the uncles is the hash of their list. *)
Theorem block_accepted `{Crypto} s h ts txs uncles p :
  header_ok h ts → block_ok (all_fields h ts WithSeal) txs uncles →
  let block := block_bytes (all_fields h ts WithSeal) txs uncles in
  ∃ h', of_bytes block BlockData 0 = Ok h' ∧ header_eqb h' h = true ∧
    headerHashFromBlock block = Ok (m_hash h') ∧
    (verify s h' p block = Ok () ↔
     m_number h < 2 ^ 32 ∧ (s ≠ CheckNothingNew → m_gasUsed h ≤ m_gasLimit h) ∧ follows h p ∧
     m_transactionsRoot h = be_val (TrieHash.orderedTrieRoot sha3_bytes (map encode txs)) ∧
     m_sha3Uncles h = tx_hash (encode (List uncles))).
Proof.
  intros Hok B block. set (d := encode (List (all_fields h ts WithSeal))).
  exists (with_memo (tx_hash d) 0 h). split_and!.
  - unfold of_bytes, block. rewrite extractHeader_block by done. cbn [mbind result_bind].
    rewrite (populate_fields h ts Hok). reflexivity.
  - unfold header_eqb. cbn [with_memo m_parentHash]. rewrite !Z.eqb_refl. by rewrite bool_decide_true.
  - by apply headerHash_block.
  - rewrite verify_iff. destruct (block_not_empty (all_fields h ts WithSeal) txs uncles) as (b&q&Hb).
    assert (block ≠ []) as Hne by (unfold block; by rewrite Hb).
    pose proof (verify_block_iff _ txs uncles B (with_memo (tx_hash d) 0 h)) as Hv.
    cbn [with_memo m_transactionsRoot m_sha3Uncles] in Hv. fold block in Hv.
    rewrite <-Hv. unfold follows. cbn [with_memo m_number m_gasUsed m_gasLimit m_parentHash m_timestamp].
    split; intros (H1&H2&H3&H4); (split; [exact H1|]); (split; [exact H2|]); (split; [exact H3|]).
    + exact (H4 Hne).
    + intros _. exact H4.
Qed.

(** ** A block of two transactions, behind a parent *)

Definition test_hash : Crypto :=
  {| tx_hash := foldl (λ h b, (h * 31 + b) mod 2 ^ 256) 7; recover := λ _ _, [] |}.
Definition test_txs : list item := [List [num 1; Data [2; 3]]; List []].
Definition test_seal : list item := [Data (hash_bytes 32 8); Data (hash_bytes 8 9)].
Definition test_parent : BlockHeader := mkHeader 0 0 0 0 0 0 4 5000 0 [] 100 9 131072 [] 55 0.
Definition test_header : BlockHeader := Eval vm_compute in
  mkHeader 55 (@tx_hash test_hash (encode (List []))) 3
    (be_val (TrieHash.orderedTrieRoot (@sha3_bytes test_hash) (map encode test_txs)))
    5 6 5 5000 100 [1; 2] 120 77 131072 (map encode test_seal) 0 0.

Ltac words := repeat (apply Forall_cons; split; [split; [discriminate|reflexivity]|]); by apply Forall_nil.
Lemma test_header_ok : header_ok test_header test_seal.
Proof.
  constructor; [words|words|split; [discriminate|reflexivity]..|words| |reflexivity|].
  - split; [words|reflexivity].
  - split; [|reflexivity]. unfold test_seal. apply Forall_cons; split; [apply hash_good; [split; [discriminate|reflexivity]|lia]|].
    apply Forall_cons; split; [apply hash_good; [split; [discriminate|reflexivity]|lia]|by apply Forall_nil].
Defined.
Lemma test_block_ok : block_ok (all_fields test_header test_seal WithSeal) test_txs [].
Proof.
  constructor.
  - split; [exact (all_good _ _ test_header_ok WithSeal)|reflexivity].
  - split; [|reflexivity]. unfold test_txs.
    apply Forall_cons; split; [split; [words|reflexivity]|].
    apply Forall_cons; split; [split; [words|reflexivity]|by apply Forall_nil].
  - split; [by apply Forall_nil|reflexivity].
Defined.

Lemma header_roundtrip_witness :
  ∃ d, header_rlp test_header WithSeal = Ok d ∧
    @of_bytes test_hash d HeaderData 42 = Ok (with_memo 42 0 test_header).
Proof.
  destruct (@header_roundtrip test_hash test_header test_seal 42 test_header_ok) as (d&Hw&Hr).
  exists d. split; [exact Hw|exact Hr].
Defined.
Lemma block_accepted_witness :
  let block := block_bytes (all_fields test_header test_seal WithSeal) test_txs [] in
  ∃ h', @of_bytes test_hash block BlockData 0 = Ok h' ∧
    @verify test_hash CheckEverything h' test_parent block = Ok ().
Proof.
  destruct (@block_accepted test_hash CheckEverything test_header test_seal test_txs [] test_parent
              test_header_ok test_block_ok) as (h'&Hb&_&_&Hv).
  exists h'. split; [exact Hb|]. apply Hv.
  split; [reflexivity|]. split; [intros _; discriminate|]. split; [|split; vm_compute; reflexivity].
  intros _. split; [|split; reflexivity]. right. exists test_parent. reflexivity.
Defined.

(** The timestamp is written as an [unsigned]: one that needs 33 bits is read
    back without its highest bit. *)
Example late_timestamp :
  match header_rlp (setTimestamp (2 ^ 32 + 5) test_header) WithSeal with
  | Ok d => match @of_bytes test_hash d HeaderData 0 with Ok h => m_timestamp h = 5 | Err _ => False end
  | Err _ => False
  end.
Proof. vm_compute. reflexivity. Qed.
End BlockHeaderCodec.
