(* ===== verification/SealEngine.v ===== *)
(** * The parameters of a chain and the seal engine
    (libwingcore/ChainOperationParams.h, ChainOperationParams.cpp,
    SealEngine.h, SealEngine.cpp, libethashseal/Ethash.cpp)

    The rules by which a transaction is accepted, and the precompiled contracts
    of a chain. *)
From S2P Require Import Prelude Instruction TransactionBase BlockHeader.

Module SealEngine.
Import Instruction TransactionBase BlockHeader.

(** [PrecompiledContract]: a pricer, an executor, and the first block *)
Record PrecompiledContract := mkPrecompiled {
  m_cost : bytes → Z;
  m_execute : bytes → bool * bytes;
  m_startingBlock : Z;
}.
(** The constructor with a base price and a price per word *)
Definition linear (base word : Z) (exec : bytes → bool * bytes) (start : Z) : PrecompiledContract :=
  mkPrecompiled (λ in_, base + (Z.of_nat (length in_) + 31) / 32 * word) exec start.

(** [sealEngineName]: the class of the seal engine *)
Inductive SealEngineName := NoProof | BasicAuthority | Ethash.

(** [ChainOperationParams] *)
Record ChainOperationParams := mkParams {
  sealEngineName : SealEngineName;
  m_blockReward : Z;
  maximumExtraDataSize : Z;
  accountStartNonce : Z;
  tieBreakingGas : bool;
  minGasLimit : Z;
  maxGasLimit : Z;
  gasLimitBoundDivisor : Z;
  homesteadForkBlock : Z;
  EIP150ForkBlock : Z;
  EIP158ForkBlock : Z;
  byzantiumForkBlock : Z;
  eWASMForkBlock : Z;
  constantinopleForkBlock : Z;
  daoHardforkBlock : Z;
  chainID : Z;
  networkID : Z;
  minimumDifficulty : Z;
  difficultyBoundDivisor : Z;
  durationLimit : Z;
  allowFutureBlocks : bool;
  precompiled : gmap Z PrecompiledContract;
}.
Definition c_infiniteBlockNumer : Z := 2 ^ 63 - 1.

(** [ChainOperationParams()] *)
Definition default_params : ChainOperationParams :=
  mkParams NoProof 0x4563918244F40000 1024 0 true 0x1388 0x7fffffffffffffff 0x0400
    c_infiniteBlockNumer c_infiniteBlockNumer c_infiniteBlockNumer c_infiniteBlockNumer
    c_infiniteBlockNumer c_infiniteBlockNumer c_infiniteBlockNumer 0 0 0x020000 0x0800 0x0d false ∅.

(** [scheduleForBlockNumber], [evmSchedule] *)
Definition scheduleForBlockNumber (p : ChainOperationParams) (blockNumber : Z) : EVMSchedule :=
  if constantinopleForkBlock p <=? blockNumber then ConstantinopleSchedule
  else if eWASMForkBlock p <=? blockNumber then EWASMSchedule
  else if byzantiumForkBlock p <=? blockNumber then ByzantiumSchedule
  else if EIP158ForkBlock p <=? blockNumber then EIP158Schedule
  else if EIP150ForkBlock p <=? blockNumber then EIP150Schedule
  else if homesteadForkBlock p <=? blockNumber then HomesteadSchedule
  else FrontierSchedule.
(** [blockReward] *)
Definition blockReward (p : ChainOperationParams) (s : EVMSchedule) : Z :=
  match blockRewardOverwrite s with Some r => r | None => m_blockReward p end.

Lemma schedule_ok p n : sched_ok (scheduleForBlockNumber p n).
Proof.
  apply schedules_ok. unfold scheduleForBlockNumber, schedules. repeat case_match; set_solver.
Qed.

(** [isPrecompiled], [costOfPrecompiled], [executePrecompiled]; [at] of an
    address that is not in the map throws. *)
Definition isPrecompiled (p : ChainOperationParams) (a number : Z) : bool :=
  match precompiled p !! a with Some c => m_startingBlock c <=? number | None => false end.

(** [ImportRequirements]: the two requirements on transactions *)
Definition TransactionBasic : Z := 8.
Definition TransactionSignatures : Z := 32.
Definition Everything : Z := 1 + (4 + 16) + (8 + 32) + 64 + 128.
Definition requires (ir r : Z) : bool := negb (Z.land ir r =? 0).

(** [SealEngineFace::verifyTransaction] *)
Definition verifyTransaction_face (p : ChainOperationParams) (ir : Z) (t : TransactionBase)
    (h : BlockHeader) (gasUsed : Z) : result TxError unit :=
  _ ← throw_if (requires ir TransactionSignatures && (m_number h <? EIP158ForkBlock p) &&
                isReplayProtected t) InvalidSignature;
  _ ← throw_if (requires ir TransactionSignatures && (m_number h <? constantinopleForkBlock p) &&
                hasZeroSignature t) InvalidSignature;
  _ ← throw_if (requires ir TransactionBasic && (constantinopleForkBlock p <=? m_number h) &&
                hasZeroSignature t &&
                (negb (m_value t =? 0) || negb (m_gasPrice t =? 0) || negb (m_nonce t =? 0)))
        InvalidZeroSignatureTransaction;
  _ ← (if (homesteadForkBlock p <=? m_number h) && requires ir TransactionSignatures &&
          hasSignature t then checkLowS t else Ok ());
  let schedule := scheduleForBlockNumber p (m_number h) in
  _ ← throw_if (requires ir TransactionBasic && (m_gas t <? baseGasRequired t schedule))
        OutOfGasIntrinsicError;
  throw_if (m_gasLimit h <? gasUsed + m_gas t) BlockGasLimitReached.

(** [Ethash::verifyTransaction] *)
Definition verifyTransaction_Ethash (p : ChainOperationParams) (ir : Z) (t : TransactionBase)
    (h : BlockHeader) (startGasUsed : Z) : result TxError unit :=
  _ ← verifyTransaction_face p ir t h startGasUsed;
  if requires ir TransactionSignatures then
    if EIP158ForkBlock p <=? m_number h then checkChainId (chainID p) t else checkChainId (-4) t
  else Ok ().

(** The virtual function [verifyTransaction] of the seal engine *)
Definition verifyTransaction (p : ChainOperationParams) (ir : Z) (t : TransactionBase)
    (h : BlockHeader) (startGasUsed : Z) : result TxError unit :=
  match sealEngineName p with
  | Ethash => verifyTransaction_Ethash p ir t h startGasUsed
  | NoProof | BasicAuthority => verifyTransaction_face p ir t h startGasUsed
  end.

End SealEngine.
