(* ===== verification/EthashSeal.v ===== *)
(** * The rules of a proof-of-work chain (libethashseal/Ethash.h, Ethash.cpp)

    The difficulty and the gas limit of the child of a block, the checks of a
    header after its parent, and the seal.  The functions of the library ethash
    are the class [EthashLib]. *)
From S2P Require Import Prelude CommonData RLP TransactionBase BlockHeader SealEngine.

(** [ethash::verify] for the epoch of a block, and [ethash::verify_final_hash]:
    of the hash without seal, the mix hash, the nonce and the boundary *)
Class EthashLib := {
  ethash_verify : Z → Z → bytes → bytes → Z → bool;
  ethash_verify_final_hash : Z → bytes → bytes → Z → bool;
}.

Module EthashSeal.
Import CommonData BlockHeader SealEngine.

Section Rules.
Context `{Crypto, EthashLib} (p : ChainOperationParams).

(** Division of unsigned numbers, which throws for zero *)
Definition div (a b : Z) : result HeaderError Z := if b =? 0 then Err DivisionByZero else Ok (a / b).

(** [childGasLimit]; [Invalid256] is the default of the target. *)
Definition Invalid256 : Z := 2 ^ 256 - 1.
Definition childGasLimit (bi : BlockHeader) (gasFloorTarget : Z) : result HeaderError Z :=
  let gasFloorTarget := if gasFloorTarget =? Invalid256 then 3141562 else gasFloorTarget in
  let gasLimit := m_gasLimit bi in
  let boundDivisor := gasLimitBoundDivisor p in
  q ← div gasLimit boundDivisor;
  if gasLimit <? gasFloorTarget then Ok (Z.min gasFloorTarget (u256 (gasLimit + q - 1)))
  else
    u ← div (u256 (m_gasUsed bi * 6) / 5) boundDivisor;
    Ok (Z.max gasFloorTarget (u256 (gasLimit - q + 1 + u))).

(** [calculateDifficulty] *)
Definition c_expDiffPeriod : Z := 100000.
Definition target (bi parent : BlockHeader) : result HeaderError Z :=
  if m_number bi <? homesteadForkBlock p then
    q ← div (m_difficulty parent) (difficultyBoundDivisor p);
    Ok (if u256 (m_timestamp parent + durationLimit p) <=? m_timestamp bi
        then u256 (m_difficulty parent - q) else u256 (m_difficulty parent + q))
  else
    let timestampDiff := m_timestamp bi - m_timestamp parent in
    let adjFactor :=
      if m_number bi <? byzantiumForkBlock p then Z.max (1 - Z.quot timestampDiff 10) (-99)
      else Z.max ((if hasUncles parent then 2 else 1) - Z.quot timestampDiff 9) (-99) in
    Ok (m_difficulty parent + m_difficulty parent / 2048 * adjFactor).
Definition exponentialIceAgeBlockNumber (bi parent : BlockHeader) : Z :=
  let n := u32 (m_number parent + 1) in
  if byzantiumForkBlock p <=? m_number bi then (if 3000000 <=? n then n - 3000000 else 0) else n.
Definition ice_age (bi parent : BlockHeader) : Z :=
  let periodCount := exponentialIceAgeBlockNumber bi parent / c_expDiffPeriod in
  if 1 <? periodCount then Z.shiftl 1 (periodCount - 2) else 0.
Definition calculateDifficulty (bi parent : BlockHeader) : result HeaderError Z :=
  if m_number bi =? 0 then Err GenesisBlockCannotBeCalculated
  else
    t ← target bi parent;
    let o := t + ice_age bi parent in
    let o := Z.max (minimumDifficulty p) o in
    Ok (Z.min o (2 ^ 256 - 1)).

(** [populateFromParent] *)
Definition populateFromParent (bi parent : BlockHeader) : result HeaderError BlockHeader :=
  let bi := BlockHeader.populateFromParent parent bi in
  d ← calculateDifficulty bi parent;
  let bi := setDifficulty d bi in
  g ← childGasLimit parent Invalid256;
  Ok (setGasLimit g bi).

(** [nonce], [mixHash], [boundary]; the boundary of difficulty 1 is [2 ^ 256],
    which a [u256] does not hold. *)
Definition MixHashField : nat := 0.
Definition NonceField : nat := 1.
Definition nonce (bi : BlockHeader) : result HeaderError bytes := seal 8 NonceField bi.
Definition mixHash (bi : BlockHeader) : result HeaderError bytes := seal 32 MixHashField bi.
Definition boundary (bi : BlockHeader) : Z :=
  let d := m_difficulty bi in if negb (d =? 0) then u256 (2 ^ 256 / d) else 0.

(** [verifySeal], [quickVerifySeal] *)
Definition verifySeal (bi : BlockHeader) : result HeaderError bool :=
  '(h, _) ← hash WithoutSeal bi;
  n ← nonce bi;
  m ← mixHash bi;
  Ok (ethash_verify (m_number bi) h m n (boundary bi)).
Definition quickVerifySeal (bi : BlockHeader) : result HeaderError bool :=
  '(h, _) ← hash WithoutSeal bi;
  n ← nonce bi;
  m ← mixHash bi;
  Ok (ethash_verify_final_hash h m n (boundary bi)).

(** [verify] *)
Definition dao_extra_data : bytes := [0x64; 0x61; 0x6f; 0x2d; 0x68; 0x61; 0x72; 0x64; 0x2d; 0x66; 0x6f; 0x72; 0x6b].
Definition verify_limits (bi : BlockHeader) : result HeaderError unit :=
  _ ← throw_if (m_difficulty bi <? minimumDifficulty p) InvalidDifficulty;
  _ ← throw_if (m_gasLimit bi <? minGasLimit p) InvalidGasLimit;
  _ ← throw_if (maxGasLimit p <? m_gasLimit bi) InvalidGasLimit;
  _ ← throw_if (negb (m_number bi =? 0) && (maximumExtraDataSize p <? Z.of_nat (length (m_extraData bi))))
        ExtraDataTooBig;
  let daoHardfork := daoHardforkBlock p in
  throw_if (negb (daoHardfork =? 0) && (daoHardfork <=? u256 (daoHardfork + 9)) &&
            (daoHardfork <=? m_number bi) && (m_number bi <=? u256 (daoHardfork + 9)) &&
            negb (bool_decide (m_extraData bi = dao_extra_data))) ExtraDataIncorrect.
Definition verify_parent (bi parent : BlockHeader) : result HeaderError unit :=
  expected ← calculateDifficulty bi parent;
  _ ← throw_if (negb (m_difficulty bi =? expected)) InvalidDifficulty;
  let gasLimit := m_gasLimit bi in
  let parentGasLimit := m_gasLimit parent in
  if (gasLimit <? minGasLimit p) || (maxGasLimit p <? gasLimit) then Err InvalidGasLimit
  else
    q ← div parentGasLimit (gasLimitBoundDivisor p);
    throw_if ((gasLimit <=? u256 (parentGasLimit - q)) || (u256 (parentGasLimit + q) <=? gasLimit))
      InvalidGasLimit.
Definition verify (s : Strictness) (bi parent : BlockHeader) (block : bytes) : result HeaderError unit :=
  _ ← BlockHeader.verify s bi parent block;
  _ ← (if bool_decide (s = CheckNothingNew) then Ok () else verify_limits bi);
  _ ← (if is_set parent then verify_parent bi parent else Ok ());
  if bool_decide (s = CheckEverything) && negb (m_parentHash bi =? 0) then
    ok ← verifySeal bi; throw_if (negb ok) InvalidBlockNonce
  else if bool_decide (s = QuickNonce) && negb (m_parentHash bi =? 0) then
    ok ← quickVerifySeal bi; throw_if (negb ok) InvalidBlockNonce
  else Ok ().

(** ** The difficulty *)

(** The amount of ice does not depend on the time. *)
Lemma ice_age_nonneg bi parent : 0 ≤ ice_age bi parent.
Proof. unfold ice_age. destruct (_ <? _); [|done]. apply Z.shiftl_nonneg. lia. Qed.

(** What the chain and the parent are to be, to compute the difficulty of a
    child: the numbers have their sizes, and in the days of Frontier one step up
    fits. *)
Record parent_ok (n : Z) (parent : BlockHeader) : Prop := {
  po_number : n ≠ 0;
  po_minimum : in_word 256 (minimumDifficulty p);
  po_difficulty : in_word 256 (m_difficulty parent);
  po_frontier : n < homesteadForkBlock p →
    0 < difficultyBoundDivisor p ∧
    m_difficulty parent + m_difficulty parent / difficultyBoundDivisor p < 2 ^ 256;
}.

(** A step of the difficulty down and up *)
Definition step_down (n : Z) (parent : BlockHeader) : Z :=
  if n <? homesteadForkBlock p then m_difficulty parent / difficultyBoundDivisor p
  else 99 * (m_difficulty parent / 2048).
Definition step_up (n : Z) (parent : BlockHeader) : Z :=
  if n <? homesteadForkBlock p then m_difficulty parent / difficultyBoundDivisor p
  else (if (byzantiumForkBlock p <=? n) && hasUncles parent then 2 else 1) * (m_difficulty parent / 2048).

Lemma target_spec bi parent :
  parent_ok (m_number bi) parent →
  ∃ t, target bi parent = Ok t ∧ m_difficulty parent - step_down (m_number bi) parent ≤ t ∧
    (m_timestamp parent ≤ m_timestamp bi → t ≤ m_difficulty parent + step_up (m_number bi) parent).
Proof.
  intros [_ _ [Hd0 Hd1] Hf]. unfold target, step_down, step_up.
  destruct (Z.ltb_spec (m_number bi) (homesteadForkBlock p)) as [Hn|Hn].
  - destruct (Hf Hn) as [Hdiv Hup]. unfold div.
    destruct (Z.eqb_spec (difficultyBoundDivisor p) 0) as [?|_]; [lia|]. cbn [mbind result_bind].
    pose proof (Z.div_pos (m_difficulty parent) _ Hd0 Hdiv) as Hq0.
    pose proof (Z.div_le_upper_bound (m_difficulty parent) (difficultyBoundDivisor p) (m_difficulty parent) Hdiv
                  ltac:(nia)) as Hq1.
    eexists. split; [reflexivity|]. rewrite (wrap_small 256 (_ - _)), (wrap_small 256 (m_difficulty _ + _)) by (split; lia).
    destruct (_ <=? _); lia.
  - cbn [mbind result_bind]. eexists. split; [reflexivity|].
    pose proof (Z.div_pos (m_difficulty parent) 2048 Hd0 ltac:(lia)) as Hq0.
    destruct (Z.ltb_spec (m_number bi) (byzantiumForkBlock p)), (Z.leb_spec (byzantiumForkBlock p) (m_number bi));
      try lia; cbn [andb].
    + split; [nia|]. intros Ht. pose proof (Z.quot_pos (m_timestamp bi - m_timestamp parent) 10 ltac:(lia) ltac:(lia)).
      nia.
    + split; [nia|]. intros Ht. pose proof (Z.quot_pos (m_timestamp bi - m_timestamp parent) 9 ltac:(lia) ltac:(lia)).
      destruct (hasUncles parent); nia.
Qed.
Lemma calculateDifficulty_clamp bi parent :
  parent_ok (m_number bi) parent →
  ∃ t, target bi parent = Ok t ∧
    calculateDifficulty bi parent =
      Ok (Z.min (Z.max (minimumDifficulty p) (t + ice_age bi parent)) (2 ^ 256 - 1)).
Proof.
  intros Hp. destruct (target_spec bi parent Hp) as (t&Ht&_). exists t. split; [done|].
  unfold calculateDifficulty. destruct (Z.eqb_spec (m_number bi) 0); [by destruct (po_number _ _ Hp)|].
  rewrite Ht. reflexivity.
Qed.
End Rules.

(** C22. The difficulty of a child is a 256-bit number that is not below the
    minimum; it is at most one step below the difficulty of the parent, and,
    behind the parent, at most one step and the ice above it. *)
Theorem difficulty_bounds `{Crypto} p bi parent :
  parent_ok p (m_number bi) parent →
  ∃ d, calculateDifficulty p bi parent = Ok d ∧ in_word 256 d ∧ minimumDifficulty p ≤ d ∧
    m_difficulty parent - step_down p (m_number bi) parent ≤ d ∧
    (m_timestamp parent ≤ m_timestamp bi →
     d ≤ Z.max (minimumDifficulty p)
           (m_difficulty parent + step_up p (m_number bi) parent + ice_age p bi parent)).
Proof.
  intros Hp. destruct (target_spec p bi parent Hp) as (t&Ht&Hdown&Hup).
  destruct (calculateDifficulty_clamp p bi parent Hp) as (t'&Ht'&Hd). rewrite Ht in Ht'. injection Ht' as <-.
  pose proof (ice_age_nonneg p bi parent). destruct (po_minimum _ _ _ Hp) as [? ?].
  destruct (po_difficulty _ _ _ Hp) as [? ?].
  assert (0 ≤ step_down p (m_number bi) parent).
  { unfold step_down. destruct (Z.ltb_spec (m_number bi) (homesteadForkBlock p)) as [Hn|Hn].
    - destruct (po_frontier _ _ _ Hp Hn). by apply Z.div_pos.
    - pose proof (Z.div_pos (m_difficulty parent) 2048). lia. }
  eexists. split; [exact Hd|]. unfold in_word. split_and!; [lia..|]. intros Hts. specialize (Hup Hts). lia.
Qed.

(** The later a block comes, the lower its difficulty. *)
Theorem difficulty_monotone `{Crypto} p bi bi' parent :
  parent_ok p (m_number bi) parent → m_number bi' = m_number bi →
  m_timestamp bi ≤ m_timestamp bi' →
  ∃ d d', calculateDifficulty p bi parent = Ok d ∧ calculateDifficulty p bi' parent = Ok d' ∧ d' ≤ d.
Proof.
  intros Hp Hn Hts. assert (parent_ok p (m_number bi') parent) as Hp' by (by rewrite Hn).
  destruct (calculateDifficulty_clamp p bi parent Hp) as (t&Ht&->).
  destruct (calculateDifficulty_clamp p bi' parent Hp') as (t'&Ht'&->).
  do 2 eexists. split; [reflexivity|]. split; [reflexivity|].
  assert (ice_age p bi' parent = ice_age p bi parent) as ->.
  { unfold ice_age, exponentialIceAgeBlockNumber. by rewrite Hn. }
  assert (t' ≤ t); [|lia]. destruct Hp as [_ _ [Hd0 Hd1] Hf]. revert Ht Ht'. unfold target. rewrite Hn.
  destruct (Z.ltb_spec (m_number bi) (homesteadForkBlock p)) as [Hm|Hm].
  - destruct (Hf Hm) as [Hdiv Hup]. unfold div.
    destruct (Z.eqb_spec (difficultyBoundDivisor p) 0) as [?|_]; [lia|]. cbn [mbind result_bind].
    pose proof (Z.div_pos (m_difficulty parent) _ Hd0 Hdiv) as Hq0.
    pose proof (Z.div_le_upper_bound (m_difficulty parent) (difficultyBoundDivisor p) (m_difficulty parent) Hdiv
                  ltac:(nia)) as Hq1.
    rewrite (wrap_small 256 (_ - _)), (wrap_small 256 (m_difficulty _ + _)) by (split; lia).
    intros [= <-] [= <-].
    destruct (Z.leb_spec (u256 (m_timestamp parent + durationLimit p)) (m_timestamp bi)),
      (Z.leb_spec (u256 (m_timestamp parent + durationLimit p)) (m_timestamp bi')); lia.
  - cbn [mbind result_bind]. intros [= <-] [= <-].
    pose proof (Z.div_pos (m_difficulty parent) 2048 Hd0 ltac:(lia)) as Hq0.
    pose proof (Z.quot_le_mono (m_timestamp bi - m_timestamp parent) (m_timestamp bi' - m_timestamp parent) 10).
    pose proof (Z.quot_le_mono (m_timestamp bi - m_timestamp parent) (m_timestamp bi' - m_timestamp parent) 9).
    destruct (_ <? _); [nia|]. destruct (hasUncles parent); nia.
Qed.

(** ** Children *)

Section Children.
Context `{Crypto, EthashLib} (p : ChainOperationParams).

(** A parent with a gas limit that a child can move: a step is three units or
    more. *)
Record gas_ok (parent : BlockHeader) : Prop := {
  go_divisor : 0 < gasLimitBoundDivisor p;
  go_limit : m_gasLimit parent < 2 ^ 255;
  go_step : 3 ≤ m_gasLimit parent / gasLimitBoundDivisor p;
  go_used : 0 ≤ m_gasUsed parent ≤ m_gasLimit parent;
}.

Lemma childGasLimit_spec parent :
  gas_ok parent →
  let q := m_gasLimit parent / gasLimitBoundDivisor p in
  ∃ g, childGasLimit p parent Invalid256 = Ok g ∧
    m_gasLimit parent - q < g < m_gasLimit parent + q ∧
    Z.min (m_gasLimit parent) 3141562 ≤ g ∧ in_word 256 g.
Proof.
  intros [Hdiv Hl Hq Hu] q. unfold childGasLimit.
  change (Invalid256 =? Invalid256) with true. cbv beta iota zeta. unfold div.
  destruct (Z.eqb_spec (gasLimitBoundDivisor p) 0) as [?|_]; [lia|]. cbn [mbind result_bind].
  change (2 ^ 255) with 57896044618658097711785492504343953926634992332820282019728792003956564819968 in *.
  fold q in Hq |- *. unfold in_word.
  assert (2 ^ 256 = 2 * 57896044618658097711785492504343953926634992332820282019728792003956564819968) as H256 by done.
  pose proof (Z.mul_div_le (m_gasLimit parent) _ Hdiv) as Hm. fold q in Hm.
  pose proof (Z.mul_succ_div_gt (m_gasLimit parent) _ Hdiv) as Hm'. fold q in Hm'.
  assert (q ≤ m_gasLimit parent) by nia.
  destruct (Z.ltb_spec (m_gasLimit parent) 3141562) as [Hlt|Hge].
  - eexists. split; [reflexivity|]. rewrite wrap_small by (split; rewrite ?H256; lia). rewrite H256. lia.
  - set (u := u256 (m_gasUsed parent * 6) / 5 / gasLimitBoundDivisor p).
    assert (0 ≤ u ≤ 2 * q - 2) as Hub.
    { assert (0 ≤ u256 (m_gasUsed parent * 6) ≤ m_gasUsed parent * 6) as Hw.
      { unfold wrap. split; [apply Z.mod_pos_bound; done|apply Z.mod_le; [lia|done]]. }
      pose proof (Z.mul_div_le (u256 (m_gasUsed parent * 6)) 5 ltac:(lia)) as Hw1.
      pose proof (Z.div_pos (u256 (m_gasUsed parent * 6)) 5 ltac:(lia) ltac:(lia)) as Hw0.
      split; [by apply Z.div_pos|].
      pose proof (Z.mul_div_le (u256 (m_gasUsed parent * 6) / 5) _ Hdiv) as Hw2. fold u in Hw2.
      assert (5 * gasLimitBoundDivisor p * u < 6 * gasLimitBoundDivisor p * (q + 1)) as Hw3 by lia.
      assert (5 * u < 6 * (q + 1)) by nia. lia. }
    eexists. split; [reflexivity|]. rewrite wrap_small by (split; rewrite ?H256; lia). rewrite H256. lia.
Qed.

(** A header that is to become the child of [parent] *)
Record mineable (bi parent : BlockHeader) : Prop := {
  mi_number : 0 ≤ m_number parent ∧ m_number parent + 1 < 2 ^ 32;
  mi_time : m_timestamp parent < m_timestamp bi;
  mi_parent : parent_ok p (m_number parent + 1) parent;
  mi_gas : gas_ok parent;
  mi_limits : minGasLimit p ≤ Z.min (m_gasLimit parent) 3141562 ∧
    m_gasLimit parent + m_gasLimit parent / gasLimitBoundDivisor p ≤ maxGasLimit p;
  mi_extra : Z.of_nat (length (m_extraData bi)) ≤ maximumExtraDataSize p;
  mi_dao : daoHardforkBlock p = 0 ∨ m_extraData bi = dao_extra_data ∨
    m_number parent + 1 < daoHardforkBlock p ∨ u256 (daoHardforkBlock p + 9) < m_number parent + 1;
}.
Context (bi parent : BlockHeader) (M : mineable bi parent).

Lemma populated :
  ∃ d g h, calculateDifficulty p (BlockHeader.populateFromParent parent bi) parent = Ok d ∧
    childGasLimit p parent Invalid256 = Ok g ∧
    populateFromParent p bi parent = Ok h ∧
    h = setGasLimit g (setDifficulty d (BlockHeader.populateFromParent parent bi)).
Proof.
  destruct (calculateDifficulty_clamp p (BlockHeader.populateFromParent parent bi) parent (mi_parent _ _ M))
    as (t&_&Hd).
  destruct (childGasLimit_spec parent (mi_gas _ _ M)) as (g&Hg&_).
  do 3 eexists. split; [exact Hd|]. split; [exact Hg|]. unfold populateFromParent. rewrite Hd.
  cbn [mbind result_bind]. rewrite Hg. split; reflexivity.
Qed.
Lemma populated_follows s d g :
  0 ≤ g → BlockHeader.verify s (setGasLimit g (setDifficulty d (BlockHeader.populateFromParent parent bi)))
            parent [] = Ok ().
Proof.
  intros Hg. destruct (mi_number _ _ M) as [Hn0 Hn]. pose proof (mi_time _ _ M) as Ht.
  apply verify_iff. unfold follows. cbn. split; [exact Hn|]. split; [done|]. split; [|done].
  intros _. split; [|done]. destruct (decide (m_hash parent = 0)) as [|Hne]; [by left|right].
  exists parent. unfold hash. apply Z.eqb_neq in Hne. by rewrite Hne.
Qed.
End Children.

(** C14. A header that is made the child of its parent is accepted behind it, except
    for the seal that it has not got yet. *)
Theorem populated_accepted `{Crypto, EthashLib} p s bi parent :
  mineable p bi parent → s ≠ CheckEverything → s ≠ QuickNonce →
  ∃ h, populateFromParent p bi parent = Ok h ∧ verify p s h parent [] = Ok ().
Proof.
  intros M Hs1 Hs2. destruct (populated p bi parent M) as (d&g&h&Hd&Hg&Hh&->).
  eexists. split; [exact Hh|]. unfold verify.
  destruct (childGasLimit_spec p parent (mi_gas _ _ _ M)) as (g'&Hg'&Hgq&Hgf&[Hg0 _]).
  rewrite Hg in Hg'. injection Hg' as <-. rewrite (populated_follows p bi parent M) by done. cbn [mbind result_bind].
  destruct (mi_limits _ _ _ M) as [Hl1 Hl2].
  assert (verify_limits p (setGasLimit g (setDifficulty d (BlockHeader.populateFromParent parent bi))) = Ok ()) as ->.
  { unfold verify_limits. cbn.
    destruct (calculateDifficulty_clamp p (BlockHeader.populateFromParent parent bi) parent (mi_parent _ _ _ M))
      as (t&_&Hd'). rewrite Hd in Hd'. injection Hd' as Hd'.
    destruct (po_minimum _ _ _ (mi_parent _ _ _ M)) as [_ ?].
    destruct (Z.ltb_spec d (minimumDifficulty p)); [lia|]. destruct (Z.ltb_spec g (minGasLimit p)); [lia|].
    destruct (Z.ltb_spec (maxGasLimit p) g); [lia|]. pose proof (mi_extra _ _ _ M).
    destruct (Z.ltb_spec (maximumExtraDataSize p) (Z.of_nat (length (m_extraData bi)))); [lia|].
    rewrite andb_false_r. destruct (mi_dao _ _ _ M) as [-> |[-> |[Hdao|Hdao]]].
    - reflexivity.
    - cbn. by rewrite bool_decide_true, andb_false_r by done.
    - apply Z.leb_gt in Hdao. by rewrite Hdao, andb_false_r.
    - apply Z.leb_gt in Hdao. by rewrite Hdao, andb_false_r. }
  rewrite (bool_decide_false (s = CheckEverything)), (bool_decide_false (s = QuickNonce)) by done. cbn [andb].
  assert (verify_parent p (setGasLimit g (setDifficulty d (BlockHeader.populateFromParent parent bi))) parent = Ok ()) as ->.
  { unfold verify_parent.
    change (calculateDifficulty p (setGasLimit g _) parent)
      with (calculateDifficulty p (BlockHeader.populateFromParent parent bi) parent).
    rewrite Hd. cbn. rewrite Z.eqb_refl. cbn.
    destruct (Z.ltb_spec g (minGasLimit p)); [lia|]. destruct (Z.ltb_spec (maxGasLimit p) g); [lia|]. cbn.
    destruct (mi_gas _ _ _ M) as [Hdiv Hl Hq _]. unfold div.
    destruct (Z.eqb_spec (gasLimitBoundDivisor p) 0); [lia|]. cbn [mbind result_bind].
    assert (2 ^ 256 = 2 * 2 ^ 255) as H256 by done. set (B := 2 ^ 255) in *.
    pose proof (Z.mul_div_le (m_gasLimit parent) _ Hdiv).
    assert (m_gasLimit parent / gasLimitBoundDivisor p ≤ m_gasLimit parent) by nia.
    rewrite !wrap_small by (split; rewrite ?H256; lia).
    destruct (Z.leb_spec g (m_gasLimit parent - m_gasLimit parent / gasLimitBoundDivisor p)); [lia|].
    destruct (Z.leb_spec (m_gasLimit parent + m_gasLimit parent / gasLimitBoundDivisor p) g); [lia|].
    reflexivity. }
  by destruct (bool_decide _), (is_set parent).
Qed.

(** ** The main network *)

Definition test_hash : Crypto := {| tx_hash := λ bs, Z.of_nat (length bs); recover := λ _ _, [] |}.
Definition test_ethash : EthashLib :=
  {| ethash_verify := λ _ _ _ _ _, true; ethash_verify_final_hash := λ _ _ _ _, true |}.
(** The forks of the main network that the difficulty depends on *)
Definition main_params : ChainOperationParams :=
  mkParams Ethash 0 32 0 false 5000 (2 ^ 63 - 1) 1024 1150000 2463000 2675000 4370000
    c_infiniteBlockNumer c_infiniteBlockNumer 1920000 1 1 131072 2048 13 false ∅.
Definition at_block (number timestamp difficulty gasLimit gasUsed uncles : Z) : BlockHeader :=
  mkHeader 1 uncles 2 3 4 0 number gasLimit gasUsed [] timestamp 5 difficulty [] 6 0.
Definition parent_4500000 : BlockHeader := at_block 4500000 1509000000 1500000000000000 6700000 6600000 7.

(** The first block behind the genesis block *)
Example main_block_1 :
  calculateDifficulty (H := test_hash) main_params (at_block 1 1438269988 0 0 0 0) (at_block 0 0 17179869184 5000 0 0)
  = Ok 17171480576.
Proof. reflexivity. Qed.

Lemma parent_4500000_ok : @parent_ok main_params 4500001 parent_4500000.
Proof.
  constructor; [discriminate|split; [discriminate|reflexivity]..|discriminate].
Defined.
Lemma difficulty_bounds_witness :
  ∃ d, calculateDifficulty (H := test_hash) main_params (at_block 4500001 1509000030 0 0 0 0) parent_4500000 = Ok d ∧
    131072 ≤ d ∧ 1427490234375000 ≤ d.
Proof.
  destruct (@difficulty_bounds test_hash main_params (at_block 4500001 1509000030 0 0 0 0) parent_4500000
              parent_4500000_ok) as (d&Hd&_&Hmin&Hlow&_).
  exists d. split; [exact Hd|]. split; [exact Hmin|exact Hlow].
Defined.
Lemma difficulty_monotone_witness :
  ∃ d d', calculateDifficulty (H := test_hash) main_params (at_block 4500001 1509000030 0 0 0 0) parent_4500000 = Ok d ∧
    calculateDifficulty (H := test_hash) main_params (at_block 4500001 1509000060 0 0 0 0) parent_4500000 = Ok d' ∧
    d' ≤ d.
Proof.
  apply (@difficulty_monotone test_hash main_params (at_block 4500001 1509000030 0 0 0 0)
           (at_block 4500001 1509000060 0 0 0 0) parent_4500000 parent_4500000_ok); [reflexivity|discriminate].
Defined.
Lemma populated_accepted_witness :
  ∃ h, @populateFromParent test_hash main_params (at_block 0 1509000030 0 0 0 0) parent_4500000 = Ok h ∧
    @verify test_hash test_ethash main_params IgnoreSeal h parent_4500000 [] = Ok ().
Proof.
  apply (@populated_accepted test_hash test_ethash main_params IgnoreSeal (at_block 0 1509000030 0 0 0 0)
           parent_4500000); [|discriminate|discriminate].
  constructor; [split; [discriminate|reflexivity]|reflexivity|exact parent_4500000_ok| |split; discriminate|
    discriminate|].
  - constructor; [reflexivity|reflexivity|discriminate|split; discriminate].
  - right. right. right. reflexivity.
Defined.
End EthashSeal.
