(* ===== verification/BasicAuthority.v ===== *)
(** * The seal of a list of authorities (libwingcore/BasicAuthority.h, BasicAuthority.cpp)

    The seal of a block is the signature of an authority.  Signing is the class
    [AuthorityLib], whose law says that a signature gives back its signer. *)
From S2P Require Import Prelude CommonData RLP RLPCodec RLPFields TransactionBase BlockHeader SealEngine.

(** [sign] of a secret and a hash, as the 65 bytes of a signature, and the
    public key of a secret *)
Class AuthorityLib := { sign : Z → Z → bytes; toPublic : Z → bytes }.
(** [Signature] as [SignatureStruct]: the two numbers and the last byte *)
Definition to_struct (s : bytes) : SignatureStruct :=
  mkSignature (be_val (take 32 s)) (be_val (take 32 (drop 32 s))) (nth 64 s 0).
Class AuthorityLaws `{Crypto, AuthorityLib} : Prop := {
  sign_bytes k h : bytes_ok (sign k h) ∧ length (sign k h) = 65%nat;
  sign_recover k h : recover (to_struct (sign k h)) h = toPublic k;
}.

Module BasicAuthority.
Import CommonData RLP RLPCodec RLPFields BlockHeader.

Section Authority.
Context `{Crypto, AuthorityLib}.

Record Authority := mkAuthority { m_secret : Z; m_authorities : gset Z }.
(** [toAddress] of a public key *)
Definition toAddress (pub : bytes) : Z := u160 (tx_hash pub).

(** [sig], [setSig] *)
Definition sig (bi : BlockHeader) : result HeaderError bytes := seal 65 0 bi.
Definition setSig (s : bytes) (bi : BlockHeader) : BlockHeader := setSeal 0 s bi.

(** [shouldSeal], of the time of the pending block, the time, and whether
    transactions are pending *)
Definition shouldSeal (timestamp utcTime : Z) (pending : bool) : bool :=
  (timestamp + 5 <=? utcTime) || ((timestamp <=? utcTime) && pending).
(** [generateSeal]: what is handed to the callback of the sealing *)
Definition generateSeal (a : Authority) (bi : BlockHeader) : result HeaderError BlockHeader :=
  '(h, bi) ← hash WithoutSeal bi;
  Ok (setSig (sign (m_secret a) h) bi).
(** [populateFromParent]: a pseudo-random difficulty *)
Definition populateFromParent (a : Authority) (bi parent : BlockHeader) : BlockHeader :=
  let bi := BlockHeader.populateFromParent parent bi in
  let d := be_val (take 4 (hash_bytes 32 (tx_hash (hash_bytes 32
    (Z.lxor (tx_hash (hash_bytes 32 (m_secret a))) (m_parentHash bi)))))) in
  setDifficulty d bi.
(** [verify] *)
Definition verify (a : Authority) (s : Strictness) (bi parent : BlockHeader) (block : bytes)
    : result HeaderError unit :=
  _ ← BlockHeader.verify s bi parent block;
  sg ← sig bi;
  '(h, _) ← hash WithoutSeal bi;
  let signer := toAddress (recover (to_struct sg) h) in
  if bool_decide (s = CheckEverything) && negb (m_parentHash bi =? 0) && negb (bool_decide (signer ∈ m_authorities a))
  then Err InvalidBlockNonce
  else if bool_decide (s = QuickNonce) && negb (m_parentHash bi =? 0) && negb (TransactionBase.isValid (to_struct sg))
  then Err InvalidBlockNonce
  else Ok ().
End Authority.

Section Sealed.
Context {CR : Crypto} {AL : AuthorityLib} {LAW : AuthorityLaws}.

Lemma sig_setSig s bi : bytes_ok s → length s = 65%nat → sig (setSig s bi) = Ok s.
Proof.
  intros Hok Hl. unfold sig, setSig, seal. cbn [setSeal m_seal].
  rewrite list_lookup_insert_eq by (rewrite length_app, length_replicate; lia).
  assert (field_good (Data s)) as Hg by (apply bytes_good; [done|]; unfold size; rewrite Hl; done).
  rewrite construct_framed; [|by apply encode_framed, Hg|destruct Hg; lia].
  cbn [mbind result_bind]. rewrite (toHash_data 65) by (done || (unfold size; by rewrite Hl)). done.
Qed.
(** The hash that is signed does not depend on the seal. *)
Lemma hash_setSig s bi h bi' :
  m_hashWithout bi = 0 → hash WithoutSeal bi = Ok (h, bi') →
  hash WithoutSeal (setSig s bi') = Ok (h, with_memo 0 h (setSig s bi')).
Proof.
  unfold hash. intros Hm. rewrite Hm. cbn [Z.eqb]. intros (d&Hd&Hr)%bind_Ok_inv.
  cbv beta iota in Hr. injection Hr as <- <-.
  change (header_rlp (setSig s (with_memo (m_hash bi) (tx_hash d) bi)) WithoutSeal) with (header_rlp bi WithoutSeal).
  by rewrite Hd.
Qed.

(** C21. A block that was sealed is accepted with the seal of a known authority,
    exactly when its header is; with the seal of anybody else it is not. *)
Theorem sealed_accepted a b bi parent block sealed :
  m_hashWithout bi = 0 → m_parentHash bi ≠ 0 → generateSeal a bi = Ok sealed →
  verify b CheckEverything sealed parent block =
  (_ ← BlockHeader.verify CheckEverything sealed parent block;
   throw_if (negb (bool_decide (toAddress (toPublic (m_secret a)) ∈ m_authorities b))) InvalidBlockNonce).
Proof.
  unfold generateSeal. intros Hm Hp ([h bi']&Hh&Hs)%bind_Ok_inv. cbv beta iota in Hs. injection Hs as <-.
  pose proof (hash_setSig (sign (m_secret a) h) bi h bi' Hm Hh) as Hhash.
  assert (m_parentHash (setSig (sign (m_secret a) h) bi') = m_parentHash bi) as Hph.
  { unfold hash in Hh. rewrite Hm in Hh. cbn [Z.eqb] in Hh. apply bind_Ok_inv in Hh as (d&_&Hr).
    cbv beta iota in Hr. by injection Hr as _ <-. }
  destruct (sign_bytes (m_secret a) h) as [Hok Hl]. unfold verify.
  destruct (BlockHeader.verify _ _ _ _) as [[]|e]; [|reflexivity]. cbn [mbind result_bind].
  rewrite sig_setSig by done. cbn [mbind result_bind]. rewrite Hhash. cbn [mbind result_bind].
  rewrite sign_recover, Hph, (proj2 (Z.eqb_neq _ _) Hp).
  generalize (bool_decide (toAddress (toPublic (m_secret a)) ∈ m_authorities b)). intros known.
  rewrite (bool_decide_eq_true_2 (CheckEverything = CheckEverything)) by done.
  rewrite (bool_decide_eq_false_2 (CheckEverything = QuickNonce)) by done.
  destruct known; reflexivity.
Qed.
End Sealed.

(** A toy signature: the secret, the hash and nothing else *)
#[local] Instance test_hash : Crypto :=
  {| tx_hash := λ bs, Z.of_nat (length bs) + 7; recover := λ v _, hash_bytes 32 (sig_r v) |}.
#[local] Instance test_sign : AuthorityLib :=
  {| sign := λ k _, hash_bytes 32 (k mod 2 ^ 256) ++ replicate 33 0; toPublic := λ k, hash_bytes 32 (k mod 2 ^ 256) |}.
#[local] Instance test_laws : AuthorityLaws.
Proof.
  assert (∀ k, in_word (8 * Z.of_nat 32) (k mod 2 ^ 256)) as Hk.
  { intros k. apply Z.mod_pos_bound. done. }
  split; intros k h; destruct (hash_bytes_spec 32 _ (Hk k)) as (Hok&Hl&Hv); cbn [sign recover test_sign test_hash toPublic].
  - split; [|rewrite length_app, length_replicate, Hl; done]. apply bytes_ok_app. split; [done|].
    apply Forall_replicate. done.
  - unfold to_struct. cbn [sig_r]. rewrite take_app_length' by done. by rewrite Hv.
Qed.
Definition test_block : BlockHeader := mkHeader 5 6 7 8 9 0 4 5000 100 [] 60 3 131072 [] 0 0.
Lemma sealed_accepted_witness :
  ∃ sealed, generateSeal (mkAuthority 11 ∅) test_block = Ok sealed ∧
    verify (mkAuthority 0 {[39]}) CheckEverything sealed null_header [] = Ok () ∧
    verify (mkAuthority 0 {[40]}) CheckEverything sealed null_header [] = Err InvalidBlockNonce.
Proof.
  destruct (generateSeal (mkAuthority 11 ∅) test_block) as [sealed|] eqn:E; [|vm_compute in E; discriminate].
  exists sealed. split; [reflexivity|].
  rewrite !(sealed_accepted (mkAuthority 11 ∅) _ test_block null_header [] sealed eq_refl ltac:(discriminate) E).
  vm_compute in E. injection E as <-. split; vm_compute; reflexivity.
Defined.
End BasicAuthority.
