(* ===== verification/BlockQueue.v ===== *)
(** * The block queue (libwing/BlockQueue.h, BlockQueue.cpp)

    Blocks between the network and the chain: those that wait for their parent
    or their time, those that wait for a verifier, and those that are ready for
    the chain in an order in which parents come first.  The chain is the class
    [ChainFace]; the jobs of the verifier threads are part of the state of the
    system, and the critical sections of the threads are its steps. *)
From S2P Require Import Prelude CommonData RLP TransactionBase BlockHeader.

(** What the queue asks the chain: [BlockChain::verifyBlock], of which it uses
    the header. *)
Class ChainFace := verifyBlock : Z → bytes → result BlockHeader.HeaderError BlockHeader.BlockHeader.

Module BlockQueue.
Import BlockHeader.

(** ** Queues and maps that know their size *)

(** [SizedBlockQueue]; [m_size] is a [size_t]. *)
Record SizedBlockQueue (T : Type) := mkSized { m_queue : list T; m_size : Z }.
Arguments mkSized {T} _ _.
Arguments m_queue {T} _.
Arguments m_size {T} _.
(** What the queue reads of its elements: the data, the hash that finds it, and
    what is left of it when it was moved *)
Class Block (T : Type) := { blockData : T → bytes; sha3Uncles_of : T → Z; moved_from : T → T }.

Section SizedBlockQueue.
Context {T : Type} `{Block T}.
Definition no_blocks : SizedBlockQueue T := mkSized [] 0.
Definition data_size (t : T) : Z := Z.of_nat (length (blockData t)).
Definition count (q : SizedBlockQueue T) : Z := Z.of_nat (length (m_queue q)).
Definition isEmpty (q : SizedBlockQueue T) : bool := match m_queue q with [] => true | _ => false end.
Definition enqueue (t : T) (q : SizedBlockQueue T) : SizedBlockQueue T :=
  mkSized (m_queue q ++ [t]) (u64 (m_size q + data_size t)).
(** [dequeue], which the callers ask of queues that are not empty *)
Definition dequeue (q : SizedBlockQueue T) : option (T * SizedBlockQueue T) :=
  match m_queue q with
  | [] => None
  | t :: l => Some (t, mkSized l (u64 (m_size q - data_size t)))
  end.
(** [removeRange], of the elements [removed] that leaves [rest] *)
Definition removeRange (removed rest : list T) (q : SizedBlockQueue T) : SizedBlockQueue T :=
  mkSized rest (fold_left (λ s t, u64 (s - data_size t)) removed (m_size q)).
Definition dequeueMultiple (n : Z) (q : SizedBlockQueue T) : list T * SizedBlockQueue T :=
  let removed := take (Z.to_nat n) (m_queue q) in
  (removed, removeRange removed (drop (Z.to_nat n) (m_queue q)) q).
(** [removeIf]: [std::remove_if] moves what is kept to the front; behind it are
    the elements that were there, moved from when they are kept. *)
Definition removeIf (pred : T → bool) (q : SizedBlockQueue T) : list T * SizedBlockQueue T :=
  let kept := List.filter (λ t, negb (pred t)) (m_queue q) in
  let removed := map (λ t, if pred t then t else moved_from t) (drop (length kept) (m_queue q)) in
  (removed, removeRange removed kept q).
Definition remove (hash : Z) (q : SizedBlockQueue T) : bool * SizedBlockQueue T :=
  let '(removed, q) := removeIf (λ t, sha3Uncles_of t =? hash) q in
  (match removed with [] => false | _ => true end, q).
Fixpoint replace_first (hash : Z) (t : T) (l : list T) : option (T * list T) :=
  match l with
  | [] => None
  | x :: l =>
    if sha3Uncles_of x =? hash then Some (x, t :: l)
    else '(old, l) ← replace_first hash t l; Some (old, x :: l)
  end.
Definition replace (hash : Z) (t : T) (q : SizedBlockQueue T) : bool * SizedBlockQueue T :=
  match replace_first hash t (m_queue q) with
  | None => (false, q)
  | Some (old, l) => (true, mkSized l (u64 (u64 (m_size q - data_size old) + data_size t)))
  end.
End SizedBlockQueue.

(** [SizedBlockMap]: a multimap, whose equal keys are in the order of
    insertion. *)
Record SizedBlockMap := mkMap { m_map : list (Z * (Z * bytes)); map_size : Z }.
Definition empty_map : SizedBlockMap := mkMap [] 0.
Definition map_count (m : SizedBlockMap) : Z := Z.of_nat (length (m_map m)).
Definition map_isEmpty (m : SizedBlockMap) : bool := match m_map m with [] => true | _ => false end.
Definition firstKey (m : SizedBlockMap) : option Z := match m_map m with [] => None | (k, _) :: _ => Some k end.
Fixpoint multi_insert (k : Z) (v : Z * bytes) (l : list (Z * (Z * bytes))) : list (Z * (Z * bytes)) :=
  match l with
  | [] => [(k, v)]
  | (k', v') :: l' => if k <? k' then (k, v) :: l else (k', v') :: multi_insert k v l'
  end.
(** [insert]: the data has been moved into the map when its size is added. *)
Definition map_insert (key hash : Z) (data : bytes) (m : SizedBlockMap) : SizedBlockMap :=
  mkMap (multi_insert key (hash, data) (m_map m)) (u64 (map_size m + Z.of_nat (length (@nil Z)))).
Definition map_removeRange (removed rest : list (Z * (Z * bytes))) (m : SizedBlockMap)
    : list (Z * bytes) * SizedBlockMap :=
  (map snd removed,
   mkMap rest (u64 (map_size m - fold_left (λ s e, s + Z.of_nat (length e.2.2)) removed 0))).
Definition removeByKeyEqual (key : Z) (m : SizedBlockMap) : list (Z * bytes) * SizedBlockMap :=
  map_removeRange (List.filter (λ e, e.1 =? key) (m_map m)) (List.filter (λ e, negb (e.1 =? key)) (m_map m)) m.
Definition removeByKeyNotGreater (key : Z) (m : SizedBlockMap) : list (Z * bytes) * SizedBlockMap :=
  map_removeRange (List.filter (λ e, e.1 <=? key) (m_map m)) (List.filter (λ e, negb (e.1 <=? key)) (m_map m)) m.

(** ** The queue *)

Record UnverifiedBlock := mkUnverified { u_hash : Z; u_parentHash : Z; u_blockData : bytes }.
(** [VerifiedBlock], without the transactions *)
Record VerifiedBlock := mkVerified { v_info : BlockHeader; v_blockData : bytes }.
#[export] Instance UnverifiedBlock_block : Block UnverifiedBlock :=
  {| blockData := u_blockData; sha3Uncles_of := u_hash;
     moved_from := λ b, mkUnverified (u_hash b) (u_parentHash b) [] |}.
#[export] Instance VerifiedBlock_block : Block VerifiedBlock :=
  {| blockData := v_blockData; sha3Uncles_of := λ b, m_sha3Uncles (v_info b);
     moved_from := λ b, mkVerified (v_info b) [] |}.

Record BlockQueue := mkQueue {
  m_drainingSet : gset Z;
  m_readySet : gset Z;
  m_unknownSet : gset Z;
  m_unknown : SizedBlockMap;
  m_knownBad : gset Z;
  m_future : SizedBlockMap;
  m_verified : SizedBlockQueue VerifiedBlock;
  m_verifying : SizedBlockQueue VerifiedBlock;
  m_unverified : SizedBlockQueue UnverifiedBlock;
  m_difficulty : Z;
  m_drainingDifficulty : Z;
}.
Definition empty_queue : BlockQueue :=
  mkQueue ∅ ∅ ∅ empty_map ∅ empty_map no_blocks no_blocks no_blocks 0 0.
(** [clear]: the bad blocks stay known. *)
Definition clear (q : BlockQueue) : BlockQueue :=
  mkQueue ∅ ∅ ∅ empty_map (m_knownBad q) empty_map no_blocks no_blocks no_blocks 0 0.

Definition with_draining d dd q := mkQueue d (m_readySet q) (m_unknownSet q) (m_unknown q) (m_knownBad q)
  (m_future q) (m_verified q) (m_verifying q) (m_unverified q) (m_difficulty q) dd.
Definition with_ready r q := mkQueue (m_drainingSet q) r (m_unknownSet q) (m_unknown q) (m_knownBad q)
  (m_future q) (m_verified q) (m_verifying q) (m_unverified q) (m_difficulty q) (m_drainingDifficulty q).
Definition with_unknown us u q := mkQueue (m_drainingSet q) (m_readySet q) us u (m_knownBad q)
  (m_future q) (m_verified q) (m_verifying q) (m_unverified q) (m_difficulty q) (m_drainingDifficulty q).
Definition with_bad b q := mkQueue (m_drainingSet q) (m_readySet q) (m_unknownSet q) (m_unknown q) b
  (m_future q) (m_verified q) (m_verifying q) (m_unverified q) (m_difficulty q) (m_drainingDifficulty q).
Definition with_future f q := mkQueue (m_drainingSet q) (m_readySet q) (m_unknownSet q) (m_unknown q)
  (m_knownBad q) f (m_verified q) (m_verifying q) (m_unverified q) (m_difficulty q) (m_drainingDifficulty q).
Definition with_verified v q := mkQueue (m_drainingSet q) (m_readySet q) (m_unknownSet q) (m_unknown q)
  (m_knownBad q) (m_future q) v (m_verifying q) (m_unverified q) (m_difficulty q) (m_drainingDifficulty q).
Definition with_verifying v q := mkQueue (m_drainingSet q) (m_readySet q) (m_unknownSet q) (m_unknown q)
  (m_knownBad q) (m_future q) (m_verified q) v (m_unverified q) (m_difficulty q) (m_drainingDifficulty q).
Definition with_unverified u q := mkQueue (m_drainingSet q) (m_readySet q) (m_unknownSet q) (m_unknown q)
  (m_knownBad q) (m_future q) (m_verified q) (m_verifying q) u (m_difficulty q) (m_drainingDifficulty q).
Definition with_difficulty d q := mkQueue (m_drainingSet q) (m_readySet q) (m_unknownSet q) (m_unknown q)
  (m_knownBad q) (m_future q) (m_verified q) (m_verifying q) (m_unverified q) d (m_drainingDifficulty q).
Definition ready_erase h q := with_ready (m_readySet q ∖ {[h]}) q.
Definition ready_insert h q := with_ready ({[h]} ∪ m_readySet q) q.
Definition bad_insert h q := with_bad ({[h]} ∪ m_knownBad q) q.
Definition add_difficulty d q := with_difficulty (u256 (m_difficulty q + d)) q.
Definition is_in (h : Z) (s : gset Z) : bool := bool_decide (h ∈ s).

Definition knownSize (q : BlockQueue) : Z :=
  u64 (u64 (m_size (m_verified q) + m_size (m_unverified q)) + m_size (m_verifying q)).
Definition knownCount (q : BlockQueue) : Z :=
  count (m_verified q) + count (m_unverified q) + count (m_verifying q).
Definition unknownSize (q : BlockQueue) : Z := u64 (map_size (m_future q) + map_size (m_unknown q)).
Definition unknownCount (q : BlockQueue) : Z := map_count (m_future q) + map_count (m_unknown q).
Definition c_maxKnownCount : Z := 100000.
Definition c_maxKnownSize : Z := 128 * 1024 * 1024.
Definition c_maxUnknownCount : Z := 100000.
Definition c_maxUnknownSize : Z := 512 * 1024 * 1024.
Definition knownFull (q : BlockQueue) : bool :=
  (c_maxKnownSize <? knownSize q) || (c_maxKnownCount <? knownCount q).
Definition unknownFull (q : BlockQueue) : bool :=
  (c_maxUnknownSize <? unknownSize q) || (c_maxUnknownCount <? unknownCount q).
(** [invariants] *)
Definition invariants (q : BlockQueue) : bool := Z.of_nat (size (m_readySet q)) =? knownCount q.

Inductive QueueStatus := Ready | Importing | UnknownParent_ | Bad | Unknown_.
Definition blockStatus (h : Z) (q : BlockQueue) : QueueStatus :=
  if is_in h (m_readySet q) then Ready
  else if is_in h (m_drainingSet q) then Importing
  else if is_in h (m_unknownSet q) then UnknownParent_
  else if is_in h (m_knownBad q) then Bad
  else Unknown_.
Definition isActive (q : BlockQueue) : bool :=
  negb (bool_decide (m_readySet q = ∅) && bool_decide (m_drainingSet q = ∅) &&
        isEmpty (m_verified q) && isEmpty (m_verifying q) && isEmpty (m_unverified q)).

Record BlockQueueStatus := mkStatus {
  importing : Z; verified : Z; verifying : Z; unverified : Z; future : Z; unknown : Z; bad : Z;
}.
Definition status (q : BlockQueue) : BlockQueueStatus :=
  mkStatus (Z.of_nat (size (m_drainingSet q))) (count (m_verified q)) (count (m_verifying q))
    (count (m_unverified q)) (map_count (m_future q)) (map_count (m_unknown q)) (Z.of_nat (size (m_knownBad q))).
Definition items (q : BlockQueue) : Z * Z :=
  (Z.of_nat (size (m_readySet q)), Z.of_nat (size (m_unknownSet q))).

(** ** Blocks whose parent was missing *)

(** [collectUnknownBad_WITH_BOTH_LOCKS]; every block is collected once. *)
Fixpoint collect_loop (fuel : nat) (badQueue : list Z) (q : BlockQueue) : BlockQueue :=
  match fuel, badQueue with
  | S fuel, b :: badQueue =>
    let '(removed, u) := removeByKeyEqual b (m_unknown q) in
    let q := with_unknown (m_unknownSet q) u q in
    let q := fold_left (λ q nb, bad_insert nb.1 (with_unknown (m_unknownSet q ∖ {[nb.1]}) (m_unknown q) q))
               removed q in
    collect_loop fuel (badQueue ++ map fst removed) q
  | _, _ => q
  end.
Definition collectUnknownBad (bad : Z) (q : BlockQueue) : BlockQueue :=
  collect_loop (S (length (m_map (m_unknown q)))) [bad] q.

(** [noteReady_WITH_LOCK]; every block is released once. *)
Definition release (parent : Z) (q : BlockQueue) (newReady : Z * bytes) : BlockQueue :=
  let q := with_unverified (enqueue (mkUnverified newReady.1 parent newReady.2) (m_unverified q)) q in
  let q := with_unknown (m_unknownSet q ∖ {[newReady.1]}) (m_unknown q) q in
  ready_insert newReady.1 q.
Fixpoint noteReady_loop (fuel : nat) (goodQueue : list Z) (q : BlockQueue) : BlockQueue :=
  match fuel, goodQueue with
  | S fuel, parent :: goodQueue =>
    let '(removed, u) := removeByKeyEqual parent (m_unknown q) in
    let q := fold_left (release parent) removed (with_unknown (m_unknownSet q) u q) in
    noteReady_loop fuel (goodQueue ++ map fst removed) q
  | _, _ => q
  end.
Definition noteReady (good : Z) (q : BlockQueue) : BlockQueue :=
  noteReady_loop (S (length (m_map (m_unknown q)))) [good] q.
(** [retryAllUnknown] *)
Fixpoint retry_loop (fuel : nat) (q : BlockQueue) : BlockQueue :=
  match fuel, firstKey (m_unknown q) with
  | S fuel, Some parent =>
    let '(removed, u) := removeByKeyEqual parent (m_unknown q) in
    retry_loop fuel (fold_left (release parent) removed (with_unknown (m_unknownSet q) u q))
  | _, _ => q
  end.
Definition retryAllUnknown (q : BlockQueue) : BlockQueue := retry_loop (length (m_map (m_unknown q))) q.

(** ** Bad blocks *)

Section Chain.
Context `{Crypto, ChainFace}.

(** [info.hash()] *)
Definition info_hash (b : VerifiedBlock) : Z :=
  match hash WithSeal (v_info b) with Ok (h, _) => h | Err _ => 0 end.
Definition parent_of (b : VerifiedBlock) : Z := m_parentHash (v_info b).

(** [updateBad_WITH_LOCK]: a block that is found is noted, and what waits for
    it is collected. *)
Definition note_bad (q : BlockQueue) (h : Z) : BlockQueue :=
  collectUnknownBad h (ready_erase h (bad_insert h q)).
Definition updateBad_round (q : BlockQueue) : bool * BlockQueue :=
  let '(badVerified, v) :=
    removeIf (λ b, is_in (parent_of b) (m_knownBad q) || is_in (info_hash b) (m_knownBad q)) (m_verified q) in
  let q := fold_left note_bad (map info_hash badVerified) (with_verified v q) in
  let '(badUnverified, u) :=
    removeIf (λ b, is_in (u_parentHash b) (m_knownBad q) || is_in (u_hash b) (m_knownBad q)) (m_unverified q) in
  let q := fold_left note_bad (map u_hash badUnverified) (with_unverified u q) in
  let '(badVerifying, v) :=
    removeIf (λ b, is_in (parent_of b) (m_knownBad q) || is_in (m_sha3Uncles (v_info b)) (m_knownBad q))
      (m_verifying q) in
  let hash_of b := match v_blockData b with [] => m_sha3Uncles (v_info b) | _ => info_hash b end in
  let q := fold_left note_bad (map hash_of badVerifying) (with_verifying v q) in
  (negb (match badVerified with [] => true | _ => false end &&
         match badUnverified with [] => true | _ => false end &&
         match badVerifying with [] => true | _ => false end), q).
Fixpoint updateBad_loop (fuel : nat) (q : BlockQueue) : BlockQueue :=
  match fuel with
  | O => q
  | S fuel => let '(moreBad, q) := updateBad_round q in if moreBad then updateBad_loop fuel q else q
  end.
(** Each round but the last takes a block out of one of the queues. *)
Definition updateBad (bad : Z) (q : BlockQueue) : BlockQueue :=
  let q := collectUnknownBad bad q in
  updateBad_loop (S (Z.to_nat (knownCount q))) q.

(** ** Import *)

Inductive ImportResult :=
| Success | UnknownParent | FutureTimeKnown | FutureTimeUnknown | AlreadyInChain | AlreadyKnown
| Malformed | OverbidGasPrice | BadChain | ZeroSignature.
#[export] Instance ImportResult_eq_dec : EqDecision ImportResult.
Proof. solve_decision. Defined.

Definition PostGenesis : Z := 256.
Definition OutOfOrderChecks : Z := 1 + (4 + 16) + (8 + 32).

(** [import], given what [m_bc->isKnown] answers and the time *)
Definition import (isKnown : Z → bool) (utcTime : Z) (block : bytes) (isOurs : bool) (q : BlockQueue)
    : result HeaderError (ImportResult * BlockQueue) :=
  h ← headerHashFromBlock block;
  if is_in h (m_readySet q) || is_in h (m_drainingSet q) || is_in h (m_unknownSet q) || is_in h (m_knownBad q)
  then Ok (AlreadyKnown, q)
  else
    match verifyBlock PostGenesis block with
    | Err _ => Ok (Malformed, q)
    | Ok bi =>
      let known p := is_in p (m_readySet q) || is_in p (m_drainingSet q) || isKnown p in
      if isKnown h then Ok (AlreadyInChain, q)
      else if (utcTime <? m_timestamp bi) && negb isOurs then
        let q := with_future (map_insert (m_timestamp bi) h block (m_future q)) q in
        let q := add_difficulty (BlockHeader.m_difficulty bi) q in
        Ok (if negb (known (m_parentHash bi)) then FutureTimeUnknown else FutureTimeKnown, q)
      else if is_in (m_parentHash bi) (m_knownBad q) then
        let bh := info_hash (mkVerified bi []) in
        Ok (BadChain, updateBad bh (bad_insert bh q))
      else if negb (known (m_parentHash bi)) then
        let q := with_unknown ({[h]} ∪ m_unknownSet q) (map_insert (m_parentHash bi) h block (m_unknown q)) q in
        Ok (UnknownParent, add_difficulty (BlockHeader.m_difficulty bi) q)
      else
        let q := with_unverified (enqueue (mkUnverified h (m_parentHash bi) block) (m_unverified q)) q in
        let q := add_difficulty (BlockHeader.m_difficulty bi) (ready_insert h q) in
        Ok (Success, noteReady h q)
    end.

(** [tick]: the blocks that are taken out, and their import one after the
    other *)
Definition tick_take (t : Z) (q : BlockQueue) : list (Z * bytes) * BlockQueue :=
  match firstKey (m_future q) with
  | None => ([], q)
  | Some k =>
    if t <? k then ([], q)
    else let '(todo, f) := removeByKeyNotGreater t (m_future q) in (todo, with_future f q)
  end.
Definition tick (isKnown : Z → bool) (utcTime : Z) (q : BlockQueue) : result HeaderError BlockQueue :=
  let '(todo, q) := tick_take utcTime q in
  foldM (λ q b, '(_, q) ← import isKnown utcTime b.2 false q; Ok q) q todo.

(** ** The verifiers *)

(** [drainVerified_WITH_BOTH_LOCKS]; each round takes a block out. *)
Definition settle (q : BlockQueue) (b : VerifiedBlock) : BlockQueue :=
  if is_in (parent_of b) (m_knownBad q) then bad_insert (info_hash b) (ready_erase (info_hash b) q)
  else with_verified (enqueue b (m_verified q)) q.
Fixpoint drainVerified_loop (fuel : nat) (q : BlockQueue) : BlockQueue :=
  match fuel, dequeue (m_verifying q) with
  | S fuel, Some (b, v) =>
    match v_blockData b with
    | [] => q
    | _ => drainVerified_loop fuel (settle (with_verifying v q) b)
    end
  | _, _ => q
  end.
Definition drainVerified (q : BlockQueue) : BlockQueue :=
  drainVerified_loop (length (m_queue (m_verifying q))) q.

(** [verifierBody]: taking a job, with the lock of the verification *)
Definition placeholder (work : UnverifiedBlock) : VerifiedBlock :=
  mkVerified (setParentHash (u_parentHash work) (setSha3Uncles (u_hash work) null_header)) [].
Definition take_job (q : BlockQueue) : option (UnverifiedBlock * BlockQueue) :=
  '(work, u) ← dequeue (m_unverified q);
  Some (work, with_verifying (enqueue (placeholder work) (m_verifying q)) (with_unverified u q)).
(** and its end, with both locks: the verification threw, or gave a header *)
Definition finish_bad (work : UnverifiedBlock) (q : BlockQueue) : BlockQueue :=
  let q := bad_insert (u_hash work) (ready_erase (u_hash work) q) in
  drainVerified (with_verifying (remove (u_hash work) (m_verifying q)).2 q).
Definition finish_good (work : UnverifiedBlock) (res : VerifiedBlock) (q : BlockQueue) : BlockQueue :=
  match dequeue (m_verifying q) with
  | Some (next, v) =>
    if m_sha3Uncles (v_info next) =? u_hash work
    then drainVerified (settle (with_verifying v q) res)
    else with_verifying (replace (u_hash work) res (m_verifying q)).2 q
  | None => with_verifying (replace (u_hash work) res (m_verifying q)).2 q
  end.
Definition finish_job (work : UnverifiedBlock) (q : BlockQueue) : BlockQueue :=
  match verifyBlock OutOfOrderChecks (u_blockData work) with
  | Err _ => finish_bad work q
  | Ok info => finish_good work (mkVerified info (u_blockData work)) q
  end.

(** ** Draining *)

(** [drain]: what is given out, and whether there is room now *)
Definition drain_one (q : BlockQueue) (b : VerifiedBlock) : BlockQueue :=
  let h := info_hash b in
  ready_erase h (with_draining ({[h]} ∪ m_drainingSet q)
    (u256 (m_drainingDifficulty q + BlockHeader.m_difficulty (v_info b))) q).
Definition drain (max : Z) (q : BlockQueue) : list VerifiedBlock * bool * BlockQueue :=
  let wasFull := knownFull q in
  let '(out, q) :=
    if bool_decide (m_drainingSet q = ∅) then
      let q := with_draining (m_drainingSet q) 0 q in
      let '(out, v) := dequeueMultiple (Z.min max (count (m_verified q))) (m_verified q) in
      (out, fold_left drain_one out (with_verified v q))
    else ([], q) in
  (out, wasFull && negb (knownFull q), q).
(** [doneDrain] *)
Definition doneDrain (bad : list Z) (q : BlockQueue) : bool * BlockQueue :=
  let q := with_difficulty (u256 (m_difficulty q - m_drainingDifficulty q)) (with_draining ∅ 0 q) in
  let q := match bad with
           | [] => q
           | _ => fold_left (λ q b, updateBad b q) bad (with_bad (list_to_set bad ∪ m_knownBad q) q)
           end in
  (negb (bool_decide (m_readySet q = ∅)), q).

End Chain.
End BlockQueue.
