(* ===== verification/BlockQueueSpec.v ===== *)
(** * What the block queue keeps

    The critical sections of the threads as steps, in any order, and what holds
    after each of them: every block is in one place, the counters agree, and
    parents come before their children. *)
From S2P Require Import Prelude CommonData RLP TransactionBase BlockHeader BlockQueue.

(** What the queue relies on: a block that is verified has the header that its
    bytes say, no hash is zero, and the hash of the uncles of a block that is
    fully verified is not that of a header. *)
Class ChainLaws `{Crypto, ChainFace} : Prop := {
  verified_header ir b i : verifyBlock ir b = Ok i → BlockHeader.of_bytes b BlockHeader.BlockData 0 = Ok i;
  uncles_no_header b i b' i' :
    verifyBlock BlockQueue.OutOfOrderChecks b = Ok i → BlockHeader.of_bytes b' BlockHeader.BlockData 0 = Ok i' →
    BlockHeader.m_sha3Uncles i ≠ BlockHeader.m_hash i';
  hash_nonzero bs : tx_hash bs ≠ 0;
}.

Module BlockQueueSpec.
Import BlockHeader BlockQueue.

Section Spec.
Context {CR : Crypto} {CF : ChainFace} {CL : ChainLaws}.
(** The blocks that are in the chain at some time of the run *)
Context (in_chain : Z → Prop).

(** ** Blocks and their hashes *)

Definition block_ok (h p : Z) (data : bytes) : Prop :=
  ∃ bi, of_bytes data BlockData 0 = Ok bi ∧ h = info_hash (mkVerified bi data) ∧ p = m_parentHash bi.
Definition vhash (b : VerifiedBlock) : Z :=
  match v_blockData b with [] => m_sha3Uncles (v_info b) | _ => info_hash b end.
Definition vpair (b : VerifiedBlock) : Z * Z := (vhash b, parent_of b).
Definition upair (u : UnverifiedBlock) : Z * Z := (u_hash u, u_parentHash u).
(** A block whose verification is done *)
Record done_ok (b : VerifiedBlock) : Prop := {
  do_data : v_blockData b ≠ [];
  do_block : of_bytes (v_blockData b) BlockData 0 = Ok (v_info b);
  do_uncles : ∀ data i, of_bytes data BlockData 0 = Ok i → m_sha3Uncles (v_info b) ≠ m_hash i;
}.

Lemma of_bytes_memo data bi :
  of_bytes data BlockData 0 = Ok bi → m_hash bi ≠ 0.
Proof.
  unfold of_bytes. intros (hd&_&Hp)%bind_Ok_inv. cbv beta zeta in Hp. change (negb (0 =? 0)) with false in Hp.
  apply populate_memo in Hp. rewrite Hp. apply hash_nonzero.
Qed.
Lemma info_hash_memo data bi :
  of_bytes data BlockData 0 = Ok bi → info_hash (mkVerified bi data) = m_hash bi.
Proof.
  intros Hb. unfold info_hash, hash. cbn [v_info].
  by rewrite (proj2 (Z.eqb_neq _ _) (of_bytes_memo _ _ Hb)).
Qed.
Lemma of_bytes_header data bi :
  of_bytes data BlockData 0 = Ok bi →
  headerHashFromBlock data = Ok (info_hash (mkVerified bi data)) ∧ data ≠ [].
Proof.
  unfold of_bytes, extractHeader, headerHashFromBlock. intros Hb.
  destruct (rlp_error (RLP.construct RLP.VeryStrict data)) as [root|] eqn:Hc; [|discriminate Hb].
  cbn [mbind result_bind] in *.
  destruct (RLP.isList root) eqn:Hl; [|discriminate Hb]. cbn [negb throw_if mbind result_bind] in Hb.
  destruct (hfield root 0 RLP.new_cache) as [[c hd]|] eqn:Hf; [|discriminate Hb]. cbn [mbind result_bind] in *.
  destruct (RLP.isList hd); [|discriminate Hb]. cbn [negb throw_if mbind result_bind] in Hb.
  destruct (hfield root 1 c) as [[c1 txs]|]; [|discriminate Hb]. cbn [mbind result_bind] in Hb.
  destruct (RLP.isList txs); [|discriminate Hb]. cbn [negb throw_if mbind result_bind] in Hb.
  destruct (hfield root 2 c1) as [[c2 un]|]; [|discriminate Hb]. cbn [mbind result_bind] in Hb.
  destruct (RLP.isList un); [|discriminate Hb]. cbn [negb throw_if mbind result_bind] in Hb.
  change (negb (0 =? 0)) with false in Hb. cbv iota in Hb. split.
  - f_equal. unfold info_hash. cbn [v_info]. unfold hash.
    assert (m_hash bi = tx_hash hd) as ->.
    { by apply populate_memo in Hb. }
    destruct (Z.eqb_spec (tx_hash hd) 0) as [Hz|_]; [by apply hash_nonzero in Hz|done].
  - intros ->. cbn in Hc. destruct (rlp_error _) eqn:E; [|discriminate]. injection Hc as ->.
    vm_compute in E. by simplify_eq.
Qed.

(** ** The state of the system *)

(** The queue, the jobs of the verifiers, and what was let through: the blocks
    that were handed out, and the parents that [retryAllUnknown] assumed *)
Record System := mkSystem { queue : BlockQueue; jobs : list UnverifiedBlock; passed : gset Z }.

(** All blocks on their way, in their order *)
Definition rest (q : BlockQueue) : list (Z * Z) :=
  map vpair (m_queue (m_verifying q)) ++ map upair (m_queue (m_unverified q)).
Definition line (q : BlockQueue) : list (Z * Z) := map vpair (m_queue (m_verified q)) ++ rest q.
Definition waiting (q : BlockQueue) : list Z := map (λ e, e.2.1) (m_map (m_unknown q)).

(** Parents first: each is behind its parent, or the parent is known. *)
Fixpoint parents_ok (known : Z → Prop) (seen : list Z) (l : list (Z * Z)) : Prop :=
  match l with
  | [] => True
  | (h, p) :: l => (p ∈ seen ∨ known p) ∧ parents_ok known (h :: seen) l
  end.
Definition let_through (s : System) (p : Z) : Prop := in_chain p ∨ p ∈ passed s.
Definition sized_ok {T} `{Block T} (q : SizedBlockQueue T) : Prop :=
  m_size q = u64 (foldr (λ t n, data_size t + n) 0 (m_queue q)).

(** The invariant; during [noteReady] the children of [K] still wait. *)
Record good_for (K : list Z) (s : System) : Prop := {
  g_nodup : NoDup (line (queue s)).*1;
  g_ready : m_readySet (queue s) = list_to_set (line (queue s)).*1;
  g_verified : Forall done_ok (m_queue (m_verified (queue s)));
  g_verifying : Forall (λ b, done_ok b ∨ ∃ w, w ∈ jobs s ∧ b = placeholder w) (m_queue (m_verifying (queue s)));
  g_jobs : Forall (λ w, placeholder w ∈ m_queue (m_verifying (queue s)) ∧
                        block_ok (u_hash w) (u_parentHash w) (u_blockData w)) (jobs s);
  g_jobs_nodup : NoDup (map u_hash (jobs s));
  g_unverified : Forall (λ u, block_ok (u_hash u) (u_parentHash u) (u_blockData u))
                   (m_queue (m_unverified (queue s)));
  g_unknown : Forall (λ e, block_ok e.2.1 e.1 e.2.2) (m_map (m_unknown (queue s)));
  g_unknown_set : m_unknownSet (queue s) = list_to_set (waiting (queue s)) ∧ NoDup (waiting (queue s));
  g_line_apart h : h ∈ (line (queue s)).*1 →
    h ∉ m_drainingSet (queue s) ∧ h ∉ m_unknownSet (queue s) ∧ h ∉ m_knownBad (queue s);
  g_unknown_apart h : h ∈ m_unknownSet (queue s) →
    h ∉ m_drainingSet (queue s) ∧ h ∉ m_knownBad (queue s);
  g_draining h : h ∈ m_drainingSet (queue s) → h ∈ passed s ∧ h ∉ m_knownBad (queue s);
  g_keys e : e ∈ m_map (m_unknown (queue s)) →
    (e.1 ∈ (line (queue s)).*1 → e.1 ∈ K) ∧ e.1 ∉ m_drainingSet (queue s);
  g_parents_verified : parents_ok (let_through s) [] (map vpair (m_queue (m_verified (queue s))));
  g_parents_rest :
    parents_ok (λ p, let_through s p ∨ p ∈ m_knownBad (queue s))
      (map vpair (m_queue (m_verified (queue s)))).*1 (rest (queue s));
  g_sizes : sized_ok (m_verified (queue s)) ∧ sized_ok (m_verifying (queue s)) ∧ sized_ok (m_unverified (queue s));
}.
(** Between the steps the front of the blocks under verification is not done. *)
Definition front (q : BlockQueue) : Prop :=
  match m_queue (m_verifying q) with b :: _ => v_blockData b = [] | [] => True end.
Definition good (s : System) : Prop := good_for [] s ∧ front (queue s).

(** ** Lists of pairs *)

Lemma parents_ok_app known seen l1 l2 :
  parents_ok known seen (l1 ++ l2) ↔ parents_ok known seen l1 ∧ parents_ok known (rev (l1.*1) ++ seen) l2.
Proof.
  revert seen. induction l1 as [|[h p] l1 IH]; intros seen; cbn [app parents_ok fmap list_fmap rev].
  - cbn. naive_solver.
  - rewrite IH. cbn [fst]. rewrite <-app_assoc. cbn [app]. naive_solver.
Qed.
Lemma parents_ok_mono (known known' : Z → Prop) seen seen' l :
  (∀ p, known p → known' p ∨ p ∈ seen') → (∀ p, p ∈ seen → p ∈ seen' ∨ known' p) →
  parents_ok known seen l → parents_ok known' seen' l.
Proof.
  revert seen seen'. induction l as [|[h p] l IH]; intros seen seen' Hk Hs; [done|]. cbn [parents_ok].
  intros [Hp Hl]. split.
  - destruct Hp as [Hp|Hp]; [by apply Hs|]. destruct (Hk p Hp); [by right|by left].
  - eapply IH; [| |exact Hl].
    + intros x Hx. destruct (Hk x Hx); [by left|right; by right].
    + intros x [->|Hx]%elem_of_cons; [left; by left|]. destruct (Hs x Hx); [left; by right|by right].
Qed.
(** Taking an element out, whose children are then behind something known *)
Lemma parents_ok_skip (known : Z → Prop) seen h p l1 l2 :
  known h → parents_ok known seen (l1 ++ (h, p) :: l2) → parents_ok known seen (l1 ++ l2).
Proof.
  intros Hk. rewrite !parents_ok_app. cbn [parents_ok]. intros (H1&_&H2). split; [exact H1|].
  eapply parents_ok_mono; [| |exact H2]; [by left|].
  intros x [->|Hx]%elem_of_cons; [by right|by left].
Qed.

Lemma children_ok {A} (known : Z → Prop) parent seen (l : list (Z * A)) :
  parent ∈ seen ∨ known parent → parents_ok known seen (map (λ r, (r.1, parent)) l).
Proof.
  revert seen. induction l as [|r l IH]; intros seen Hp; [done|]. cbn [map parents_ok].
  split; [done|]. apply IH. destruct Hp; [left; by right|by right].
Qed.

Lemma sized_enqueue {T} `{Block T} (t : T) q : sized_ok q → sized_ok (enqueue t q).
Proof.
  unfold sized_ok, enqueue. cbn [m_size m_queue]. intros ->. rewrite foldr_app. cbn [foldr].
  unfold wrap. rewrite Z.add_mod_idemp_l by done. f_equal. rewrite Z.add_0_r.
  generalize (m_queue q). intros l. induction l as [|x l IH]; cbn [foldr]; lia.
Qed.
Lemma sized_dequeue {T} `{Block T} (t : T) q q' : dequeue q = Some (t, q') → sized_ok q → sized_ok q'.
Proof.
  unfold dequeue, sized_ok. destruct (m_queue q) as [|x l]; [done|]. intros [= <- <-] ->. cbn [m_size m_queue foldr].
  unfold wrap. rewrite Zminus_mod_idemp_l. f_equal. lia.
Qed.
Lemma sized_remove {T} `{Block T} (removed l : list T) q :
  m_queue q = removed ++ l → sized_ok q → sized_ok (removeRange removed l q).
Proof.
  unfold removeRange, sized_ok. cbn [m_size m_queue]. intros -> Hs. rewrite Hs. clear Hs. revert l.
  induction removed as [|x r IH]; intros l; cbn [app foldr fold_left]; [done|].
  unfold wrap at 2 3. rewrite Zminus_mod_idemp_l.
  replace (data_size x + foldr (λ t n, data_size t + n) 0 (r ++ l) - data_size x)
    with (foldr (λ t n, data_size t + n) 0 (r ++ l)) by lia. apply IH.
Qed.

(** ** Waiting for a parent *)

Lemma release_all parent removed q :
  ∃ u, fold_left (release parent) removed q =
       with_ready (list_to_set removed.*1 ∪ m_readySet q)
         (with_unknown (m_unknownSet q ∖ list_to_set removed.*1) (m_unknown q) (with_unverified u q)) ∧
    m_queue u = m_queue (m_unverified q) ++ map (λ r, mkUnverified r.1 parent r.2) removed ∧
    (sized_ok (m_unverified q) → sized_ok u).
Proof.
  revert q. induction removed as [|r removed IH]; intros q; cbn [fold_left map fmap list_fmap list_to_set].
  - exists (m_unverified q). split; [|split; [by rewrite app_nil_r|done]].
    destruct q. unfold with_ready, with_unknown, with_unverified.
    cbn [m_readySet m_unknownSet m_unknown m_unverified m_drainingSet m_knownBad m_future m_verified
         m_verifying m_difficulty m_drainingDifficulty].
    by rewrite (left_id_L ∅ (∪)), difference_empty_L.
  - destruct (IH (release parent q r)) as (u&->&Hu&Hs). exists u. split; [|split].
    + unfold release, ready_insert, with_ready, with_unknown, with_unverified.
      cbn [m_readySet m_unknownSet m_unknown m_unverified m_drainingSet m_knownBad m_future m_verified
         m_verifying m_difficulty m_drainingDifficulty].
      f_equal; set_solver.
    + rewrite Hu. cbn. by rewrite <-app_assoc.
    + intros Hq. apply Hs. cbn. by apply sized_enqueue.
Qed.

Lemma filter_split {A} (f : A → bool) (l : list A) :
  l ≡ₚ List.filter f l ++ List.filter (λ x, negb (f x)) l.
Proof.
  induction l as [|x l IH]; [done|]. cbn [List.filter]. destruct (f x); cbn [negb app].
  - by rewrite <-IH.
  - rewrite <-Permutation_middle. by rewrite <-IH.
Qed.

(** Releasing the children of a block that is on its way or known: they are
    behind it, and their own children are next. *)
Lemma released_good K parent q js ps :
  let '(removed, u) := removeByKeyEqual parent (m_unknown q) in
  good_for (parent :: K) (mkSystem q js ps) →
  (parent ∈ (line q).*1 ∨ in_chain parent ∨ parent ∈ ps) →
  let q' := fold_left (release parent) removed (with_unknown (m_unknownSet q) u q) in
  good_for (K ++ removed.*1) (mkSystem q' js ps) ∧
  (line q').*1 = (line q).*1 ++ removed.*1 ∧ m_map (m_unknown q') = m_map u ∧
  m_verifying q' = m_verifying q ∧
  length (m_map (m_unknown q)) = (length removed + length (m_map u))%nat.
Proof.
  unfold removeByKeyEqual, map_removeRange.
  set (taken := List.filter (λ e : Z * (Z * bytes), e.1 =? parent) (m_map (m_unknown q))).
  set (left := List.filter (λ e : Z * (Z * bytes), negb (e.1 =? parent)) (m_map (m_unknown q))).
  set (u := mkMap left _). intros G Hparent.
  pose proof (filter_split (λ e : Z * (Z * bytes), e.1 =? parent) (m_map (m_unknown q))) as Hperm.
  fold taken in Hperm. fold left in Hperm.
  assert (∀ e, e ∈ taken → e ∈ m_map (m_unknown q) ∧ e.1 = parent) as Htaken.
  { intros e He. apply list_elem_of_In, filter_In in He as [He Hk]. split; [by apply list_elem_of_In|].
    by apply Z.eqb_eq. }
  assert (∀ e, e ∈ left → e ∈ m_map (m_unknown q) ∧ e.1 ≠ parent) as Hleft.
  { intros e He. apply list_elem_of_In, filter_In in He as [He Hk]. split; [by apply list_elem_of_In|].
    by apply negb_true_iff, Z.eqb_neq in Hk. }
  destruct (release_all parent (map snd taken) (with_unknown (m_unknownSet q) u q)) as (U&Hq&HU&Hsz).
  cbn [m_unverified with_unknown m_readySet m_unknownSet m_unknown] in Hq, HU, Hsz. cbn zeta.
  rewrite Hq. clear Hq.
  set (q' := with_ready _ _). 
  assert (waiting q ≡ₚ (map snd taken).*1 ++ map (λ e, e.2.1) left) as Hwait.
  { unfold waiting. rewrite Hperm, map_app. apply Permutation_app; [|done].
    clear. induction taken as [|e l IH]; [done|]. cbn. by rewrite IH. }
  destruct G as [Gnd Gr Gv Gvg Gj Gjn Gu Gk [Gus Gun] Gla Gua Gd Gks Gpv Gpr [Gs1 [Gs2 Gs3]]].
  cbn [queue jobs passed] in *.
  assert (rest q' = rest q ++ map (λ r, (r.1, parent)) (map snd taken)) as Hrest.
  { unfold rest. cbn [q' with_ready with_unknown with_unverified m_verifying m_unverified]. rewrite HU, map_app, app_assoc.
    f_equal. by rewrite map_map. }
  assert (line q' = line q ++ map (λ r, (r.1, parent)) (map snd taken)) as Hline.
  { unfold line. rewrite Hrest, app_assoc. reflexivity. }
  assert ((line q').*1 = (line q).*1 ++ (map snd taken).*1) as Hline1.
  { rewrite Hline, fmap_app. f_equal. clear. induction taken as [|e l IH]; [done|]. cbn. by rewrite IH. }
  assert (∀ h, h ∈ (map snd taken).*1 → h ∈ m_unknownSet q) as Hin.
  { intros h Hh. rewrite Gus, elem_of_list_to_set, Hwait. apply elem_of_app. by left. }
  rewrite Hwait in Gun. apply NoDup_app in Gun as (Gun1&Gun2&Gun3).
  split; [|split; [exact Hline1|split; [done|split; [done|]]]].
  2: { apply Permutation_length in Hperm. rewrite length_app in Hperm. by rewrite length_map. }
  split; cbn [queue jobs passed]; try done.
  - rewrite Hline1. apply NoDup_app. split_and!; [done| |done].
    intros h Hh Hh'. apply Hin in Hh'. by destruct (Gla h Hh) as (_&?&_).
  - rewrite Hline1, list_to_set_app_L, <-Gr. apply (comm_L (∪)).
  - cbn [q' with_ready with_unknown with_unverified m_unverified]. rewrite HU. apply Forall_app. split; [done|].
    apply Forall_map, Forall_forall. intros r Hr. apply list_elem_of_fmap in Hr as (e&->&He).
    destruct (Htaken e He) as [He' Hp]. rewrite Forall_forall in Gk. specialize (Gk e He'). cbn. by rewrite <-Hp.
  - apply Forall_forall. intros e He. apply Hleft in He as [He _]. rewrite Forall_forall in Gk. by apply Gk.
  - split; [|exact Gun3]. cbn. rewrite Gus. apply set_eq. intros h.
    rewrite elem_of_difference, !elem_of_list_to_set, Hwait, elem_of_app. unfold waiting. cbn.
    split; [intros [[?|?] ?]; [done|done]|]. intros Hh. split; [by right|]. intros Hh'. by apply (Gun2 h).
  - intros h Hh. cbn. rewrite Hline1, elem_of_app in Hh. destruct Hh as [Hh|Hh].
    + destruct (Gla h Hh) as (?&?&?). split_and!; [done|set_solver|done].
    + destruct (Gua h (Hin h Hh)) as [? ?]. split_and!; [done| |done].
      rewrite elem_of_difference. intros [_ Hn]. apply Hn. by apply elem_of_list_to_set.
  - intros h Hh. cbn in Hh. apply Gua. set_solver.
  - intros e He. cbn in He. apply Hleft in He as [He Hne]. destruct (Gks e He) as [Hk Hd]. split; [|done].
    rewrite Hline1, elem_of_app. intros [Hl|Hl]; apply elem_of_app.
    + apply Hk in Hl. apply elem_of_cons in Hl as [Hl|Hl]; [done|by left].
    + by right.
  - rewrite Hrest. apply parents_ok_app. split; [exact Gpr|].
    change (m_verified q') with (m_verified q).
    apply children_ok. destruct Hparent as [Hl|Hp]; [left|right; by left].
    unfold line in Hl. rewrite fmap_app, elem_of_app in Hl.
    rewrite elem_of_app, list_elem_of_In, <-in_rev, <-list_elem_of_In. tauto.
  - split_and!; [done|done|]. by apply Hsz.
Qed.

Lemma good_for_mono K K' q js ps ps' :
  (∀ k, k ∈ K → k ∈ K') → ps ⊆ ps' → good_for K (mkSystem q js ps) → good_for K' (mkSystem q js ps').
Proof.
  intros HK Hps G. destruct G as [Gnd Gr Gv Gvg Gj Gjn Gu Gk Gus Gla Gua Gd Gks Gpv Gpr Gs].
  split; cbn [queue jobs passed] in *; try done.
  - intros h Hh. destruct (Gd h Hh). split; [by apply Hps|done].
  - intros e He. destruct (Gks e He) as [H1 H2]. split; [|done]. intros Hl. by apply HK, H1.
  - eapply parents_ok_mono; [| |exact Gpv]; [|by left].
    intros p [Hp|Hp]; left; [by left|right; by apply Hps].
  - eapply parents_ok_mono; [| |exact Gpr]; [|by left].
    intros p [[Hp|Hp]|Hp]; left; [left; by left|left; right; by apply Hps|by right].
Qed.

Lemma noteReady_loop_good fuel K q js ps :
  (length K + length (m_map (m_unknown q)) ≤ fuel)%nat → good_for K (mkSystem q js ps) →
  (∀ k, k ∈ K → k ∈ (line q).*1 ∨ in_chain k ∨ k ∈ ps) →
  good_for [] (mkSystem (noteReady_loop fuel K q) js ps) ∧
  m_verifying (noteReady_loop fuel K q) = m_verifying q.
Proof.
  revert K q. induction fuel as [|fuel IH]; intros K q Hf G HK.
  - destruct K; cbn in *; [done|lia].
  - destruct K as [|k K]; [done|]. cbn [noteReady_loop].
    pose proof (released_good K k q js ps) as Hr.
    destruct (removeByKeyEqual k (m_unknown q)) as [removed u].
    destruct Hr as (G'&Hl&Hm&Hv&Hlen); [done|by apply HK; left|]. cbn zeta in *.
    rewrite <-Hv. apply IH; [|exact G'|].
    + rewrite length_app, Hm. cbn in Hf. change (map fst removed) with (removed.*1).
      rewrite length_fmap. lia.
    + intros x [Hx|Hx]%elem_of_app; rewrite Hl, elem_of_app.
      * destruct (HK x) as [?|?]; [by right|left; by left|by right].
      * left. by right.
Qed.

Lemma noteReady_good h q js ps :
  good_for [h] (mkSystem q js ps) → h ∈ (line q).*1 →
  good_for [] (mkSystem (noteReady h q) js ps) ∧ m_verifying (noteReady h q) = m_verifying q.
Proof.
  intros G Hl. unfold noteReady. apply noteReady_loop_good; [apply le_n|exact G|].
  intros k ->%list_elem_of_singleton. by left.
Qed.

Lemma removeByKeyEqual_first k q :
  firstKey (m_unknown q) = Some k → (removeByKeyEqual k (m_unknown q)).1 ≠ [].
Proof.
  unfold firstKey, removeByKeyEqual, map_removeRange. destruct (m_map _) as [|[k' v] l]; [done|].
  intros [= ->]. cbn [fst List.filter]. by rewrite Z.eqb_refl.
Qed.
Lemma removeByKeyEqual_sub k m e : e ∈ m_map (removeByKeyEqual k m).2 → e ∈ m_map m.
Proof. unfold removeByKeyEqual, map_removeRange. cbn. rewrite !list_elem_of_In, filter_In. tauto. Qed.
Definition parents (q : BlockQueue) : gset Z := list_to_set (map fst (m_map (m_unknown q))).
Lemma retry_loop_good fuel K q js ps :
  (length (m_map (m_unknown q)) ≤ fuel)%nat → parents q ⊆ ps → good_for K (mkSystem q js ps) →
  good_for [] (mkSystem (retry_loop fuel q) js ps) ∧ m_verifying (retry_loop fuel q) = m_verifying q.
Proof.
  assert (∀ K q, m_map (m_unknown q) = [] → good_for K (mkSystem q js ps) → good_for [] (mkSystem q js ps)) as Hend.
  { clear. intros K q Hm G. destruct G as [Gnd Gr Gv Gvg Gj Gjn Gu Gk Gus Gla Gua Gd Gks Gpv Gpr Gs].
    split; cbn [queue jobs passed] in *; try done. intros e. rewrite Hm. by intros ?%not_elem_of_nil. }
  revert K q. induction fuel as [|fuel IH]; intros K q Hf Hps G; cbn [retry_loop].
  - split; [|done]. apply (Hend K); [|exact G]. destruct (m_map (m_unknown q)); [done|cbn in Hf; lia].
  - destruct (firstKey (m_unknown q)) as [k|] eqn:Hk.
    + pose proof (released_good K k q js ps) as Hr. pose proof (removeByKeyEqual_first k q Hk) as Hne.
      pose proof (removeByKeyEqual_sub k (m_unknown q)) as Hsub.
      destruct (removeByKeyEqual k (m_unknown q)) as [removed u]. cbn [fst snd] in *.
      destruct Hr as (G'&Hl&Hm&Hv&Hlen).
      { eapply good_for_mono; [| |exact G]; [by right|done]. }
      { right; right. apply Hps. unfold parents, firstKey in *. apply elem_of_list_to_set.
        destruct (m_map (m_unknown q)) as [|[k' v] l]; [done|]. injection Hk as ->. by left. }
      cbn zeta in *. rewrite <-Hv. eapply IH; [| |exact G'].
      * rewrite Hm. destruct removed; [done|cbn in Hlen; lia].
      * intros x Hx. apply Hps. unfold parents in *. rewrite Hm in Hx.
        apply elem_of_list_to_set, list_elem_of_fmap in Hx as (e&->&He).
        apply elem_of_list_to_set, list_elem_of_fmap_2, Hsub, He.
    + split; [|done]. apply (Hend K); [|exact G]. unfold firstKey in Hk. by destruct (m_map (m_unknown q)) as [|[]].
Qed.

(** ** Import *)

Lemma multi_insert_perm k v l : multi_insert k v l ≡ₚ (k, v) :: l.
Proof.
  induction l as [|[k' v'] l IH]; cbn [multi_insert]; [done|]. destruct (k <? k'); [done|].
  rewrite IH. apply Permutation_swap.
Qed.

(** A block behind its parent *)
Lemma enqueued_good q js ps h p data d :
  good_for [] (mkSystem q js ps) → block_ok h p data →
  h ∉ m_readySet q → h ∉ m_drainingSet q → h ∉ m_unknownSet q → h ∉ m_knownBad q →
  p ∈ m_readySet q ∨ p ∈ m_drainingSet q ∨ in_chain p →
  let q' := add_difficulty d (ready_insert h
    (with_unverified (enqueue (mkUnverified h p data) (m_unverified q)) q)) in
  good_for [h] (mkSystem q' js ps) ∧ h ∈ (line q').*1.
Proof.
  intros G Hb Hr Hd Hu Hk Hp q'.
  destruct G as [Gnd Gr Gv Gvg Gj Gjn Gu Gk Gus Gla Gua Gd Gks Gpv Gpr [Gs1 [Gs2 Gs3]]].
  cbn [queue jobs passed] in *.
  assert (rest q' = rest q ++ [(h, p)]) as Hrest.
  { unfold rest. cbn [q' m_verifying m_unverified add_difficulty ready_insert with_ready with_unverified
      with_difficulty enqueue m_queue]. rewrite map_app, app_assoc. done. }
  assert (line q' = line q ++ [(h, p)]) as Hline.
  { unfold line. rewrite Hrest, app_assoc. done. }
  assert ((line q').*1 = (line q).*1 ++ [h]) as Hline1.
  { rewrite Hline, fmap_app. done. }
  assert (h ∉ (line q).*1) as Hnew.
  { intros Hh. apply Hr. rewrite Gr. by apply elem_of_list_to_set. }
  split; [|rewrite Hline1, elem_of_app; right; by left].
  split; cbn [queue jobs passed]; try done.
  - rewrite Hline1. apply NoDup_app. split_and!; [done| |apply NoDup_singleton].
    intros x Hx ->%list_elem_of_singleton. done.
  - rewrite Hline1, list_to_set_app_L.
    change (m_readySet q') with ({[h]} ∪ m_readySet q). rewrite <-Gr. cbn. set_solver.
  - change (m_queue (m_unverified q')) with (m_queue (m_unverified q) ++ [mkUnverified h p data]).
    apply Forall_app. split; [done|]. by apply Forall_singleton.
  - intros x. rewrite Hline1, elem_of_app, list_elem_of_singleton. intros [Hx| ->]; [by apply Gla|done].
  - intros e He. destruct (Gks e He) as [H1 H2]. split; [|done].
    rewrite Hline1, elem_of_app. intros [Hx|Hx]; [|done]. by apply H1 in Hx as ?%not_elem_of_nil.
  - rewrite Hrest. apply parents_ok_app. split; [exact Gpr|]. cbn [parents_ok]. split; [|done].
    change (m_verified q') with (m_verified q). destruct Hp as [Hp|[Hp|Hp]].
    + left. rewrite Gr, elem_of_list_to_set in Hp. unfold line in Hp. rewrite fmap_app, elem_of_app in Hp.
      rewrite elem_of_app, list_elem_of_In, <-in_rev, <-list_elem_of_In. tauto.
    + right. left. right. by apply Gd.
    + right. left. by left.
  - split_and!; [done|done|]. by apply sized_enqueue.
Qed.

(** A block whose parent is missing *)
Lemma unknown_good q js ps h p data d :
  good_for [] (mkSystem q js ps) → block_ok h p data →
  h ∉ m_readySet q → h ∉ m_drainingSet q → h ∉ m_unknownSet q → h ∉ m_knownBad q →
  p ∉ m_readySet q → p ∉ m_drainingSet q →
  good_for [] (mkSystem (add_difficulty d (with_unknown ({[h]} ∪ m_unknownSet q)
    (map_insert p h data (m_unknown q)) q)) js ps).
Proof.
  intros G Hb Hr Hd Hu Hk Hp1 Hp2. set (q' := add_difficulty _ _).
  destruct G as [Gnd Gr Gv Gvg Gj Gjn Gu Gk [Gus Gun] Gla Gua Gd Gks Gpv Gpr Gs].
  cbn [queue jobs passed] in *.
  assert (m_map (m_unknown q') ≡ₚ (p, (h, data)) :: m_map (m_unknown q)) as Hm by apply multi_insert_perm.
  assert (waiting q' ≡ₚ h :: waiting q) as Hw.
  { unfold waiting. rewrite Hm. done. }
  split; cbn [queue jobs passed]; try done.
  - rewrite Hm. by constructor.
  - split.
    + change (m_unknownSet q') with ({[h]} ∪ m_unknownSet q). rewrite Gus. apply set_eq. intros x.
      rewrite elem_of_union, elem_of_singleton, !elem_of_list_to_set, Hw, elem_of_cons. done.
    + rewrite Hw. constructor; [|done]. intros Hx. apply Hu. rewrite Gus. by apply elem_of_list_to_set.
  - intros x Hx. destruct (Gla x Hx) as (?&?&?). split_and!; [done| |done].
    cbn. rewrite elem_of_union, elem_of_singleton. intros [->|?]; [|done].
    apply Hr. rewrite Gr. by apply elem_of_list_to_set.
  - intros x. cbn. rewrite elem_of_union, elem_of_singleton. intros [->|Hx]; [done|by apply Gua].
  - intros e. rewrite Hm, elem_of_cons. intros [->|He]; [|by apply Gks]. cbn [fst]. split; [|done].
    intros Hl. destruct Hp1. rewrite Gr. by apply elem_of_list_to_set.
Qed.

Lemma is_in_false h s : is_in h s = false → h ∉ s.
Proof. apply bool_decide_eq_false. Qed.
Lemma good_same q q' js ps :
  m_drainingSet q' = m_drainingSet q → m_readySet q' = m_readySet q → m_unknownSet q' = m_unknownSet q →
  m_unknown q' = m_unknown q → m_knownBad q' = m_knownBad q → m_verified q' = m_verified q →
  m_verifying q' = m_verifying q → m_unverified q' = m_unverified q →
  good (mkSystem q js ps) → good (mkSystem q' js ps).
Proof.
  destruct q, q'. cbn. intros -> -> -> -> -> -> -> -> [G F]. split; [|exact F]. by destruct G; split.
Qed.

Lemma import_good isKnown now block ours q js ps r q' :
  (∀ h, isKnown h = true → in_chain h) → good (mkSystem q js ps) →
  import isKnown now block ours q = Ok (r, q') → r ≠ BadChain → good (mkSystem q' js ps).
Proof.
  intros Hchain HG. unfold import.
  destruct (headerHashFromBlock block) as [h|] eqn:Hh; [|discriminate]. cbn [mbind result_bind].
  destruct (is_in h (m_readySet q) || _ || _ || _) eqn:Hin; [by intros [= <- <-]|].
  rewrite !orb_false_iff in Hin. destruct Hin as [[[H1%is_in_false H2%is_in_false] H3%is_in_false] H4%is_in_false].
  destruct (verifyBlock PostGenesis block) as [bi|] eqn:Hv; [|by intros [= <- <-]]. cbv zeta.
  destruct (isKnown h); [by intros [= <- <-]|].
  destruct ((now <? m_timestamp bi) && negb ours).
  { intros [= _ <-] _. by eapply good_same; [..|exact HG]. }
  destruct (is_in (m_parentHash bi) (m_knownBad q)); [by intros [= <- _]|].
  pose proof (verified_header _ _ _ Hv) as Hb. pose proof (of_bytes_header _ _ Hb) as [Hhash _].
  assert (block_ok h (m_parentHash bi) block) as Hok.
  { exists bi. split_and!; [done| |done]. rewrite Hh in Hhash. by injection Hhash. }
  destruct HG as [G F].
  destruct (is_in (m_parentHash bi) (m_readySet q) || _ || _) eqn:Hp; cbn [negb]; intros [= _ <-] _.
  - rewrite !orb_true_iff in Hp.
    destruct (enqueued_good q js ps h (m_parentHash bi) block (BlockHeader.m_difficulty bi) G Hok H1 H2 H3 H4)
      as [G' Hl].
    { destruct Hp as [[Hp|Hp]|Hp]; [left|right; left|right; right].
      - by apply bool_decide_eq_true in Hp.
      - by apply bool_decide_eq_true in Hp.
      - by apply Hchain. }
    apply noteReady_good in G' as [G2 Hv2]; [|exact Hl].
    split; [exact G2|]. cbn [queue]. unfold front. by rewrite Hv2.
  - rewrite !orb_false_iff in Hp. destruct Hp as [[Hp1%is_in_false Hp2%is_in_false] _].
    split; [by apply unknown_good|exact F].
Qed.

(** ** The verifiers *)

Lemma placeholder_pair w : vpair (placeholder w) = upair w.
Proof. done. Qed.
Lemma take_job_good q js ps w q' :
  good (mkSystem q js ps) → take_job q = Some (w, q') → good (mkSystem q' (w :: js) ps).
Proof.
  intros [G F]. unfold take_job. destruct (dequeue (m_unverified q)) as [[w' u]|] eqn:Hd; [|done].
  cbn. intros [= -> <-]. pose proof Hd as Hd0. unfold dequeue in Hd.
  destruct (m_queue (m_unverified q)) as [|w0 l] eqn:Hq; [done|]. injection Hd as -> Hu.
  set (q' := with_verifying _ _).
  destruct G as [Gnd Gr Gv Gvg Gj Gjn Gu Gk Gus Gla Gua Gd Gks Gpv Gpr [Gs1 [Gs2 Gs3]]].
  cbn [queue jobs passed] in *.
  assert (rest q' = rest q) as Hrest.
  { unfold rest. rewrite Hq. cbn. rewrite map_app, <-app_assoc, <-Hu. done. }
  assert (line q' = line q) as Hline by (unfold line; by rewrite Hrest).
  rewrite Hq in Gu. apply Forall_cons in Gu as [Hw Gu].
  assert (m_queue (m_verifying q') = m_queue (m_verifying q) ++ [placeholder w]) as Hvq by done.
  assert (u_hash w ∉ map u_hash js) as Hfresh.
  { intros Hin. apply list_elem_of_fmap in Hin as (w'&Hw'&Hin). rewrite Forall_forall in Gj.
    destruct (Gj _ Hin) as [Hpl _]. unfold line in Gnd. rewrite fmap_app in Gnd.
    apply NoDup_app in Gnd as (_&_&Gnd). unfold rest in Gnd. rewrite fmap_app in Gnd.
    apply NoDup_app in Gnd as (_&Hdis&_). apply (Hdis (u_hash w)).
    - apply list_elem_of_fmap. exists (upair w'). split; [by rewrite Hw'|].
      apply list_elem_of_In, in_map_iff. exists (placeholder w'). split; [done|by apply list_elem_of_In].
    - rewrite Hq. by left. }
  split.
  - split; cbn [queue jobs passed]; rewrite ?Hline, ?Hrest; try done.
    + rewrite Hvq. apply Forall_app. split.
      * eapply Forall_impl; [exact Gvg|]. intros b [?|(w'&?&?)]; [by left|right]. exists w'. split; [by right|done].
      * apply Forall_singleton. right. exists w. split; [by left|done].
    + rewrite Hvq. constructor.
      * split; [|done]. apply elem_of_app. right. by left.
      * eapply Forall_impl; [exact Gj|]. intros x [Hx Hx']. split; [|done]. apply elem_of_app. by left.
    + cbn. by constructor.
    + change (m_queue (m_unverified q')) with (m_queue u). rewrite <-Hu. done.
    + split_and!; [done|by apply sized_enqueue|]. by apply (sized_dequeue w (m_unverified q)).
  - unfold front in *. cbn [queue] in *. rewrite Hvq. by destruct (m_queue (m_verifying q)).
Qed.

(** The jobs and the blocks under verification belong together. *)
Definition jobs_fit (js : list UnverifiedBlock) (l : list VerifiedBlock) : Prop :=
  Forall (λ b, done_ok b ∨ ∃ w, w ∈ js ∧ b = placeholder w) l ∧
  Forall (λ w, placeholder w ∈ l ∧ block_ok (u_hash w) (u_parentHash w) (u_blockData w)) js ∧
  NoDup (map u_hash js).
Lemma verifying_nodup K q js ps :
  good_for K (mkSystem q js ps) → NoDup (map vhash (m_queue (m_verifying q))).
Proof.
  intros G. pose proof (g_nodup _ _ G) as Hn. cbn [queue] in Hn. unfold line, rest in Hn.
  rewrite !fmap_app in Hn. apply NoDup_app in Hn as (_&_&Hn). apply NoDup_app in Hn as (Hn&_&_).
  by rewrite <-list_fmap_compose in Hn.
Qed.
Lemma jobs_unique js w w' : NoDup (map u_hash js) → w ∈ js → w' ∈ js → u_hash w = u_hash w' → w = w'.
Proof.
  induction js as [|x js IH]; intros Hn Hw Hw' He; [by apply not_elem_of_nil in Hw|].
  cbn [map] in Hn. apply NoDup_cons in Hn as [Hx Hn].
  apply elem_of_cons in Hw as [->|Hw]; apply elem_of_cons in Hw' as [->|Hw']; [done| | |by apply IH].
  - destruct Hx. rewrite He. by apply list_elem_of_fmap_2.
  - destruct Hx. rewrite <-He. by apply list_elem_of_fmap_2.
Qed.
(** Where the job [w] is, and that nothing else is found under its hash *)
Lemma job_split q js1 w js2 ps :
  good_for [] (mkSystem q (js1 ++ w :: js2) ps) →
  ∃ l1 l2, m_queue (m_verifying q) = l1 ++ placeholder w :: l2 ∧
    (∀ x, x ∈ l1 ++ l2 → m_sha3Uncles (v_info x) ≠ u_hash w) ∧ jobs_fit (js1 ++ js2) (l1 ++ l2).
Proof.
  intros G. pose proof (verifying_nodup _ _ _ _ G) as Hn.
  destruct G as [_ _ _ Gvg Gj Gjn _ _ _ _ _ _ _ _ _ _]. cbn [queue jobs] in *.
  assert (w ∈ js1 ++ w :: js2) as Hw by (apply elem_of_app; right; by left).
  pose proof Gj as Gj'. rewrite Forall_forall in Gj'. destruct (Gj' w Hw) as [Hpl Hok].
  apply list_elem_of_split in Hpl as (l1&l2&Hl). exists l1, l2. split; [exact Hl|]. rewrite Hl in *.
  rewrite map_app in Hn. cbn [map] in Hn. rewrite <-Permutation_middle in Hn.
  apply NoDup_cons in Hn as [Hfresh Hn]. rewrite <-map_app in Hfresh, Hn.
  assert (∀ x, x ∈ l1 ++ l2 → done_ok x ∨ ∃ w', w' ∈ js1 ++ js2 ∧ x = placeholder w' ∧ u_hash w' ≠ u_hash w) as Hx.
  { intros x Hx. rewrite Forall_forall in Gvg.
    destruct (Gvg x) as [?|(w'&Hw'&->)]; [|by left|right].
    { rewrite elem_of_app, elem_of_cons. apply elem_of_app in Hx. tauto. }
    assert (u_hash w' ≠ u_hash w) as Hne.
    { intros He. apply Hfresh. change (vhash (placeholder w)) with (u_hash w). rewrite <-He.
      change (u_hash w') with (vhash (placeholder w')). by apply list_elem_of_fmap_2. }
    exists w'. split_and!; [|done|done].
    rewrite elem_of_app, elem_of_cons in Hw'. rewrite elem_of_app.
    destruct Hw' as [?|[->|?]]; [by left|done|by right]. }
  split.
  - intros x Hin. destruct (Hx x Hin) as [Hd|(w'&_&->&Hne)]; [|exact Hne].
    destruct Hok as (bi&Hb&Hh&_). rewrite Hh, (info_hash_memo _ _ Hb). by apply (do_uncles x Hd (u_blockData w)).
  - rewrite map_app in Gjn. cbn [map] in Gjn. rewrite <-Permutation_middle in Gjn.
    apply NoDup_cons in Gjn as [Hwn Gjn]. rewrite <-map_app in Hwn, Gjn.
    split_and!; [| |exact Gjn]; apply Forall_forall.
    + intros x Hin. destruct (Hx x Hin) as [Hd|(w'&Hw'&->&_)]; [by left|right; by exists w'].
    + intros w' Hw'. destruct (Gj' w') as [Hp Hok'].
      { rewrite elem_of_app, elem_of_cons. apply elem_of_app in Hw'. tauto. }
      split; [|done]. rewrite elem_of_app, elem_of_cons in Hp. rewrite elem_of_app.
      destruct Hp as [?|[Hp|?]]; [by left| |by right]. destruct Hwn.
      assert (u_hash w = u_hash w') as ->; [|by apply list_elem_of_fmap_2].
      by apply (f_equal vhash) in Hp.
Qed.

(** The job is done: its block takes its place. *)
Lemma replaced_good q js1 w js2 ps res l1 l2 v :
  good_for [] (mkSystem q (js1 ++ w :: js2) ps) → m_queue (m_verifying q) = l1 ++ placeholder w :: l2 →
  jobs_fit (js1 ++ js2) (l1 ++ l2) → done_ok res → vpair res = upair w →
  m_queue v = l1 ++ res :: l2 → sized_ok v →
  good_for [] (mkSystem (with_verifying v q) (js1 ++ js2) ps).
Proof.
  intros G Hq (Hf1&Hf2&Hf3) Hd Hp Hv Hs. set (q' := with_verifying v q).
  destruct G as [Gnd Gr Gv Gvg Gj Gjn Gu Gk Gus Gla Gua Gd Gks Gpv Gpr [Gs1 [Gs2 Gs3]]].
  cbn [queue jobs passed] in *.
  assert (rest q' = rest q) as Hrest.
  { unfold rest. change (m_verifying q') with v. rewrite Hv, Hq, !map_app. cbn [map].
    by rewrite Hp, placeholder_pair. }
  assert (line q' = line q) as Hline by (unfold line; by rewrite Hrest).
  split; cbn [queue jobs passed]; rewrite ?Hline, ?Hrest; try done.
  - change (m_verifying q') with v. rewrite Hv. apply Forall_app in Hf1 as [Ha Hb].
    apply Forall_app. split; [done|]. constructor; [by left|done].
  - change (m_verifying q') with v. rewrite Hv. eapply Forall_impl; [exact Hf2|].
    intros x [Hx ?]. split; [|done]. rewrite elem_of_app, elem_of_cons. apply elem_of_app in Hx. tauto.
Qed.

(** A block is bad: it leaves the line, and its children are behind something
    known to be bad. *)
Lemma dropped_good q js js' ps b l1 l2 v :
  good_for [] (mkSystem q js ps) → m_queue (m_verifying q) = l1 ++ b :: l2 → jobs_fit js' (l1 ++ l2) →
  m_queue v = l1 ++ l2 → sized_ok v →
  good_for [] (mkSystem (with_verifying v (bad_insert (vhash b) (ready_erase (vhash b) q))) js' ps).
Proof.
  intros G Hq (Hf1&Hf2&Hf3) Hv Hs. set (q' := with_verifying v _).
  destruct G as [Gnd Gr Gv Gvg Gj Gjn Gu Gk Gus Gla Gua Gd Gks Gpv Gpr [Gs1 [Gs2 Gs3]]].
  cbn [queue jobs passed] in *.
  set (r1 := map vpair l1). set (r2 := map vpair l2 ++ map upair (m_queue (m_unverified q))).
  assert (rest q = r1 ++ vpair b :: r2) as Hr0.
  { unfold rest, r1, r2. rewrite Hq, map_app. cbn [map]. by rewrite <-app_assoc. }
  assert (rest q' = r1 ++ r2) as Hr1.
  { unfold rest, r1, r2. change (m_verifying q') with v. rewrite Hv, map_app. by rewrite <-app_assoc. }
  set (r0 := map vpair (m_queue (m_verified q))) in *.
  assert (line q = r0 ++ r1 ++ vpair b :: r2) as Hl0 by (unfold line; by rewrite Hr0).
  assert (line q' = r0 ++ r1 ++ r2) as Hl1 by (unfold line; by rewrite Hr1).
  assert ((line q).*1 ≡ₚ vhash b :: (line q').*1) as Hperm.
  { rewrite Hl0, Hl1, !fmap_app, fmap_cons. cbn [fst vpair]. rewrite <-!Permutation_middle. done. }
  assert (vhash b ∉ (line q').*1 ∧ NoDup (line q').*1) as [Hout Hnd] by (rewrite Hperm in Gnd; by apply NoDup_cons).
  assert (vhash b ∈ (line q).*1) as Hin by (rewrite Hperm; by left).
  split; cbn [queue jobs passed]; try done.
  - change (m_readySet q') with (m_readySet q ∖ {[vhash b]}). rewrite Gr. apply set_eq. intros x.
    rewrite elem_of_difference, elem_of_singleton, !elem_of_list_to_set, Hperm, elem_of_cons.
    split; [tauto|]. intros Hx. split; [by right|]. by intros ->.
  - change (m_verifying q') with v. by rewrite Hv.
  - change (m_verifying q') with v. by rewrite Hv.
  - intros x Hx. assert (x ∈ (line q).*1) as Hx' by (rewrite Hperm; by right).
    destruct (Gla x Hx') as (?&?&?). split_and!; [done|done|]. cbn.
    rewrite elem_of_union, elem_of_singleton. intros [->|?]; done.
  - intros x Hx. cbn in Hx. destruct (Gua x Hx) as [? ?]. split; [done|]. cbn.
    rewrite elem_of_union, elem_of_singleton. intros [->|?]; [|done]. by destruct (Gla _ Hin) as (?&?&?).
  - intros x Hx. cbn in Hx. destruct (Gd x Hx) as [? ?]. split; [done|]. cbn.
    rewrite elem_of_union, elem_of_singleton. intros [->|?]; [|done]. by destruct (Gla _ Hin) as (?&?&?).
  - intros e He. cbn in He. destruct (Gks e He) as [H1 H2]. split; [|done]. intros Hx. apply H1.
    rewrite Hperm. by right.
  - rewrite Hr1. change (m_verified q') with (m_verified q). fold r0. rewrite Hr0 in Gpr.
    apply (parents_ok_skip _ _ (vhash b) (parent_of b)).
    { right. cbn. set_solver. }
    eapply parents_ok_mono; [| |exact Gpr]; [|by left].
    intros p [?|Hx]; left; [by left|right]. cbn. set_solver.
Qed.

(** The front block, whose verification is done, is let through or dropped. *)
Lemma done_front_jobs q js ps b l :
  good_for [] (mkSystem q js ps) → m_queue (m_verifying q) = b :: l → done_ok b → jobs_fit js l.
Proof.
  intros G Hq Hd. destruct G as [_ _ _ Gvg Gj Gjn _ _ _ _ _ _ _ _ _ _]. cbn [queue jobs] in *.
  rewrite Hq in *. apply Forall_cons in Gvg as [_ Gvg]. split_and!; [done| |done].
  eapply Forall_impl; [exact Gj|]. intros w [[Hw|Hw]%elem_of_cons ?]; [|done].
  by destruct (do_data b Hd); rewrite <-Hw.
Qed.
Lemma settle_good q js ps b l v :
  good_for [] (mkSystem q js ps) → m_queue (m_verifying q) = b :: l → done_ok b →
  m_queue v = l → sized_ok v →
  good_for [] (mkSystem (settle (with_verifying v q) b) js ps).
Proof.
  intros G Hq Hd Hv Hs. pose proof (done_front_jobs _ _ _ _ _ G Hq Hd) as Hfit.
  assert (vhash b = info_hash b) as Hvh by (unfold vhash; pose proof (do_data b Hd); by destruct (v_blockData b)).
  unfold settle. change (m_knownBad (with_verifying v q)) with (m_knownBad q).
  destruct (is_in (parent_of b) (m_knownBad q)) eqn:Hbad.
  { rewrite <-Hvh. exact (dropped_good q js js ps b [] l v G Hq Hfit Hv Hs). }
  apply is_in_false in Hbad. set (q' := with_verified _ _).
  destruct Hfit as (Hf1&Hf2&Hf3).
  destruct G as [Gnd Gr Gv Gvg Gj Gjn Gu Gk Gus Gla Gua Gd Gks Gpv Gpr [Gs1 [Gs2 Gs3]]].
  cbn [queue jobs passed] in *.
  assert (rest q = vpair b :: rest q') as Hr0.
  { unfold rest. rewrite Hq. cbn [map app]. change (m_verifying q') with v. by rewrite Hv. }
  assert (map vpair (m_queue (m_verified q')) = map vpair (m_queue (m_verified q)) ++ [vpair b]) as Hv'.
  { change (m_queue (m_verified q')) with (m_queue (m_verified q) ++ [b]). by rewrite map_app. }
  assert (line q' = line q) as Hline.
  { unfold line. rewrite Hv', Hr0, <-app_assoc. done. }
  rewrite Hr0 in Gpr. cbn [parents_ok vpair] in Gpr. destruct Gpr as [Gp Gpr].
  split; cbn [queue jobs passed]; rewrite ?Hline; try done.
  - change (m_queue (m_verified q')) with (m_queue (m_verified q) ++ [b]).
    apply Forall_app. split; [done|]. by apply Forall_singleton.
  - change (m_verifying q') with v. by rewrite Hv.
  - change (m_verifying q') with v. by rewrite Hv.
  - rewrite Hv'. apply parents_ok_app. split; [exact Gpv|]. cbn [parents_ok vpair]. split; [|done].
    rewrite app_nil_r, list_elem_of_In, <-in_rev, <-list_elem_of_In.
    destruct Gp as [?|[?|?]]; [by left|by right|done].
  - rewrite Hv', fmap_app. eapply parents_ok_mono; [| |exact Gpr]; [by left|].
    intros p. rewrite elem_of_cons, elem_of_app. intros [->|?]; left; [right; by left|by left].
  - split_and!; [by apply sized_enqueue|done|done].
Qed.

Lemma drainVerified_good fuel q js ps :
  (length (m_queue (m_verifying q)) ≤ fuel)%nat → good_for [] (mkSystem q js ps) →
  good (mkSystem (drainVerified_loop fuel q) js ps).
Proof.
  revert q. induction fuel as [|fuel IH]; intros q Hf G; cbn [drainVerified_loop].
  - split; [exact G|]. unfold front. cbn [queue]. destruct (m_queue _); [done|cbn in Hf; lia].
  - destruct (dequeue (m_verifying q)) as [[b v]|] eqn:Hd.
    + pose proof Hd as Hd'. unfold dequeue in Hd'.
      destruct (m_queue (m_verifying q)) as [|b' l] eqn:Hq; [done|]. injection Hd' as -> Hv.
      destruct (v_blockData b) as [|x data] eqn:Hdata.
      { split; [exact G|]. unfold front. cbn [queue]. by rewrite Hq. }
      assert (m_queue v = l) as Hvl by by rewrite <-Hv.
      assert (done_ok b) as Hok.
      { pose proof (g_verifying _ _ G) as Hg. cbn [queue] in Hg. rewrite Hq in Hg.
        apply Forall_cons in Hg as [[?|(w&_&->)] _]; done. }
      apply IH.
      * unfold settle. destruct (is_in _ _); cbn; rewrite Hvl; cbn in Hf; lia.
      * apply (settle_good _ _ _ _ l); [exact G|exact Hq|exact Hok|exact Hvl|].
        eapply sized_dequeue; [exact Hd|]. apply (g_sizes _ _ G).
    + split; [exact G|]. unfold front, dequeue in *. cbn [queue].
      by destruct (m_queue (m_verifying q)).
Qed.

Lemma replace_first_at h res x l1 l2 :
  (∀ y, y ∈ l1 → m_sha3Uncles (v_info y) ≠ h) → m_sha3Uncles (v_info x) = h →
  replace_first h res (l1 ++ x :: l2) = Some (x, l1 ++ res :: l2).
Proof.
  intros Hl Hx. induction l1 as [|y l1 IH]; cbn [app replace_first sha3Uncles_of VerifiedBlock_block].
  - by rewrite (proj2 (Z.eqb_eq _ _) Hx).
  - rewrite (proj2 (Z.eqb_neq _ _)) by (apply Hl; by left).
    rewrite IH by (intros z Hz; apply Hl; by right). done.
Qed.
Lemma sized_at {T} `{Block T} (x y : T) l1 l2 s :
  s = u64 (foldr (λ t n, data_size t + n) 0 (l1 ++ x :: l2)) →
  sized_ok (mkSized (l1 ++ y :: l2) (u64 (u64 (s - data_size x) + data_size y))).
Proof.
  intros ->. unfold sized_ok. cbn [m_size m_queue]. rewrite !foldr_app. cbn [foldr].
  set (a := foldr _ 0 l2). assert (∀ c, foldr (λ t n, data_size t + n) c l1 =
    foldr (λ t n, data_size t + n) 0 l1 + c) as Hc.
  { intros c. induction l1; cbn [foldr]; lia. }
  rewrite (Hc (data_size x + a)), (Hc (data_size y + a)).
  unfold wrap. rewrite Zminus_mod_idemp_l, Z.add_mod_idemp_l by done. f_equal. lia.
Qed.

(** Removing a placeholder *)
Lemma remove_at h b l1 l2 (v : SizedBlockQueue VerifiedBlock) :
  m_queue v = l1 ++ b :: l2 → (∀ y, y ∈ l1 ++ l2 → m_sha3Uncles (v_info y) ≠ h) →
  m_sha3Uncles (v_info b) = h → v_blockData b = [] → sized_ok v →
  m_queue (remove h v).2 = l1 ++ l2 ∧ sized_ok (remove h v).2.
Proof.
  intros Hq Hne Hb Hdata Hs. unfold remove, removeIf.
  cbn [sha3Uncles_of VerifiedBlock_block].
  assert (∀ l, (∀ y, y ∈ l → m_sha3Uncles (v_info y) ≠ h) →
    List.filter (λ t, negb (m_sha3Uncles (v_info t) =? h)) l = l) as Hkeep.
  { intros l Hl. induction l as [|y l IH]; [done|]. cbn [List.filter].
    rewrite (proj2 (Z.eqb_neq _ _)) by (apply Hl; by left). cbn [negb]. f_equal. apply IH.
    intros z Hz. apply Hl. by right. }
  assert (List.filter (λ t, negb (m_sha3Uncles (v_info t) =? h)) (m_queue v) = l1 ++ l2) as Hf.
  { rewrite Hq, List.filter_app. cbn [List.filter]. rewrite (proj2 (Z.eqb_eq _ _) Hb). cbn [negb].
    rewrite !Hkeep; [done| |]; intros y Hy; apply Hne, elem_of_app; first [by left|by right]. }
  rewrite Hf. set (gone := map _ _). cbn [snd m_queue removeRange].
  assert (∀ t, t ∈ gone → data_size t = 0) as Hgone.
  { intros t Ht. unfold gone in Ht. apply list_elem_of_fmap in Ht as (y&->&Hy).
    destruct (m_sha3Uncles (v_info y) =? h) eqn:E; [|done].
    assert (y ∈ m_queue v) as Hy' by (rewrite <-(take_drop (length (l1 ++ l2))); apply elem_of_app; by right).
    apply Z.eqb_eq in E. rewrite Hq, elem_of_app, elem_of_cons in Hy'.
    destruct Hy' as [Hy'|[->|Hy']].
    - destruct (Hne y); [apply elem_of_app; by left|done].
    - unfold data_size. cbn. by rewrite Hdata.
    - destruct (Hne y); [apply elem_of_app; by right|done]. }
  split; [done|]. unfold sized_ok in *. cbn [m_size m_queue].
  assert (m_size v = u64 (foldr (λ t n, data_size t + n) 0 (l1 ++ l2))) as Hsz.
  { rewrite Hs, Hq, !foldr_app. cbn [foldr]. assert (data_size b = 0) as -> by (unfold data_size; cbn; by rewrite Hdata).
    done. }
  unfold removeRange. cbn [m_size m_queue]. rewrite Hsz. clear -Hgone. induction gone as [|t gone IH]; [done|]. cbn [fold_left].
  assert (∀ x, u64 (u64 x) = u64 x) as Hw by (intros x; apply Zmod_mod).
  rewrite (Hgone t) by by left. rewrite Z.sub_0_r, Hw. apply IH.
  intros x Hx. apply Hgone. by right.
Qed.

Lemma finish_job_good q js1 w js2 ps :
  good (mkSystem q (js1 ++ w :: js2) ps) → good (mkSystem (finish_job w q) (js1 ++ js2) ps).
Proof.
  intros [G F]. destruct (job_split _ _ _ _ _ G) as (l1&l2&Hq&Hne&Hfit).
  destruct (g_sizes _ _ G) as (_&Hs&_). cbn [queue] in Hs.
  assert (block_ok (u_hash w) (u_parentHash w) (u_blockData w)) as Hok.
  { pose proof (g_jobs _ _ G) as Hj. cbn [queue jobs] in Hj. rewrite Forall_forall in Hj.
    apply (Hj w). apply elem_of_app. right. by left. }
  unfold finish_job. destruct (verifyBlock OutOfOrderChecks (u_blockData w)) as [info|] eqn:Hv.
  - set (res := mkVerified info (u_blockData w)).
    pose proof (verified_header _ _ _ Hv) as Hb. destruct (of_bytes_header _ _ Hb) as [Hh Hdata].
    destruct Hok as (bi&Hbi&Hwh&Hwp). rewrite Hb in Hbi. injection Hbi as <-.
    assert (done_ok res) as Hd.
    { split; [exact Hdata| |].
      - exact Hb.
      - intros data i. by eapply uncles_no_header. }
    assert (vpair res = upair w) as Hp.
    { unfold vpair, upair, vhash. cbn [v_blockData res]. rewrite Hwh, Hwp.
      destruct (u_blockData w) eqn:E; [done|]. by rewrite <-E. }
    set (size' := u64 (u64 (m_size (m_verifying q) - data_size (placeholder w)) + data_size res)).
    assert (sized_ok (mkSized (l1 ++ res :: l2) size')) as Hs'.
    { apply sized_at. by rewrite <-Hq. }
    pose proof (replaced_good q js1 w js2 ps res l1 l2 (mkSized (l1 ++ res :: l2) size')
      G Hq Hfit Hd Hp eq_refl Hs') as G'.
    unfold finish_good. destruct l1 as [|x l1].
    + unfold dequeue. rewrite Hq. cbn [app]. change (m_sha3Uncles (v_info (placeholder w))) with (u_hash w).
      rewrite Z.eqb_refl. apply drainVerified_good; [done|].
      pose proof (settle_good _ _ _ res l2
        (mkSized l2 (u64 (m_size (m_verifying q) - data_size (placeholder w)))) G' eq_refl Hd eq_refl) as Hgood.
      apply Hgood. apply (sized_dequeue (placeholder w) (m_verifying q)); [|done].
      unfold dequeue. by rewrite Hq.
    + unfold dequeue. rewrite Hq. cbn [app].
      rewrite (proj2 (Z.eqb_neq _ _)) by (apply Hne; by left).
      assert (replace (u_hash w) res (m_verifying q) = (true, mkSized ((x :: l1) ++ res :: l2) size')) as ->.
      { unfold replace. rewrite Hq, (replace_first_at _ _ (placeholder w)); [done| |done].
        intros y Hy. apply Hne. apply elem_of_app. by left. }
      split; [exact G'|]. unfold front in *. cbn [queue] in *. by rewrite Hq in F.
  - unfold finish_bad. apply drainVerified_good; [done|].
    destruct (remove_at (u_hash w) (placeholder w) l1 l2 (m_verifying q) Hq Hne) as [Hr Hrs]; [done|done|done|].
    exact (dropped_good q _ (js1 ++ js2) ps (placeholder w) l1 l2 _ G Hq Hfit Hr Hrs).
Qed.

(** ** Draining *)

Lemma drain_all out q :
  ∃ dd, fold_left drain_one out q =
    with_ready (m_readySet q ∖ list_to_set (map info_hash out))
      (with_draining (list_to_set (map info_hash out) ∪ m_drainingSet q) dd q).
Proof.
  revert q. induction out as [|b out IH]; intros q; cbn [fold_left map list_to_set].
  - exists (m_drainingDifficulty q). destruct q. unfold with_ready, with_draining.
    cbn [m_readySet m_unknownSet m_unknown m_unverified m_drainingSet m_knownBad m_future m_verified
         m_verifying m_difficulty m_drainingDifficulty].
    by rewrite (left_id_L ∅ (∪)), difference_empty_L.
  - destruct (IH (drain_one q b)) as [dd ->]. exists dd. unfold drain_one, ready_erase, with_ready, with_draining.
    cbn [m_readySet m_unknownSet m_unknown m_unverified m_drainingSet m_knownBad m_future m_verified
         m_verifying m_difficulty m_drainingDifficulty].
    f_equal; set_solver.
Qed.
Lemma vpair_done l : Forall done_ok l → (map vpair l).*1 = map info_hash l.
Proof.
  induction 1 as [|b l Hd _ IH]; [done|]. cbn [map]. rewrite fmap_cons, IH. f_equal.
  unfold vpair, vhash. cbn. pose proof (do_data b Hd). by destruct (v_blockData b).
Qed.
Lemma drain_good max q js ps out more q' :
  good (mkSystem q js ps) → drain max q = (out, more, q') →
  good (mkSystem q' js (list_to_set (map info_hash out) ∪ ps)) ∧
  Forall done_ok out ∧ NoDup (map info_hash out) ∧
  (∀ h, h ∈ map info_hash out → h ∈ m_drainingSet q') ∧ parents_ok (λ p, in_chain p ∨ p ∈ ps) [] (map vpair out).
Proof.
  intros [G F]. unfold drain. destruct (bool_decide (m_drainingSet q = ∅)) eqn:Hempty.
  2: { intros [= <- _ <-]. split_and!; [split; [|done]|done|by constructor|by intros h ?%not_elem_of_nil|done].
       eapply good_for_mono; [| |exact G]; [done|set_solver]. }
  apply bool_decide_eq_true in Hempty. unfold dequeueMultiple.
  set (n := Z.to_nat _). cbn [m_verified with_draining].
  set (o := take n (m_queue (m_verified q))). set (l := drop n (m_queue (m_verified q))).
  assert (m_queue (m_verified q) = o ++ l) as Hq by (symmetry; apply take_drop).
  destruct (drain_all o (with_verified (removeRange o l (m_verified q)) (with_draining (m_drainingSet q) 0 q)))
    as [dd ->].
  set (q1 := with_ready _ _). intros [= <- _ <-].
  destruct G as [Gnd Gr Gv Gvg Gj Gjn Gu Gk Gus Gla Gua Gd Gks Gpv Gpr [Gs1 [Gs2 Gs3]]].
  cbn [queue jobs passed] in *. rewrite Hq in Gv. apply Forall_app in Gv as [Gvo Gvl].
  assert ((line q).*1 = map info_hash o ++ (line q1).*1) as Hline.
  { unfold line. rewrite Hq, (map_app vpair o l), <-app_assoc, fmap_app, (vpair_done o Gvo). done. }
  rewrite Hline in Gnd. apply NoDup_app in Gnd as (Hn1&Hdis&Hn2).
  rewrite Hq, map_app in Gpv. apply parents_ok_app in Gpv as [Gpo Gpl].
  assert (∀ x, x ∈ m_drainingSet q1 ↔ x ∈ map info_hash o) as Hdr.
  { intros x. cbn. rewrite elem_of_union, elem_of_list_to_set, Hempty. set_solver. }
  split; [split; [|exact F]|split_and!; [done|done|by intros h ?%Hdr|done]].
  assert (∀ x, x ∈ map info_hash o → x ∈ (line q).*1) as Hol by (intros x Hx; rewrite Hline; apply elem_of_app; by left).
  assert (∀ x, x ∈ (line q1).*1 → x ∈ (line q).*1) as Hll by (intros x Hx; rewrite Hline; apply elem_of_app; by right).
  split; cbn [queue jobs passed]; try done.
  - change (m_readySet q1) with (m_readySet q ∖ list_to_set (map info_hash o)). rewrite Gr, Hline.
    apply set_eq. intros x. rewrite elem_of_difference, !elem_of_list_to_set, elem_of_app. split; [tauto|].
    intros Hx. split; [by right|]. intros Hx'. by apply (Hdis x).
  - intros x Hx. destruct (Gla x (Hll x Hx)) as (?&?&?). split_and!; [|done|done].
    rewrite Hdr. intros Hx'. by apply (Hdis x).
  - intros x Hx. destruct (Gua x Hx) as [? ?]. split; [|done]. rewrite Hdr. intros Hx'.
    by destruct (Gla x (Hol x Hx')) as (_&?&_).
  - intros x Hx. apply Hdr in Hx. split; [apply elem_of_union; left; by apply elem_of_list_to_set|].
    by destruct (Gla x (Hol x Hx)) as (_&_&?).
  - intros e He. destruct (Gks e He) as [H1 H2]. split; [intros Hx%Hll; by apply H1|].
    rewrite Hdr. intros Hx%Hol. by apply H1, not_elem_of_nil in Hx.
  - change (m_verified q1) with (removeRange o l (m_verified q)). cbn [m_queue removeRange].
    eapply parents_ok_mono; [| |exact Gpl].
    + intros p [?|?]; left; [by left|right; set_solver].
    + intros p. rewrite app_nil_r, list_elem_of_In, <-in_rev, <-list_elem_of_In, (vpair_done o Gvo).
      intros Hp. right. right. apply elem_of_union. left. by apply elem_of_list_to_set.
  - change (rest q1) with (rest q). change (m_knownBad q1) with (m_knownBad q).
    change (m_verified q1) with (removeRange o l (m_verified q)). cbn [m_queue removeRange].
    eapply parents_ok_mono; [| |exact Gpr].
    + intros p [[?|?]|?]; left; [left; by left|left; right; set_solver|by right].
    + intros p. rewrite Hq, (map_app vpair o l), fmap_app, elem_of_app, (vpair_done o Gvo).
      intros [Hp|Hp]; [right; left; right|by left]. apply elem_of_union. left. by apply elem_of_list_to_set.
  - split_and!; [by apply sized_remove|done|done].
Qed.

Lemma doneDrain_good q js ps : good (mkSystem q js ps) → good (mkSystem (doneDrain [] q).2 js ps).
Proof.
  intros [G F]. split; [|exact F].
  destruct G as [Gnd Gr Gv Gvg Gj Gjn Gu Gk Gus Gla Gua Gd Gks Gpv Gpr Gs].
  split; cbn [queue jobs passed] in *; try done.
  - intros h Hh. destruct (Gla h Hh) as (_&?&?). split_and!; [apply not_elem_of_empty|done|done].
  - intros h Hh. destruct (Gua h Hh) as (_&?). split_and!; [apply not_elem_of_empty|done].
  - intros e He. destruct (Gks e He) as [? _]. split; [done|apply not_elem_of_empty].
Qed.
End Spec.
End BlockQueueSpec.
