(* ===== verification/BlockQueueSystem.v ===== *)
(** * The threads of the block queue

    The critical sections of the threads as steps of one system, taken in any
    order; what holds in every state that can be reached, and in which order the
    blocks are handed out. *)
From S2P Require Import Prelude CommonData RLP TransactionBase BlockHeader BlockHeaderCodec BlockQueue BlockQueueSpec.

Module BlockQueueSystem.
Import BlockHeader BlockQueue BlockQueueSpec.

Section System.
Context {CR : Crypto} {CF : ChainFace} {CL : ChainLaws}.
Context (in_chain : Z → Prop).

(** ** Steps *)

(** One critical section of one thread.  A verifier takes a job and ends it at
    any later time; what the chain knows may change between the imports. *)
Inductive step : System → System → Prop :=
| step_import isKnown now block ours q js ps r q' :
    (∀ h, isKnown h = true → in_chain h) → import isKnown now block ours q = Ok (r, q') → r ≠ BadChain →
    step (mkSystem q js ps) (mkSystem q' js ps)
| step_tick now q js ps : step (mkSystem q js ps) (mkSystem (tick_take now q).2 js ps)
| step_take w q q' js ps :
    take_job q = Some (w, q') → step (mkSystem q js ps) (mkSystem q' (w :: js) ps)
| step_finish q js1 w js2 ps :
    step (mkSystem q (js1 ++ w :: js2) ps) (mkSystem (finish_job w q) (js1 ++ js2) ps)
| step_drain max out more q q' js ps :
    drain max q = (out, more, q') →
    step (mkSystem q js ps) (mkSystem q' js (list_to_set (map info_hash out) ∪ ps))
| step_done q js ps : step (mkSystem q js ps) (mkSystem (doneDrain [] q).2 js ps)
| step_retry q js ps : step (mkSystem q js ps) (mkSystem (retryAllUnknown q) js (parents q ∪ ps)).
Definition start : System := mkSystem empty_queue [] ∅.
Definition reachable : System → Prop := rtc step start.

Lemma start_good : good in_chain start.
Proof. split; [|done]. split; cbn; try done; try by constructor. split; [done|by constructor]. Qed.
Lemma step_good s s' : step s s' → good in_chain s → good in_chain s'.
Proof.
  intros [isKnown now block ours q js ps r q' Hk Hi Hr|now q js ps|w q q' js ps Ht|q js1 w js2 ps
         |max out more q q' js ps Hd|q js ps|q js ps] HG.
  - by eapply import_good.
  - eapply good_same; [..|exact HG]; unfold tick_take;
      (destruct (firstKey (m_future q)) as [k|]; [|done]); (destruct (now <? k); [done|]);
      unfold removeByKeyNotGreater, map_removeRange; done.
  - by eapply take_job_good.
  - by apply finish_job_good.
  - by eapply drain_good.
  - by apply doneDrain_good.
  - destruct HG as [G F]. unfold retryAllUnknown.
    destruct (retry_loop_good in_chain (length (m_map (m_unknown q))) [] q js (parents q ∪ ps)) as [G' Hv]; [done|set_solver| |].
    { eapply good_for_mono; [| |exact G]; [done|set_solver]. }
    split; [exact G'|]. unfold front. cbn [queue]. by rewrite Hv.
Qed.
Lemma reachable_good s : reachable s → good in_chain s.
Proof. intros H. eapply (rtc_ind_r (good in_chain)); [exact start_good|intros; by eapply step_good|exact H]. Qed.

(** ** What holds in every state *)

(** Where a block can be, by its hash *)
Record consistent (s : System) : Prop := {
  c_invariants : invariants (queue s) = true;
  c_ready h : h ∈ m_readySet (queue s) ↔ h ∈ (line (queue s)).*1;
  c_unknown h : h ∈ m_unknownSet (queue s) ↔ h ∈ waiting (queue s);
  c_apart h :
    (h ∈ m_readySet (queue s) → h ∉ m_drainingSet (queue s) ∧ h ∉ m_unknownSet (queue s) ∧ h ∉ m_knownBad (queue s)) ∧
    (h ∈ m_unknownSet (queue s) → h ∉ m_drainingSet (queue s) ∧ h ∉ m_knownBad (queue s)) ∧
    (h ∈ m_drainingSet (queue s) → h ∉ m_knownBad (queue s));
  c_woken e : e ∈ m_map (m_unknown (queue s)) →
    e.1 ∉ m_readySet (queue s) ∧ e.1 ∉ m_drainingSet (queue s);
  c_idle : jobs s = [] → m_queue (m_verifying (queue s)) = [];
  c_size : knownSize (queue s) =
    u64 (foldr (λ t n, data_size t + n) 0 (m_queue (m_verified (queue s))) +
         foldr (λ t n, data_size t + n) 0 (m_queue (m_unverified (queue s))) +
         foldr (λ t n, data_size t + n) 0 (m_queue (m_verifying (queue s))));
}.

Lemma good_consistent s : good in_chain s → consistent s.
Proof.
  destruct s as [q js ps]. intros [G F].
  destruct G as [Gnd Gr Gv Gvg Gj Gjn Gu Gk [Gus Gun] Gla Gua Gd Gks Gpv Gpr [Gs1 [Gs2 Gs3]]].
  cbn [queue jobs passed] in *.
  assert (∀ h, h ∈ m_readySet q ↔ h ∈ (line q).*1) as Hr by (intros h; by rewrite Gr, elem_of_list_to_set).
  split; cbn [queue jobs passed].
  - unfold invariants. apply Z.eqb_eq. rewrite Gr, size_list_to_set by done.
    unfold line, rest, knownCount, count. rewrite length_fmap, !length_app, !length_map. lia.
  - exact Hr.
  - intros h. by rewrite Gus, elem_of_list_to_set.
  - intros h. rewrite Hr. split_and!; [apply Gla|apply Gua|by intros [_ ?]%Gd].
  - intros e He. destruct (Gks e He) as [H1 H2]. split; [|done]. rewrite Hr. by intros ?%H1%not_elem_of_nil.
  - intros ->. unfold front in F. destruct (m_queue (m_verifying q)) as [|b l]; [done|].
    apply Forall_cons in Gvg as [[Hd|(w&Hw&_)] _]; [by destruct (do_data b Hd)|by apply not_elem_of_nil in Hw].
  - unfold knownSize, sized_ok in *. rewrite Gs1, Gs2, Gs3.
    assert (∀ a b c, u64 (u64 (u64 a + u64 b) + u64 c) = u64 (a + b + c)) as Hsum; [|by rewrite Hsum].
    intros a b c. unfold wrap. rewrite <-(Zplus_mod a b), <-(Zplus_mod (a + b) c). done.
Qed.


End System.

(** ** A run *)

(** A chain that takes the blocks without uncles, whose parent 7 is known *)
Definition test_hash : Crypto :=
  {| tx_hash bs := 1 + fold_left (λ a b, (a * 31 + b) mod 1000003) bs 0; recover := λ _ _, [] |}.
#[local] Existing Instance test_hash.
Definition test_chain : ChainFace := λ ir b,
  i ← of_bytes b BlockData 0; if m_sha3Uncles i =? 0 then Ok i else Err InvalidUnclesHash.
#[local] Existing Instance test_chain.
Lemma test_nonzero bs : @tx_hash test_hash bs ≠ 0.
Proof.
  assert (∀ bs a, 0 ≤ a → 0 ≤ fold_left (λ a b, (a * 31 + b) mod 1000003) bs a) as Hf.
  { intros l. induction l as [|b l IH]; intros a Ha; [done|]. cbn [fold_left]. apply IH.
    by apply Z.mod_pos_bound. }
  change (1 + fold_left (λ a b, (a * 31 + b) mod 1000003) bs 0 ≠ 0).
  specialize (Hf bs 0 ltac:(done)). lia.
Qed.
Lemma test_verified ir b i : test_chain ir b = Ok i → of_bytes b BlockData 0 = Ok i ∧ m_sha3Uncles i = 0.
Proof.
  unfold test_chain. intros (x&Hx&Hi)%bind_Ok_inv. cbv beta in Hi.
  destruct (m_sha3Uncles x =? 0) eqn:E; [|done]. injection Hi as <-. split; [done|by apply Z.eqb_eq].
Qed.
#[local] Instance test_laws : ChainLaws.
Proof.
  split.
  - intros ir b i Hv. by apply test_verified in Hv as [? _].
  - intros b i b' i' [_ ->]%test_verified Hh E. unfold of_bytes in Hh.
    apply bind_Ok_inv in Hh as (hd&_&Hp). cbv beta zeta in Hp. change (negb (0 =? 0)) with false in Hp.
    apply populate_memo in Hp. rewrite Hp in E. by apply (test_nonzero hd).
  - exact test_nonzero.
Qed.

Definition test_block (parent time : Z) : bytes :=
  BlockHeaderCodec.block_bytes (BlockHeaderCodec.all_fields (mkHeader parent 0 0 0 0 0 1 5000 0 [] time 0 10 [] 0 0) [] WithSeal) [] [].
Definition hash_of (b : bytes) : Z := match headerHashFromBlock b with Ok h => h | Err _ => 0 end.
Definition test_known (h : Z) : bool := h =? 7.
Definition block_a : bytes := Eval vm_compute in test_block 7 50.
Definition block_b : bytes := Eval vm_compute in test_block (hash_of block_a) 60.
Definition after_import (b : bytes) (q : BlockQueue) : BlockQueue :=
  match import test_known 100 b false q with Ok (_, q) => q | Err _ => q end.
Definition after_take (s : System) : System :=
  match take_job (queue s) with Some (w, q) => mkSystem q (w :: jobs s) (passed s) | None => s end.
Definition after_finish (s : System) : System :=
  match jobs s with w :: js => mkSystem (finish_job w (queue s)) js (passed s) | [] => s end.
(** The child comes first; its verification ends first. *)
Definition test_state : System :=
  after_finish (after_finish (after_take (after_take
    (mkSystem (after_import block_a (after_import block_b empty_queue)) [] ∅)))).

Lemma after_import_step in_chain b q js ps :
  (∀ h, test_known h = true → in_chain h) →
  match import test_known 100 b false q with Ok (r, _) => r ≠ BadChain | Err _ => False end →
  step in_chain (mkSystem q js ps) (mkSystem (after_import b q) js ps).
Proof.
  intros Hk Hr. unfold after_import. destruct (import _ _ _ _ _) as [[r q']|] eqn:E; [|done].
  by eapply step_import.
Qed.
Lemma after_take_step in_chain s : take_job (queue s) ≠ None → step in_chain s (after_take s).
Proof.
  destruct s as [q js ps]. unfold after_take. cbn [queue jobs passed].
  destruct (take_job q) as [[w q']|] eqn:E; [|done]. intros _. by apply step_take.
Qed.
Lemma after_finish_step in_chain s : jobs s ≠ [] → step in_chain s (after_finish s).
Proof.
  destruct s as [q [|w js] ps]; [done|]. intros _. apply (step_finish in_chain q [] w js ps).
Qed.
Lemma test_reachable : reachable (λ p, p = 7) test_state.
Proof.
  assert (∀ h, test_known h = true → h = 7) as Hk by (intros h; apply Z.eqb_eq).
  unfold reachable, start, test_state.
  eapply rtc_l; [apply (after_import_step _ block_b _ _ _ Hk); vm_compute; discriminate|].
  eapply rtc_l; [apply (after_import_step _ block_a _ _ _ Hk); vm_compute; discriminate|].
  eapply rtc_l; [apply after_take_step; vm_compute; discriminate|].
  eapply rtc_l; [apply after_take_step; vm_compute; discriminate|].
  eapply rtc_l; [apply after_finish_step; vm_compute; discriminate|].
  eapply rtc_l; [apply after_finish_step; vm_compute; discriminate|].
  apply rtc_refl.
Qed.
Lemma test_drained : map info_hash (drain 10 (queue test_state)).1.1 = [hash_of block_a; hash_of block_b].
Proof. vm_compute. reflexivity. Qed.

(** ** What the code does not mean to do *)

Definition verify_next (q : BlockQueue) : BlockQueue :=
  match take_job q with Some (w, q) => finish_job w q | None => q end.
Definition block_c : bytes := Eval vm_compute in test_block 7 70.
(** [updateBad] takes what [std::remove_if] leaves behind the kept blocks for
    the blocks that it removed.  When the chain finds the first block bad, its
    child is to go; but it is the block behind the child, whose parent is in the
    chain, that is noted as bad, and the child stays in the set of ready blocks
    for ever. *)
Example removeIf_blames_others :
  let q := Nat.iter 3 verify_next (after_import block_c (after_import block_b (after_import block_a empty_queue))) in
  let '(out, _, q) := drain 1 q in
  let q' := (doneDrain [hash_of block_a] q).2 in
  invariants q = true ∧ map info_hash out = [hash_of block_a] ∧
  m_queue (m_verified q') = [] ∧
  blockStatus (hash_of block_c) q' = Bad ∧ blockStatus (hash_of block_b) q' = Ready ∧ invariants q' = false.
Proof. vm_compute. by split_and!. Qed.

(** [SizedBlockMap::insert] adds the size of data that was moved away: what is
    unknown has no size, and when a block is released its size is taken from
    nothing, after which the queue of unknown blocks is full. *)
Example unknown_size_wraps :
  let q := after_import block_b empty_queue in
  let q' := after_import block_a q in
  unknownCount q = 1 ∧ unknownSize q = 0 ∧
  unknownCount q' = 0 ∧ unknownSize q' = 2 ^ 64 - Z.of_nat (length block_b) ∧ unknownFull q' = true.
Proof. vm_compute. by split_and!. Qed.

(** The difficulty of a block that was in the future is counted when it comes
    and again when its time has come. *)
Example future_difficulty_twice :
  match import test_known 40 block_a false empty_queue with
  | Ok (_, q) => m_difficulty q = 10 ∧
                 match tick test_known 90 q with
                 | Ok q => m_difficulty q = 20 ∧ knownCount q = 1 ∧ unknownCount q = 0
                 | Err _ => False
                 end
  | Err _ => False
  end.
Proof. vm_compute. by split_and!. Qed.
End BlockQueueSystem.
