(* ===== verification/BlockChain.v ===== *)
(** * The chain of blocks (libwing/BlockChain.h, BlockChain.cpp, BlockDetails.h)

    The database of blocks and the one of what is known about them, with the
    caches in front of both: queries, the checks of a block, its import, which
    may make it the head of the chain, the way between two blocks, and the index
    of bloom filters.  A value of the second database stands for its RLP.  The
    execution of a block (Block.cpp) is the class [Enactor]. *)
From S2P Require Import Prelude CommonData RLP RLPFields TransactionBase.
From S2P Require Import Receipt BlockHeader SealEngine EthashSeal BasicAuthority.
From S2P Require Import TrieHash BlockQueue.

(** What the chain asks of [Block::enactOn]: the difficulty that a block adds
    and its receipts, or one of two kinds of exceptions *)
Inductive EnactError := BadRoot | Rejected.
Class Enactor := enactOn :
  gmap Z bytes → BlockHeader.BlockHeader → bytes → result EnactError (Z * list Receipt.TransactionReceipt).

Module BlockChain.
Import CommonData RLP RLPFields BlockHeader.

(** ** What is known about blocks *)

Record BlockDetails := mkDetails { number : Z; totalDifficulty : Z; parent : Z; children : list Z }.
Definition c_invalidNumber : Z := 2 ^ 32 - 1.
Definition NullBlockDetails : BlockDetails := mkDetails c_invalidNumber (2 ^ 256 - 1) 0 [].
Definition isNull (d : BlockDetails) : bool := number d =? c_invalidNumber.
Definition c_bloomIndexSize : Z := 16.
Definition c_bloomIndexLevels : Z := 2.
Definition NullBlocksBlooms : list Z := replicate 16 0.

(** The tables of the extras database, and those of the caches in front of it.
    Receipts are kept as they are stored. *)
Record Tables := mkTables {
  t_details : gmap Z BlockDetails;
  t_blockHashes : gmap Z Z;
  t_transactionAddresses : gmap Z (Z * Z);
  t_logBlooms : gmap Z (list Z);
  t_receipts : gmap Z bytes;
  t_blocksBlooms : gmap Z (list Z);
}.
Definition no_tables : Tables := mkTables ∅ ∅ ∅ ∅ ∅ ∅.

(** The members of [BlockChain]; [m_best] and [m_chainStart] are the two values
    of the extras database under names. *)
Record Chain := mkChain {
  m_blocksDB : gmap Z bytes;
  m_extrasDB : Tables;
  m_best : option Z;
  m_chainStart : option Z;
  m_blocks : gmap Z bytes;
  m_cache : Tables;
  m_cacheUsage : list (gset (Z * Z));
  m_inUse : gset (Z * Z);
  m_lastBlockHash : Z;
  m_lastBlockNumber : Z;
  m_lastHashes : list Z;
}.

Definition with_db b e s := mkChain b e (m_best s) (m_chainStart s) (m_blocks s) (m_cache s) (m_cacheUsage s)
  (m_inUse s) (m_lastBlockHash s) (m_lastBlockNumber s) (m_lastHashes s).
Definition with_best b s := mkChain (m_blocksDB s) (m_extrasDB s) b (m_chainStart s) (m_blocks s) (m_cache s)
  (m_cacheUsage s) (m_inUse s) (m_lastBlockHash s) (m_lastBlockNumber s) (m_lastHashes s).
Definition with_chainStart b s := mkChain (m_blocksDB s) (m_extrasDB s) (m_best s) b (m_blocks s) (m_cache s)
  (m_cacheUsage s) (m_inUse s) (m_lastBlockHash s) (m_lastBlockNumber s) (m_lastHashes s).
Definition with_cache b c s := mkChain (m_blocksDB s) (m_extrasDB s) (m_best s) (m_chainStart s) b c
  (m_cacheUsage s) (m_inUse s) (m_lastBlockHash s) (m_lastBlockNumber s) (m_lastHashes s).
Definition with_usage u i s := mkChain (m_blocksDB s) (m_extrasDB s) (m_best s) (m_chainStart s) (m_blocks s)
  (m_cache s) u i (m_lastBlockHash s) (m_lastBlockNumber s) (m_lastHashes s).
Definition with_last h n s := mkChain (m_blocksDB s) (m_extrasDB s) (m_best s) (m_chainStart s) (m_blocks s)
  (m_cache s) (m_cacheUsage s) (m_inUse s) h n (m_lastHashes s).
Definition with_lastHashes l s := mkChain (m_blocksDB s) (m_extrasDB s) (m_best s) (m_chainStart s) (m_blocks s)
  (m_cache s) (m_cacheUsage s) (m_inUse s) (m_lastBlockHash s) (m_lastBlockNumber s) l.

(** A table: where it is, its null value, and the kind under which the use of
    an entry is noted.  The use of numbers is not noted. *)
Record Table (A : Type) := mkTable {
  rd : Tables → gmap Z A;
  wr : Z → option A → Tables → Tables;
  null : A;
  extra : option Z;
}.
Arguments rd {A}. Arguments wr {A}. Arguments null {A}. Arguments extra {A}.
Definition put {A} (k : Z) (v : option A) (m : gmap Z A) : gmap Z A := partial_alter (λ _, v) k m.
Definition ExtraDetails : Z := 0.
Definition ExtraTransactionAddress : Z := 2.
Definition ExtraLogBlooms : Z := 3.
Definition ExtraReceipts : Z := 4.
Definition ExtraBlocksBlooms : Z := 5.
Definition details_t : Table BlockDetails := mkTable _ t_details
  (λ k v t, mkTables (put k v (t_details t)) (t_blockHashes t) (t_transactionAddresses t) (t_logBlooms t)
              (t_receipts t) (t_blocksBlooms t)) NullBlockDetails (Some ExtraDetails).
Definition blockHashes_t : Table Z := mkTable _ t_blockHashes
  (λ k v t, mkTables (t_details t) (put k v (t_blockHashes t)) (t_transactionAddresses t) (t_logBlooms t)
              (t_receipts t) (t_blocksBlooms t)) 0 None.
Definition transactionAddresses_t : Table (Z * Z) := mkTable _ t_transactionAddresses
  (λ k v t, mkTables (t_details t) (t_blockHashes t) (put k v (t_transactionAddresses t)) (t_logBlooms t)
              (t_receipts t) (t_blocksBlooms t)) (0, 0) (Some ExtraTransactionAddress).
Definition logBlooms_t : Table (list Z) := mkTable _ t_logBlooms
  (λ k v t, mkTables (t_details t) (t_blockHashes t) (t_transactionAddresses t) (put k v (t_logBlooms t))
              (t_receipts t) (t_blocksBlooms t)) [] (Some ExtraLogBlooms).
Definition receipts_t : Table bytes := mkTable _ t_receipts
  (λ k v t, mkTables (t_details t) (t_blockHashes t) (t_transactionAddresses t) (t_logBlooms t)
              (put k v (t_receipts t)) (t_blocksBlooms t)) [] (Some ExtraReceipts).
Definition blocksBlooms_t : Table (list Z) := mkTable _ t_blocksBlooms
  (λ k v t, mkTables (t_details t) (t_blockHashes t) (t_transactionAddresses t) (t_logBlooms t)
              (t_receipts t) (put k v (t_blocksBlooms t))) NullBlocksBlooms (Some ExtraBlocksBlooms).

(** ** Code that throws *)

(** The exceptions; [Exit] ends the process, and [Undefined] is a loop or an
    assertion that only a broken database reaches. *)
Inductive ChainError :=
| UnknownParent | AlreadyHaveBlock | FutureTime | TransientError | InvalidReceiptsStateRoot
| InvalidUncleParentHash | UnknownBlockNumber | HeaderBad (e : HeaderError) | TransactionBad (e : TransactionBase.TxError)
| ReceiptBad (e : Receipt.ReceiptError) | EnactBad | Exit | Undefined.
Definition M (A : Type) : Type := Chain → Chain * result ChainError A.
#[export] Instance M_ret : MRet M := λ A a s, (s, Ok a).
#[export] Instance M_bind : MBind M := λ A B f m s,
  match m s with (s', Ok a) => f a s' | (s', Err e) => (s', Err e) end.
Definition throw {A} (e : ChainError) : M A := λ s, (s, Err e).
Definition throw_when (b : bool) (e : ChainError) : M unit := if b then throw e else mret ().
Definition get {A} (f : Chain → A) : M A := λ s, (s, Ok (f s)).
Definition modify (f : Chain → Chain) : M unit := λ s, (f s, Ok ()).
Definition header_m {A} (r : result HeaderError A) : M A :=
  λ s, (s, match r with Ok a => Ok a | Err e => Err (HeaderBad e) end).
Definition receipt_m {A} (r : result Receipt.ReceiptError A) : M A :=
  λ s, (s, match r with Ok a => Ok a | Err e => Err (ReceiptBad e) end).
Definition tx_m {A} (r : result TransactionBase.TxError A) : M A :=
  λ s, (s, match r with Ok a => Ok a | Err e => Err (TransactionBad e) end).
Fixpoint each {A B} (f : B → A → M B) (acc : B) (l : list A) : M B :=
  match l with [] => mret acc | x :: l => acc ← f acc x; each f acc l end.

(** ** Queries *)

(** [noteUsed] *)
Definition noteUsed (h : Z) (e : Z) (s : Chain) : Chain :=
  match m_cacheUsage s with
  | u0 :: u1 :: l =>
    if bool_decide ((h, e) ∈ u1)
    then with_usage (({[(h, e)]} ∪ u0) :: (u1 ∖ {[(h, e)]}) :: l) (m_inUse s) s
    else with_usage (({[(h, e)]} ∪ u0) :: u1 :: l) ({[(h, e)]} ∪ m_inUse s) s
  | _ => s
  end.
(** [queryExtras] *)
Definition queryExtras {A} (t : Table A) (k : Z) : M A := λ s,
  match rd t (m_cache s) !! k with
  | Some v => (s, Ok v)
  | None =>
    match rd t (m_extrasDB s) !! k with
    | None => (s, Ok (null t))
    | Some v =>
      let s := match extra t with Some e => noteUsed k e s | None => s end in
      (with_cache (m_blocks s) (wr t k (Some v) (m_cache s)) s, Ok v)
    end
  end.
Definition details (h : Z) : M BlockDetails := queryExtras details_t h.
Definition logBlooms (h : Z) : M (list Z) := queryExtras logBlooms_t h.
Definition currentHash : M Z := get m_lastBlockHash.
Definition blockNumber (h : Z) : M Z := d ← details h; mret (number d).
Definition chunkId (level index : Z) : Z := u32 (index * 0xff + level).
Definition blocksBlooms (id : Z) : M (list Z) := queryExtras blocksBlooms_t id.
Definition blockBloom (n : Z) : M Z :=
  bb ← blocksBlooms (chunkId 0 (n / c_bloomIndexSize));
  mret (nth (Z.to_nat (n mod c_bloomIndexSize)) bb 0).
(** [isKnownTransaction], [transactionLocation] *)
Definition transactionLocation (h : Z) : M (Z * Z) :=
  ta ← queryExtras transactionAddresses_t h;
  mret (if negb (ta.1 =? 0) then ta else (0, 0)).
Definition isKnownTransaction (h : Z) : M bool :=
  ta ← queryExtras transactionAddresses_t h; mret (negb (ta.1 =? 0)).
(** [BlockReceipts]: the receipts of a block, from what is stored *)
Definition receipts (h : Z) : M (list Receipt.TransactionReceipt) :=
  b ← queryExtras receipts_t h;
  match b with
  | [] => mret []
  | _ => items ← receipt_m (Receipt.for_items b);
         each (λ rs i, r ← receipt_m (Receipt.of_rlp i); mret (rs ++ [r])) [] items
  end.

Section Chain.
Context `{Crypto, EthashLib, AuthorityLib, Enactor}.
(** The parameters, the genesis block, and the authorities of the seal engine *)
Context (p : SealEngine.ChainOperationParams) (genesisBlock : bytes) (authority : BasicAuthority.Authority).

(** [genesis] *)
Definition m_genesisHash : Z :=
  match of_bytes genesisBlock BlockData 0 with
  | Ok h => match hash WithSeal h with Ok (v, _) => v | Err _ => 0 end
  | Err _ => 0
  end.
Definition m_genesisHeaderBytes : bytes :=
  match extractHeader genesisBlock with Ok b => b | Err _ => [] end.

(** [block], [headerData]: a block that is found in the database is kept. *)
Definition keep_block (h : Z) (d : bytes) (s : Chain) : Chain :=
  let s := noteUsed h (2 ^ 32 - 1) s in with_cache (<[h := d]> (m_blocks s)) (m_cache s) s.
Definition block (h : Z) : M bytes := λ s,
  if h =? m_genesisHash then (s, Ok genesisBlock)
  else
    match m_blocks s !! h with
    | Some d => (s, Ok d)
    | None =>
      match default [] (m_blocksDB s !! h) with
      | [] => (s, Ok [])
      | d => (keep_block h d s, Ok d)
      end
    end.
Definition headerData (h : Z) : M bytes := λ s,
  if h =? m_genesisHash then (s, Ok m_genesisHeaderBytes)
  else
    match m_blocks s !! h with
    | Some d => header_m (extractHeader d) s
    | None =>
      match default [] (m_blocksDB s !! h) with
      | [] => (s, Ok [])
      | d => header_m (extractHeader d) (keep_block h d s)
      end
    end.
Definition info (h : Z) : M BlockHeader := d ← headerData h; header_m (of_bytes d HeaderData 0).
(** [numberHash] *)
Definition numberHash (i : Z) : M Z := if i =? 0 then mret m_genesisHash else queryExtras blockHashes_t i.
(** [isKnown] *)
Definition isKnown (h : Z) (isCurrent : bool) : M bool := λ s,
  if h =? m_genesisHash then (s, Ok true)
  else if bool_decide (m_blocks s !! h = None) && bool_decide (m_blocksDB s !! h = None) then (s, Ok false)
  else if bool_decide (t_details (m_cache s) !! h = None) && bool_decide (t_details (m_extrasDB s) !! h = None)
  then (s, Ok false)
  else if isCurrent then (d ← details h; last ← get m_lastBlockNumber; mret (number d <=? last)) s
  else (s, Ok true).

(** [LastBlockHashes::precedingHashes]; what is kept is cleared when the head
    changes. *)
Fixpoint preceding_loop (n : nat) (h : Z) : M (list Z) :=
  match n with
  | O => mret [h]
  | S n => prev ← (if negb (h =? 0) then i ← info h; mret (m_parentHash i) else mret 0);
           l ← preceding_loop n prev; mret (h :: l)
  end.
Definition precedingHashes (mostRecent : Z) : M (list Z) :=
  l ← get m_lastHashes;
  match l with
  | h :: _ =>
    if h =? mostRecent then mret l
    else l ← preceding_loop 255 mostRecent; modify (with_lastHashes l);; mret l
  | [] => l ← preceding_loop 255 mostRecent; modify (with_lastHashes l);; mret l
  end.

(** The items of the transactions and of the uncles of a block *)
Definition block_items (i : Z) (b : bytes) : M (list bytes) :=
  root ← header_m (rlp_error (construct VeryStrict b));
  '(_, l) ← header_m (hfield root i new_cache);
  receipt_m (Receipt.for_items l).
Definition transactionHashes (h : Z) : M (list Z) :=
  b ← block h; l ← block_items 1 b; mret (map tx_hash l).
Definition uncleHashes (h : Z) : M (list Z) :=
  b ← block h; l ← block_items 2 b; mret (map tx_hash l).

(** [allKinFrom] *)
Fixpoint kin_loop (generations : nat) (h : Z) (ret : gset Z) : M (gset Z) :=
  match generations with
  | O => mret ret
  | S n =>
    if h =? m_genesisHash then mret ret
    else
      d ← details h;
      b ← block h; us ← block_items 2 b;
      kin_loop n (parent d) (list_to_set (map tx_hash us) ∪ ({[parent d]} ∪ ret))
  end.
Definition allKinFrom (h : Z) (generations : nat) : M (gset Z) := kin_loop generations h {[h]}.

(** ** The way between two blocks *)

(** [treeRoute]: up to a common height, and then from both sides to the common
    ancestor.  The loop at the end takes at most as many rounds as the height,
    and one. *)
Fixpoint climb (n : nat) (take_ : bool) (h : Z) (acc : list Z) : M (Z * list Z) :=
  match n with
  | O => mret (h, acc)
  | S n => d ← details h; climb n take_ (parent d) (if take_ then acc ++ [h] else acc)
  end.
Fixpoint meet (fuel : nat) (common pre post : bool) (from to : Z) (ret back : list Z)
    : M (Z * list Z * list Z) :=
  let ret := if pre && (negb (from =? to) || common) then ret ++ [from] else ret in
  let back := if post && (negb (from =? to) || (negb pre && common)) then back ++ [to] else back in
  if from =? to then mret (from, ret, back)
  else if (from =? 0) || (to =? 0) then throw Undefined
  else
    match fuel with
    | O => throw Undefined
    | S fuel =>
      f ← details from; t ← details to;
      meet fuel common pre post (parent f) (parent t) ret back
    end.
Definition treeRoute (from to : Z) (common pre post : bool) : M (list Z * Z * Z) :=
  if (from =? 0) || (to =? 0) then mret ([], 0, 0)
  else
    fromDetails ← details from;
    toDetails ← details to;
    if isNull fromDetails || isNull toDetails then mret ([], 0, 0)
    else
      let fn := number fromDetails in
      let tn := number toDetails in
      '(from, ret) ← climb (Z.to_nat (fn - tn)) pre from [];
      '(to, back) ← climb (Z.to_nat (tn - fn)) post to [];
      '(c, ret, back) ← meet (Z.to_nat (Z.min fn tn)) common pre post from to ret back;
      let nonempty (l : list Z) := match l with [] => false | _ => true end in
      mret (ret ++ rev back, c, Z.of_nat (length ret) - (if common && nonempty ret && nonempty back then 1 else 0)).

(** ** The index of bloom filters *)

(** [clearBlockBlooms], of blocks from [first] up to [end_]; the caches are
    changed, not the database. *)
Definition set_bloom (id : Z) (o : Z) (f : Z → Z) (s : Chain) : Chain :=
  let bb := default NullBlocksBlooms (t_blocksBlooms (m_cache s) !! id) in
  let bb := <[Z.to_nat o := f (nth (Z.to_nat o) bb 0)]> bb in
  with_cache (m_blocks s) (wr blocksBlooms_t id (Some bb) (m_cache s)) s.
Definition clear_item (level item : Z) : M unit :=
  let id := chunkId level (item / c_bloomIndexSize) in
  acc ← (if negb (level =? 0)
         then lower ← blocksBlooms (chunkId (level - 1) item); mret (fold_left Z.lor lower 0)
         else mret 0);
  _ ← blocksBlooms id;
  modify (set_bloom id (item mod c_bloomIndexSize) (λ _, acc)).
Fixpoint clear_levels (levels : nat) (level beginDirty endDirty : Z) : M unit :=
  match levels with
  | O => mret ()
  | S n =>
    each (λ _ item, clear_item level item) () (seqZ beginDirty (endDirty - beginDirty));;
    clear_levels n (level + 1) (beginDirty / c_bloomIndexSize) ((endDirty - 1) / c_bloomIndexSize + 1)
  end.
Definition clearBlockBlooms (first end_ : Z) : M unit := clear_levels (Z.to_nat c_bloomIndexLevels) 0 first end_.
(** [clearCachesDuringChainReversion] *)
Definition clearCachesDuringChainReversion (firstInvalid : Z) : M unit :=
  last ← get m_lastBlockNumber;
  let end_ := last + 1 in
  modify (λ s, with_cache (m_blocks s)
    (mkTables (t_details (m_cache s))
      (fold_left (λ m i, base.delete i m) (seqZ firstInvalid (end_ - firstInvalid)) (t_blockHashes (m_cache s)))
      ∅ (t_logBlooms (m_cache s)) (t_receipts (m_cache s)) (t_blocksBlooms (m_cache s))) s);;
  clearBlockBlooms firstInvalid end_.

(** [upow], [ceilDiv], [withBlockBloom] *)
Fixpoint upow_loop (n : nat) (a : Z) : Z := match n with O => a | S n => upow_loop n (u32 (a * a)) end.
Definition upow (a : Z) (b : nat) : Z := match b with O => 1 | S n => upow_loop n a end.
Definition ceilDiv (n d : Z) : Z := u32 (n + d - 1) / d.
Fixpoint withBlockBloom_level (level : nat) (b earliest latest index : Z) : M (list Z) :=
  let uCourse := upow c_bloomIndexSize (S level) in
  let uFine := upow c_bloomIndexSize level in
  let obegin := if index =? earliest / uCourse then earliest / uFine mod c_bloomIndexSize else 0 in
  let oend := if index =? latest / uCourse then latest / uFine mod c_bloomIndexSize + 1 else c_bloomIndexSize in
  bb ← blocksBlooms (chunkId (Z.of_nat level) index);
  each (λ ret o,
    if Receipt.contains (nth (Z.to_nat o) bb 0) b then
      match level with
      | O => mret (ret ++ [o + index * c_bloomIndexSize])
      | S level => l ← withBlockBloom_level level b earliest latest (o + index * c_bloomIndexSize); mret (ret ++ l)
      end
    else mret ret) [] (seqZ obegin (oend - obegin)).
Definition withBlockBloom (b earliest latest : Z) : M (list Z) :=
  let u := upow c_bloomIndexSize (Z.to_nat c_bloomIndexLevels) in
  let first := earliest / u in
  each (λ ret index,
    l ← withBlockBloom_level (Z.to_nat (c_bloomIndexLevels - 1)) b earliest latest index; mret (ret ++ l))
    [] (seqZ first (ceilDiv latest u + 1 - first)).

(** ** Checks *)

(** [ImportRequirements] *)
Definition ValidSeal : Z := 1.
Definition UncleBasic : Z := 4.
Definition UncleSeals : Z := 16.
Definition Parent : Z := 64.
Definition UncleParent : Z := 128.
Definition InOrderChecks : Z := Parent + UncleParent.
(** The virtual function [verify] of the seal engine *)
Definition seal_verify (s : Strictness) (h parent : BlockHeader) (b : bytes) : result HeaderError unit :=
  match SealEngine.sealEngineName p with
  | SealEngine.Ethash => EthashSeal.verify p s h parent b
  | SealEngine.NoProof => BlockHeader.verify s h parent b
  | SealEngine.BasicAuthority => BasicAuthority.verify authority s h parent b
  end.
(** [verifyBlock] *)
Definition requires := SealEngine.requires.
Definition parent_header (required : bool) (h : Z) (e : ChainError) : M BlockHeader :=
  if required then
    d ← headerData h;
    match d with [] => throw e | _ => header_m (of_bytes d HeaderData h) end
  else mret null_header.
Definition verifyBlock (ir : Z) (b : bytes) : M (BlockHeader * list TransactionBase.TransactionBase) :=
  h ← header_m (of_bytes b BlockData 0);
  throw_when (requires ir BlockQueue.PostGenesis && ((m_parentHash h =? 0) || (m_number h =? 0)))
    (HeaderBad InvalidParentHash);;
  parent ← parent_header (requires ir Parent) (m_parentHash h) (HeaderBad InvalidParentHash);
  header_m (seal_verify (if requires ir ValidSeal then CheckEverything else QuickNonce) h parent b);;
  (if requires ir (UncleBasic + UncleParent + UncleSeals) then
     us ← block_items 2 b;
     each (λ _ d,
       uh ← header_m (of_bytes d HeaderData 0);
       parent ← parent_header (requires ir UncleParent) (m_parentHash uh) InvalidUncleParentHash;
       header_m (seal_verify (if requires ir UncleSeals then CheckEverything else IgnoreSeal) uh parent []))
       () us
   else mret ());;
  txs ← (if requires ir (SealEngine.TransactionBasic + SealEngine.TransactionSignatures) then
           ts ← block_items 1 b;
           each (λ txs d,
             t ← tx_m (TransactionBase.of_rlp d
                   (if requires ir SealEngine.TransactionSignatures then TransactionBase.CheckEverything
                    else TransactionBase.Check_None));
             tx_m (SealEngine.verifyTransaction p ir t h 0);;
             mret (txs ++ [t])) [] ts
         else mret []);
  mret (h, txs).
(** [checkBlockIsNew], [checkBlockTimestamp] *)
Definition checkBlockIsNew (h : Z) : M unit := known ← isKnown h true; throw_when known AlreadyHaveBlock.
Definition checkBlockTimestamp (utcTime : Z) (h : BlockHeader) : M unit :=
  throw_when ((utcTime <? m_timestamp h) && negb (SealEngine.allowFutureBlocks p)) FutureTime.

(** ** Inserting blocks *)

(** What is written to the extras database in one go *)
Definition Batch : Type := list (Tables → Tables).
Definition commit_batch (b : Batch) (h : Z) (data : bytes) (s : Chain) : Chain :=
  with_db (<[h := data]> (m_blocksDB s)) (fold_left (λ t f, f t) b (m_extrasDB s)) s.
Definition add_child (parent_ h : Z) (once : bool) (s : Chain) : Chain :=
  let d := default NullBlockDetails (t_details (m_cache s) !! parent_) in
  let cs := if once && bool_decide (h ∈ children d) then children d else children d ++ [h] in
  with_cache (m_blocks s)
    (wr details_t parent_ (Some (mkDetails (number d) (totalDifficulty d) (parent d) cs)) (m_cache s)) s.
Definition cached_details (h : Z) (s : Chain) : BlockDetails := default NullBlockDetails (t_details (m_cache s) !! h).
(** The bloom filters of receipts *)
Definition receipt_blooms (receipts : bytes) : M (list Z) :=
  items ← receipt_m (Receipt.for_items receipts);
  each (λ bs i, r ← receipt_m (Receipt.of_rlp i); mret (bs ++ [Receipt.m_bloom r])) [] items.
Definition header_hash (h : BlockHeader) : M Z := '(v, _) ← header_m (hash WithSeal h); mret v.

(** What is written of a block that becomes part of the chain: its bloom filter
    at all levels, where its transactions are, and its hash under its number *)
Fixpoint bloom_places (levels : nat) (level index : Z) : list (Z * Z) :=
  match levels with
  | O => []
  | S n => (chunkId level (index / c_bloomIndexSize), index mod c_bloomIndexSize) ::
           bloom_places n (level + 1) (index / c_bloomIndexSize)
  end.
Definition write_canonical (h : Z) (i : BlockHeader) (data : bytes) (batch : Batch) (r : Z) : M Batch :=
  tbi ← (if r =? h then mret i else b ← block r; header_m (of_bytes b BlockData 0));
  let blockBloom := Receipt.shiftBloom (Receipt.sha3_address (m_author tbi)) (m_logBloom tbi) in
  let places := bloom_places (Z.to_nat c_bloomIndexLevels) 0 (u32 (m_number tbi)) in
  each (λ _ x, _ ← blocksBlooms x.1; mret ()) () places;;
  modify (λ s, fold_left (λ s x, set_bloom x.1 x.2 (λ b, Z.lor b blockBloom) s) places s);;
  b ← (if r =? h then mret data else block r);
  ts ← block_items 1 b;
  bh ← header_hash tbi;
  let addresses := imap (λ n t, wr transactionAddresses_t (tx_hash t) (Some (bh, Z.of_nat n))) ts in
  blooms ← get (λ s, map (λ x, wr blocksBlooms_t x.1
                     (Some (default NullBlocksBlooms (t_blocksBlooms (m_cache s) !! x.1)))) places);
  mret (batch ++ addresses ++ blooms ++ [wr blockHashes_t (m_number tbi) (Some bh)]).
(** The hashes from the back up to [common] *)
Fixpoint until (common : Z) (l : list Z) : list Z :=
  match l with [] => [] | h :: l => if h =? common then [] else h :: until common l end.
(** [dead] and [fresh] *)
Fixpoint split_route (common : Z) (isOld : bool) (l : list Z) : list Z * list Z :=
  match l with
  | [] => ([], [])
  | h :: l =>
    if h =? common then split_route common false l
    else let '(dead, fresh) := split_route common isOld l in
         if isOld then (h :: dead, fresh) else (dead, h :: fresh)
  end.

(** [insertBlockAndExtras] *)
Definition insertBlockAndExtras (i : BlockHeader) (data receipts : bytes) (td : Z) : M (list Z * list Z) :=
  h ← header_hash i;
  let parent_ := m_parentHash i in
  _ ← details parent_;
  modify (add_child parent_ h false);;
  pd ← get (cached_details parent_);
  blooms ← receipt_blooms receipts;
  let batch := [wr details_t parent_ (Some pd);
                wr details_t h (Some (mkDetails (u32 (m_number i)) td parent_ []));
                wr logBlooms_t h (Some blooms); wr receipts_t h (Some receipts)] in
  last ← currentHash;
  dl ← details last;
  best ← (if totalDifficulty dl <? td then mret true
          else if SealEngine.tieBreakingGas p && (td =? totalDifficulty dl)
          then il ← info last; mret (m_gasUsed il <? m_gasUsed i)
          else mret false);
  '(route, common, batch) ←
    (if best : bool then
       '(route, common, _) ← treeRoute last parent_ true true true;
       let route := route ++ [h] in
       (if negb (common =? last)
        then n ← blockNumber common; clearCachesDuringChainReversion (u32 (n + 1)) else mret ());;
       batch ← each (write_canonical h i data) batch (until common (rev route));
       mret (route, common, batch)
     else mret ([], 0, batch));
  modify (commit_batch batch h data);;
  modify (λ s, if best && negb (m_lastBlockHash s =? h)
               then with_best (Some h) (with_last h (u32 (m_number i)) s) else s);;
  modify (λ s, match route with [] => s | _ => with_lastHashes [] s end);;
  mret (split_route common true route).

(** [import] of a block whose header and bytes are given *)
Definition receipts_rlp (rs : list Receipt.TransactionReceipt) : M bytes :=
  receipt_m (match (s ← appendList (Z.of_nat (length rs)) empty_stream;
                    s ← foldM (λ s r, Receipt.streamRLP r s) s rs; out s) with
             | Ok d => Ok d | Err _ => Err Receipt.ReceiptRLP end).
Definition known_parent (i : BlockHeader) : M BlockDetails :=
  known ← isKnown (m_parentHash i) false;
  throw_when (negb known) UnknownParent;;
  pd ← details (m_parentHash i);
  throw_when (isNull pd) Exit;;
  mret pd.
Definition import (utcTime : Z) (i : BlockHeader) (data : bytes) (mustBeNew : bool) : M (list Z * list Z) :=
  h ← header_hash i;
  (if mustBeNew then checkBlockIsNew h else mret ());;
  pd ← known_parent i;
  checkBlockTimestamp utcTime i;;
  _ ← verifyBlock InOrderChecks data;
  blocks ← get m_blocksDB;
  '(tdIncrease, rs) ← (match enactOn blocks i data with
                       | Ok r => mret r
                       | Err BadRoot => throw TransientError
                       | Err Rejected => throw EnactBad
                       end);
  receipts ← receipts_rlp rs;
  insertBlockAndExtras i data receipts (u256 (totalDifficulty pd + tdIncrease)).
Definition import_bytes (utcTime : Z) (data : bytes) (mustBeNew : bool) : M (list Z * list Z) :=
  '(i, _) ← verifyBlock BlockQueue.OutOfOrderChecks data;
  import utcTime i data mustBeNew.

(** [insert]: the block is not executed, and the head stays. *)
Definition insert (utcTime : Z) (i : BlockHeader) (data receipts : bytes) (mustBeNew : bool) : M unit :=
  h ← header_hash i;
  (if mustBeNew then checkBlockIsNew h else mret ());;
  known ← isKnown (m_parentHash i) false;
  throw_when (negb known) UnknownParent;;
  items ← receipt_m (Receipt.for_items receipts);
  throw_when (negb (m_receiptsRoot i =? be_val (TrieHash.orderedTrieRoot sha3_bytes items))) InvalidReceiptsStateRoot;;
  pd ← details (m_parentHash i);
  throw_when (isNull pd) Exit;;
  checkBlockTimestamp utcTime i;;
  _ ← verifyBlock InOrderChecks data;
  blooms ← receipt_blooms receipts;
  _ ← details (m_parentHash i);
  modify (add_child (m_parentHash i) h true);;
  cd ← get (cached_details (m_parentHash i));
  modify (commit_batch
    [wr details_t (m_parentHash i) (Some cd);
     wr details_t h (Some (mkDetails (u32 (number pd + 1)) (u256 (totalDifficulty pd + m_difficulty i)) (m_parentHash i) []));
     wr logBlooms_t h (Some blooms); wr receipts_t h (Some receipts)] h data).
(** [insertWithoutParent] *)
Definition insertWithoutParent (utcTime : Z) (data receipts : bytes) (td : Z) : M (list Z * list Z) :=
  '(i, _) ← verifyBlock BlockQueue.OutOfOrderChecks data;
  h ← header_hash i;
  checkBlockIsNew h;;
  checkBlockTimestamp utcTime i;;
  insertBlockAndExtras i data receipts td.

(** [attemptImport] *)
Definition attemptImport (utcTime : Z) (data : bytes) (mustBeNew : bool) (s : Chain)
    : Chain * (BlockQueue.ImportResult * (list Z * list Z)) :=
  match import_bytes utcTime data mustBeNew s with
  | (s, Ok r) => (s, (BlockQueue.Success, r))
  | (s, Err UnknownParent) => (s, (BlockQueue.UnknownParent, ([], [])))
  | (s, Err AlreadyHaveBlock) => (s, (BlockQueue.AlreadyKnown, ([], [])))
  | (s, Err FutureTime) => (s, (BlockQueue.FutureTimeKnown, ([], [])))
  | (s, Err _) => (s, (BlockQueue.Malformed, ([], [])))
  end.

(** [rewind] *)
Definition rewind (newHead : Z) : M unit :=
  last ← get m_lastBlockNumber;
  if last <=? newHead then mret ()
  else
    clearCachesDuringChainReversion (newHead + 1);;
    h ← numberHash newHead;
    modify (with_lastHashes [] ∘ with_best (Some h) ∘ with_last h newHead).
(** [setChainStartBlockNumber], [chainStartBlockNumber] *)
Definition setChainStartBlockNumber (n : Z) : M unit :=
  h ← numberHash n;
  throw_when (h =? 0) UnknownBlockNumber;;
  modify (with_chainStart (Some h)).
Definition chainStartBlockNumber : M Z :=
  v ← get m_chainStart;
  match v with None => mret 0 | Some h => blockNumber h end.

(** [garbageCollect], when it is due: the entries that were not used for the
    longest time leave the caches. *)
Definition evict (s : Chain) (id : Z * Z) : Chain :=
  let '(h, e) := id in
  let s := with_usage (m_cacheUsage s) (m_inUse s ∖ {[id]}) s in
  let c := m_cache s in
  if e =? 2 ^ 32 - 1 then with_cache (base.delete h (m_blocks s)) c s
  else if e =? ExtraDetails then with_cache (m_blocks s) (wr details_t h None c) s
  else if e =? ExtraReceipts then with_cache (m_blocks s) (wr receipts_t h None c) s
  else if e =? ExtraLogBlooms then with_cache (m_blocks s) (wr logBlooms_t h None c) s
  else if e =? ExtraTransactionAddress then with_cache (m_blocks s) (wr transactionAddresses_t h None c) s
  else if e =? ExtraBlocksBlooms then with_cache (m_blocks s) (wr blocksBlooms_t h None c) s
  else s.
Definition garbageCollect (s : Chain) : Chain :=
  match rev (m_cacheUsage s) with
  | [] => s
  | u :: us => let s := fold_left evict (elements u) s in with_usage (∅ :: rev us) (m_inUse s) s
  end.

(** [close], and [open] of databases *)
Definition c_collectionQueueSize : nat := 20.
Definition close (s : Chain) : Chain :=
  mkChain (m_blocksDB s) (m_extrasDB s) (m_best s) (m_chainStart s) ∅ no_tables [] ∅ m_genesisHash 0 [].
Definition open_db (blocks : gmap Z bytes) (extras : Tables) (best chainStart : option Z) : M unit :=
  modify (λ _, mkChain blocks extras best chainStart ∅ no_tables (replicate c_collectionQueueSize ∅) ∅
                 m_genesisHash 0 []);;
  d ← details m_genesisHash;
  (if isNull d then
     gb ← header_m (of_bytes genesisBlock BlockData 0);
     let gd := mkDetails 0 (m_difficulty gb) 0 [] in
     modify (λ s, with_db (m_blocksDB s) (wr details_t m_genesisHash (Some gd) (m_extrasDB s))
                    (with_cache (m_blocks s) (wr details_t m_genesisHash (Some gd) (m_cache s)) s))
   else mret ());;
  let last := default m_genesisHash best in
  n ← blockNumber last;
  modify (with_last last n).

(** [sync]: the blocks that the queue hands out, one after the other; a block
    from the future and one that failed for a time are passed over. *)
Definition sync_one (utcTime : Z) (acc : list Z * list Z * list Z * Z) (b : BlockQueue.VerifiedBlock) (s : Chain)
    : Chain * (list Z * list Z * list Z * Z) :=
  let '(fresh, dead, bad, count) := acc in
  match import utcTime (BlockQueue.v_info b) (BlockQueue.v_blockData b) true s with
  | (s, Ok (d, f)) => (s, (fresh ++ f, dead ++ d, bad, count + 1))
  | (s, Err AlreadyHaveBlock) | (s, Err FutureTime) | (s, Err TransientError) => (s, (fresh, dead, bad, count))
  | (s, Err _) => (s, (fresh, dead, bad ++ [BlockQueue.info_hash b], count))
  end.
Fixpoint sync_loop (utcTime : Z) (bs : list BlockQueue.VerifiedBlock) (acc : list Z * list Z * list Z * Z) (s : Chain)
    : Chain * (list Z * list Z * list Z * Z) :=
  match bs with
  | [] => (s, acc)
  | b :: bs => let '(s, acc) := sync_one utcTime acc b s in sync_loop utcTime bs acc s
  end.
Definition sync (utcTime max : Z) (q : BlockQueue.BlockQueue) (s : Chain)
    : Chain * BlockQueue.BlockQueue * (list Z * list Z * bool * Z) :=
  let '(bs, _, q) := BlockQueue.drain max q in
  let '(s, (fresh, dead, bad, count)) := sync_loop utcTime bs ([], [], [], 0) s in
  let '(more, q) := BlockQueue.doneDrain bad q in
  (s, q, (dead, fresh, more, count)).
End Chain.
End BlockChain.
