(* ===== verification/BlockChainTree.v ===== *)
(** * Blocks as a tree

    What the queries of the chain give when the caches agree with the
    databases, and the way between two blocks through their latest common
    ancestor. *)
From S2P Require Import Prelude CommonData RLP RLPFields TransactionBase.
From S2P Require Import Receipt BlockHeader SealEngine EthashSeal BasicAuthority.
From S2P Require Import BlockQueue BlockChain.

Module BlockChainTree.
Import BlockHeader BlockChain.

(** ** Runs of code that throws *)

Definition wp {A} (m : M A) (s : Chain) (Q : Chain → result ChainError A → Prop) : Prop := Q (m s).1 (m s).2.
Lemma run_bind {A B} (m : M A) (f : A → M B) s Q :
  wp m s (λ s' r, match r with Ok a => wp (f a) s' Q | Err e => Q s' (Err e) end) → wp (m ≫= f) s Q.
Proof. unfold wp, mbind, M_bind. destruct (m s) as [s' [a|e]]; done. Qed.
Lemma run_ret {A} (a : A) s Q : Q s (Ok a) → wp (mret a) s Q.
Proof. done. Qed.
Lemma run_mono {A} (m : M A) s (Q Q' : Chain → result ChainError A → Prop) :
  wp m s Q → (∀ s' r, Q s' r → Q' s' r) → wp m s Q'.
Proof. unfold wp. eauto. Qed.
Lemma header_m_wp {A} (r : result HeaderError A) s Q :
  match r with Ok a => Q s (Ok a) | Err e => Q s (Err (HeaderBad e)) end → wp (header_m r) s Q.
Proof. unfold wp, header_m. by destruct r. Qed.
Lemma receipt_m_wp {A} (r : result Receipt.ReceiptError A) s Q :
  match r with Ok a => Q s (Ok a) | Err e => Q s (Err (ReceiptBad e)) end → wp (receipt_m r) s Q.
Proof. unfold wp, receipt_m. by destruct r. Qed.
Lemma tx_m_wp {A} (r : result TransactionBase.TxError A) s Q :
  match r with Ok a => Q s (Ok a) | Err e => Q s (Err (TransactionBad e)) end → wp (tx_m r) s Q.
Proof. unfold wp, tx_m. by destruct r. Qed.
Lemma throw_when_wp (b : bool) e s (Q : Chain → result ChainError () → Prop) : (if b then Q s (Err e) else Q s (Ok ())) → wp (throw_when b e) s Q.
Proof. unfold wp, throw_when. by destruct b. Qed.
Lemma get_wp {A} (f : Chain → A) s Q : Q s (Ok (f s)) → wp (get f) s Q.
Proof. done. Qed.
Lemma modify_wp f s (Q : Chain → result ChainError () → Prop) : Q (f s) (Ok ()) → wp (modify f) s Q.
Proof. done. Qed.
Lemma wp_each {A B} (f : B → A → M B) (I : Chain → B → list A → Prop) (E : Chain → ChainError → Prop) l acc s :
  (∀ s acc x l, I s acc (x :: l) →
     wp (f acc x) s (λ s' r, match r with Ok b => I s' b l | Err e => E s' e end)) →
  I s acc l →
  wp (each f acc l) s (λ s' r, match r with Ok b => I s' b [] | Err e => E s' e end).
Proof.
  intros Hstep. revert acc s. induction l as [|x l IH]; intros acc s HI; [done|].
  apply run_bind. eapply run_mono; [by apply Hstep|]. intros s' [b|e] Hr; [by apply IH|done].
Qed.

(** ** Queries leave the databases *)

(** What a cache may gain: entries of the database *)
Definition grown {A} (db c c' : gmap Z A) : Prop :=
  ∀ k, c' !! k = c !! k ∨ (c !! k = None ∧ c' !! k = db !! k).
Lemma grown_refl {A} (db c : gmap Z A) : grown db c c.
Proof. by left. Qed.
Lemma grown_trans {A} (db c1 c2 c3 : gmap Z A) : grown db c1 c2 → grown db c2 c3 → grown db c1 c3.
Proof.
  intros H1 H2 k. destruct (H1 k) as [E1|[E1 E1']], (H2 k) as [E2|[E2 E2']]; rewrite ?E1, ?E2 in *; auto.
Qed.
Lemma grown_put {A} (db c : gmap Z A) k v : c !! k = None → db !! k = Some v → grown db c (put k (Some v) c).
Proof.
  intros Hc Hd j. unfold put. destruct (decide (k = j)) as [->|Hne].
  - right. by rewrite lookup_partial_alter_eq.
  - left. by rewrite lookup_partial_alter_ne.
Qed.
(** [blockHashes] is left out: an entry there that is no longer of the chain
    stays when the chain grows. *)
Record calm (s s' : Chain) : Prop := {
  calm_blocksDB : m_blocksDB s' = m_blocksDB s;
  calm_extrasDB : m_extrasDB s' = m_extrasDB s;
  calm_best : m_best s' = m_best s;
  calm_start : m_chainStart s' = m_chainStart s;
  calm_hash : m_lastBlockHash s' = m_lastBlockHash s;
  calm_number : m_lastBlockNumber s' = m_lastBlockNumber s;
  calm_lastHashes : m_lastHashes s' = m_lastHashes s;
  calm_blockHashes : t_blockHashes (m_cache s') = t_blockHashes (m_cache s);
  calm_blocks : grown (m_blocksDB s) (m_blocks s) (m_blocks s');
  calm_details : grown (t_details (m_extrasDB s)) (t_details (m_cache s)) (t_details (m_cache s'));
  calm_blooms : grown (t_blocksBlooms (m_extrasDB s)) (t_blocksBlooms (m_cache s)) (t_blocksBlooms (m_cache s'));
}.
#[export] Instance calm_refl : Reflexive calm.
Proof. intros s. by split; try apply grown_refl. Qed.
#[export] Instance calm_trans : Transitive calm.
Proof.
  intros s1 s2 s3 C1 C2.
  split; try (etrans; [apply C2|apply C1]).
  - eapply grown_trans; [apply C1|]. rewrite <-(calm_blocksDB _ _ C1). apply C2.
  - eapply grown_trans; [apply C1|]. rewrite <-(calm_extrasDB _ _ C1). apply C2.
  - eapply grown_trans; [apply C1|]. rewrite <-(calm_extrasDB _ _ C1). apply C2.
Qed.

Lemma noteUsed_calm h e s : calm s (noteUsed h e s).
Proof.
  unfold noteUsed. destruct (m_cacheUsage s) as [|u0 [|u1 l]]; [done|done|].
  destruct (bool_decide _); by split; try apply grown_refl.
Qed.

(** ** The tree in the database *)

Definition node (s : Chain) (h : Z) : option BlockDetails := t_details (m_extrasDB s) !! h.
(** The same block; the children are not compared. *)
Definition same_node (d d' : BlockDetails) : Prop :=
  number d = number d' ∧ totalDifficulty d = totalDifficulty d' ∧ parent d = parent d'.
#[export] Instance same_node_equiv : Equivalence same_node.
Proof. split; [done|by intros x y (?&?&?)|intros x y z (?&?&?) (?&?&?); split_and!; by etrans]. Qed.
Definition details_agree (s : Chain) : Prop :=
  ∀ h d, t_details (m_cache s) !! h = Some d → ∃ d', node s h = Some d' ∧ same_node d d'.
Lemma calm_agree s s' : calm s s' → details_agree s → details_agree s'.
Proof.
  intros C Ha h d Hd. unfold node. rewrite (calm_extrasDB _ _ C).
  destruct (calm_details _ _ C h) as [E|[_ E]]; rewrite E in Hd; [by apply Ha|]. by exists d.
Qed.
Lemma calm_node s s' h : calm s s' → node s' h = node s h.
Proof. intros C. unfold node. by rewrite (calm_extrasDB _ _ C). Qed.

Lemma details_wp h s (Q : Chain → result ChainError BlockDetails → Prop) :
  details_agree s →
  (∀ s' d, calm s s' → same_node d (default NullBlockDetails (node s h)) → Q s' (Ok d)) →
  wp (details h) s Q.
Proof.
  intros Ha HQ. unfold wp, details, queryExtras. cbn [rd details_t].
  destruct (t_details (m_cache s) !! h) as [d|] eqn:Hc.
  - apply HQ; [done|]. destruct (Ha h d Hc) as (d'&->&Hs). done.
  - destruct (t_details (m_extrasDB s) !! h) as [d|] eqn:Hd.
    + cbn [extra details_t fst snd]. apply HQ; [|by unfold node; rewrite Hd].
      etrans; [apply (noteUsed_calm h ExtraDetails)|].
      set (s1 := noteUsed h ExtraDetails s). pose proof (noteUsed_calm h ExtraDetails s) as C. fold s1 in C.
      assert (m_cache s1 = m_cache s) as Hs1.
      { unfold s1, noteUsed. destruct (m_cacheUsage s) as [|? [|? ?]]; [done|done|]. by destruct (bool_decide _). }
      split; cbn; try done; try apply grown_refl. apply grown_put; [by rewrite Hs1|].
      by rewrite (calm_extrasDB _ _ C).
    + apply HQ; [done|]. unfold node. by rewrite Hd.
Qed.

(** The parent of a block, and its ancestors *)
Definition par (s : Chain) (h : Z) : Z := parent (default NullBlockDetails (node s h)).
Fixpoint up (s : Chain) (n : nat) (h : Z) : Z := match n with O => h | S n => up s n (par s h) end.
Lemma up_S s n h : up s (S n) h = par s (up s n h).
Proof. revert h. induction n as [|n IH]; intros h; [done|]. cbn [up] in *. by rewrite <-IH. Qed.
Lemma up_add s n m h : up s (n + m) h = up s n (up s m h).
Proof.
  revert h. induction m as [|m IH]; intros h; [by rewrite Nat.add_0_r|].
  rewrite Nat.add_succ_r. cbn [up]. by rewrite IH.
Qed.
Lemma calm_up s s' n h : calm s s' → up s' n h = up s n h.
Proof.
  intros C. revert h. induction n as [|n IH]; intros h; [done|]. cbn [up]. rewrite IH.
  unfold par. by rewrite (calm_node _ _ _ C).
Qed.

(** Every block but the genesis block is behind its parent. *)
Record tree (g : Z) (s : Chain) : Prop := {
  tr_agree : details_agree s;
  tr_genesis : ∃ d, node s g = Some d ∧ number d = 0;
  tr_node h d : node s h = Some d →
    h ≠ 0 ∧ 0 ≤ number d < c_invalidNumber ∧
    (h = g ∨ ∃ dp, node s (parent d) = Some dp ∧ number d = number dp + 1);
}.
Lemma calm_tree g s s' : calm s s' → tree g s → tree g s'.
Proof.
  intros C [T1 T2 T3]. split; [by eapply calm_agree| |]; [|intros h d]; rewrite !(calm_node s s') by done; [done|].
  intros Hd. destruct (T3 h d Hd) as (?&[? ?]&[?|(dp&Hp&?)]); split_and!; auto. right. by exists dp.
Qed.
Lemma up_node g s h d n :
  tree g s → node s h = Some d → Z.of_nat n ≤ number d →
  ∃ d', node s (up s n h) = Some d' ∧ number d' = number d - Z.of_nat n.
Proof.
  intros T. revert h d. induction n as [|n IH]; intros h d Hd Hn.
  - exists d. split; [done|lia].
  - destruct (tr_node _ _ T h d Hd) as (_&Hr&[->|(dp&Hp&Hnum)]).
    + destruct (tr_genesis _ _ T) as (dg&Hg&H0). rewrite Hd in Hg. injection Hg as <-. lia.
    + cbn [up]. assert (par s h = parent d) as -> by (unfold par; by rewrite Hd).
      destruct (IH (parent d) dp Hp ltac:(lia)) as (d'&Hd'&Hn'). exists d'. split; [done|lia].
Qed.
Lemma number_0 g s h d : tree g s → node s h = Some d → number d = 0 → h = g.
Proof.
  intros T Hd H0. destruct (tr_node _ _ T h d Hd) as (_&_&[->|(dp&Hp&Hn)]); [done|].
  destruct (tr_node _ _ T _ dp Hp) as (_&?&_). lia.
Qed.

(** ** The way between two blocks *)

(** The [n] blocks from [h] towards the genesis block *)
Definition line (s : Chain) (n : nat) (h : Z) : list Z := map (λ k, up s k h) (seq 0 n).
Lemma line_S s n h : line s (S n) h = h :: line s n (par s h).
Proof. unfold line. cbn [seq map]. f_equal. rewrite <-seq_shift, map_map. done. Qed.
Lemma line_app s n m h : line s (n + m) h = line s n h ++ line s m (up s n h).
Proof.
  revert h. induction n as [|n IH]; intros h; [done|]. cbn [Nat.add up]. by rewrite !line_S, IH.
Qed.
Lemma calm_line s s' n h : calm s s' → line s' n h = line s n h.
Proof. intros C. unfold line. apply map_ext. intros k. by apply calm_up. Qed.
Lemma length_line s n h : length (line s n h) = n.
Proof. unfold line. by rewrite length_map, length_seq. Qed.

Lemma climb_wp g n (take_ : bool) h acc s d (Q : Chain → result ChainError (Z * list Z) → Prop) :
  tree g s → node s h = Some d → Z.of_nat n ≤ number d →
  (∀ s', calm s s' → Q s' (Ok (up s n h, acc ++ (if take_ then line s n h else @nil Z)))) →
  wp (climb n take_ h acc) s Q.
Proof.
  intros T. revert h acc s d T Q. induction n as [|n IH]; intros h acc s d T Q Hd Hn HQ; cbn [climb].
  - apply run_ret. specialize (HQ s). cbn in HQ. destruct take_; rewrite app_nil_r in HQ; by apply HQ.
  - apply run_bind, details_wp; [apply T|]. intros s1 d1 C (_&_&Hp). cbv iota.
    assert (parent d1 = par s h) as -> by done.
    destruct (up_node g s h d 1 T Hd ltac:(lia)) as (dp&Hdp&Hnp). cbn [up] in Hdp.
    apply (IH _ _ _ dp); [by eapply calm_tree|by rewrite (calm_node s s1)|lia|].
    intros s2 C2. rewrite (calm_up s s1), (calm_line s s1) by done.
    specialize (HQ s2). cbn [up] in HQ. rewrite line_S in HQ.
    destruct take_; [rewrite <-app_assoc|]; apply HQ; by etrans.
Qed.

(** What both sides add on the way to the common ancestor *)
Definition pre_part (s : Chain) (common pre : bool) (k : nat) (h : Z) : list Z :=
  if pre then line s k h ++ (if common then [up s k h] else []) else [].
Definition post_part (s : Chain) (common pre post : bool) (k : nat) (h : Z) : list Z :=
  if post then line s k h ++ (if negb pre && common then [up s k h] else []) else [].
Lemma meet_wp g fuel (common pre post : bool) from to ret back s df dt
    (Q : Chain → result ChainError (Z * list Z * list Z) → Prop) :
  tree g s → node s from = Some df → node s to = Some dt → number df = number dt →
  number df ≤ Z.of_nat fuel →
  (∀ s' k, calm s s' → Z.of_nat k ≤ number df → up s k from = up s k to →
     (∀ k', (k' < k)%nat → up s k' from ≠ up s k' to) →
     Q s' (Ok (up s k from, ret ++ pre_part s common pre k from, back ++ post_part s common pre post k to))) →
  wp (meet fuel common pre post from to ret back) s Q.
Proof.
  revert from to ret back s df dt Q.
  induction fuel as [|fuel IH]; intros from to ret back s df dt Q T Hf Ht Hn Hfuel HQ.
  all: pose proof (tr_node _ _ T from df Hf) as (Hf0&[Hnf _]&_);
       pose proof (tr_node _ _ T to dt Ht) as (Ht0&_&_); cbn [meet].
  all: destruct (Z.eqb_spec from to) as [->|Hne].
  1, 3: specialize (HQ s 0%nat); cbn in HQ; apply run_ret;
    destruct common, pre, post; cbn in *; rewrite ?app_nil_r in *; apply HQ; done || lia.
  - exfalso. apply Hne. rewrite (number_0 g s from df T Hf), (number_0 g s to dt T Ht) by lia. done.
  - rewrite (proj2 (Z.eqb_neq from 0)), (proj2 (Z.eqb_neq to 0)) by done. cbn [orb negb].
    assert (0 < number df) as Hpos.
    { destruct (decide (number df = 0)) as [H0|]; [|lia]. exfalso. apply Hne.
      rewrite (number_0 g s from df T Hf), (number_0 g s to dt T Ht) by lia. done. }
    apply run_bind, details_wp; [apply T|]. intros s1 f C1 (_&_&Hpf). cbv iota.
    assert (tree g s1) as T1 by (by eapply calm_tree).
    apply run_bind, details_wp; [apply T1|]. intros s2 t C2 (_&_&Hpt). cbv iota.
    assert (calm s s2) as C by by etrans.
    assert (parent f = par s from) as -> by done.
    assert (parent t = par s to) as -> by (unfold par; by rewrite <-(calm_node s s1)).
    destruct (up_node g s from df 1 T Hf ltac:(lia)) as (df'&Hdf'&Hnf'). cbn [up] in Hdf'.
    destruct (up_node g s to dt 1 T Ht ltac:(lia)) as (dt'&Hdt'&Hnt'). cbn [up] in Hdt'.
    apply (IH _ _ _ _ _ df' dt'); [by eapply calm_tree|by rewrite (calm_node s s2)..|lia|lia|].
    intros s3 k C3 Hk Hup Hmin. rewrite !(calm_up s s2) in Hup by done.
    assert (∀ h, up s2 k h = up s k h ∧ line s2 k h = line s k h) as Hs2.
    { intros h. by rewrite (calm_up s s2), (calm_line s s2). }
    specialize (HQ s3 (S k)). cbn [up] in HQ. unfold pre_part, post_part in *. rewrite !line_S in HQ. cbn [up] in HQ.
    destruct (Hs2 (par s from)) as [-> ->], (Hs2 (par s to)) as [-> ->].
    assert (calm s s3) as C4 by by etrans.
    destruct pre, post; cbn [andb app] in *; rewrite <-?app_assoc; cbn [app];
      (apply HQ; [done|lia|done|]; intros [|k'] Hk'; [done|cbn [up]];
       specialize (Hmin k' ltac:(lia)); by rewrite !(calm_up s s2) in Hmin).
Qed.

(** The common ancestor of two blocks after [i] steps from one and [j] from the
    other, and no later one *)
Record meeting (s : Chain) (from to : Z) (df dt : BlockDetails) (i j : nat) : Prop := {
  mt_same : up s i from = up s j to;
  mt_heights : number df - Z.of_nat i = number dt - Z.of_nat j ∧ Z.of_nat i ≤ number df;
  mt_latest i' j' : Z.of_nat i' ≤ number df → Z.of_nat j' ≤ number dt →
    up s i' from = up s j' to → (i ≤ i')%nat ∧ (j ≤ j')%nat;
}.
Lemma meeting_level g s from to df dt a b k :
  tree g s → node s from = Some df → node s to = Some dt →
  a = Z.to_nat (number df - number dt) → b = Z.to_nat (number dt - number df) →
  Z.of_nat k ≤ Z.min (number df) (number dt) → up s k (up s a from) = up s k (up s b to) →
  (∀ k', (k' < k)%nat → up s k' (up s a from) ≠ up s k' (up s b to)) →
  meeting s from to df dt (a + k) (b + k).
Proof.
  intros T Hf Ht Ha Hb Hk Hsame Hmin.
  pose proof (tr_node _ _ T from df Hf) as (_&[Hf0 _]&_). pose proof (tr_node _ _ T to dt Ht) as (_&[Ht0 _]&_).
  split.
  - by rewrite (Nat.add_comm a), (Nat.add_comm b), !up_add.
  - split; lia.
  - intros i' j' Hi Hj Hup.
    destruct (up_node g s from df i' T Hf Hi) as (d1&Hd1&Hn1). destruct (up_node g s to dt j' T Ht Hj) as (d2&Hd2&Hn2).
    rewrite Hup, Hd2 in Hd1. injection Hd1 as ->.
    destruct (decide (a + k ≤ i')%nat) as [|Hlt]; [lia|]. exfalso.
    apply (Hmin (i' - a)%nat); [lia|]. rewrite <-!up_add.
    replace (i' - a + a)%nat with i' by lia. replace (i' - a + b)%nat with j' by lia. done.
Qed.

(** C13. The way between two blocks of the tree: for any choice of its parts it
    is found, through the latest ancestor that the two have in common; the part
    before it goes up from the first block, the part behind it down to the
    second.  The index is that of the common ancestor, or where it would be,
    except when it is the last of the way: then it is one more. *)
Theorem treeRoute_spec g s from to (common pre post : bool) df dt :
  tree g s → node s from = Some df → node s to = Some dt →
  ∃ s' i j ret index, treeRoute from to common pre post s = (s', Ok (ret, up s i from, index)) ∧ calm s s' ∧
    meeting s from to df dt i j ∧
    ret = (if pre then line s i from else []) ++
          (if common && (pre || post) then [up s i from] else []) ++
          (if post then rev (line s j to) else []) ∧
    index = (if pre then Z.of_nat i else 0) +
            (if common && pre && (negb post || (j =? 0)%nat) then 1 else 0).
Proof.
  intros T Hf Ht.
  pose proof (tr_node _ _ T from df Hf) as (Hf0&[Hfn Hfi]&_).
  pose proof (tr_node _ _ T to dt Ht) as (Ht0&[Htn Hti]&_).
  enough (wp (treeRoute from to common pre post) s (λ s' r, ∃ i j ret index,
    r = Ok (ret, up s i from, index) ∧ calm s s' ∧ meeting s from to df dt i j ∧
    ret = (if pre then line s i from else []) ++ (if common && (pre || post) then [up s i from] else []) ++
          (if post then rev (line s j to) else []) ∧
    index = (if pre then Z.of_nat i else 0) + (if common && pre && (negb post || (j =? 0)%nat) then 1 else 0)))
    as (i&j&ret&index&Hr&?&?&?&?).
  { exists (treeRoute from to common pre post s).1, i, j, ret, index. split_and!; [|done..].
    by rewrite <-Hr; destruct (treeRoute from to common pre post s). }
  unfold treeRoute. rewrite (proj2 (Z.eqb_neq from 0)), (proj2 (Z.eqb_neq to 0)) by done. cbn [orb].
  apply run_bind, details_wp; [apply T|]. intros s1 f1 C1 Hf1. cbv iota.
  assert (tree g s1) as T1 by (by eapply calm_tree).
  apply run_bind, details_wp; [apply T1|]. intros s2 t1 C2 Ht1. cbv iota.
  assert (calm s s2) as C by by etrans.
  rewrite (calm_node s s1) in Ht1 by done. rewrite Hf in Hf1. rewrite Ht in Ht1. cbn [default from_option] in *.
  destruct Hf1 as (Hnf&_&_), Ht1 as (Hnt&_&_). unfold id in *.
  unfold isNull. rewrite Hnf, Hnt. rewrite (proj2 (Z.eqb_neq _ _)), (proj2 (Z.eqb_neq _ _)) by lia. cbn [orb].
  set (a := Z.to_nat (number df - number dt)). set (b := Z.to_nat (number dt - number df)).
  apply run_bind, (climb_wp g _ _ _ _ s2 df); [by eapply calm_tree|by rewrite (calm_node s s2)|lia|].
  intros s3 C3. cbv beta iota. rewrite (calm_up s s2), (calm_line s s2) by done.
  assert (calm s s3) as C' by by etrans.
  apply run_bind, (climb_wp g _ _ _ _ s3 dt); [by eapply calm_tree|by rewrite (calm_node s s3)|lia|].
  intros s4 C4. cbv beta iota. rewrite (calm_up s s3), (calm_line s s3) by done. cbn [app].
  assert (calm s s4) as C'' by by etrans.
  destruct (up_node g s from df a T Hf ltac:(lia)) as (fa&Hfa&Hna).
  destruct (up_node g s to dt b T Ht ltac:(lia)) as (tb&Htb&Hnb).
  apply run_bind, (meet_wp g _ _ _ _ _ _ _ _ s4 fa tb);
    [by eapply calm_tree|by rewrite (calm_node s s4)..|lia|lia|].
  intros s5 k C5 Hk Hup Hmin. cbv beta iota. apply run_ret.
  rewrite !(calm_up s s4) in Hup by done.
  assert (∀ k', (k' < k)%nat → up s k' (up s a from) ≠ up s k' (up s b to)) as Hmin'.
  { intros k' Hk'. specialize (Hmin k' Hk'). by rewrite !(calm_up s s4) in Hmin. }
  exists (a + k)%nat, (b + k)%nat. unfold pre_part, post_part.
  rewrite !(calm_up s s4), !(calm_line s s4), (Nat.add_comm a), up_add, (Nat.add_comm k), !line_app by done.
  rewrite <-Hup. eexists _, _. split; [reflexivity|]. split; [by etrans|].
  split; [apply (meeting_level g); auto; lia|].
  pose proof (length_line s a from) as L1. pose proof (length_line s b to) as L2.
  pose proof (length_line s k (up s a from)) as L3. pose proof (length_line s k (up s b to)) as L4.
  destruct pre, post, common; cbn [andb orb negb app];
    rewrite ?app_nil_r, ?rev_app_distr, <-?app_assoc; cbn [app rev];
    (split; [rewrite ?rev_app_distr, <-?app_assoc; done|]).
  all: rewrite ?length_app, ?L1, ?L2, ?L3, ?L4; cbn [length]; try lia.
  all: destruct (line s a from ++ line s k (up s a from) ++ [up s k (up s a from)]) as [|x l] eqn:E1;
    [apply (f_equal length) in E1; rewrite !length_app in E1; cbn in E1; lia|cbn [andb]].
  - destruct (line s b to ++ line s k (up s b to)) as [|y l'] eqn:E2;
      apply (f_equal length) in E2; rewrite length_app, L2, L4 in E2; cbn [length] in E2;
      destruct (Nat.eqb_spec (b + k) 0); lia.
  - lia.
Qed.

(** Two chains above the genesis block [1]: [4] on [2], and [3] *)
Definition test_details : gmap Z BlockDetails := list_to_map
  [(1, mkDetails 0 10 0 [2; 3]); (2, mkDetails 1 20 1 [4]); (3, mkDetails 1 15 1 []); (4, mkDetails 2 30 2 [])].
Definition test_chain : Chain :=
  mkChain ∅ (mkTables test_details ∅ ∅ ∅ ∅ ∅) None None ∅ no_tables (replicate c_collectionQueueSize ∅) ∅ 4 2 [].
Lemma test_tree : tree 1 test_chain.
Proof.
  split; [done|by exists (mkDetails 0 10 0 [2; 3])|].
  intros h d Hd. unfold node in Hd. cbn [t_details m_extrasDB test_chain] in Hd.
  apply elem_of_list_to_map_2, list_elem_of_In in Hd.
  repeat destruct Hd as [Hd|Hd]; try done; injection Hd as <- <-; cbn; split_and!; try done; auto;
    right; eexists; split; reflexivity.
Qed.
Lemma treeRoute_spec_witness :
  tree 1 test_chain ∧ ∃ s' i j ret index,
    treeRoute 4 3 true true true test_chain = (s', Ok (ret, up test_chain i 4, index)) ∧
    meeting test_chain 4 3 (mkDetails 2 30 2 []) (mkDetails 1 15 1 []) i j ∧ ret = [4; 2; 1; 3].
Proof.
  split; [exact test_tree|].
  destruct (treeRoute_spec 1 test_chain 4 3 true true true _ _ test_tree eq_refl eq_refl)
    as (s'&i&j&ret&index&E&_&Hm&_).
  exists s', i, j, ret, index. split_and!; [exact E|exact Hm|].
  vm_compute in E. by injection E.
Defined.

(** The ways that BlockChain.h gives as examples, from [2a] to [1a] where [2a]
    is [4]: without the common ancestor it is left out although the example has
    it, and with it the index is one more than in the example. *)
Example route_without_common : (treeRoute 4 2 false true true test_chain).2 = Ok ([4], 2, 1).
Proof. vm_compute. reflexivity. Qed.
Example route_with_common : (treeRoute 4 2 true true true test_chain).2 = Ok ([4; 2], 2, 2).
Proof. vm_compute. reflexivity. Qed.
Example route_of_siblings : (treeRoute 3 4 true true true test_chain).2 = Ok ([3; 1; 2; 4], 1, 1).
Proof. vm_compute. reflexivity. Qed.
End BlockChainTree.
