(* ===== verification/BlockChainVerify.v ===== *)
(** * What the chain accepts

    The checks of a block before it is imported: which blocks pass, what they
    say about the parent, and that the chain is what the block queue asks for. *)
From S2P Require Import Prelude CommonData RLP RLPCodec RLPFields.
From S2P Require Import TransactionBase Receipt BlockHeader SealEngine EthashSeal BasicAuthority.
From S2P Require Import BlockQueue BlockQueueSpec BlockChain BlockChainTree.

Module BlockChainVerify.
Import RLP BlockHeader BlockChain BlockChainTree.

(** ** Headers that were read *)

(** Only the memo differs between two readings of a header. *)
Lemma populate_memos d g g' h :
  populate d g = Ok h → populate d g' = Ok (with_memo (m_hash g') (m_hashWithout g') h).
Proof.
  unfold populate. intros Hp.
  repeat match type of Hp with
  | (?m ≫= _) = Ok _ =>
    let a := fresh "a" in let E := fresh "E" in
    apply bind_Ok_inv in Hp as (a&E&Hp); rewrite E; cbn [mbind result_bind]; try destruct a as [? ?]
  end.
  injection Hp as <-. reflexivity.
Qed.
Lemma toPositiveInt64_range d n : toPositiveInt64 Strict d = Ok n → 0 ≤ n < 2 ^ 63.
Proof.
  unfold toPositiveInt64. change (has Strict ThrowOnFail) with true. cbn [andb].
  intros (i&Hi&Hn)%bind_Ok_inv. cbv beta in Hn. destruct (Z.ltb_spec i 0) as [|Hpos]; [done|]. injection Hn as <-.
  split; [done|]. unfold toInt in Hi. apply bind_Ok_inv in Hi as (u&_&Hi). cbv beta in Hi.
  apply bind_Ok_inv in Hi as (int&_&Hi). cbv beta in Hi. unfold fail in Hi.
  change (has Strict ThrowOnFail) with true in Hi.
  destruct (_ || RLP.isNull d); [done|]. apply bind_Ok_inv in Hi as (q&_&Hi). cbv beta zeta in Hi.
  destruct (_ && _); [done|]. injection Hi as <-. unfold CommonData.fromBigEndian.
  change (2 ^ 63) with 9223372036854775808.
  destruct (default [] q) as [|b l _] using rev_ind; [done|]. rewrite foldl_app. cbn [foldl].
  match goal with |- to_signed 64 ?x < _ => generalize x end. intros x. unfold to_signed.
  pose proof (wrap_in_word 64 x ltac:(done)) as Hw. unfold in_word in Hw.
  change (2 ^ 64) with 18446744073709551616 in *. change (2 ^ (64 - 1)) with 9223372036854775808.
  destruct (Z.ltb_spec (wrap 64 x) 9223372036854775808); lia.
Qed.
Lemma populate_range d g h :
  populate d g = Ok h → 0 ≤ m_timestamp h < 2 ^ 63 ∧ 0 ≤ m_number h < 2 ^ 63.
Proof.
  unfold populate. intros Hp.
  do 8 (apply bind_Ok_inv in Hp as ([? ?]&_&Hp); apply bind_Ok_inv in Hp as (?&_&Hp)).
  apply bind_Ok_inv in Hp as ([? ?]&_&Hp). apply bind_Ok_inv in Hp as (n&Hn&Hp).
  do 2 (apply bind_Ok_inv in Hp as ([? ?]&_&Hp); apply bind_Ok_inv in Hp as (?&_&Hp)).
  apply bind_Ok_inv in Hp as ([? ?]&_&Hp). apply bind_Ok_inv in Hp as (t&Ht&Hp).
  do 1 (apply bind_Ok_inv in Hp as ([? ?]&_&Hp); apply bind_Ok_inv in Hp as (?&_&Hp)).
  apply bind_Ok_inv in Hp as (?&_&Hp). injection Hp as <-. cbn [m_timestamp m_number].
  unfold rlp_error in Hn, Ht.
  destruct (toPositiveInt64 Strict _) as [n'|] eqn:En; [|done]. injection Hn as <-.
  match type of Ht with match ?m with _ => _ end = _ => destruct m as [t'|] eqn:Et; [|done] end.
  injection Ht as <-. split; by eapply toPositiveInt64_range.
Qed.
Lemma read_is_set d g h : populate d g = Ok h → is_set h = true.
Proof.
  intros [Ht _]%populate_range. unfold is_set. apply negb_true_iff, Z.eqb_neq.
  change (2 ^ 63) with 9223372036854775808 in Ht. rewrite wrap_small; [|split; [lia|]].
  - change (2 ^ 256) with (9223372036854775808 * 2 ^ 193). lia.
  - eapply Z.lt_trans; [apply Ht|done].
Qed.

(** The strict reader keeps the bytes. *)
Lemma construct_same b x : RLP.construct RLP.VeryStrict b = Ok x → x = b.
Proof.
  rewrite RLPCodec.construct_strict. intros (a&_&E)%bind_Ok_inv. cbv beta in E.
  destruct (a <? size b); [done|]. destruct (_ <? a); [done|]. by injection E.
Qed.

(** A header that is taken out of its block *)
Lemma of_bytes_extract `{Crypto} b hb i m i' :
  of_bytes b BlockData 0 = Ok i → extractHeader b = Ok hb → of_bytes hb HeaderData m = Ok i' →
  m_number i' = m_number i ∧ m_timestamp i' = m_timestamp i ∧ m_gasUsed i' = m_gasUsed i ∧ is_set i' = true.
Proof.
  unfold of_bytes. intros Hb He Hh. rewrite He in Hb. cbn [mbind result_bind] in Hb. cbv zeta in Hb.
  apply bind_Ok_inv in Hh as (hb'&Hc&Hh). cbv beta zeta in Hh.
  assert (hb' = hb) as ->.
  { destruct (construct VeryStrict hb) as [x|] eqn:E; [|done]. injection Hc as <-.
    by eapply construct_same. }
  pose proof (read_is_set _ _ _ Hh) as Hs.
  eapply populate_memos in Hb. rewrite Hb in Hh. injection Hh as <-. done.
Qed.

Section Verify.
Context {CR : Crypto} {EL : EthashLib} {AL : AuthorityLib}.
Context (p : SealEngine.ChainOperationParams) (genesisBlock : bytes) (authority : BasicAuthority.Authority).
Notation g := (m_genesisHash genesisBlock).
Notation verifyBlock := (verifyBlock p genesisBlock authority).
Notation seal_verify := (seal_verify p authority).

(** Every seal engine checks the header. *)
Lemma seal_verify_header s h parent b : seal_verify s h parent b = Ok () → BlockHeader.verify s h parent b = Ok ().
Proof.
  unfold BlockChain.seal_verify. destruct (SealEngine.sealEngineName p); [done| |];
    unfold EthashSeal.verify, BasicAuthority.verify; by intros ([]&Hv&_)%bind_Ok_inv.
Qed.

(** ** Parents *)

Definition blocks_agree (s : Chain) : Prop := ∀ h d, m_blocks s !! h = Some d → m_blocksDB s !! h = Some d.
(** The bytes of a block that is stored *)
Definition stored (s : Chain) (h : Z) (d : bytes) : Prop :=
  (h = g ∧ d = genesisBlock) ∨ (h ≠ g ∧ m_blocksDB s !! h = Some d).
Lemma calm_stored s s' h d : calm s s' → stored s' h d ↔ stored s h d.
Proof. intros C. unfold stored. by rewrite (calm_blocksDB _ _ C). Qed.
Lemma calm_blocks_agree s s' : calm s s' → blocks_agree s → blocks_agree s'.
Proof.
  intros C Ha h d Hd. rewrite (calm_blocksDB _ _ C).
  destruct (calm_blocks _ _ C h) as [E|[_ E]]; rewrite E in Hd; [by apply Ha|done].
Qed.
Lemma keep_block_calm h d s : m_blocks s !! h = None → m_blocksDB s !! h = Some d → calm s (keep_block h d s).
Proof.
  intros Hn Hd. unfold keep_block. set (s1 := noteUsed h (2 ^ 32 - 1) s).
  pose proof (noteUsed_calm h (2 ^ 32 - 1) s) as C. fold s1 in C. etrans; [exact C|].
  assert (m_blocks s1 = m_blocks s) as E.
  { unfold s1, noteUsed. destruct (m_cacheUsage s) as [|? [|? ?]]; [done|done|]. by destruct (bool_decide _). }
  split; cbn; try done; try apply grown_refl. apply (grown_put _ _ h d); [by rewrite E|].
  by rewrite (calm_blocksDB _ _ C).
Qed.

Lemma block_wp h s (Q : Chain → result ChainError bytes → Prop) :
  blocks_agree s →
  (∀ s' d, calm s s' → d = [] ∨ stored s h d → (∀ d', stored s h d' → d = d') → Q s' (Ok d)) →
  wp (block genesisBlock h) s Q.
Proof.
  intros Ha HQ. unfold wp, block. destruct (Z.eqb_spec h g) as [->|Hne].
  { apply HQ; [done|right; by left|]. intros d' [[_ ->]|[? _]]; done. }
  destruct (m_blocks s !! h) as [d|] eqn:Hc.
  { apply HQ; [done|right; right; split; [done|by apply Ha]|].
    intros d' [[? _]|[_ Hd]]; [done|]. apply Ha in Hc. congruence. }
  destruct (m_blocksDB s !! h) as [d|] eqn:Hd; cbn [default from_option].
  - unfold id. destruct d as [|x d].
    + apply HQ; [done|by left|]. intros d' [[? _]|[_ Hd']]; congruence.
    + apply HQ; [by apply keep_block_calm|right; by right|]. intros d' [[? _]|[_ Hd']]; congruence.
  - apply HQ; [done|by left|]. intros d' [[? _]|[_ Hd']]; congruence.
Qed.
Lemma headerData_wp h s (Q : Chain → result ChainError bytes → Prop) :
  blocks_agree s →
  (∀ s' r, calm s s' →
     (∀ b, r = Ok b → b = [] ∨ ∃ d, stored s h d ∧ extractHeader d = Ok b) → Q s' r) →
  wp (headerData genesisBlock h) s Q.
Proof.
  intros Ha HQ. unfold wp, headerData. destruct (Z.eqb_spec h g) as [->|Hne].
  { apply HQ; [done|]. intros b [= <-]. unfold m_genesisHeaderBytes.
    destruct (extractHeader genesisBlock) as [b|] eqn:E; [right; exists genesisBlock; split; [by left|done]|by left]. }
  destruct (m_blocks s !! h) as [d|] eqn:Hc.
  { apply HQ; [done|]. unfold header_m. cbn [fst snd]. intros b Hb. right. exists d.
    split; [right; split; [done|by apply Ha]|]. destruct (extractHeader d); congruence. }
  destruct (m_blocksDB s !! h) as [d|] eqn:Hd; cbn [default from_option]; unfold id.
  2: { apply HQ; [done|]. intros b [= <-]. by left. }
  destruct d as [|x d]; [apply HQ; [done|]; intros b [= <-]; by left|].
  apply HQ; [by apply keep_block_calm|]. unfold header_m. cbn [fst snd]. intros b Hb. right. exists (x :: d).
  split; [right; done|]. destruct (extractHeader (x :: d)); congruence.
Qed.

(** What the header of a block says about its parent *)
Definition behind (s : Chain) (h ph : BlockHeader) : Prop :=
  ∃ d hb, stored s (m_parentHash h) d ∧ extractHeader d = Ok hb ∧ of_bytes hb HeaderData (m_parentHash h) = Ok ph.
Lemma parent_header_wp (required : bool) h e s (Q : Chain → result ChainError BlockHeader → Prop) :
  blocks_agree s →
  (∀ s' r, calm s s' → (required = false → r = Ok null_header) →
     (∀ ph, r = Ok ph → required = true →
        ∃ d hb, stored s h d ∧ extractHeader d = Ok hb ∧ of_bytes hb HeaderData h = Ok ph) → Q s' r) →
  wp (parent_header genesisBlock required h e) s Q.
Proof.
  intros Ha HQ. unfold parent_header. destruct required; [|by apply run_ret, HQ].
  apply run_bind, headerData_wp; [done|]. intros s' [b|e'] C Hr; [|by apply HQ].
  destruct b as [|x b]; [by apply HQ|]. unfold wp, header_m. cbn [fst snd]. apply HQ; [done|done|].
  intros ph Hph _. destruct (Hr _ eq_refl) as [|(d&Hd&He)]; [done|]. exists d, (x :: b). split_and!; [done|done|].
  by destruct (of_bytes _ _ _); simplify_eq.
Qed.

(** ** The checks *)

Lemma wp_calm_each {A B} (f : B → A → M B) l acc s :
  blocks_agree s →
  (∀ s acc x, blocks_agree s → wp (f acc x) s (λ s' _, calm s s')) →
  wp (each f acc l) s (λ s' _, calm s s').
Proof.
  intros Ha Hf.
  eapply run_mono; [apply (wp_each f (λ s' _ _, calm s s') (λ s' _, calm s s')); [|done]|].
  - intros s1 acc1 x l1 C. eapply run_mono; [apply Hf; by eapply calm_blocks_agree|].
    intros s' [b|e] C'; by etrans.
  - by intros s' [b|e].
Qed.
Lemma block_items_calm i b s : wp (block_items i b) s (λ s' _, s' = s).
Proof.
  unfold block_items. apply run_bind, header_m_wp. destruct (rlp_error _) as [root|]; [|done].
  apply run_bind, header_m_wp. destruct (hfield root i new_cache) as [[c l]|]; done.
Qed.

Lemma verifyBlock_wp ir b s :
  blocks_agree s →
  wp (verifyBlock ir b) s (λ s' r, calm s s' ∧
    ∀ h txs, r = Ok (h, txs) → of_bytes b BlockData 0 = Ok h ∧
      (requires ir Parent = true → ∃ ph, behind s h ph ∧ m_number h < 2 ^ 32 ∧ follows h ph) ∧
      (requires ir (SealEngine.TransactionBasic + SealEngine.TransactionSignatures) = true →
         ∃ ts s1, block_items 1 b s1 = (s1, Ok ts))).
Proof.
  intros Ha. unfold BlockChain.verifyBlock. apply run_bind, header_m_wp.
  destruct (of_bytes b BlockData 0) as [h|] eqn:Hb; [|by split].
  apply run_bind, throw_when_wp. destruct (_ && _); [by split|].
  apply run_bind, parent_header_wp; [done|]. intros s1 r C1 Hnull Hpar. destruct r as [ph|e]; [|by split].
  apply run_bind, header_m_wp.
  destruct (seal_verify _ h ph b) as [[]|] eqn:Hv; [|by split].
  assert (requires ir Parent = true → ∃ ph, behind s h ph ∧ m_number h < 2 ^ 32 ∧ follows h ph) as Hbehind.
  { intros Hr. destruct (Hpar ph eq_refl Hr) as (d&hb&?&?&?). exists ph. split; [by exists d, hb|].
    apply seal_verify_header, verify_iff in Hv as (?&_&?&_). done. }
  assert (blocks_agree s1) as Ha1 by (by eapply calm_blocks_agree).
  apply run_bind. eapply (run_mono _ _ (λ s' _, calm s s')).
  { destruct (requires ir (UncleBasic + UncleParent + UncleSeals)); [|by apply run_ret]. apply run_bind.
    eapply run_mono; [apply block_items_calm|]. intros s' [us|] ->; [|done].
    eapply run_mono; [apply wp_calm_each; [done|]|intros s' [x|] C; by etrans].
    intros s2 acc d Ha2. apply run_bind, header_m_wp.
    destruct (of_bytes d HeaderData 0) as [uh|]; [|done].
    apply run_bind, parent_header_wp; [done|]. intros s3 [uph|] C3 _ _; [|done].
    apply header_m_wp. by destruct (seal_verify _ uh uph []) as [[]|]. }
  intros s2 [[]|e] C2; [|by split].
  set (signed := requires ir (SealEngine.TransactionBasic + SealEngine.TransactionSignatures)).
  apply run_bind. eapply (run_mono _ _ (λ s' r, calm s s' ∧
    ∀ txs, r = Ok txs → signed = true → ∃ ts s1, block_items 1 b s1 = (s1, Ok ts))).
  { destruct signed; [|by apply run_ret].
    apply run_bind. pose proof (block_items_calm 1 b s2) as Hi. unfold wp in Hi |- * at 1.
    destruct (block_items 1 b s2) as [s' [ts|e]] eqn:Ei; cbn in Hi; subst s'; [|by split].
    eapply run_mono; [apply wp_calm_each; [by eapply calm_blocks_agree|]|].
    2: { intros s' r C. split; [by etrans|]. intros txs _ _. by exists ts, s2. }
    intros s3 acc d _. apply run_bind, tx_m_wp.
    destruct (TransactionBase.of_rlp _ _) as [t|]; [|done]. apply run_bind, tx_m_wp.
    destruct (SealEngine.verifyTransaction _ _ _ _ _); [by apply run_ret|done]. }
  intros s3 [txs|e] (C3&Hi); [|by split]. apply run_ret. split; [done|]. intros h' txs' [= <- <-].
  split_and!; [done|done|]. by apply (Hi txs).
Qed.
End Verify.
End BlockChainVerify.
