(* ===== verification/BlockChainInsert.v ===== *)
(** * How the chain grows

    What the import of a block does to the tree of blocks, to the head and to
    the table of the hashes by number, and what holds of them whatever is
    imported, inserted, rewound, asked and evicted. *)
From S2P Require Import Prelude CommonData RLP RLPFields TransactionBase.
From S2P Require Import Receipt BlockHeader SealEngine EthashSeal BasicAuthority.
From S2P Require Import BlockQueue BlockChain BlockChainTree BlockChainVerify.

(** What the chain relies on: the execution of a block adds its difficulty
    (Block.cpp, [Block::enact]). *)
Class EnactorLaws `{Enactor} : Prop :=
  enact_difficulty blocks i data t rs : enactOn blocks i data = Ok (t, rs) → t = BlockHeader.m_difficulty i.

Module BlockChainInsert.
Import BlockHeader BlockChain BlockChainTree BlockChainVerify.

(** ** What caches may lose and gain *)

(** The databases and the head stay, the caches may change within what the
    databases hold; no hash is cached that was not. *)
Record quiet (s s' : Chain) : Prop := {
  quiet_blocksDB : m_blocksDB s' = m_blocksDB s;
  quiet_extrasDB : m_extrasDB s' = m_extrasDB s;
  quiet_best : m_best s' = m_best s;
  quiet_hash : m_lastBlockHash s' = m_lastBlockHash s;
  quiet_number : m_lastBlockNumber s' = m_lastBlockNumber s;
  quiet_blocks : blocks_agree s → blocks_agree s';
  quiet_details : details_agree s → details_agree s';
  quiet_hashes : t_blockHashes (m_cache s') ⊆ t_blockHashes (m_cache s);
}.
#[export] Instance quiet_refl : Reflexive quiet.
Proof. by split. Qed.
#[export] Instance quiet_trans : Transitive quiet.
Proof. intros s1 s2 s3 [] []. split; try congruence; auto. by etrans. Qed.
Lemma calm_quiet s s' : calm s s' → quiet s s'.
Proof.
  intros C. split; try apply C; [by apply calm_blocks_agree|by apply calm_agree|]. by rewrite (calm_blockHashes _ _ C).
Qed.
#[export] Hint Resolve calm_quiet : core.
#[export] Hint Extern 1 (quiet _ _) => reflexivity : core.
Lemma quiet_node s s' h : quiet s s' → node s' h = node s h.
Proof. intros Q. unfold node. by rewrite (quiet_extrasDB _ _ Q). Qed.

(** A change of the caches that leaves blocks, details and hashes alone *)
Lemma quiet_cache s c :
  t_details c = t_details (m_cache s) → t_blockHashes c = t_blockHashes (m_cache s) →
  quiet s (with_cache (m_blocks s) c s).
Proof. intros Hd Hh. split; try done; unfold details_agree, node; cbn; by rewrite ?Hd, ?Hh. Qed.
Lemma noteUsed_quiet h e s : quiet s (noteUsed h e s).
Proof. apply calm_quiet, noteUsed_calm. Qed.
Lemma noteUsed_caches h e s : m_cache (noteUsed h e s) = m_cache s ∧ m_blocks (noteUsed h e s) = m_blocks s.
Proof. unfold noteUsed. destruct (m_cacheUsage s) as [|? [|? ?]]; [done|done|]. by destruct (bool_decide _). Qed.

(** A table of neither details nor hashes *)
Lemma queryExtras_quiet {A} (t : Table A) k s :
  (∀ k v c, t_details (wr t k v c) = t_details c ∧ t_blockHashes (wr t k v c) = t_blockHashes c) →
  wp (queryExtras t k) s (λ s' r, quiet s s' ∧ ∃ v, r = Ok v).
Proof.
  intros Ht. unfold wp, queryExtras. destruct (rd t (m_cache s) !! k) as [v|]; [by eauto|].
  destruct (rd t (m_extrasDB s) !! k) as [v|]; [|by eauto]. cbn [fst snd]. split; [|by eauto].
  destruct (extra t) as [e|]; [etrans; [apply noteUsed_quiet|]|]; apply quiet_cache; apply Ht.
Qed.
Lemma blocksBlooms_wp id s : wp (blocksBlooms id) s (λ s' r, quiet s s' ∧ ∃ v, r = Ok v).
Proof. by apply queryExtras_quiet. Qed.
Lemma set_bloom_quiet id o f s : quiet s (set_bloom id o f s).
Proof. by apply quiet_cache. Qed.

(** A loop of which no round fails *)
Lemma each_quiet {A B} (f : B → A → M B) l acc s :
  (∀ s acc x, wp (f acc x) s (λ s' r, quiet s s' ∧ ∃ v, r = Ok v)) →
  wp (each f acc l) s (λ s' r, quiet s s' ∧ ∃ v, r = Ok v).
Proof.
  intros Hf. eapply run_mono; [apply (wp_each f (λ s' _ _, quiet s s') (λ _ _, False)); [|done]|].
  - intros s1 acc1 x l1 Q. eapply run_mono; [apply Hf|]. intros s' r (Q'&v&->). by etrans.
  - intros s' [v|e] Hr; [by eauto|done].
Qed.
Lemma clear_item_wp level item s : wp (clear_item level item) s (λ s' r, quiet s s' ∧ ∃ v, r = Ok v).
Proof.
  unfold clear_item. apply run_bind.
  eapply (run_mono _ _ (λ s' r, quiet s s' ∧ ∃ v, r = Ok v)).
  - destruct (negb _); [|apply run_ret; by eauto]. apply run_bind. eapply run_mono; [apply blocksBlooms_wp|].
    intros s' r (Q&v&->). apply run_ret. by eauto.
  - intros s1 r (Q&acc&->). apply run_bind. eapply run_mono; [apply blocksBlooms_wp|].
    intros s2 r (Q'&v&->). apply modify_wp. split; [|by eauto]. etrans; [by etrans|apply set_bloom_quiet].
Qed.
Lemma clear_levels_wp n level a b s : wp (clear_levels n level a b) s (λ s' r, quiet s s' ∧ r = Ok ()).
Proof.
  revert level a b s. induction n as [|n IH]; intros level a b s; cbn [clear_levels]; [by apply run_ret|].
  apply run_bind. eapply run_mono; [apply each_quiet; intros; apply clear_item_wp|].
  intros s1 r (Q&v&->). eapply run_mono; [apply IH|]. intros s2 r (Q'&->). split; [by etrans|done].
Qed.

Lemma delete_range_lookup (l : list Z) (m : gmap Z Z) k :
  fold_left (λ m i, base.delete i m) l m !! k = if decide (k ∈ l) then None else m !! k.
Proof.
  revert m. induction l as [|i l IH]; intros m; cbn [fold_left]; [done|]. rewrite IH.
  destruct (decide (k = i)) as [->|Hne].
  - rewrite lookup_delete_eq. destruct (decide (i ∈ l)), (decide (i ∈ i :: l)); done || set_solver.
  - rewrite lookup_delete_ne by done.
    destruct (decide (k ∈ l)), (decide (k ∈ i :: l)); done || set_solver.
Qed.
Lemma clearCaches_wp n s :
  wp (clearCachesDuringChainReversion n) s (λ s' r, quiet s s' ∧ r = Ok () ∧
    ∀ k, n ≤ k ≤ m_lastBlockNumber s → t_blockHashes (m_cache s') !! k = None).
Proof.
  unfold clearCachesDuringChainReversion. apply run_bind, get_wp. apply run_bind, modify_wp.
  eapply run_mono; [apply clear_levels_wp|]. intros s' r (Q&->).
  set (l := seqZ n (m_lastBlockNumber s + 1 - n)) in *.
  assert (∀ k v, t_blockHashes (m_cache s') !! k = Some v → k ∉ l ∧ t_blockHashes (m_cache s) !! k = Some v) as Hl.
  { intros k v Hv. eapply lookup_weaken in Hv; [|apply Q]. cbn in Hv. rewrite delete_range_lookup in Hv.
    by destruct (decide (k ∈ l)). }
  split_and!; [|done|].
  - etrans; [|exact Q]. split; try done. apply map_subseteq_spec. intros k v. cbn.
    rewrite delete_range_lookup. by destruct (decide _).
  - intros k Hk. destruct (_ !! k) as [v|] eqn:E; [|done]. apply Hl in E as [[] _]. apply elem_of_seqZ. lia.
Qed.

(** ** A block behind its parent *)

(** The tree with one block more: the others keep what they are, and the block
    is as before if it was there. *)
Record graft (s s' : Chain) (h ph : Z) (d : BlockDetails) : Prop := {
  gr_node : node s' h = Some d;
  gr_parent : parent d = ph;
  gr_old d' : node s h = Some d' → same_node d' d;
  gr_rest k : k ≠ h → option_Forall2 same_node (node s k) (node s' k);
}.
Lemma graft_node s s' h ph d k dk :
  graft s s' h ph d → node s k = Some dk → ∃ dk', node s' k = Some dk' ∧ same_node dk dk'.
Proof.
  intros G Hk. destruct (decide (k = h)) as [->|Hne].
  - exists d. split; [apply G|by apply (gr_old _ _ _ _ _ G)].
  - pose proof (gr_rest _ _ _ _ _ G k Hne) as HF. rewrite Hk in HF. inversion HF; subst. by eexists.
Qed.
Lemma graft_par s s' h ph d k dk : graft s s' h ph d → node s k = Some dk → par s' k = par s k.
Proof.
  intros G Hk. destruct (graft_node _ _ _ _ _ _ _ G Hk) as (dk'&Hk'&_&_&Hp).
  unfold par. by rewrite Hk, Hk'.
Qed.
Lemma graft_up g s s' h ph d k dk n :
  tree g s → graft s s' h ph d → node s k = Some dk → Z.of_nat n ≤ number dk → up s' n k = up s n k.
Proof.
  intros T G. revert k dk. induction n as [|n IH]; intros k dk Hk Hn; [done|]. cbn [up].
  rewrite (graft_par _ _ _ _ _ _ _ G Hk).
  destruct (up_node g s k dk 1 T Hk ltac:(lia)) as (dp&Hdp&Hnp). cbn [up] in Hdp. apply (IH _ dp); [done|lia].
Qed.
Lemma graft_parent s s' h ph d : graft s s' h ph d → par s' h = ph.
Proof. intros G. unfold par. rewrite (gr_node _ _ _ _ _ G). apply G. Qed.
Lemma graft_tree g s s' h ph d dp :
  tree g s → graft s s' h ph d → details_agree s' → h ≠ 0 → node s ph = Some dp →
  number d = number dp + 1 → number d < c_invalidNumber → tree g s'.
Proof.
  intros T G Ha H0 Hp Hn Hmax. destruct (tr_node _ _ T ph dp Hp) as (_&Hnp&_). split; [done| |].
  - destruct (tr_genesis _ _ T) as (dg&Hg&H0g). destruct (graft_node _ _ _ _ _ _ _ G Hg) as (dg'&?&E&_).
    exists dg'. by rewrite <-E.
  - intros k dk Hk. destruct (decide (k = h)) as [->|Hne].
    + rewrite (gr_node _ _ _ _ _ G) in Hk. injection Hk as <-. split_and!; [done|lia|done|]. right.
      destruct (graft_node _ _ _ _ _ _ _ G Hp) as (dp'&?&E&_). rewrite (gr_parent _ _ _ _ _ G).
      exists dp'. by rewrite <-E.
    + pose proof (gr_rest _ _ _ _ _ G k Hne) as HF. rewrite Hk in HF.
      inversion HF as [dk0 ? (En&_&Ep) Ek|]; subst.
      destruct (tr_node _ _ T k dk0 (eq_sym Ek)) as (?&Hr&Hpar). rewrite <-En, <-Ep. split_and!; [done|lia|lia|].
      destruct Hpar as [?|(dq&Hq&Hnq)]; [by left|right].
      destruct (graft_node _ _ _ _ _ _ _ G Hq) as (dq'&?&E&_). exists dq'. by rewrite <-E.
Qed.

(** ** What is written of the blocks of the chain *)

(** Writes that leave details and hashes alone, and those of one block *)
Definition silent (f : Tables → Tables) : Prop :=
  ∀ t, t_details (f t) = t_details t ∧ t_blockHashes (f t) = t_blockHashes t.
Definition apply_batch (b : Batch) (t : Tables) : Tables := fold_left (λ t f, f t) b t.
Lemma batch_app b b' t : apply_batch (b ++ b') t = apply_batch b' (apply_batch b t).
Proof. apply fold_left_app. Qed.
Lemma apply_silent b : Forall silent b → silent (apply_batch b).
Proof.
  induction 1 as [|f b Hf _ IH]; intros t; [done|].
  change (apply_batch (f :: b) t) with (apply_batch b (f t)). destruct (IH (f t)) as [E1 E2], (Hf t) as [E3 E4]. by rewrite E1, E2.
Qed.
Definition writes (b : Batch) (n r : Z) : Prop :=
  ∀ t, t_details (apply_batch b t) = t_details t ∧ t_blockHashes (apply_batch b t) = <[n := r]> (t_blockHashes t).

(** A block that was read: its header, and its transactions *)
Record good `{Crypto} (data : bytes) (i : BlockHeader) : Prop := {
  good_header : of_bytes data BlockData 0 = Ok i;
  good_hash : m_hash i ≠ 0;
  good_items : ∃ ts, ∀ s, block_items 1 data s = (s, Ok ts);
}.
Lemma header_hash_wp `{Crypto} i s (Q : Chain → result ChainError Z → Prop) :
  m_hash i ≠ 0 → Q s (Ok (m_hash i)) → wp (header_hash i) s Q.
Proof.
  intros Hi HQ. unfold header_hash, hash. rewrite (proj2 (Z.eqb_neq _ _) Hi). done.
Qed.
Lemma block_items_any `{Crypto} i b s s' ts : (block_items i b s).2 = Ok ts → block_items i b s' = (s', Ok ts).
Proof.
  unfold block_items, mbind, M_bind, header_m, receipt_m.
  destruct (rlp_error _) as [root|]; [|done]. destruct (hfield root i RLP.new_cache) as [[c l]|]; [|done].
  by destruct (Receipt.for_items l); intros [= <-].
Qed.

Section Write.
Context {CR : Crypto}.
Context (genesisBlock : bytes).
Notation g := (m_genesisHash genesisBlock).
Notation stored := (stored genesisBlock).

(** The block is found where [write_canonical] looks for it. *)
Definition found (s : Chain) (h : Z) (data : bytes) (i : BlockHeader) (r : Z) (d : bytes) (bi : BlockHeader) : Prop :=
  good d bi ∧ m_hash bi = r ∧ (if r =? h then d = data ∧ bi = i else stored s r d).
Lemma quiet_stored s s' h d : quiet s s' → stored s' h d ↔ stored s h d.
Proof. intros Q. unfold BlockChainVerify.stored. by rewrite (quiet_blocksDB _ _ Q). Qed.

Lemma set_blooms_quiet (f : Z → Z) (places : list (Z * Z)) s :
  quiet s (fold_left (λ s x, set_bloom x.1 x.2 f s) places s).
Proof. revert s. induction places as [|x l IH]; intros s; cbn; [done|]. etrans; [apply set_bloom_quiet|apply IH]. Qed.
Lemma block_found h s d (Q : Chain → result ChainError bytes → Prop) :
  blocks_agree s → stored s h d → (∀ s', quiet s s' → Q s' (Ok d)) → wp (block genesisBlock h) s Q.
Proof.
  intros Ha Hd HQ. apply block_wp; [done|]. intros s' d' C _ Hu. rewrite (Hu d Hd). by apply HQ, calm_quiet.
Qed.

Lemma write_canonical_wp h i data batch r d bi s :
  blocks_agree s → found s h data i r d bi →
  wp (write_canonical genesisBlock h i data batch r) s (λ s' res, quiet s s' ∧
    ∃ b, res = Ok (batch ++ b) ∧ writes b (m_number bi) r).
Proof.
  intros Ha (HG&Hr&Hf). destruct HG as [Hh Hz [ts Hts]]. unfold write_canonical. apply run_bind.
  eapply (run_mono _ _ (λ s' res, quiet s s' ∧ res = Ok bi)).
  { destruct (r =? h); [destruct Hf as [_ ->]; by apply run_ret|].
    apply run_bind, (block_found _ _ d); [done|done|]. intros s' Q. apply header_m_wp. by rewrite Hh. }
  intros s1 ? (Q1&->). apply run_bind. eapply run_mono; [apply each_quiet|].
  { intros s2 ? x. apply run_bind. eapply run_mono; [apply blocksBlooms_wp|].
    intros s3 ? (Q&v&->). apply run_ret. eauto. }
  intros s2 ? (Q2&?&->). apply run_bind, modify_wp.
  match goal with |- wp _ ?x _ => set (s3 := x) end.
  assert (quiet s s3) as Q3.
  { etrans; [exact Q1|]. etrans; [exact Q2|]. apply set_blooms_quiet. }
  clearbody s3. apply run_bind. eapply (run_mono _ _ (λ s' res, quiet s s' ∧ res = Ok d)).
  { destruct (r =? h); [destruct Hf as [-> _]; by apply run_ret|].
    apply (block_found _ _ d); [by apply (quiet_blocks _ _ Q3)|by apply (quiet_stored s s3)|].
    intros s' Q. split; [by etrans|done]. }
  intros s4 ? (Q4&->). apply run_bind. unfold wp at 1. rewrite Hts. cbn [fst snd].
  apply run_bind, header_hash_wp; [done|]. apply run_bind, get_wp, run_ret. split; [done|].
  eexists. split; [reflexivity|]. rewrite Hr. intros t. rewrite !app_assoc, batch_app.
  match goal with |- context [apply_batch (?x ++ ?y) t] => assert (silent (apply_batch (x ++ y))) as HS end.
  { apply apply_silent, Forall_app. split.
    - apply Forall_forall. intros f (?&?&->&_)%elem_of_lookup_imap. by intros ?.
    - apply Forall_forall. intros f (?&->&_)%list_elem_of_fmap. by intros ?. }
  destruct (HS t) as [E1 E2]. clear HS. set (u := apply_batch (_ ++ _) t) in *. clearbody u.
  cbn. by rewrite E1, E2.
Qed.

(** All blocks that become part of the chain *)
Definition hashes_of (nm : Z → Z) (l : list Z) (m : gmap Z Z) : gmap Z Z := fold_left (λ m r, <[nm r := r]> m) l m.
Lemma hashes_of_other nm l m n : n ∉ map nm l → hashes_of nm l m !! n = m !! n.
Proof.
  revert m. induction l as [|r l IH]; intros m Hn; [done|]. cbn in *. apply not_elem_of_cons in Hn as [? ?].
  unfold hashes_of in *. rewrite IH by done. by rewrite lookup_insert_ne.
Qed.
Lemma hashes_of_in nm l m r : NoDup (map nm l) → r ∈ l → hashes_of nm l m !! nm r = Some r.
Proof.
  revert m. induction l as [|x l IH]; intros m Hnd Hr; [by apply not_elem_of_nil in Hr|].
  cbn in Hnd. apply NoDup_cons in Hnd as [Hx Hnd]. unfold hashes_of in *. cbn [fold_left].
  apply elem_of_cons in Hr as [->|Hr]; [|by apply IH].
  fold (hashes_of nm l (<[nm x:=x]> m)). rewrite hashes_of_other by done. apply lookup_insert_eq.
Qed.
Definition writes_all (b : Batch) (nm : Z → Z) (l : list Z) : Prop :=
  ∀ t, t_details (apply_batch b t) = t_details t ∧
       t_blockHashes (apply_batch b t) = hashes_of nm l (t_blockHashes t).
Lemma quiet_found s s' h data i r d bi : quiet s s' → found s h data i r d bi → found s' h data i r d bi.
Proof.
  intros Q (HG&Hr&Hf). split_and!; [done|done|]. destruct (r =? h); [done|]. by apply (quiet_stored s s').
Qed.
Lemma write_all_wp nm h i data batch l s :
  blocks_agree s → (∀ r, r ∈ l → ∃ d bi, found s h data i r d bi ∧ m_number bi = nm r) →
  wp (each (write_canonical genesisBlock h i data) batch l) s (λ s' res, quiet s s' ∧
    ∃ b, res = Ok (batch ++ b) ∧ writes_all b nm l).
Proof.
  revert batch s. induction l as [|r l IH]; intros batch s Ha Hl; cbn [each].
  - apply run_ret. split; [done|]. exists []. by rewrite app_nil_r.
  - destruct (Hl r ltac:(set_solver)) as (d&bi&Hf&Hn).
    apply run_bind. eapply run_mono; [by eapply write_canonical_wp|].
    intros s1 ? (Q1&b1&->&W1). eapply run_mono; [apply IH|].
    + by apply (quiet_blocks _ _ Q1).
    + intros r' Hr'. destruct (Hl r' ltac:(set_solver)) as (d'&bi'&Hf'&?). exists d', bi'.
      split; [by eapply quiet_found|done].
    + intros s2 ? (Q2&b2&->&W2). split; [by etrans|]. exists (b1 ++ b2). split; [by rewrite app_assoc|].
      intros t. rewrite batch_app. destruct (W2 (apply_batch b1 t)) as [-> ->], (W1 t) as [-> ->].
      by rewrite Hn.
Qed.

(** The way to the new block, cut at the common ancestor *)
Lemma until_app c l r : c ∉ l → until c (l ++ c :: r) = l.
Proof.
  induction l as [|x l IH]; cbn; [by rewrite Z.eqb_refl|]. intros Hc.
  apply not_elem_of_cons in Hc as [? ?]. rewrite (proj2 (Z.eqb_neq x c)) by done. by rewrite IH.
Qed.
Lemma split_route_false c l : c ∉ l → split_route c false l = ([], l).
Proof.
  induction l as [|x l IH]; cbn; [done|]. intros Hc. apply not_elem_of_cons in Hc as [? ?].
  rewrite (proj2 (Z.eqb_neq x c)) by done. by rewrite IH.
Qed.
Lemma split_route_app c l r : c ∉ l → c ∉ r → split_route c true (l ++ c :: r) = (l, r).
Proof.
  intros Hl Hr. induction l as [|x l IH]; cbn; [by rewrite Z.eqb_refl, split_route_false|].
  apply not_elem_of_cons in Hl as [? ?]. rewrite (proj2 (Z.eqb_neq x c)) by done. by rewrite IH.
Qed.

(** ** What holds of the chain *)

(** The head is a block of the tree, and up to its number the table has the
    hash of its ancestor with that number; what is cached is in the table. *)
Record numbered (s : Chain) : Prop := {
  nu_head : ∃ d, node s (m_lastBlockHash s) = Some d ∧ number d = m_lastBlockNumber s;
  nu_best : default g (m_best s) = m_lastBlockHash s;
  nu_hashes n : 1 ≤ n ≤ m_lastBlockNumber s →
    t_blockHashes (m_extrasDB s) !! n = Some (up s (Z.to_nat (m_lastBlockNumber s - n)) (m_lastBlockHash s));
  nu_cached n v : t_blockHashes (m_cache s) !! n = Some v →
    n ≤ m_lastBlockNumber s ∧ t_blockHashes (m_extrasDB s) !! n = Some v;
}.
(** Every block of the tree but the genesis block is stored under the hash of
    its header, behind its parent; its difficulty is the sum up to there. *)
Record rooted (s : Chain) (h : Z) (d : BlockDetails) (data : bytes) (i : BlockHeader) (dp : BlockDetails) : Prop := {
  ro_data : m_blocksDB s !! h = Some data;
  ro_good : good data i;
  ro_hash : m_hash i = h;
  ro_parent : m_parentHash i = parent d;
  ro_number : m_number i = number d;
  ro_node : node s (parent d) = Some dp;
  ro_difficulty : totalDifficulty d = u256 (totalDifficulty dp + m_difficulty i);
}.
Record ok (s : Chain) : Prop := {
  ok_tree : tree g s;
  ok_blocks : blocks_agree s;
  ok_rooted h d : node s h = Some d → h ≠ g → ∃ data i dp, rooted s h d data i dp;
  ok_numbered : numbered s;
}.

Lemma quiet_up s s' n h : quiet s s' → up s' n h = up s n h.
Proof.
  intros Q. revert h. induction n as [|n IH]; intros h; [done|]. cbn [up]. rewrite IH.
  unfold par. by rewrite (quiet_node _ _ _ Q).
Qed.
Lemma quiet_tree s s' : quiet s s' → tree g s → tree g s'.
Proof.
  intros Q [T1 T2 T3]. split; [by apply (quiet_details _ _ Q)| |]; [|intros h d]; rewrite !(quiet_node s s') by done;
    [done|]. intros Hd. destruct (T3 h d Hd) as (?&[? ?]&[?|(dp&Hp&?)]); split_and!; auto. right.
  by exists dp.
Qed.
Lemma quiet_ok s s' : quiet s s' → ok s → ok s'.
Proof.
  intros Q [T B R [H1 H2 H3 H4]]. split; [by eapply quiet_tree|by apply (quiet_blocks _ _ Q)| |].
  - intros h d. rewrite (quiet_node s s') by done. intros Hd Hg. destruct (R h d Hd Hg) as (data&i&dp&[]).
    exists data, i, dp. split; rewrite ?(quiet_node s s'), ?(quiet_blocksDB s s') by done; done.
  - split; rewrite ?(quiet_hash s s'), ?(quiet_number s s'), ?(quiet_best s s'), ?(quiet_extrasDB s s') by done.
    + by rewrite (quiet_node s s').
    + done.
    + intros n Hn. rewrite (quiet_up s s') by done. by apply H3.
    + intros n v Hv. apply H4. eapply lookup_weaken; [exact Hv|apply Q].
Qed.

(** The tree with a new block *)
Lemma graft_ok s s' data i d dp :
  ok s → good data i → m_hash i ≠ g → node s (m_parentHash i) = Some dp →
  graft s s' (m_hash i) (m_parentHash i) d → number d = m_number i →
  totalDifficulty d = u256 (totalDifficulty dp + m_difficulty i) →
  m_number i = number dp + 1 → m_number i < c_invalidNumber →
  m_blocksDB s' = <[m_hash i := data]> (m_blocksDB s) →
  blocks_agree s' → details_agree s' → numbered s' → ok s'.
Proof.
  intros [T B R N] HG Hg Hp G Hnd Htd Hn Hmax Hdb HB HD HN. split; [|done| |done].
  { eapply (graft_tree g s); eauto; [apply HG|lia|lia]. }
  intros k dk Hk Hkg. destruct (decide (k = m_hash i)) as [->|Hne].
  - rewrite (gr_node _ _ _ _ _ G) in Hk. injection Hk as <-.
    destruct (graft_node _ _ _ _ _ _ _ G Hp) as (dp'&Hp'&_&E&_). exists data, i, dp'.
    pose proof (gr_parent _ _ _ _ _ G) as Epar.
    split; [by rewrite Hdb, lookup_insert_eq|done|done|done|done|by rewrite Epar|by rewrite <-E].
  - pose proof (gr_rest _ _ _ _ _ G k Hne) as HF. rewrite Hk in HF.
    inversion HF as [dk0 ? (En&Et&Ep) Ek|]; subst.
    destruct (R k dk0 (eq_sym Ek) Hkg) as (data'&i'&dq&[R1 R2 R3 R4 R5 R6 R7]).
    destruct (graft_node _ _ _ _ _ _ _ G R6) as (dq'&Hq'&_&E&_). exists data', i', dq'.
    split; rewrite <-?En, <-?Et, <-?Ep, <-?E; try done. by rewrite Hdb, lookup_insert_ne.
Qed.

(** The head stays *)
Lemma numbered_same s s' h ph d :
  tree g s → numbered s → graft s s' h ph d →
  m_best s' = m_best s → m_lastBlockHash s' = m_lastBlockHash s → m_lastBlockNumber s' = m_lastBlockNumber s →
  t_blockHashes (m_extrasDB s') = t_blockHashes (m_extrasDB s) →
  t_blockHashes (m_cache s') ⊆ t_blockHashes (m_cache s) → numbered s'.
Proof.
  intros T [(dl&Hl&Hn) H2 H3 H4] G Eb Eh En Ex Hc. split; rewrite ?Eb, ?Eh, ?En, ?Ex; try done.
  - destruct (graft_node _ _ _ _ _ _ _ G Hl) as (dl'&?&E&_). exists dl'. by rewrite <-E.
  - intros n Hr. rewrite (graft_up g s s' h ph d _ dl) by (done || lia). by apply H3.
  - intros n v Hv. apply H4. by eapply lookup_weaken.
Qed.

(** The new block becomes the head. *)
Definition number_of (s : Chain) (h n : Z) (r : Z) : Z :=
  if r =? h then n else number (default NullBlockDetails (node s r)).
Lemma elem_of_line s n h r : r ∈ line s n h ↔ ∃ k, (k < n)%nat ∧ r = up s k h.
Proof.
  unfold line. split.
  - intros (k&->&Hk)%list_elem_of_fmap. exists k. split; [|done]. apply elem_of_seq in Hk. lia.
  - intros (k&Hk&->). apply list_elem_of_fmap. exists k. split; [done|]. apply elem_of_seq. lia.
Qed.
Lemma number_of_up s h ph dp k :
  tree g s → node s ph = Some dp → (∀ d, node s h = Some d → number d = number dp + 1) →
  Z.of_nat k ≤ number dp →
  up s k ph ≠ h ∧ number_of s h (number dp + 1) (up s k ph) = number dp - Z.of_nat k.
Proof.
  intros T Hp Hh Hk. destruct (up_node g s ph dp k T Hp Hk) as (dk&Hdk&Hnk).
  assert (up s k ph ≠ h) as Hne by (intros E; rewrite E in Hdk; apply Hh in Hdk; lia).
  split; [done|]. unfold number_of. rewrite (proj2 (Z.eqb_neq _ _) Hne), Hdk. done.
Qed.
Lemma numbers_distinct s h ph dp b :
  tree g s → node s ph = Some dp → (∀ d, node s h = Some d → number d = number dp + 1) →
  Z.of_nat b ≤ number dp →
  map (number_of s h (number dp + 1)) (h :: line s b ph) =
    number dp + 1 :: map (λ k, number dp - Z.of_nat k) (seq 0 b) ∧
  NoDup (map (number_of s h (number dp + 1)) (h :: line s b ph)).
Proof.
  intros T Hp Hh Hb.
  assert (map (number_of s h (number dp + 1)) (h :: line s b ph) =
    number dp + 1 :: map (λ k, number dp - Z.of_nat k) (seq 0 b)) as E.
  { cbn [map]. f_equal; [unfold number_of; by rewrite Z.eqb_refl|].
    unfold line. rewrite map_map. apply map_ext_in. intros k Hk%in_seq. apply number_of_up; [done..|lia]. }
  split; [done|]. rewrite E. apply NoDup_cons. split.
  - intros (k&?&_)%list_elem_of_fmap. lia.
  - apply NoDup_fmap_2; [intros x y; lia|apply NoDup_seq].
Qed.
Lemma numbered_moved s s' h ph d dl dp a b :
  tree g s → numbered s → graft s s' h ph d → node s ph = Some dp → number d = number dp + 1 →
  node s (m_lastBlockHash s) = Some dl → meeting s (m_lastBlockHash s) ph dl dp a b →
  m_lastBlockHash s' = h → m_lastBlockNumber s' = number d → default g (m_best s') = h →
  t_blockHashes (m_extrasDB s') =
    hashes_of (number_of s h (number dp + 1)) (h :: line s b ph) (t_blockHashes (m_extrasDB s)) →
  (∀ n v, t_blockHashes (m_cache s') !! n = Some v →
     t_blockHashes (m_cache s) !! n = Some v ∧ n ≤ number dl - Z.of_nat a) →
  numbered s'.
Proof.
  intros T [(dl'&Hl&Hnl) H2 H3 H4] G Hp Hn Hdl [Hmt [Hah Ha] _] Eh En Eb Ex Hc.
  rewrite Hdl in Hl. injection Hl as <-.
  assert (∀ d, node s h = Some d → number d = number dp + 1) as Hold.
  { intros d' Hd'. destruct (gr_old _ _ _ _ _ G d' Hd') as [E _]. lia. }
  destruct (numbers_distinct s h ph dp b T Hp Hold ltac:(lia)) as [Enum Hnd].
  destruct (graft_node _ _ _ _ _ _ _ G Hp) as (dp'&Hp'&_).
  split; rewrite ?Eh, ?En, ?Ex.
  - exists d. split; [apply G|done].
  - done.
  - intros n Hr. rewrite Hn in *. destruct (decide (n = number dp + 1)) as [->|Hne].
    { replace (Z.to_nat (number dp + 1 - (number dp + 1))) with 0%nat by lia. cbn [up].
      pose proof (hashes_of_in (number_of s h (number dp + 1)) (h :: line s b ph) (t_blockHashes (m_extrasDB s)) h
        Hnd ltac:(set_solver)) as E. 
      by replace (number_of s h (number dp + 1) h) with (number dp + 1) in E by (unfold number_of; by rewrite Z.eqb_refl). }
    replace (Z.to_nat (number dp + 1 - n)) with (S (Z.to_nat (number dp - n))) by lia.
    cbn [up]. rewrite (graft_parent _ _ _ _ _ G), (graft_up g s s' h ph d _ dp) by (done || lia).
    destruct (decide (number dp - n < Z.of_nat b)) as [Hlt|Hge].
    + destruct (number_of_up s h ph dp (Z.to_nat (number dp - n)) T Hp Hold ltac:(lia)) as [_ En'].
      rewrite <-(hashes_of_in (number_of s h (number dp + 1)) (h :: line s b ph) (t_blockHashes (m_extrasDB s))
        (up s (Z.to_nat (number dp - n)) ph) Hnd).
      * f_equal. rewrite En'. lia.
      * apply elem_of_cons. right. apply elem_of_line. exists (Z.to_nat (number dp - n)). split; [lia|done].
    + rewrite hashes_of_other, H3 by (lia || (rewrite Enum; intros [?|(k&?&?%elem_of_seq)%list_elem_of_fmap]%elem_of_cons; lia)).
      f_equal. replace (Z.to_nat (m_lastBlockNumber s - n)) with (Z.to_nat (number dl - Z.of_nat a - n) + a)%nat by lia.
      rewrite up_add, Hmt, <-up_add. f_equal. lia.
  - intros n v [Hv Hna]%Hc. apply H4 in Hv as [? Hv]. split; [lia|].
    rewrite hashes_of_other; [done|]. rewrite Enum.
    intros [?|(k&?&?%elem_of_seq)%list_elem_of_fmap]%elem_of_cons; lia.
Qed.

(** ** The move to another head *)

(** The blocks that are read on the way *)
Lemma on_route s data i dp b r :
  ok s → good data i → node s (m_parentHash i) = Some dp → m_number i = number dp + 1 →
  (∀ d, node s (m_hash i) = Some d → number d = number dp + 1) → Z.of_nat b ≤ number dp →
  r ∈ m_hash i :: line s b (m_parentHash i) →
  ∃ d bi, found s (m_hash i) data i r d bi ∧ m_number bi = number_of s (m_hash i) (number dp + 1) r.
Proof.
  intros [T B R _] HG Hp Hn Hold Hb [->|(k&Hk&->)%elem_of_line]%elem_of_cons.
  { exists data, i. unfold found, number_of. rewrite Z.eqb_refl. by split. }
  destruct (number_of_up s (m_hash i) _ dp k T Hp Hold ltac:(lia)) as [Hne Hnum].
  destruct (up_node g s _ dp k T Hp ltac:(lia)) as (dk&Hdk&Hnk).
  destruct (R _ dk Hdk) as (d&bi&dq&[R1 R2 R3 R4 R5 _ _]).
  { intros E. destruct (tr_genesis _ _ T) as (dg&Hdg&H0). rewrite E, Hdg in Hdk. injection Hdk as <-. lia. }
  exists d, bi. rewrite Hnum, <-Hnk, <-R5. split; [|done]. split_and!; [done|done|].
  rewrite (proj2 (Z.eqb_neq _ _) Hne). right. split; [|done].
  intros E. destruct (tr_genesis _ _ T) as (dg&Hdg&H0). rewrite E, Hdg in Hdk. injection Hdk as <-. lia.
Qed.
Lemma ancestor_not_in s h n b c dc :
  tree g s → node s h = Some n → node s c = Some dc → Z.of_nat b ≤ number n →
  number dc = number n - Z.of_nat b → c ∉ line s b h.
Proof.
  intros T Hh Hc Hb Hn (j&Hj&->)%elem_of_line.
  destruct (up_node g s h n j T Hh ltac:(lia)) as (d&Hd&Hnd). rewrite Hc in Hd. injection Hd as <-. lia.
Qed.
Lemma common_apart s h last ph dl dp a b :
  tree g s → node s last = Some dl → node s ph = Some dp → meeting s last ph dl dp a b →
  (∀ d, node s h = Some d → number d = number dp + 1) →
  up s a last ∉ line s a last ∧ up s a last ∉ h :: line s b ph ∧
  ∃ dc, node s (up s a last) = Some dc ∧ number dc = number dl - Z.of_nat a.
Proof.
  intros T Hl Hp [_ [Hab Ha] _] Hold.
  destruct (up_node g s _ dl a T Hl Ha) as (dc&Hdc&Hnc). split_and!.
  - by apply (ancestor_not_in s _ dl a _ dc).
  - apply not_elem_of_cons. split; [|apply (ancestor_not_in s _ dp b _ dc); done || lia].
    intros E. rewrite E in Hdc. apply Hold in Hdc. lia.
  - by exists dc.
Qed.
End Write.

Section Insert.
Context {CR : Crypto} {EL : EthashLib} {AL : AuthorityLib} {EN : Enactor}.
Context (p : SealEngine.ChainOperationParams) (genesisBlock : bytes) (authority : BasicAuthority.Authority).
Notation g := (m_genesisHash genesisBlock).
Notation ok := (ok genesisBlock).

(** The way to the new head, and what is written of it *)
Definition reroute (i : BlockHeader) (data : bytes) (last : Z) (batch : Batch) : M (list Z * Z * Batch) :=
  '(route, common, _) ← treeRoute last (m_parentHash i) true true true;
  let route := route ++ [m_hash i] in
  (if negb (common =? last)
   then n ← blockNumber common; clearCachesDuringChainReversion (u32 (n + 1)) else mret ());;
  batch ← each (write_canonical genesisBlock (m_hash i) i data) batch (until common (rev route));
  mret (route, common, batch).
Lemma forget_numbers_wp s s1 c dc :
  ok s → quiet s s1 → node s c = Some dc →
  wp (if negb (c =? m_lastBlockHash s)
      then n ← blockNumber c; clearCachesDuringChainReversion (u32 (n + 1)) else mret ()) s1
    (λ s' r, quiet s s' ∧ r = Ok () ∧ ∀ n v, t_blockHashes (m_cache s') !! n = Some v → n ≤ number dc).
Proof.
  intros HO Q1 Hdc. pose proof (nu_cached _ _ (ok_numbered _ _ HO)) as Hc.
  destruct (nu_head _ _ (ok_numbered _ _ HO)) as (dl&Hl&Hnl).
  destruct (Z.eqb_spec c (m_lastBlockHash s)) as [Ecl|Hne]; cbn [negb].
  - apply run_ret. split_and!; [done|done|]. intros n v Hv.
    rewrite Ecl, Hl in Hdc. injection Hdc as <-. rewrite Hnl. apply (Hc n v). eapply lookup_weaken; [exact Hv|apply Q1].
  - apply run_bind. unfold blockNumber. apply run_bind, details_wp; [apply (quiet_details _ _ Q1), HO|].
    intros s2 d2 C2 (Hd2&_). apply run_ret. rewrite (quiet_node s s1), Hdc in Hd2 by done. cbn in Hd2.
    eapply run_mono; [apply clearCaches_wp|]. intros s3 r (Q3&->&Hcl).
    assert (quiet s s2) as Q2 by (etrans; [exact Q1|auto]).
    split_and!; [by etrans|done|]. intros n v Hv.
    destruct (tr_node _ _ (ok_tree _ _ HO) c dc Hdc) as (_&Hr&_). rewrite Hd2 in Hcl.
    rewrite wrap_small in Hcl by (unfold in_word, c_invalidNumber in *; lia).
    destruct (decide (n ≤ number dc)) as [|Hgt]; [done|]. exfalso.
    rewrite Hcl in Hv; [done|]. rewrite (quiet_number s s2) by done. split; [lia|].
    apply (Hc n v). eapply lookup_weaken; [exact Hv|]. etrans; [apply Q3|apply Q2].
Qed.
Lemma reroute_wp i data batch s dl dp :
  ok s → good data i → node s (m_lastBlockHash s) = Some dl → node s (m_parentHash i) = Some dp →
  m_number i = number dp + 1 → (∀ d, node s (m_hash i) = Some d → number d = number dp + 1) →
  wp (reroute i data (m_lastBlockHash s) batch) s (λ s' r, quiet s s' ∧
    ∃ a b w, meeting s (m_lastBlockHash s) (m_parentHash i) dl dp a b ∧
      r = Ok (line s a (m_lastBlockHash s) ++ up s a (m_lastBlockHash s) :: rev (line s b (m_parentHash i)) ++ [m_hash i],
              up s a (m_lastBlockHash s), batch ++ w) ∧
      writes_all w (number_of s (m_hash i) (number dp + 1)) (m_hash i :: line s b (m_parentHash i)) ∧
      ∀ n v, t_blockHashes (m_cache s') !! n = Some v → n ≤ number dl - Z.of_nat a).
Proof.
  intros HO HG Hl Hp Hn Hold. pose proof (ok_tree _ _ HO) as T.
  destruct (treeRoute_spec g s _ _ true true true _ _ T Hl Hp) as (s1&a&b&ret&index&E&C&MT&->&_).
  destruct (common_apart genesisBlock s (m_hash i) _ _ _ _ a b T Hl Hp MT Hold) as (_&Hc&dc&Hdc&Hnc).
  destruct (mt_heights _ _ _ _ _ _ _ MT) as [Hab Ha].
  set (c := up s a (m_lastBlockHash s)) in *. set (h := m_hash i) in *.
  unfold reroute. fold h. apply run_bind. unfold wp at 1. rewrite E. cbn [fst snd andb orb].
  apply run_bind. eapply run_mono; [by apply (forget_numbers_wp s s1 c dc); auto|].
  intros s2 r (Q2&->&Hcl).
  assert (until c (rev ((line s a (m_lastBlockHash s) ++ [c] ++ rev (line s b (m_parentHash i))) ++ [h])) =
    h :: line s b (m_parentHash i)) as ->.
  { rewrite !rev_app_distr, rev_involutive. cbn [rev app]. rewrite <-app_assoc. cbn [app].
    by apply (until_app c (h :: line s b (m_parentHash i))). }
  apply run_bind. eapply run_mono.
  { apply (write_all_wp genesisBlock (number_of s h (number dp + 1))); [apply (quiet_blocks _ _ Q2), HO|].
    intros r Hr. destruct (on_route genesisBlock s data i dp b r HO HG Hp Hn Hold ltac:(lia) Hr) as (d&bi&Hf&Hnum).
    exists d, bi. split; [by eapply quiet_found|done]. }
  intros s3 r (Q3&w&->&W). apply run_ret. split; [by etrans|].
  exists a, b, w. split_and!; [done| |done|].
  - rewrite <-app_assoc. done.
  - intros n v Hv. rewrite <-Hnc. apply (Hcl n v). eapply lookup_weaken; [exact Hv|apply Q3].
Qed.

(** ** Which block is the head *)

(** The gas that a stored block used *)
Definition gas_of (s : Chain) (h u : Z) : Prop :=
  ∃ d i, stored genesisBlock s h d ∧ of_bytes d BlockData 0 = Ok i ∧ m_gasUsed i = u.
Lemma info_wp h s : blocks_agree s →
  wp (info genesisBlock h) s (λ s' r, quiet s s' ∧ ∀ i, r = Ok i → gas_of s h (m_gasUsed i)).
Proof.
  intros Ha. unfold info. apply run_bind, headerData_wp; [done|]. intros s' r C Hr.
  assert (quiet s s') as Q by auto. destruct r as [b|e]; [|by split].
  apply header_m_wp. destruct (of_bytes b HeaderData 0) as [i|] eqn:Ei; [|by split].
  split; [done|]. intros ? [= <-]. destruct (Hr b eq_refl) as [->|(d&Hd&He)].
  { exfalso. revert Ei. clear. unfold of_bytes. cbn. discriminate. }
  exists d. unfold of_bytes in Ei |- *. rewrite He. cbn [mbind result_bind].
  apply bind_Ok_inv in Ei as (hb'&Hc&Hh). cbv beta zeta in Hh.
  assert (hb' = b) as ->.
  { destruct (RLP.construct RLP.VeryStrict b) as [x|] eqn:E; [|done]. injection Hc as <-.
    by eapply construct_same. }
  eapply populate_memos in Hh. rewrite Hh. by eexists.
Qed.
Definition heavier (s : Chain) (i : BlockHeader) (td : Z) (dl : BlockDetails) (best : bool) : Prop :=
  ∃ gl, (SealEngine.tieBreakingGas p = true → td = totalDifficulty dl → gas_of s (m_lastBlockHash s) gl) ∧
    best = (totalDifficulty dl <? td) ||
           SealEngine.tieBreakingGas p && (td =? totalDifficulty dl) && (gl <? m_gasUsed i).
Definition is_heavier (i : BlockHeader) (td last : Z) (dl : BlockDetails) : M bool :=
  if totalDifficulty dl <? td then mret true
  else if SealEngine.tieBreakingGas p && (td =? totalDifficulty dl)
  then il ← info genesisBlock last; mret (m_gasUsed il <? m_gasUsed i)
  else mret false.
Lemma is_heavier_wp i td s s0 dl :
  blocks_agree s → quiet s0 s →
  wp (is_heavier i td (m_lastBlockHash s0) dl) s (λ s' r, quiet s s' ∧ ∀ b, r = Ok b → heavier s0 i td dl b).
Proof.
  intros Ha Q0. unfold is_heavier, heavier. destruct (Z.ltb_spec (totalDifficulty dl) td).
  { apply run_ret. split; [done|]. intros ? [= <-]. exists 0. split; [|done]. lia. }
  destruct (SealEngine.tieBreakingGas p && (td =? totalDifficulty dl)) eqn:E.
  - apply run_bind. eapply run_mono; [by apply info_wp|].
    intros s' [il|e] (Q&Hil); [|by split]. apply run_ret. split; [done|]. intros ? [= <-]. exists (m_gasUsed il).
    split; [|done]. intros _ _. destruct (Hil il eq_refl) as (d&bi&Hd&?). exists d, bi. split; [|done].
    by apply (quiet_stored genesisBlock s0 s).
  - apply run_ret. split; [done|]. intros ? [= <-]. exists 0. split; [|done].
    intros Ht ->. rewrite Ht, Z.eqb_refl in E. done.
Qed.

(** ** Writing a block *)

(** A block of the tree is cached when its details were asked for. *)
Lemma details_cached_wp h s d (Q : Chain → result ChainError BlockDetails → Prop) :
  details_agree s → node s h = Some d →
  (∀ s' d1, quiet s s' → same_node d d1 → t_details (m_cache s') !! h = Some d1 → Q s' (Ok d1)) →
  wp (details h) s Q.
Proof.
  intros Ha Hd HQ.
  assert (wp (details h) s (λ s' r, calm s s' ∧ ∃ d1, r = Ok d1 ∧ same_node d1 d)) as (C&d1&E&Hs).
  { apply details_wp; [done|]. intros s' d1 C Hs. rewrite Hd in Hs. eauto. }
  unfold wp in *. rewrite E. apply HQ; [auto|done|].
  clear HQ Hs. revert E. unfold details, queryExtras, node in *. cbn [rd details_t].
  destruct (t_details (m_cache s) !! h) as [d2|] eqn:Hc; [by intros [= <-]|].
  rewrite Hd. cbn. intros [= <-]. apply lookup_partial_alter_eq.
Qed.
Lemma add_child_wp h k once s d d1 :
  details_agree s → node s h = Some d → t_details (m_cache s) !! h = Some d1 → same_node d d1 →
  quiet s (add_child h k once s) ∧ same_node d (cached_details h (add_child h k once s)).
Proof.
  intros Ha Hd Hc Hs. unfold add_child, cached_details. rewrite Hc. cbn -[details_t].
  match goal with |- context [wr details_t h (Some ?x)] => set (d2 := x) end.
  assert (same_node d d2) as Hs2 by (destruct Hs as (?&?&?); by split_and!).
  split; [|cbn; unfold put; by rewrite lookup_partial_alter_eq].
  split; try done. intros _ k' d' Hk. cbn in Hk. unfold put in Hk. destruct (decide (k' = h)) as [->|Hne].
  - rewrite lookup_partial_alter_eq in Hk. injection Hk as <-. exists d. split; [done|].
    done.
  - rewrite lookup_partial_alter_ne in Hk by done. by apply Ha.
Qed.
Lemma receipt_blooms_wp d s : wp (receipt_blooms d) s (λ s' r, s' = s).
Proof.
  unfold receipt_blooms. apply run_bind, receipt_m_wp. destruct (Receipt.for_items d) as [items|]; [|done].
  eapply run_mono; [apply (wp_each _ (λ s' _ _, s' = s) (λ s' _, s' = s)); [|done]|by intros s' [x|]].
  intros s1 acc x l ->. apply run_bind, receipt_m_wp. by destruct (Receipt.of_rlp x).
Qed.

(** The entries of a new block and of its parent *)
Definition entries (i : BlockHeader) (pd d : BlockDetails) (blooms : list Z) (receipts : bytes) : Batch :=
  [wr details_t (m_parentHash i) (Some pd); wr details_t (m_hash i) (Some d);
   wr logBlooms_t (m_hash i) (Some blooms); wr receipts_t (m_hash i) (Some receipts)].
(** The new block of a tree: behind its parent, and no other block has its hash. *)
Record fits (s : Chain) (i : BlockHeader) (data : bytes) (dp : BlockDetails) : Prop := {
  fi_good : good data i;
  fi_genesis : m_hash i ≠ g;
  fi_parent : node s (m_parentHash i) = Some dp;
  fi_number : m_number i = number dp + 1 ∧ m_number i < c_invalidNumber;
  fi_unique data' : m_blocksDB s !! m_hash i = Some data' → data' = data;
}.
Definition new_node (i : BlockHeader) (dp d : BlockDetails) : Prop :=
  number d = m_number i ∧ parent d = m_parentHash i ∧ totalDifficulty d = u256 (totalDifficulty dp + m_difficulty i).
Lemma fits_old s i data dp d d' :
  ok s → fits s i data dp → new_node i dp d → node s (m_hash i) = Some d' → same_node d' d.
Proof.
  intros HO [HG Hg Hp _ Hu] (E1&E2&E3) Hd'.
  destruct (ok_rooted _ _ HO _ _ Hd' Hg) as (data'&i'&dq&[R1 R2 R3 R4 R5 R6 R7]).
  apply Hu in R1. subst data'. pose proof (good_header _ _ R2) as Ei. rewrite (good_header _ _ HG) in Ei.
  injection Ei as <-. rewrite <-R4, Hp in R6. injection R6 as <-.
  split_and!; congruence.
Qed.
Lemma commit_fits s s1 i data dp pd d blooms receipts w nm l :
  ok s → quiet s s1 → fits s i data dp → new_node i dp d → same_node dp pd → writes_all w nm l →
  let s' := commit_batch (entries i pd d blooms receipts ++ w) (m_hash i) data s1 in
  m_blocksDB s' = <[m_hash i := data]> (m_blocksDB s) ∧ graft s s' (m_hash i) (m_parentHash i) d ∧
  t_blockHashes (m_extrasDB s') = hashes_of nm l (t_blockHashes (m_extrasDB s)) ∧
  blocks_agree s' ∧ details_agree s'.
Proof.
  intros HO Q F Hd Hs W s'. pose proof (fi_parent _ _ _ _ F) as Hp. pose proof (fi_number _ _ _ _ F) as [Hn _].
  assert (m_blocksDB s' = <[m_hash i := data]> (m_blocksDB s)) as Edb by (cbn; by rewrite (quiet_blocksDB s s1)).
  set (base := fold_left (λ t f, f t) (entries i pd d blooms receipts) (m_extrasDB s1)).
  assert (m_extrasDB s' = apply_batch w base) as Ex
    by (unfold base, apply_batch; by rewrite <-fold_left_app).
  destruct (W base) as [Wd Wh].
  assert (∀ k, node s' k = if decide (k = m_hash i) then Some d else if decide (k = m_parentHash i) then Some pd else node s k)
    as Hnode.
  { intros k. unfold node. rewrite Ex, Wd. unfold base. cbn. unfold put. rewrite (quiet_extrasDB s s1) by done.
    destruct (decide (k = m_hash i)) as [->|H1]; [by rewrite lookup_partial_alter_eq|].
    rewrite lookup_partial_alter_ne by done.
    destruct (decide (k = m_parentHash i)) as [->|H2]; [by rewrite lookup_partial_alter_eq|].
    by rewrite lookup_partial_alter_ne. }
  assert (graft s s' (m_hash i) (m_parentHash i) d) as G.
  { split.
    - rewrite Hnode. by rewrite decide_True.
    - apply Hd.
    - intros d' Hd'. by eapply fits_old.
    - intros k Hk. rewrite Hnode, decide_False by done.
      destruct (decide (k = m_parentHash i)) as [->|]; [rewrite Hp; by constructor|].
      destruct (node s k); by constructor. }
  split_and!; [done|done| | |].
  - rewrite Ex, Wh. unfold base. cbn. by rewrite (quiet_extrasDB s s1).
  - intros k x Hk. apply (quiet_blocks _ _ Q (ok_blocks _ _ HO)) in Hk. rewrite (quiet_blocksDB s s1) in Hk by done.
    rewrite Edb. destruct (decide (k = m_hash i)) as [->|].
    + apply (fi_unique _ _ _ _ F) in Hk as ->. apply lookup_insert_eq.
    + by rewrite lookup_insert_ne.
  - intros k x Hk.
    destruct (quiet_details _ _ Q (tr_agree _ _ (ok_tree _ _ HO)) k x Hk) as (y&Hy&Exy).
    rewrite (quiet_node s s1) in Hy by done.
    destruct (graft_node _ _ _ _ _ _ _ G Hy) as (z&Hz&Eyz). exists z. split; [done|by etrans].
Qed.

(** ** Inserting a block *)

(** The result of an insertion: the block is in the tree and the head is the
    heavier one; when it moved, [dead] are the blocks of the old head, from it
    to the common ancestor, and [fresh] those of the new one, from there to
    it. *)
Record inserted (s s' : Chain) (i : BlockHeader) (data : bytes) (dp d : BlockDetails) (r : list Z * list Z) : Prop := {
  in_ok : ok s';
  in_blocks : m_blocksDB s' = <[m_hash i := data]> (m_blocksDB s);
  in_graft : graft s s' (m_hash i) (m_parentHash i) d;
  in_head : ∃ dl best, node s (m_lastBlockHash s) = Some dl ∧ heavier s i (totalDifficulty d) dl best ∧
    if best then
      m_lastBlockHash s' = m_hash i ∧ m_lastBlockNumber s' = m_number i ∧
      ∃ a b, meeting s (m_lastBlockHash s) (m_parentHash i) dl dp a b ∧
        r = (line s a (m_lastBlockHash s), rev (line s b (m_parentHash i)) ++ [m_hash i])
    else m_lastBlockHash s' = m_lastBlockHash s ∧ m_lastBlockNumber s' = m_lastBlockNumber s ∧ r = ([], []);
}.
Record same_stores (s s' : Chain) : Prop := {
  ss_blocksDB : m_blocksDB s' = m_blocksDB s;
  ss_extrasDB : m_extrasDB s' = m_extrasDB s;
  ss_blocks : m_blocks s' = m_blocks s;
  ss_cache : m_cache s' = m_cache s;
}.
Lemma same_stores_graft s s1 s2 h ph d :
  same_stores s1 s2 → graft s s1 h ph d → blocks_agree s1 → details_agree s1 →
  graft s s2 h ph d ∧ blocks_agree s2 ∧ details_agree s2.
Proof.
  intros [E1 E2 E3 E4] [G1 G2 G3 G4] B D. split_and!.
  - split; unfold node in *; rewrite ?E2; done.
  - unfold blocks_agree. by rewrite E1, E3.
  - unfold details_agree, node in *. by rewrite E2, E4.
Qed.

(** The head after the block is written *)
Definition set_head (best : bool) (h n : Z) (s : Chain) : Chain :=
  if best && negb (m_lastBlockHash s =? h) then with_best (Some h) (with_last h (u32 n) s) else s.
Definition forget_last (route : list Z) (s : Chain) : Chain :=
  match route with [] => s | _ => with_lastHashes [] s end.
Lemma head_stores best h n route s : same_stores s (forget_last route (set_head best h n s)).
Proof. unfold forget_last, set_head. destruct (_ && _), route; done. Qed.
Lemma head_moved h n route s :
  0 ≤ n < c_invalidNumber → (m_lastBlockHash s = h → m_lastBlockNumber s = n ∧ default g (m_best s) = h) →
  let s' := forget_last route (set_head true h n s) in
  m_lastBlockHash s' = h ∧ m_lastBlockNumber s' = n ∧ default g (m_best s') = h.
Proof.
  intros Hn Hh. unfold forget_last, set_head. cbn [andb].
  assert (u32 n = n) as -> by (apply wrap_small; unfold in_word, c_invalidNumber in *; lia).
  destruct (Z.eqb_spec (m_lastBlockHash s) h) as [E|]; cbn [negb]; [|by destruct route].
  destruct (Hh E). by destruct route.
Qed.

(** The block is there, and the head stays or moves. *)
Lemma commit_stays s s1 s3 i data dp pd d blooms receipts :
  ok s → quiet s s1 → fits s i data dp → new_node i dp d → same_node dp pd →
  same_stores (commit_batch (entries i pd d blooms receipts) (m_hash i) data s1) s3 →
  m_best s3 = m_best s → m_lastBlockHash s3 = m_lastBlockHash s → m_lastBlockNumber s3 = m_lastBlockNumber s →
  ok s3 ∧ m_blocksDB s3 = <[m_hash i := data]> (m_blocksDB s) ∧ graft s s3 (m_hash i) (m_parentHash i) d.
Proof.
  intros HO Q F Hd Hs SS H1 H2 H3. rewrite <-(app_nil_r (entries _ _ _ _ _)) in SS.
  destruct (commit_fits s s1 i data dp pd d blooms receipts [] id [] HO Q F Hd Hs) as (E1&G&E2&B&D); [done|].
  set (s2 := commit_batch _ _ _ _) in *.
  destruct (same_stores_graft _ _ _ _ _ _ SS G B D) as (G'&B'&D'). pose proof SS as [S1 S2 S3 S4].
  destruct Hd as (N1&N2&N3). destruct (fi_number _ _ _ _ F).
  split_and!; [|by rewrite S1|done].
  apply (graft_ok genesisBlock s s3 data i d dp); auto; [apply F|apply F|apply F|by rewrite S1|].
  apply (numbered_same genesisBlock s s3 (m_hash i) (m_parentHash i) d); auto; [apply HO|apply HO|by rewrite S2|].
  rewrite S4. apply Q.
Qed.
Lemma insert_stays s s1 i data dp pd d blooms receipts route n dl :
  ok s → quiet s s1 → fits s i data dp → new_node i dp d → same_node dp pd →
  node s (m_lastBlockHash s) = Some dl → heavier s i (totalDifficulty d) dl false →
  inserted s (forget_last route (set_head false (m_hash i) n
    (commit_batch (entries i pd d blooms receipts) (m_hash i) data s1))) i data dp d ([], []).
Proof.
  intros HO Q F Hd Hs Hl Hh. set (s2 := commit_batch _ _ _ _). set (s3 := forget_last _ _).
  assert (m_best s3 = m_best s ∧ m_lastBlockHash s3 = m_lastBlockHash s ∧ m_lastBlockNumber s3 = m_lastBlockNumber s)
    as (H1&H2&H3).
  { rewrite <-(quiet_best s s1), <-(quiet_hash s s1), <-(quiet_number s s1) by done.
    unfold s3, forget_last. by destruct route. }
  destruct (commit_stays s s1 s3 i data dp pd d blooms receipts) as (?&?&?); auto; [apply head_stores|].
  split; [done..|]. by exists dl, false.
Qed.
Lemma insert_moves s s1 i data dp pd d blooms receipts w route dl a b :
  ok s → quiet s s1 → fits s i data dp → new_node i dp d → same_node dp pd →
  node s (m_lastBlockHash s) = Some dl → heavier s i (totalDifficulty d) dl true →
  meeting s (m_lastBlockHash s) (m_parentHash i) dl dp a b →
  writes_all w (number_of s (m_hash i) (number dp + 1)) (m_hash i :: line s b (m_parentHash i)) →
  (∀ n v, t_blockHashes (m_cache s1) !! n = Some v → n ≤ number dl - Z.of_nat a) →
  inserted s (forget_last route (set_head true (m_hash i) (m_number i)
    (commit_batch (entries i pd d blooms receipts ++ w) (m_hash i) data s1))) i data dp d
    (line s a (m_lastBlockHash s), rev (line s b (m_parentHash i)) ++ [m_hash i]).
Proof.
  intros HO Q F Hd Hs Hl Hh MT W Hc.
  destruct (commit_fits s s1 i data dp pd d blooms receipts w _ _ HO Q F Hd Hs W) as (E1&G&E2&B&D).
  set (s2 := commit_batch _ _ _ _) in *.
  destruct (same_stores_graft _ _ _ _ _ _ (head_stores true (m_hash i) (m_number i) route s2) G B D) as (G'&B'&D').
  pose proof (head_stores true (m_hash i) (m_number i) route s2) as [S1 S2 S3 S4].
  destruct Hd as (N1&N2&N3). destruct (fi_number _ _ _ _ F) as [Hn Hmax].
  destruct (tr_node _ _ (ok_tree _ _ HO) _ _ (fi_parent _ _ _ _ F)) as (_&Hr&_).
  destruct (head_moved (m_hash i) (m_number i) route s2) as (H1&H2&H3); [lia| |].
  { unfold s2. cbn. rewrite (quiet_hash s s1), (quiet_number s s1), (quiet_best s s1) by done. intros E.
    split; [|rewrite <-E; apply HO]. destruct (nu_head _ _ (ok_numbered _ _ HO)) as (dl'&Hl'&<-).
    rewrite E in Hl'. pose proof (gr_old _ _ _ _ _ G _ Hl') as (E'&_). congruence. }
  set (s3 := forget_last _ _) in *.
  split; [|by rewrite S1|done|by exists dl, true; split_and!; [| |done|done|exists a, b]].
  apply (graft_ok genesisBlock s s3 data i d dp); auto; [apply F|apply F|apply F|by rewrite S1|].
  apply (numbered_moved genesisBlock s s3 (m_hash i) (m_parentHash i) d dl dp a b);
    auto; [apply HO|apply HO|apply F|by rewrite N1|by rewrite H2|by rewrite S2|].
  intros n v Hv. rewrite S4 in Hv. split; [eapply lookup_weaken; [exact Hv|apply Q]|by apply (Hc n v)].
Qed.

(** What caches hold does not matter. *)
Lemma quiet_fits s s' i data dp : quiet s s' → fits s i data dp → fits s' i data dp.
Proof.
  intros Q []. split; rewrite ?(quiet_node s s'), ?(quiet_blocksDB s s') by done; done.
Qed.
Lemma quiet_line s s' n h : quiet s s' → line s' n h = line s n h.
Proof. intros Q. unfold line. apply map_ext. intros k. by apply quiet_up. Qed.
Lemma quiet_inserted s s1 s' i data dp d r :
  quiet s s1 → inserted s1 s' i data dp d r → inserted s s' i data dp d r.
Proof.
  intros Q [I1 I2 [G1 G2 G3 G4] (dl&best&Hl&(gl&Hg&Hb)&Hr)].
  rewrite (quiet_hash s s1), (quiet_number s s1) in * by done. rewrite (quiet_node s s1) in Hl, G3 by done. split.
  - done.
  - by rewrite I2, (quiet_blocksDB s s1).
  - split; [done|done|done|]. intros k Hk. rewrite <-(quiet_node s s1) by done. by apply G4.
  - exists dl, best. split; [done|]. split.
    + exists gl. split; [|done]. intros H1 H2.
      destruct (Hg H1 H2) as (x&y&Hx&?). exists x, y. split; [|done]. by apply (quiet_stored genesisBlock s s1).
    + destruct best; [|done]. destruct Hr as (?&?&a&b&[M1 M2 M3]&->). split_and!; [done|done|]. exists a, b.
      rewrite !(quiet_line s s1) by done. split; [|done]. split; [|done|].
      * by rewrite <-!(quiet_up s s1).
      * intros a' b' Ha Hb' E. apply M3; [done|done|]. by rewrite !(quiet_up s s1).
Qed.

(** From the choice of the head to the end *)
Definition finish (i : BlockHeader) (data : bytes) (batch : Batch) (best : bool) (last : Z) : M (list Z * list Z) :=
  '(route, common, batch) ← (if best then reroute i data last batch else mret ([], 0, batch));
  modify (commit_batch batch (m_hash i) data);;
  modify (set_head best (m_hash i) (m_number i));;
  modify (forget_last route);;
  mret (split_route common true route).
Lemma finish_wp s s1 i data dp pd d blooms receipts best dl :
  ok s → quiet s s1 → fits s i data dp → new_node i dp d → same_node dp pd →
  node s (m_lastBlockHash s) = Some dl → heavier s i (totalDifficulty d) dl best →
  wp (finish i data (entries i pd d blooms receipts) best (m_lastBlockHash s)) s1 (λ s' r,
    match r with Ok r => inserted s s' i data dp d r | Err _ => False end).
Proof.
  intros HO Q F Hd Hs Hl Hb. unfold finish. destruct best.
  2: { apply run_bind, run_ret, run_bind, modify_wp, run_bind, modify_wp, run_bind, modify_wp, run_ret.
       by apply (insert_stays s s1 i data dp pd d blooms receipts [] (m_number i) dl). }
  assert (ok s1) as HO1 by (by eapply quiet_ok).
  assert (fits s1 i data dp) as F1 by (by eapply quiet_fits).
  assert (node s1 (m_lastBlockHash s1) = Some dl) as Hl1 by (by rewrite (quiet_node s s1), (quiet_hash s s1)).
  assert (heavier s1 i (totalDifficulty d) dl true) as Hb1.
  { destruct Hb as (gl&Hg&Eb). exists gl. split; [|done]. intros H1 H2.
    destruct (Hg H1 H2) as (x&y&Hx&?). exists x, y. split; [|done].
    rewrite (quiet_hash s s1) by done. by apply (quiet_stored genesisBlock s s1). }
  assert (∀ d', node s1 (m_hash i) = Some d' → number d' = number dp + 1) as Hold.
  { intros d' Hd'. destruct (fits_old s1 i data dp d d' HO1 F1 Hd Hd') as (E&_).
    destruct Hd as (E'&_). destruct (fi_number _ _ _ _ F) as [Hn _]. congruence. }
  apply run_bind. rewrite <-(quiet_hash s s1) by done.
  eapply run_mono; [apply (reroute_wp i data _ s1 dl dp); [done|apply F1|done|apply F1|apply F1|done]|].
  intros s2 r (Q2&a&b&w&MT&->&W&Hc).
  destruct (common_apart genesisBlock s1 (m_hash i) _ _ _ _ a b (ok_tree _ _ HO1) Hl1 (fi_parent _ _ _ _ F1) MT Hold)
    as (Hca&Hcb&_).
  apply run_bind, modify_wp, run_bind, modify_wp, run_bind, modify_wp, run_ret.
  apply (quiet_inserted s s1); [done|].
  rewrite split_route_app; [by apply (insert_moves s1 s2 i data dp pd d blooms receipts w _ dl a b)|done|].
  apply not_elem_of_cons in Hcb as [? Hcb].
  intros [Hx%list_elem_of_In%in_rev%list_elem_of_In|Hx%list_elem_of_singleton]%elem_of_app; done.
Qed.

(** A failure leaves the databases and the head. *)
Lemma insertBlockAndExtras_wp i data receipts td s dp :
  ok s → fits s i data dp → td = u256 (totalDifficulty dp + m_difficulty i) →
  wp (insertBlockAndExtras p genesisBlock i data receipts td) s (λ s' r,
    match r with
    | Ok r => inserted s s' i data dp (mkDetails (m_number i) td (m_parentHash i) []) r
    | Err _ => quiet s s'
    end).
Proof.
  intros HO F ->. pose proof (fi_parent _ _ _ _ F) as Hp. destruct (fi_number _ _ _ _ F) as [Hn Hmax].
  destruct (tr_node _ _ (ok_tree _ _ HO) _ _ Hp) as (_&Hr&_).
  destruct (nu_head _ _ (ok_numbered _ _ HO)) as (dl&Hl&_).
  set (d := mkDetails _ _ _ _). assert (new_node i dp d) as Hd by done.
  unfold insertBlockAndExtras. apply run_bind, header_hash_wp; [apply F|].
  apply run_bind, (details_cached_wp _ _ dp); [apply HO|done|]. intros s1 d1 Q1 Hs1 Hc1.
  apply run_bind, modify_wp.
  destruct (add_child_wp (m_parentHash i) (m_hash i) false s1 dp d1) as [Q2 Hpd];
    [apply (quiet_details _ _ Q1), HO|by rewrite (quiet_node s s1)|done|done|].
  set (s2 := add_child _ _ _ _) in *. apply run_bind, get_wp. set (pd := cached_details _ _) in *.
  assert (quiet s s2) as Q by by etrans.
  apply run_bind. eapply run_mono; [apply receipt_blooms_wp|]. intros s3 [blooms|e] ->; [|done].
  cbv zeta. assert (u32 (m_number i) = m_number i) as Eu
    by (apply wrap_small; unfold in_word, c_invalidNumber in *; lia).
  replace (mkDetails (u32 (m_number i)) _ _ _) with d by (unfold d; by rewrite Eu). clear Eu.
  fold (entries i pd d blooms receipts).
  apply run_bind, get_wp. apply run_bind, details_wp; [apply (quiet_details _ _ Q), HO|].
  intros s3 dl' C3 Hdl. rewrite (quiet_node s s2), (quiet_hash s s2), Hl in Hdl by done. cbn in Hdl.
  assert (quiet s s3) as Q3 by (etrans; eauto). rewrite (quiet_hash s s2) by done.
  apply run_bind. eapply run_mono.
  { apply (is_heavier_wp i (totalDifficulty d) s3 s dl'); [apply (quiet_blocks _ _ Q3), HO|done]. }
  intros s4 [best|e] (Q4&Hbest); [|by etrans].
  destruct (Hbest best eq_refl) as (gl&Hg&Eb). destruct Hdl as (_&E&_). rewrite E in *.
  assert (quiet s s4) as Q' by by etrans.
  eapply run_mono; [apply (finish_wp s s4 i data dp pd d blooms receipts best dl); try done; by exists gl|].
  by intros s5 [r|].
Qed.
End Insert.
End BlockChainInsert.
