(* ===== verification/BlockChainSystem.v ===== *)
(** * The runs of the chain

    The operations of the chain as steps, in any order; what holds in every state
    that can be reached, what an import does there, and which block is the head. *)
From S2P Require Import Prelude CommonData RLP RLPCodec RLPFields TrieHash.
From S2P Require Import TransactionBase Receipt BlockHeader BlockHeaderCodec SealEngine EthashSeal BasicAuthority.
From S2P Require Import BlockQueue BlockChain BlockChainTree BlockChainVerify BlockChainInsert.

Module BlockChainSystem.
Import BlockHeader BlockChain BlockChainTree BlockChainVerify BlockChainInsert.

Section System.
Context {CR : Crypto} {EL : EthashLib} {AL : AuthorityLib} {EN : Enactor} {ENL : EnactorLaws}.
Context (p : SealEngine.ChainOperationParams) (genesisBlock : bytes) (authority : BasicAuthority.Authority).
Notation g := (m_genesisHash genesisBlock).
Notation ok := (ok genesisBlock).
Notation inserted := (inserted p genesisBlock).
Notation fits := (fits genesisBlock).
(** The genesis block *)
Record genesis_ok (ig : BlockHeader) : Prop := {
  gen_header : of_bytes genesisBlock BlockData 0 = Ok ig;
  gen_number : m_number ig = 0;
  gen_hash : g ≠ 0;
}.
Context (ig : BlockHeader) (GEN : genesis_ok ig).

(** ** Imports *)

(** A block that is offered: its header; its number can be told from the one
    that stands for no block, and no other block has its hash. *)
Record offered (s : Chain) (data : bytes) (i : BlockHeader) : Prop := {
  of_header : of_bytes data BlockData 0 = Ok i;
  of_hash : m_hash i ≠ 0 ∧ m_hash i ≠ g;
  of_number : m_number i < c_invalidNumber;
  of_unique data' : m_blocksDB s !! m_hash i = Some data' → data' = data;
}.

Lemma isKnown_wp h cur s :
  details_agree s →
  wp (isKnown genesisBlock h cur) s (λ s' r, quiet s s' ∧ ∃ b, r = Ok b ∧ (b = true → h = g ∨ ∃ d, node s h = Some d)).
Proof.
  intros Ha. unfold isKnown.
  assert (∀ b : bool, (b = true → h = g ∨ ∃ d, node s h = Some d) →
    wp (λ s, (s, Ok b)) s (λ s' r, quiet s s' ∧ ∃ b, r = Ok b ∧ (b = true → h = g ∨ ∃ d, node s h = Some d))) as Hret.
  { intros b Hb. split; [done|]. by exists b. }
  assert ((∃ d, node s h = Some d) →
    wp (d ← details h; last ← get m_lastBlockNumber; mret (number d <=? last)) s
      (λ s' r, quiet s s' ∧ ∃ b, r = Ok b ∧ (b = true → h = g ∨ ∃ d, node s h = Some d))) as Hcur.
  { intros Hd. apply run_bind, details_wp; [done|]. intros s' d' C _. apply run_bind, get_wp, run_ret.
    split; [by apply calm_quiet|]. eexists. split; [reflexivity|]. by right. }
  assert (t_details (m_cache s) !! h ≠ None ∨ t_details (m_extrasDB s) !! h ≠ None → ∃ d, node s h = Some d) as Hnode.
  { intros [Hc|Hd].
    - destruct (t_details (m_cache s) !! h) as [d1|] eqn:E; [|done]. destruct (Ha h d1 E) as (d&?&_). by exists d.
    - unfold node. destruct (t_details (m_extrasDB s) !! h) as [d|]; [by exists d|done]. }
  unfold wp at 1. destruct (Z.eqb_spec h g) as [E|_]; [by apply Hret; left|].
  destruct (_ && _); [by apply Hret|].
  destruct (bool_decide (t_details (m_cache s) !! h = None) && bool_decide (t_details (m_extrasDB s) !! h = None)) eqn:E;
    [by apply Hret|].
  apply andb_false_iff in E. rewrite !bool_decide_eq_false in E. apply Hnode in E.
  destruct cur; [by apply Hcur|]. apply Hret. by right.
Qed.
Lemma known_parent_wp i s :
  ok s → wp (known_parent genesisBlock i) s (λ s' r, quiet s s' ∧ ∀ pd, r = Ok pd →
    ∃ dp, node s (m_parentHash i) = Some dp ∧ same_node dp pd).
Proof.
  intros HO. unfold known_parent. apply run_bind.
  eapply run_mono; [apply isKnown_wp, HO|]. intros s1 r (Q&known&->&Hk).
  apply run_bind, throw_when_wp. destruct known; cbn [negb]; [|by split].
  assert (∃ dp, node s (m_parentHash i) = Some dp) as (dp&Hp).
  { destruct (Hk eq_refl) as [->|?]; [|done]. destruct (tr_genesis _ _ (ok_tree _ _ HO)) as (dg&?&_). by exists dg. }
  apply run_bind, details_wp; [apply (quiet_details _ _ Q), HO|]. intros s2 d C Hd.
  rewrite (quiet_node s s1), Hp in Hd by done. cbn in Hd. assert (quiet s s2) as Q2 by (etrans; eauto).
  apply run_bind, throw_when_wp. destruct (isNull d); [by split|]. apply run_ret. split; [done|].
  intros pd [= <-]. exists dp. split; [done|by symmetry].
Qed.
Lemma new_wp h (new : bool) s :
  ok s → wp (if new then checkBlockIsNew genesisBlock h else mret ()) s (λ s' _, quiet s s').
Proof.
  intros HO. destruct new; [|by apply run_ret]. unfold checkBlockIsNew. apply run_bind.
  eapply run_mono; [apply isKnown_wp, HO|]. intros s1 r (Q&known&->&_). apply throw_when_wp. by destruct known.
Qed.
Lemma timestamp_wp t i s : wp (checkBlockTimestamp p t i) s (λ s' _, s' = s).
Proof. unfold checkBlockTimestamp. apply throw_when_wp. by destruct (_ && _). Qed.

(** The header that is checked against the one of the parent in the tree *)
Lemma behind_number s i ph dp :
  ok s → behind genesisBlock s i ph → node s (m_parentHash i) = Some dp →
  m_number ph = number dp ∧ is_set ph = true.
Proof.
  intros HO (d&hb&Hd&He&Hph) Hp. destruct Hd as [[Eg ->]|[Hg Hd]].
  - destruct (of_bytes_extract _ _ _ _ _ (gen_header _ GEN) He Hph) as (->&_&_&?).
    destruct (tr_genesis _ _ (ok_tree _ _ HO)) as (dg&Hdg&H0). rewrite Eg, Hdg in Hp. injection Hp as <-.
    by rewrite (gen_number _ GEN).
  - destruct (ok_rooted _ _ HO _ _ Hp Hg) as (d'&i'&dq&[R1 R2 R3 R4 R5 R6 R7]). rewrite Hd in R1. injection R1 as <-.
    destruct (of_bytes_extract _ _ _ _ _ (good_header _ _ R2) He Hph) as (->&_&_&?). done.
Qed.
Lemma verify_in_order_wp data i dp s :
  ok s → offered s data i → node s (m_parentHash i) = Some dp →
  wp (verifyBlock p genesisBlock authority InOrderChecks data) s (λ s' r, quiet s s' ∧
    (is_ok r → m_number i = number dp + 1)).
Proof.
  intros HO F Hp. eapply run_mono; [apply verifyBlock_wp, HO|].
  intros s' r (C&Hr). split; [by apply calm_quiet|]. destruct r as [[i' txs]|]; [intros _|done].
  destruct (Hr i' txs eq_refl) as (Hi&Hpar&_). rewrite (of_header _ _ _ F) in Hi. injection Hi as <-.
  destruct Hpar as (ph&HB&_&Hf); [done|]. destruct (behind_number s i ph dp HO HB Hp) as [<- Hs].
  by apply Hf.
Qed.

(** What an import leaves: nothing new in the databases when it fails *)
Definition new_details (i : BlockHeader) (dp : BlockDetails) : BlockDetails :=
  mkDetails (m_number i) (u256 (totalDifficulty dp + m_difficulty i)) (m_parentHash i) [].
Definition imported (s s' : Chain) (data : bytes) (i : BlockHeader) (r : result ChainError (list Z * list Z)) : Prop :=
  match r with
  | Ok r => ∃ dp, fits s i data dp ∧ inserted s s' i data dp (new_details i dp) r
  | Err _ => quiet s s'
  end.
Lemma quiet_imported s s1 s' data i r : quiet s s1 → imported s1 s' data i r → imported s s' data i r.
Proof.
  intros Q. destruct r as [r|e]; cbn [imported]; [|intros; by etrans].
  intros (dp&[? ? Hp ? Hu]&I). exists dp. split; [|by eapply quiet_inserted]. split; try done.
  - by rewrite <-(quiet_node s s1).
  - intros d. rewrite <-(quiet_blocksDB s s1) by done. apply Hu.
Qed.
Lemma quiet_offered s s1 data i : quiet s s1 → offered s data i → offered s1 data i.
Proof. intros Q [? ? ? F4]. split; try done. intros d. rewrite (quiet_blocksDB s s1) by done. apply F4. Qed.
Lemma offered_fits s data i dp ts s0 s1 :
  offered s data i → node s (m_parentHash i) = Some dp → m_number i = number dp + 1 →
  block_items 1 data s0 = (s1, Ok ts) → fits s i data dp.
Proof.
  intros [F1 [F2 F3] F4 F5] Hp Hn Hi. split; try done. split; [done|done|].
  exists ts. intros s'. apply (block_items_any _ _ s0). by rewrite Hi.
Qed.
Lemma import_wp t i data new s ts s0 s0' :
  ok s → offered s data i → block_items 1 data s0 = (s0', Ok ts) →
  wp (import p genesisBlock authority t i data new) s (λ s' r, imported s s' data i r).
Proof.
  intros HO F Hi. unfold import. apply run_bind, header_hash_wp; [apply F|].
  apply run_bind. eapply run_mono; [by apply new_wp|]. intros s1 [[]|] Q1; [|done].
  apply run_bind. eapply run_mono; [apply known_parent_wp; by eapply quiet_ok|].
  intros s2 [pd|e] (Q2&Hpd); assert (quiet s s2) as Q by (by etrans); [|exact Q].
  destruct (Hpd pd eq_refl) as (dp&Hp&Hs). rewrite <-(quiet_node s1 s2) in Hp by done.
  apply run_bind. eapply run_mono; [apply timestamp_wp|]. intros s3 [[]|] ->; [|exact Q].
  assert (ok s2) as HO2 by by eapply quiet_ok.
  apply run_bind. eapply run_mono; [eapply verify_in_order_wp; [done|by eapply quiet_offered|done]|].
  intros s3 [v|] (Q3&Hn); assert (quiet s s3) as Q' by (by etrans); [|exact Q'].
  assert (fits s3 i data dp) as F3.
  { apply (quiet_fits genesisBlock s2 s3); [done|].
    apply (offered_fits s2 data i dp ts s0 s0'); [by eapply quiet_offered|done|by apply Hn|done]. }
  apply run_bind, get_wp. apply run_bind.
  destruct (enactOn (m_blocksDB s3) i data) as [[td rs]|[]] eqn:E; [|exact Q'|exact Q'].
  apply run_ret. cbv beta iota. apply enact_difficulty in E as ->.
  apply run_bind. unfold receipts_rlp. apply receipt_m_wp.
  destruct (match _ with Ok d => Ok d | _ => _ end) as [receipts|]; [|exact Q'].
  destruct Hs as (_&Etd&_). rewrite <-Etd.
  eapply run_mono; [apply (insertBlockAndExtras_wp p genesisBlock i data receipts _ s3 dp)|].
  - by eapply quiet_ok.
  - done.
  - done.
  - intros s4 r Hr. apply (quiet_imported s s3); [done|]. destruct r; [by exists dp|done].
Qed.
Lemma attempt_wp t data new s :
  ok s → (∀ i, of_bytes data BlockData 0 = Ok i → offered s data i) →
  wp (import_bytes p genesisBlock authority t data new) s (λ s' r,
    match r with
    | Ok _ => ∃ i, of_bytes data BlockData 0 = Ok i ∧ imported s s' data i r
    | Err _ => quiet s s'
    end).
Proof.
  intros HO F. unfold import_bytes. apply run_bind. eapply run_mono; [apply verifyBlock_wp, HO|].
  intros s1 [[i txs]|e] (C&Hr); [|by apply calm_quiet].
  destruct (Hr i txs eq_refl) as (Hi&_&Hitems). destruct (Hitems eq_refl) as (ts&s0&Hs0).
  assert (quiet s s1) as Q by auto.
  eapply run_mono; [apply (import_wp t i data new s1 ts s0 s0)|].
  - by eapply quiet_ok.
  - by apply (quiet_offered s s1), F.
  - done.
  - intros s2 r HI. apply (quiet_imported s s1) in HI; [|done]. destruct r; [by exists i|done].
Qed.

(** ** The other operations *)

(** [insert] writes the block and leaves the head. *)
Definition put_in (s s' : Chain) (data : bytes) (i : BlockHeader) : Prop :=
  ∃ dp, fits s i data dp ∧ ok s' ∧ m_blocksDB s' = <[m_hash i := data]> (m_blocksDB s) ∧
    graft s s' (m_hash i) (m_parentHash i) (new_details i dp) ∧
    m_lastBlockHash s' = m_lastBlockHash s ∧ m_lastBlockNumber s' = m_lastBlockNumber s.
Lemma quiet_put_in s s1 s' data i : quiet s s1 → put_in s1 s' data i → put_in s s' data i.
Proof.
  intros Q (dp&[? ? Hp ? Hu]&HO&Hb&[G1 G2 G3 G4]&Hh&Hn). exists dp. split_and!.
  - split; try done; [by rewrite <-(quiet_node s s1)|].
    intros d. rewrite <-(quiet_blocksDB s s1) by done. apply Hu.
  - done.
  - by rewrite Hb, (quiet_blocksDB s s1).
  - split; [done|done|by rewrite <-(quiet_node s s1)|]. intros k Hk. rewrite <-(quiet_node s s1) by done. by apply G4.
  - by rewrite Hh, (quiet_hash s s1).
  - by rewrite Hn, (quiet_number s s1).
Qed.
(** The end of [insert] *)
Definition insert_commit (pd : BlockDetails) (i : BlockHeader) (data : bytes) (blooms : list Z) (receipts : bytes)
    : M unit :=
  _ ← details (m_parentHash i);
  modify (add_child (m_parentHash i) (m_hash i) true);;
  cd ← get (cached_details (m_parentHash i));
  modify (commit_batch (entries i cd (mkDetails (u32 (number pd + 1)) (u256 (totalDifficulty pd + m_difficulty i))
    (m_parentHash i) []) blooms receipts) (m_hash i) data).
Lemma insert_commit_wp i data dp pd blooms receipts s :
  ok s → fits s i data dp → same_node dp pd →
  wp (insert_commit pd i data blooms receipts) s (λ s' r, r = Ok () ∧ put_in s s' data i).
Proof.
  intros HO F (En&Et&_). pose proof (fi_parent _ _ _ _ _ F) as Hp. destruct (fi_number _ _ _ _ _ F) as [Hn Hmax].
  destruct (tr_node _ _ (ok_tree _ _ HO) _ _ Hp) as (_&Hr&_).
  unfold insert_commit. apply run_bind, (details_cached_wp _ _ dp); [apply HO|done|]. intros s1 d1 Q1 Hs1 Hc1.
  apply run_bind, modify_wp.
  destruct (add_child_wp (m_parentHash i) (m_hash i) true s1 dp d1) as [Q2 Hpd];
    [apply (quiet_details _ _ Q1), HO|by rewrite (quiet_node s s1)|done|done|].
  set (s2 := add_child _ _ _ _) in *. clearbody s2. apply run_bind, get_wp, modify_wp. split; [done|].
  assert (quiet s s2) as Q by by etrans.
  assert (mkDetails (u32 (number pd + 1)) (u256 (totalDifficulty pd + m_difficulty i)) (m_parentHash i) [] =
    new_details i dp) as ->.
  { unfold new_details. rewrite <-En, <-Et, Hn. f_equal. apply wrap_small; unfold in_word, c_invalidNumber in *; lia. }
  set (s3 := commit_batch _ _ _ _).
  assert (m_best s3 = m_best s ∧ m_lastBlockHash s3 = m_lastBlockHash s ∧ m_lastBlockNumber s3 = m_lastBlockNumber s)
    as (H1&H2&H3).
  { unfold s3. cbn. by rewrite (quiet_best s s2), (quiet_hash s s2), (quiet_number s s2). }
  exists dp. destruct (commit_stays genesisBlock s s2 s3 i data dp (cached_details (m_parentHash i) s2) (new_details i dp)
    blooms receipts) as (?&?&?); [done..|by split_and!].
Qed.
Lemma insert_wp t i data receipts new s ts s0 s0' :
  ok s → offered s data i → block_items 1 data s0 = (s0', Ok ts) →
  wp (insert p genesisBlock authority t i data receipts new) s (λ s' r,
    match r with Ok _ => put_in s s' data i | Err _ => quiet s s' end).
Proof.
  intros HO F Hi. unfold insert. apply run_bind, header_hash_wp; [apply F|].
  apply run_bind. eapply run_mono; [by apply new_wp|]. intros s1 [[]|] Q1; [|done].
  assert (ok s1) as HO1 by by eapply quiet_ok.
  apply run_bind. eapply run_mono; [apply isKnown_wp, HO1|]. intros s2 ? (Q2&known&->&Hk).
  assert (quiet s s2) as Q by (by etrans). assert (ok s2) as HO2 by by eapply quiet_ok.
  apply run_bind, throw_when_wp. destruct known; cbn [negb]; [|exact Q].
  assert (∃ dp, node s2 (m_parentHash i) = Some dp) as (dp&Hp).
  { destruct (tr_genesis _ _ (ok_tree _ _ HO2)) as (dg&Hg&_).
    destruct (Hk eq_refl) as [->|[dp Hd]]; [by exists dg|exists dp]. by rewrite (quiet_node s1 s2). }
  apply run_bind, receipt_m_wp. destruct (Receipt.for_items receipts) as [items|]; [|exact Q].
  apply run_bind, throw_when_wp. destruct (negb _); [exact Q|].
  apply run_bind, details_wp; [apply HO2|]. intros s3 pd C3 Hs. rewrite Hp in Hs. cbn in Hs.
  assert (quiet s s3) as Q3 by (etrans; eauto). assert (ok s3) as HO3 by by eapply quiet_ok.
  apply run_bind, throw_when_wp. destruct (isNull pd); [exact Q3|].
  apply run_bind. eapply run_mono; [apply timestamp_wp|]. intros s4 [[]|] ->; [|exact Q3].
  rewrite <-(calm_node s2 s3) in Hp by done.
  apply run_bind. eapply run_mono; [eapply verify_in_order_wp; [done|by eapply quiet_offered|done]|].
  intros s4 [v|] (Q4&Hn); assert (quiet s s4) as Q' by (by etrans); [|exact Q'].
  assert (fits s4 i data dp) as F4.
  { apply (quiet_fits genesisBlock s3 s4); [done|].
    apply (offered_fits s3 data i dp ts s0 s0'); [by eapply quiet_offered|done|by apply Hn|done]. }
  apply run_bind. eapply run_mono; [apply receipt_blooms_wp|]. intros s5 [blooms|] ->; [|exact Q'].
  change (wp (insert_commit pd i data blooms receipts) s4 (λ s' r,
    match r with Ok _ => put_in s s' data i | Err _ => quiet s s' end)).
  eapply run_mono; [apply (insert_commit_wp i data dp); [by eapply quiet_ok|done|by symmetry]|].
  intros s5 r (->&HP). by apply (quiet_put_in s s4).
Qed.

(** Another head, or other caches, on the same databases *)
Record same_db (s s' : Chain) : Prop := {
  sd_blocks : m_blocksDB s' = m_blocksDB s;
  sd_extras : m_extrasDB s' = m_extrasDB s;
}.
Lemma same_db_node s s' h : same_db s s' → node s' h = node s h.
Proof. intros [_ E]. unfold node. by rewrite E. Qed.
Lemma same_db_up s s' n h : same_db s s' → up s' n h = up s n h.
Proof.
  intros E. revert h. induction n as [|n IH]; intros h; [done|]. cbn [up]. rewrite IH.
  unfold par. by rewrite (same_db_node s s').
Qed.
Lemma same_db_ok s s' :
  ok s → same_db s s' → blocks_agree s' → details_agree s' → numbered genesisBlock s' → ok s'.
Proof.
  intros [[T1 T2 T3] B R N] E B' D' N'. split; [|done| |done].
  - split; [done|by rewrite (same_db_node s s')|]. intros h d. rewrite (same_db_node s s') by done. intros Hd.
    destruct (T3 h d Hd) as (?&?&[?|(dp&?&?)]); split_and!; auto; try lia. right. exists dp.
    by rewrite (same_db_node s s').
  - intros h d. rewrite (same_db_node s s') by done. intros Hd Hg. destruct (R h d Hd Hg) as (data&i&dp&[]).
    exists data, i, dp. split; rewrite ?(same_db_node s s'), ?(sd_blocks s s') by done; done.
Qed.

(** The ancestor of the head with a number *)
Definition canonical (s : Chain) (n : Z) : Z := up s (Z.to_nat (m_lastBlockNumber s - n)) (m_lastBlockHash s).
Lemma canonical_node s n :
  ok s → 0 ≤ n ≤ m_lastBlockNumber s → ∃ d, node s (canonical s n) = Some d ∧ number d = n.
Proof.
  intros HO Hn. destruct (nu_head _ _ (ok_numbered _ _ HO)) as (dl&Hl&El).
  destruct (up_node g s _ dl (Z.to_nat (m_lastBlockNumber s - n)) (ok_tree _ _ HO) Hl ltac:(lia)) as (d&Hd&Ed).
  exists d. split; [exact Hd|lia].
Qed.
Lemma numberHash_wp n s :
  ok s → 0 ≤ n ≤ m_lastBlockNumber s →
  wp (numberHash genesisBlock n) s (λ s' r, r = Ok (canonical s n) ∧ ok s' ∧ same_db s s' ∧
    m_lastBlockHash s' = m_lastBlockHash s ∧ m_lastBlockNumber s' = m_lastBlockNumber s ∧
    (∀ k, t_blockHashes (m_cache s') !! k = t_blockHashes (m_cache s) !! k ∨ k = n)).
Proof.
  intros HO Hn. destruct (canonical_node s n HO Hn) as (d&Hd&Ed). unfold numberHash.
  destruct (Z.eqb_spec n 0) as [->|Hn0].
  { apply run_ret. rewrite (number_0 g s (canonical s 0) d (ok_tree _ _ HO) Hd Ed). split_and!; auto. done. }
  pose proof (nu_hashes _ _ (ok_numbered _ _ HO) n ltac:(lia)) as Hh. fold (canonical s n) in Hh.
  unfold wp, queryExtras. cbn [rd blockHashes_t].
  destruct (t_blockHashes (m_cache s) !! n) as [v|] eqn:Hc.
  { apply (nu_cached _ _ (ok_numbered _ _ HO)) in Hc as [_ Hv]. rewrite Hh in Hv. injection Hv as <-. split_and!; auto. done. }
  rewrite Hh. cbn [extra blockHashes_t fst snd]. set (s' := with_cache _ _ _).
  split_and!; try done.
  2: { intros k. destruct (decide (k = n)) as [->|Hne]; [by right|left]. cbn. unfold put. by rewrite lookup_partial_alter_ne. }
  apply (same_db_ok s); [done|done|apply HO|apply HO|]. destruct (ok_numbered _ _ HO) as [N1 N2 N3 N4].
  split; [done|done| |].
  - intros k Hk. rewrite (same_db_up s s') by done. by apply N3.
  - intros k v Hv. cbn in Hv. unfold put in Hv. destruct (decide (k = n)) as [->|Hne].
    + rewrite lookup_partial_alter_eq in Hv. injection Hv as <-. split; [cbn; lia|exact Hh].
    + rewrite lookup_partial_alter_ne in Hv by done. by apply N4.
Qed.

(** [rewind] *)
Lemma rewind_wp n s :
  ok s → 0 ≤ n → n < m_lastBlockNumber s →
  wp (rewind genesisBlock n) s (λ s' r, r = Ok () ∧ ok s' ∧ same_db s s' ∧
    m_lastBlockHash s' = canonical s n ∧ m_lastBlockNumber s' = n).
Proof.
  intros HO Hn Hlt. destruct (canonical_node s n HO ltac:(lia)) as (d&Hd&Ed).
  destruct (nu_head _ _ (ok_numbered _ _ HO)) as (dl&Hl&El).
  unfold rewind. apply run_bind, get_wp. cbv iota. rewrite (proj2 (Z.leb_gt _ _)) by done.
  apply run_bind. eapply run_mono; [apply clearCaches_wp|]. intros s1 r (Q&->&Hcl).
  assert (ok s1) as HO1 by by eapply quiet_ok.
  apply run_bind. eapply run_mono; [apply numberHash_wp; [done|rewrite (quiet_number s s1) by done; lia]|].
  intros s2 r (->&HO2&SD&Eh&En&Hc2). cbv iota.
  assert (canonical s1 n = canonical s n) as ->.
  { unfold canonical. by rewrite (quiet_up s s1), (quiet_hash s s1), (quiet_number s s1). }
  apply modify_wp. cbn [compose]. unfold compose. set (s3 := with_lastHashes _ _).
  assert (same_db s s3) as SD3.
  { destruct SD as [E1 E2]. split; cbn; [rewrite E1; apply Q|rewrite E2; apply Q]. }
  split_and!; [done| |done|done|done].
  apply (same_db_ok s); [done|done|apply HO2|apply HO2|]. split.
  - exists d. by rewrite (same_db_node s s3).
  - done.
  - intros k Hk. cbn in Hk. rewrite (same_db_up s s3), (sd_extras s s3) by done. cbn.
    rewrite (nu_hashes _ _ (ok_numbered _ _ HO)) by lia. f_equal. unfold canonical. rewrite <-up_add. f_equal. lia.
  - intros k v Hv. change (t_blockHashes (m_cache s2) !! k = Some v) in Hv. rewrite (sd_extras s s3) by done.
    apply (nu_cached _ _ (ok_numbered _ _ HO2)) in Hv as Hv'. destruct Hv' as [Hk2 Hv'].
    rewrite (sd_extras s1 s2), (quiet_extrasDB s s1) in Hv' by done. split; [|done]. cbn.
    destruct (decide (k ≤ n)) as [|Hgt]; [done|exfalso].
    destruct (Hc2 k) as [E| ->]; [|lia]. rewrite E, Hcl in Hv; [done|].
    rewrite En, (quiet_number s s1) in Hk2 by done. lia.
Qed.

(** [garbageCollect] *)
Lemma evict_quiet id s : quiet s (evict s id).
Proof.
  destruct id as [h e]. unfold evict. set (s1 := with_usage _ _ s). assert (quiet s s1) as Q by done.
  etrans; [exact Q|]. clearbody s1. clear Q.
  repeat match goal with |- context [e =? ?x] => destruct (e =? x) end; try done.
  - split; try done. intros Ha k d. cbn. rewrite lookup_delete_Some. intros [_ Hd]. by apply Ha.
  - split; try done. intros Ha k d. cbn. unfold put. destruct (decide (k = h)) as [->|Hne].
    + by rewrite lookup_partial_alter_eq.
    + rewrite lookup_partial_alter_ne by done. apply Ha.
Qed.
Lemma garbageCollect_quiet s : quiet s (garbageCollect s).
Proof.
  unfold garbageCollect. destruct (rev (m_cacheUsage s)) as [|u us]; [done|].
  assert (∀ l s, quiet s (fold_left evict l s)) as Hl.
  { induction l as [|x l IH]; intros s0; cbn [fold_left]; [done|]. etrans; [apply evict_quiet|apply IH]. }
  etrans; [apply (Hl (elements u))|]. done.
Qed.

(** [close] and [open] of the same databases *)
Definition reopen (s : Chain) : Chain :=
  let s := close genesisBlock s in
  (open_db genesisBlock (m_blocksDB s) (m_extrasDB s) (m_best s) (m_chainStart s) s).1.
Lemma reopen_ok s :
  ok s → ok (reopen s) ∧ same_db s (reopen s) ∧
    m_lastBlockHash (reopen s) = m_lastBlockHash s ∧ m_lastBlockNumber (reopen s) = m_lastBlockNumber s.
Proof.
  intros HO. destruct (tr_genesis _ _ (ok_tree _ _ HO)) as (dg&Hg&Hg0).
  destruct (nu_head _ _ (ok_numbered _ _ HO)) as (dl&Hl&El).
  pose proof (nu_best _ _ (ok_numbered _ _ HO)) as Hb.
  set (s0 := mkChain (m_blocksDB s) (m_extrasDB s) (m_best s) (m_chainStart s) ∅ no_tables
    (replicate c_collectionQueueSize ∅) ∅ g 0 []).
  assert (details_agree s0) as Ha by done.
  enough (wp (open_db genesisBlock (m_blocksDB s) (m_extrasDB s) (m_best s) (m_chainStart s)) (close genesisBlock s)
    (λ s' r, calm (with_last (m_lastBlockHash s) (m_lastBlockNumber s) s0) s')) as C.
  { change (calm (with_last (m_lastBlockHash s) (m_lastBlockNumber s) s0) (reopen s)) in C.
    assert (same_db s (reopen s)) as SD by (split; apply C).
    split_and!; [|done|apply C|apply C].
    apply (same_db_ok s); [done|done|by eapply calm_blocks_agree|by eapply calm_agree|]. split.
    - exists dl. rewrite (same_db_node s) by done. by rewrite (calm_hash _ _ C), (calm_number _ _ C).
    - rewrite (calm_best _ _ C), (calm_hash _ _ C). done.
    - intros n. rewrite (same_db_up s), (sd_extras s) by done. rewrite (calm_hash _ _ C), (calm_number _ _ C).
      apply (nu_hashes _ _ (ok_numbered _ _ HO)).
    - intros n v Hv. by rewrite (calm_blockHashes _ _ C) in Hv. }
  unfold open_db. apply run_bind, modify_wp. fold s0.
  apply run_bind, details_wp; [done|]. intros s1 d1 C1 (E1&_). change (node s0 g) with (node s g) in E1.
  rewrite Hg in E1. cbn in E1. unfold isNull. rewrite E1, Hg0. cbv beta iota.
  apply run_bind, run_ret. cbv zeta. rewrite Hb. apply run_bind. unfold blockNumber.
  apply run_bind, details_wp; [by eapply calm_agree|]. intros s2 d2 C2 (E2&_).
  rewrite (calm_node s0 s1) in E2 by done. change (node s0 (m_lastBlockHash s)) with (node s (m_lastBlockHash s)) in E2.
  rewrite Hl in E2. cbn in E2. apply run_ret, modify_wp. rewrite E2, El.
  assert (calm s0 s2) as [] by by etrans. by split.
Qed.

(** A new database *)
Definition no_chain : Chain := mkChain ∅ no_tables None None ∅ no_tables [] ∅ 0 0 [].
Definition start : Chain := (open_db genesisBlock ∅ no_tables None None no_chain).1.
Lemma start_state :
  start = let t := wr details_t g (Some (mkDetails 0 (m_difficulty ig) 0 [])) no_tables in
    mkChain ∅ t None None ∅ t (replicate c_collectionQueueSize ∅) ∅ g 0 [].
Proof.
  set (s0 := mkChain ∅ no_tables None None ∅ no_tables (replicate c_collectionQueueSize ∅) ∅ g 0 []).
  set (d := mkDetails 0 (m_difficulty ig) 0 []). cbv zeta. match goal with |- _ = ?x => set (s1 := x) end.
  enough (wp (open_db genesisBlock ∅ no_tables None None) no_chain (λ s' _, s' = s1)) as E by exact E.
  assert (details g s0 = (s0, Ok NullBlockDetails)) as E0.
  { unfold details, queryExtras. cbn [rd details_t t_details m_cache m_extrasDB no_tables s0]. by rewrite !lookup_empty. }
  assert (details g s1 = (s1, Ok d)) as E1.
  { unfold details, queryExtras. cbn [rd details_t m_cache s1]. cbn [wr details_t t_details]. unfold put.
    by rewrite lookup_partial_alter_eq. }
  unfold open_db. apply run_bind, modify_wp. fold s0. apply run_bind. unfold wp at 1. rewrite E0. cbn [fst snd].
  apply run_bind. change (isNull NullBlockDetails) with true. cbv iota.
  apply run_bind, header_m_wp. rewrite (gen_header _ GEN). apply modify_wp.
  apply run_bind. change (default g None) with g. match goal with |- wp _ ?x _ => change x with s1 end.
  unfold blockNumber. apply run_bind. unfold wp at 1. rewrite E1. cbn [fst snd]. apply run_ret, modify_wp. done.
Qed.
Lemma chain_start_ok : ok start.
Proof.
  rewrite start_state. set (d := mkDetails 0 _ _ _). set (s := mkChain _ _ _ _ _ _ _ _ _ _ _).
  assert (∀ h d', node s h = Some d' → h = g ∧ d' = d) as Hnode.
  { intros h d' Hd. unfold node in Hd. cbn in Hd. unfold put in Hd. destruct (decide (h = g)) as [->|Hne].
    - rewrite lookup_partial_alter_eq in Hd. by injection Hd as <-.
    - by rewrite lookup_partial_alter_ne in Hd. }
  assert (node s g = Some d) as Hg by (unfold node; cbn; unfold put; by rewrite lookup_partial_alter_eq).
  split.
  - split; [intros h d' Hd; by exists d'|by exists d|]. intros h d' [-> ->]%Hnode.
    split_and!; [apply GEN|done|done|by left].
  - intros h x Hx. cbn in Hx. by rewrite lookup_empty in Hx.
  - intros h d' [-> _]%Hnode Hne. done.
  - split; [by exists d|done|cbn; lia|]. intros n v Hv. cbn in Hv. by rewrite lookup_empty in Hv.
Qed.

(** ** Steps *)

(** Questions that leave no trace but in the caches *)
Inductive Query :=
| ask_details (h : Z) | ask_block (h : Z) | ask_info (h : Z) | ask_blooms (id : Z) | ask_logBlooms (h : Z)
| ask_receipts (h : Z) | ask_transaction (h : Z) | ask_known (h : Z) (cur : bool)
| ask_route (from to : Z) (common pre post : bool) | ask_verify (ir : Z) (b : bytes).
Definition ask (q : Query) (s : Chain) : Chain :=
  match q with
  | ask_details h => (details h s).1
  | ask_block h => (block genesisBlock h s).1
  | ask_info h => (info genesisBlock h s).1
  | ask_blooms id => (blocksBlooms id s).1
  | ask_logBlooms h => (logBlooms h s).1
  | ask_receipts h => (queryExtras receipts_t h s).1
  | ask_transaction h => (transactionLocation h s).1
  | ask_known h cur => (isKnown genesisBlock h cur s).1
  | ask_route from to common pre post => (treeRoute from to common pre post s).1
  | ask_verify ir b => (verifyBlock p genesisBlock authority ir b s).1
  end.
Lemma treeRoute_quiet s from to common pre post : ok s → quiet s (treeRoute from to common pre post s).1.
Proof.
  intros HO. pose proof (ok_tree _ _ HO) as T.
  enough (wp (treeRoute from to common pre post) s (λ s' _, quiet s s')) as Hw by exact Hw.
  destruct (node s from) as [df|] eqn:Hf, (node s to) as [dt|] eqn:Ht.
  { destruct (treeRoute_spec g s from to common pre post df dt T Hf Ht) as (s'&i&j&ret&index&E&C&_).
    unfold wp. rewrite E. by apply calm_quiet. }
  all: unfold treeRoute; destruct (_ || _); [by apply run_ret|]; apply run_bind, details_wp; [apply T|];
    intros s1 d1 C1 (E1&_); apply run_bind, details_wp; [by eapply calm_agree, T|];
    intros s2 d2 C2 (E2&_); rewrite (calm_node s s1) in E2 by done; rewrite ?Hf, ?Ht in *; cbn in E1, E2;
    unfold isNull; rewrite E1, E2; change (c_invalidNumber =? c_invalidNumber) with true; rewrite ?orb_true_r;
    apply run_ret, calm_quiet; by etrans.
Qed.
Lemma ask_quiet q s : ok s → quiet s (ask q s).
Proof.
  intros HO. pose proof (ok_blocks _ _ HO) as HB. pose proof (tr_agree _ _ (ok_tree _ _ HO)) as HD.
  destruct q as [h|h|h|id|h|h|h|h cur|from to c pre post|ir b]; cbn [ask].
  - enough (wp (details h) s (λ s' _, quiet s s')) as Hw by exact Hw. apply details_wp; auto.
  - enough (wp (block genesisBlock h) s (λ s' _, quiet s s')) as Hw by exact Hw. apply block_wp; auto.
  - apply (info_wp genesisBlock h s HB).
  - apply (blocksBlooms_wp id s).
  - by apply (queryExtras_quiet logBlooms_t h s).
  - by apply (queryExtras_quiet receipts_t h s).
  - enough (wp (transactionLocation h) s (λ s' _, quiet s s')) as Hw by exact Hw.
    unfold transactionLocation. apply run_bind. eapply run_mono; [by apply queryExtras_quiet|].
    intros s' r (Q&v&->). by apply run_ret.
  - apply (isKnown_wp h cur s HD).
  - by apply treeRoute_quiet.
  - apply calm_quiet. apply (verifyBlock_wp p genesisBlock authority ir b s HB).
Qed.

(** A block as the queue hands it out: its transactions can be read. *)
Definition checked (data : bytes) : Prop := ∃ ts s, block_items 1 data s = (s, Ok ts).
(** The operations of a chain that only grows *)
Inductive forward : Chain → Chain → Prop :=
| step_import t data new s :
    (∀ i, of_bytes data BlockData 0 = Ok i → offered s data i) →
    forward s (import_bytes p genesisBlock authority t data new s).1
| step_import_checked t data i new s :
    offered s data i → checked data → forward s (import p genesisBlock authority t i data new s).1
| step_hash n s : 0 ≤ n ≤ m_lastBlockNumber s → forward s (numberHash genesisBlock n s).1
| step_ask q s : forward s (ask q s)
| step_collect s : forward s (garbageCollect s)
| step_reopen s : forward s (reopen s).
(** And those that put blocks in without a choice of the head, or take the head
    back *)
Inductive step : Chain → Chain → Prop :=
| step_forward s s' : forward s s' → step s s'
| step_insert t data i receipts new s :
    offered s data i → checked data → step s (insert p genesisBlock authority t i data receipts new s).1
| step_rewind n s : 0 ≤ n → step s (rewind genesisBlock n s).1.
Definition reachable : Chain → Prop := rtc step start.
Definition grown_only : Chain → Prop := rtc forward start.

Lemma forward_cases s s' :
  ok s → forward s s' →
  quiet s s' ∨
  (ok s' ∧ same_db s s' ∧ m_lastBlockHash s' = m_lastBlockHash s ∧ m_lastBlockNumber s' = m_lastBlockNumber s) ∨
  ∃ data i r, imported s s' data i (Ok r).
Proof.
  intros HO HF. revert HO.
  destruct HF as [t data new s1 F|t data i new s1 F (ts&s0&Hi)|n s1 Hn|q s1|s1|s1]; intros HO.
  - pose proof (attempt_wp t data new s1 HO F) as Hw. unfold wp in Hw.
    destruct (import_bytes _ _ _ _ _ _ _) as [s' [r|e]]; [|by left]. destruct Hw as (i&_&HI). right; right. by exists data, i, r.
  - pose proof (import_wp t i data new s1 ts s0 s0 HO F Hi) as Hw. unfold wp in Hw.
    destruct (import _ _ _ _ _ _ _ _) as [s' [r|e]]; [|by left]. right; right. by exists data, i, r.
  - destruct (numberHash_wp n s1 HO Hn) as (_&?&?&?&?&_). by right; left.
  - left. by apply ask_quiet.
  - left. apply garbageCollect_quiet.
  - right; left. by apply reopen_ok.
Qed.
Lemma imported_ok s s' data i r : imported s s' data i (Ok r) → ok s'.
Proof. intros (dp&_&I). apply I. Qed.
Lemma forward_ok s s' : ok s → forward s s' → ok s'.
Proof.
  intros HO F. destruct (forward_cases s s' HO F) as [Q|[(?&_)|(data&i&r&HI)]]; [by eapply quiet_ok|done|].
  by eapply imported_ok.
Qed.
Lemma step_ok s s' : ok s → step s s' → ok s'.
Proof.
  intros HO HS. revert HO. destruct HS as [s1 s2 F|t data i receipts new s1 F (ts&s0&Hi)|n s1 Hn]; intros HO.
  - by eapply forward_ok.
  - pose proof (insert_wp t i data receipts new s1 ts s0 s0 HO F Hi) as Hw. unfold wp in Hw.
    destruct (insert _ _ _ _ _ _ _ _ _) as [s' [r|e]]; cbn [fst snd] in *.
    + by destruct Hw as (dp&_&?&_).
    + by apply (quiet_ok genesisBlock s1).
  - destruct (decide (n < m_lastBlockNumber s1)) as [Hlt|Hge].
    + destruct (rewind_wp n s1 HO Hn Hlt) as (_&?&_). done.
    + unfold rewind, mbind, M_bind, get. rewrite (proj2 (Z.leb_le _ _)) by lia. done.
Qed.
Lemma reachable_is_ok s : reachable s → ok s.
Proof. intros H. eapply (rtc_ind_r ok); [exact chain_start_ok|intros; by eapply step_ok|exact H]. Qed.

(** ** What holds in every state *)

(** Every number up to that of the head has its block: the genesis block first,
    then blocks that can be read, each with that number and the hash of the
    block before it, and the head last. *)
Record chained (s : Chain) (at_ : Z → Z) : Prop := {
  ch_genesis : at_ 0 = g;
  ch_head : at_ (m_lastBlockNumber s) = m_lastBlockHash s;
  ch_number n : 0 ≤ n ≤ m_lastBlockNumber s →
    ∃ s', numberHash genesisBlock n s = (s', Ok (at_ n));
  ch_block n : 1 ≤ n ≤ m_lastBlockNumber s →
    ∃ s' data i, block genesisBlock (at_ n) s = (s', Ok data) ∧ of_bytes data BlockData 0 = Ok i ∧
      m_hash i = at_ n ∧ m_number i = n ∧ m_parentHash i = at_ (n - 1);
  ch_difficulty n : 1 ≤ n ≤ m_lastBlockNumber s →
    ∃ s1 s2 s3 d dp data i, details (at_ n) s = (s1, Ok d) ∧ details (at_ (n - 1)) s = (s2, Ok dp) ∧
      block genesisBlock (at_ n) s = (s3, Ok data) ∧ of_bytes data BlockData 0 = Ok i ∧
      totalDifficulty d = u256 (totalDifficulty dp + m_difficulty i);
}.
Lemma details_runs s h d : ok s → node s h = Some d → ∃ s' d', details h s = (s', Ok d') ∧ same_node d d'.
Proof.
  intros HO Hd. enough (wp (details h) s (λ s' r, ∃ d', r = Ok d' ∧ same_node d d')) as (d'&E&Hs).
  { exists (details h s).1, d'. rewrite <-E. by destruct (details h s). }
  apply (details_cached_wp _ _ d); [apply HO|done|]. intros. eauto.
Qed.
Lemma block_runs s h d data i dp :
  ok s → h ≠ g → rooted s h d data i dp → ∃ s', block genesisBlock h s = (s', Ok data).
Proof.
  intros HO Hg R. enough (wp (block genesisBlock h) s (λ s' r, r = Ok data)) as E.
  { exists (block genesisBlock h s).1. rewrite <-E. by destruct (block genesisBlock h s). }
  apply (block_found genesisBlock _ _ data); [apply HO|right; split; [done|apply R]|done].
Qed.
Lemma canonical_parent s n d :
  1 ≤ n ≤ m_lastBlockNumber s → node s (canonical s n) = Some d → parent d = canonical s (n - 1).
Proof.
  intros Hn Hd. unfold canonical in *.
  replace (Z.to_nat (m_lastBlockNumber s - (n - 1))) with (S (Z.to_nat (m_lastBlockNumber s - n))) by lia.
  rewrite up_S. unfold par. by rewrite Hd.
Qed.


(** ** The head *)

Lemma inserted_heaviest s s' data i dp r :
  ok s → fits s i data dp → inserted s s' i data dp (new_details i dp) r →
  (∀ h d dl, node s h = Some d → node s (m_lastBlockHash s) = Some dl → totalDifficulty d ≤ totalDifficulty dl) →
  ∀ h d dl, node s' h = Some d → node s' (m_lastBlockHash s') = Some dl → totalDifficulty d ≤ totalDifficulty dl.
Proof.
  intros HO F [IO IB G (dl&best&Hl&(gl&_&Hb)&Hr)] Hmax h d dl' Hd Hl'.
  set (dn := new_details i dp) in *.
  assert (totalDifficulty dl ≤ totalDifficulty dl' ∧ totalDifficulty dn ≤ totalDifficulty dl') as [H1 H2].
  { destruct best.
    - destruct Hr as (Eh&_). rewrite Eh, (gr_node _ _ _ _ _ G) in Hl'. injection Hl' as <-. split; [|done].
      symmetry in Hb. apply orb_true_iff in Hb as [?%Z.ltb_lt|[[_ ?%Z.eqb_eq]%andb_true_iff _]%andb_true_iff]; lia.
    - destruct Hr as (Eh&_). destruct (graft_node _ _ _ _ _ _ _ G Hl) as (dl2&Hl2&_&E&_).
      rewrite Eh, Hl2 in Hl'. injection Hl' as <-. rewrite <-E. split; [done|].
      symmetry in Hb. apply orb_false_iff in Hb as [?%Z.ltb_ge _]. done. }
  destruct (decide (h = m_hash i)) as [->|Hne].
  - rewrite (gr_node _ _ _ _ _ G) in Hd. injection Hd as <-. done.
  - pose proof (gr_rest _ _ _ _ _ G h Hne) as HF. rewrite Hd in HF.
    inversion HF as [d0 ? (_&Et&_) Ek|]; subst. rewrite <-Et. etrans; [by eapply Hmax|done].
Qed.

(** C6. As long as blocks are only imported, by whatever ways and with whatever
    failures, no block that is known has a greater total difficulty than the
    head. *)
Theorem head_heaviest s h d dl :
  grown_only s → node s h = Some d → node s (m_lastBlockHash s) = Some dl → totalDifficulty d ≤ totalDifficulty dl.
Proof.
  intros H. enough (ok s ∧ ∀ h d dl, node s h = Some d → node s (m_lastBlockHash s) = Some dl →
    totalDifficulty d ≤ totalDifficulty dl) as [_ Hm] by (intros; by eapply Hm).
  revert s H. apply (rtc_ind_r (λ s, ok s ∧ ∀ h d dl, node s h = Some d → node s (m_lastBlockHash s) = Some dl →
    totalDifficulty d ≤ totalDifficulty dl)).
  - split; [exact chain_start_ok|]. rewrite start_state. intros h' d' dl'. unfold node. cbn. unfold put.
    rewrite lookup_partial_alter_eq. intros Hd [= <-]. destruct (decide (h' = g)) as [->|Hne].
    + rewrite lookup_partial_alter_eq in Hd. by injection Hd as <-.
    + by rewrite lookup_partial_alter_ne in Hd.
  - intros s1 s2 _ HF [HO Hm]. split; [by eapply forward_ok|].
    destruct (forward_cases s1 s2 HO HF) as [Q|[(_&SD&Eh&_)|(data&i&r&dp&F&I)]].
    + intros h' d' dl'. rewrite !(quiet_node s1 s2), (quiet_hash s1 s2) by done. apply Hm.
    + intros h' d' dl'. rewrite !(same_db_node s1 s2), Eh by done. apply Hm.
    + by eapply inserted_heaviest.
Qed.

(** The chains before and after: what leaves the chain and what joins it *)
Record moved (s s' : Chain) (dead fresh : list Z) (c : Z) : Prop := {
  mv_common : 0 ≤ c ≤ m_lastBlockNumber s ∧ c ≤ m_lastBlockNumber s';
  mv_below n : 0 ≤ n ≤ c → canonical s' n = canonical s n;
  mv_above n : c < n → n ≤ m_lastBlockNumber s → n < m_lastBlockNumber s' → canonical s' n ≠ canonical s n;
  mv_dead : dead = map (λ k, canonical s (m_lastBlockNumber s - k)) (seqZ 0 (m_lastBlockNumber s - c));
  mv_fresh : fresh = map (canonical s') (seqZ (c + 1) (m_lastBlockNumber s' - c));
}.
Lemma line_down s a n : n = Z.of_nat a →
  line s a (m_lastBlockHash s) = map (λ k, canonical s (m_lastBlockNumber s - k)) (seqZ 0 n).
Proof.
  intros ->. unfold line, seqZ, canonical. rewrite Nat2Z.id. unfold fmap. rewrite map_map.
  apply map_ext. intros k. f_equal. unfold compose. lia.
Qed.
Lemma line_up s ph m b :
  rev (line s b ph) = map (λ n, up s (Z.to_nat (m - n)) ph) (seqZ (m - Z.of_nat b + 1) (Z.of_nat b)).
Proof.
  induction b as [|b IH]; [done|].
  replace (S b) with (b + 1)%nat by lia. rewrite line_app, rev_app_distr, IH.
  rewrite (seqZ_cons _ (Z.of_nat (b + 1))) by lia. cbn [line seq map rev app up].
  f_equal; [f_equal; lia|]. f_equal. f_equal; lia.
Qed.
Lemma inserted_moved s s' data i dp d r :
  ok s → fits s i data dp → inserted s s' i data dp d r → ∃ c, moved s s' r.1 r.2 c.
Proof.
  intros HO F [IO IB G (dl&best&Hl&_&Hr)]. destruct (nu_head _ _ (ok_numbered _ _ HO)) as (dl'&Hl'&El).
  rewrite Hl in Hl'. injection Hl' as <-. pose proof (ok_tree _ _ HO) as T. pose proof (fi_parent _ _ _ _ _ F) as Hp.
  destruct (fi_number _ _ _ _ _ F) as [Hn _].
  destruct (tr_node _ _ T _ _ Hl) as (_&Hlr&_). destruct (tr_node _ _ T _ _ Hp) as (_&Hpr&_).
  destruct best.
  - destruct Hr as (Eh&En&a&b&[M1 [M2 M2'] M3]&->). exists (number dl - Z.of_nat a). cbn [fst snd].
    assert (∀ n, 0 ≤ n ≤ number dp → canonical s' n = up s (Z.to_nat (number dp - n)) (m_parentHash i)) as Hc.
    { intros n Hr. unfold canonical. rewrite Eh, En, Hn.
      replace (Z.to_nat (number dp + 1 - n)) with (S (Z.to_nat (number dp - n))) by lia. cbn [up].
      rewrite (graft_parent _ _ _ _ _ G), (graft_up g s s' (m_hash i) (m_parentHash i) d _ dp); [done..|lia]. }
    split.
    + rewrite En. lia.
    + intros n Hr. rewrite Hc by lia. unfold canonical.
      replace (Z.to_nat (number dp - n)) with (Z.to_nat (number dl - Z.of_nat a - n) + b)%nat by lia.
      replace (Z.to_nat (m_lastBlockNumber s - n)) with (Z.to_nat (number dl - Z.of_nat a - n) + a)%nat by lia.
      by rewrite !up_add, M1.
    + intros n Hgt Hn1 Hn2 E. rewrite Hc in E by lia. unfold canonical in E. symmetry in E.
      apply M3 in E; [|lia|lia]. lia.
    + apply line_down. lia.
    + replace (m_lastBlockNumber s' - (number dl - Z.of_nat a)) with (Z.of_nat b + 1) by lia.
      rewrite seqZ_app by lia. rewrite map_app. f_equal.
      * rewrite (line_up s _ (number dp)). replace (number dp - Z.of_nat b + 1) with (number dl - Z.of_nat a + 1) by lia.
        apply map_ext_in. intros n Hin%list_elem_of_In%elem_of_seqZ. rewrite Hc by lia. done.
      * replace (number dl - Z.of_nat a + 1 + Z.of_nat b) with (m_number i) by lia. cbn. f_equal. unfold canonical.
        rewrite Eh, En. rewrite (seqZ_cons _ 1) by lia. change (Z.pred 1) with 0. rewrite seqZ_nil by lia. cbn [map].
        by rewrite Z.sub_diag.
  - destruct Hr as (Eh&En&->). exists (m_lastBlockNumber s). cbn [fst snd].
    split; rewrite ?En, ?Z.sub_diag; try done; [lia| |lia].
    intros n Hr. unfold canonical. rewrite Eh, En. apply (graft_up g s s' (m_hash i) (m_parentHash i) d _ dl); [done..|lia].
Qed.

(** C4. An import that succeeds: the block is stored and in the tree, with the
    difficulty of its parent and its own, every other block stays, and the head
    is the heavier one of the old and the new block.  What the import returns is
    what leaves the chain, from the old head down, and what joins it, up to the
    new one; below both chains agree, and above they differ. *)
Theorem import_reorganizes s t data i new s' dead fresh :
  reachable s → offered s data i → checked data →
  import p genesisBlock authority t i data new s = (s', Ok (dead, fresh)) →
  ∃ dp dl best c, node s (m_parentHash i) = Some dp ∧ node s (m_lastBlockHash s) = Some dl ∧
    m_blocksDB s' = <[m_hash i := data]> (m_blocksDB s) ∧ node s' (m_hash i) = Some (new_details i dp) ∧
    (∀ h, h ≠ m_hash i → option_Forall2 same_node (node s h) (node s' h)) ∧
    heavier p genesisBlock s i (totalDifficulty (new_details i dp)) dl best ∧
    m_lastBlockHash s' = (if best then m_hash i else m_lastBlockHash s) ∧
    m_lastBlockNumber s' = (if best then m_number i else m_lastBlockNumber s) ∧
    moved s s' dead fresh c.
Proof.
  intros HO%reachable_is_ok F (ts&s0&Hi) E. pose proof (import_wp t i data new s ts s0 s0 HO F Hi) as Hw.
  unfold wp in Hw. rewrite E in Hw. destruct Hw as (dp&HF&I).
  destruct (inserted_moved _ _ _ _ _ _ _ HO HF I) as (c&Hc).
  destruct I as [IO IB G (dl&best&Hl&Hh&Hr)]. exists dp, dl, best, c.
  split_and!; [apply HF|done|done|apply G|apply G|done|..|done]; by destruct best, Hr as (?&?&_).
Qed.
End System.

(** ** A run *)

(** Two blocks on the genesis block, of which the second one is heavier *)
Definition test_hash : Crypto :=
  {| tx_hash bs := 1 + fold_left (λ a b, (a * 31 + b) mod 1000003) bs 0; recover := λ _ _, [] |}.
#[local] Existing Instance test_hash.
Definition test_ethash : EthashLib :=
  {| ethash_verify _ _ _ _ _ := false; ethash_verify_final_hash _ _ _ _ := false |}.
#[local] Existing Instance test_ethash.
Definition test_authority : AuthorityLib := {| sign _ _ := []; toPublic _ := [] |}.
#[local] Existing Instance test_authority.
Definition test_enactor : Enactor := λ _ i _, Ok (m_difficulty i, []).
#[local] Existing Instance test_enactor.
#[local] Instance test_enactor_laws : EnactorLaws.
Proof. by intros blocks i data t rs [= <- _]. Qed.
Notation test_params := SealEngine.default_params.
Definition no_authority : BasicAuthority.Authority := BasicAuthority.mkAuthority 0 ∅.
Definition empty_root : Z := Eval vm_compute in be_val (TrieHash.orderedTrieRoot sha3_bytes []).
Definition empty_list : Z := Eval vm_compute in tx_hash (RLPCodec.encode (RLPCodec.List [])).
Definition test_block (parent n time difficulty : Z) : bytes :=
  BlockHeaderCodec.block_bytes (BlockHeaderCodec.all_fields
    (mkHeader parent empty_list 0 empty_root 0 0 n 5000 0 [] time 0 difficulty [] 0 0) [] WithSeal) [] [].
Definition header_of (b : bytes) : BlockHeader :=
  match of_bytes b BlockData 0 with Ok i => i | Err _ => null_header end.
Definition genesis : bytes := Eval vm_compute in test_block 0 0 10 100.
Definition block_a : bytes := Eval vm_compute in test_block (m_hash (header_of genesis)) 1 20 30.
Definition block_b : bytes := Eval vm_compute in test_block (m_hash (header_of genesis)) 1 20 40.
Definition offer (b : bytes) (s : Chain) : Chain :=
  (import_bytes test_params genesis no_authority 1000 b true s).1.
Definition with_a : Chain := offer block_a (start genesis).
Definition with_b : Chain := offer block_b with_a.
Lemma test_genesis : genesis_ok genesis (header_of genesis).
Proof. split; [vm_compute; reflexivity|vm_compute; reflexivity|vm_compute; discriminate]. Qed.
Lemma new_in s b :
  m_blocksDB s !! m_hash (header_of b) = None → ∀ d, m_blocksDB s !! m_hash (header_of b) = Some d → d = b.
Proof. by intros ->. Qed.
Lemma offered_a : offered genesis (start genesis) block_a (header_of block_a).
Proof.
  split; [vm_compute; reflexivity|split; vm_compute; discriminate|vm_compute; reflexivity|].
  apply new_in. vm_compute. reflexivity.
Qed.
Lemma offered_b : offered genesis with_a block_b (header_of block_b).
Proof.
  split; [vm_compute; reflexivity|split; vm_compute; discriminate|vm_compute; reflexivity|].
  apply new_in. vm_compute. reflexivity.
Qed.
Lemma offer_step b s :
  offered genesis s b (header_of b) → forward test_params genesis no_authority s (offer b s).
Proof.
  intros F. apply step_import. intros i Hi. pose proof (of_header _ _ _ _ F) as E. rewrite Hi in E.
  injection E as ->. exact F.
Qed.
Lemma grown_a : grown_only test_params genesis no_authority with_a.
Proof. exact (rtc_once _ _ (offer_step block_a (start genesis) offered_a)). Qed.
Lemma test_grown : grown_only test_params genesis no_authority with_b.
Proof. exact (rtc_r _ _ _ grown_a (offer_step block_b with_a offered_b)). Qed.
Lemma grown_reachable s : grown_only test_params genesis no_authority s → reachable test_params genesis no_authority s.
Proof. apply rtc_subrel. intros x y. apply step_forward. Qed.
Lemma run_reachable : reachable test_params genesis no_authority with_a.
Proof. exact (grown_reachable _ grown_a). Qed.

Lemma test_difficulties :
  totalDifficulty <$> node with_b (m_hash (header_of block_a)) = Some 130 ∧
  totalDifficulty <$> node with_b (m_lastBlockHash with_b) = Some 140.
Proof. split; vm_compute; reflexivity. Qed.
Lemma head_heaviest_witness :
  ∃ d dl, node with_b (m_hash (header_of block_a)) = Some d ∧ node with_b (m_lastBlockHash with_b) = Some dl ∧
    totalDifficulty d = 130 ∧ totalDifficulty d ≤ totalDifficulty dl.
Proof.
  destruct test_difficulties as [Ha Hb].
  destruct (node with_b (m_hash (header_of block_a))) as [d|] eqn:Ed; [|discriminate Ha].
  destruct (node with_b (m_lastBlockHash with_b)) as [dl|] eqn:El; [|discriminate Hb].
  injection Ha as Ha. exists d, dl. split; [reflexivity|]. split; [reflexivity|]. split; [exact Ha|].
  exact (head_heaviest test_params genesis no_authority _ test_genesis with_b _ d dl test_grown Ed El).
Defined.
Lemma checked_b : checked block_b.
Proof. exists [], no_chain. vm_compute. reflexivity. Qed.
Lemma import_b :
  (import test_params genesis no_authority 1000 (header_of block_b) block_b true with_a).2 =
  Ok ([m_hash (header_of block_a)], [m_hash (header_of block_b)]).
Proof. vm_compute. reflexivity. Qed.
Lemma import_reorganizes_witness :
  ∃ s' dead fresh c,
    import test_params genesis no_authority 1000 (header_of block_b) block_b true with_a = (s', Ok (dead, fresh)) ∧
    dead = [m_hash (header_of block_a)] ∧ fresh = [m_hash (header_of block_b)] ∧ moved with_a s' dead fresh c.
Proof.
  pose proof import_b as Er.
  destruct (import test_params genesis no_authority 1000 (header_of block_b) block_b true with_a) as [s' r] eqn:E.
  cbn [snd] in Er. rewrite Er in E.
  destruct (import_reorganizes test_params genesis no_authority _ test_genesis with_a 1000 block_b (header_of block_b)
    true s' _ _ run_reachable offered_b checked_b E) as (dp&dl&best&c&_&_&_&_&_&_&_&_&M).
  exists s', [m_hash (header_of block_a)], [m_hash (header_of block_b)], c.
  split; [rewrite Er; reflexivity|]. split; [reflexivity|]. split; [reflexivity|exact M].
Defined.

(** ** What the code does not mean to do *)

(** A number above the head that is asked for is kept in the cache, which a
    chain that grows over it does not clear: the block by number is then not
    that of the chain. *)
Example stale_number :
  let s := offer block_b (numberHash genesis 1 (rewind genesis 0 with_a).1).1 in
  m_lastBlockHash s = m_hash (header_of block_b) ∧ m_lastBlockNumber s = 1 ∧
  (numberHash genesis 1 s).2 = Ok (m_hash (header_of block_a)).
Proof. split_and!; vm_compute; reflexivity. Qed.
(** A block above the head counts as not known: it is imported again. *)
Example known_above_head :
  let s := (rewind genesis 0 with_a).1 in
  m_blocksDB s !! m_hash (header_of block_a) = Some block_a ∧
  (isKnown genesis (m_hash (header_of block_a)) true s).2 = Ok false ∧
  (import_bytes test_params genesis no_authority 1000 block_a true s).2 = Ok ([], [m_hash (header_of block_a)]).
Proof. split_and!; vm_compute; reflexivity. Qed.
(** A search up to block 10 goes on in the next part of the index, and gives
    block 300. *)
Definition indexed_300 : Chain :=
  set_bloom (chunkId 0 (300 / 16)) (300 mod 16) (λ _, 1)
    (set_bloom (chunkId 1 (300 / 256)) (300 / 16 mod 16) (λ _, 1) no_chain).
Example search_behind : (withBlockBloom 1 0 10 indexed_300).2 = Ok [300].
Proof. vm_compute. reflexivity. Qed.
End BlockChainSystem.
