(* ===== verification/Precompiled.v ===== *)
(** * Precompiled contracts (libwingcore/Precompiled.h, Precompiled.cpp)

    The executors and pricers that a chain names: the recovery of a signer, the
    hashes, the identity, and modular exponentiation.  [powm] of Boost, the hash
    functions and the operations on curves are the class [PrecompiledLib]. *)
From S2P Require Import Prelude CommonData RLPFields TransactionBase SealEngine.

(** [boost::multiprecision::powm], [dev::sha256], [dev::ripemd160] (20 bytes)
    and the operations of LibSnark *)
Class PrecompiledLib := {
  powm : Z → Z → Z → Z;
  sha256_of : bytes → bytes;
  ripemd160_of : bytes → bytes;
  G1_add : bytes → bool * bytes;
  G1_mul : bytes → bool * bytes;
  pairing_product : bytes → bool * bytes;
}.
(** [powm] gives the power under the modulus. *)
Class PowmLaw `(PrecompiledLib) : Prop :=
  powm_spec : ∀ b e m, 0 ≤ b → 0 ≤ e → 0 < m → powm b e m = b ^ e mod m.

Module Precompiled.
Import CommonData RLPFields TransactionBase(TransactionBase, m_vrs, m_sender, isValid, isZeroSignature,
  hasZeroSignature, sha3_of, sender).

(** [fromBigEndian<bigint>] is [be_val]; an assertion that fails is [None]. *)
Definition max_length : Z := (2 ^ 64 - 1) / 8.
Definition count (in_ : bytes) : Z := Z.of_nat (length in_).
Definition parseBigEndianRightPadded (in_ : bytes) (begin cnt : Z) : option Z :=
  if count in_ <? begin then Some 0
  else if max_length <? cnt then None
  else
    let cropped := take (Z.to_nat (Z.min cnt (count in_ - begin))) (drop (Z.to_nat begin) in_) in
    if max_length <? cnt - count cropped then None
    else Some (Z.shiftl (be_val cropped) (8 * (cnt - count cropped))).

Definition expLengthAdjust (expOffset expLength : Z) (in_ : bytes) : option Z :=
  if expLength <=? 32 then
    exp ← parseBigEndianRightPadded in_ expOffset expLength;
    Some (if negb (exp =? 0) then Z.log2 exp else 0)
  else
    expFirstWord ← parseBigEndianRightPadded in_ expOffset 32;
    let highestBit := if negb (expFirstWord =? 0) then Z.log2 expFirstWord else 0 in
    Some (8 * (expLength - 32) + highestBit).
Definition multComplexity (x : Z) : Z :=
  if x <=? 64 then x * x
  else if x <=? 1024 then (x * x) / 4 + 96 * x - 3072
  else (x * x) / 16 + 480 * x - 199680.
(** The pricer of [modexp] *)
Definition modexp_price (in_ : bytes) : option Z :=
  baseLength ← parseBigEndianRightPadded in_ 0 32;
  expLength ← parseBigEndianRightPadded in_ 32 32;
  modLength ← parseBigEndianRightPadded in_ 64 32;
  let maxLength := Z.max modLength baseLength in
  adjustedExpLength ← expLengthAdjust (baseLength + 96) expLength in_;
  Some (Z.quot (multComplexity maxLength * Z.max adjustedExpLength 1) 20).
(** The pricer of [alt_bn128_pairing_product] *)
Definition pairing_price (in_ : bytes) : Z := 100000 + count in_ / 192 * 80000.

Section Executors.
Context `{Crypto, PrecompiledLib}.

Definition modexp (in_ : bytes) : option (bool * bytes) :=
  baseLength ← parseBigEndianRightPadded in_ 0 32;
  expLength ← parseBigEndianRightPadded in_ 32 32;
  modLength ← parseBigEndianRightPadded in_ 64 32;
  if max_length <? modLength then None
  else if max_length <? baseLength then None
  else if (modLength =? 0) && (baseLength =? 0) then Some (true, [])
  else if max_length <? expLength then None
  else
    base ← parseBigEndianRightPadded in_ 96 baseLength;
    exp ← parseBigEndianRightPadded in_ (96 + baseLength) expLength;
    mod_ ← parseBigEndianRightPadded in_ (96 + baseLength + expLength) modLength;
    let result := if negb (mod_ =? 0) then powm base exp mod_ else 0 in
    Some (true, toBigEndian result (replicate (Z.to_nat modLength) 0)).

(** [ecrecover]: the bytes of the input over a structure of four hashes *)
Definition ecrecover (in_ : bytes) : bool * bytes :=
  let in_ := take 128 in_ ++ replicate (128 - length in_) 0 in
  let word i := be_val (take 32 (drop (32 * i) in_)) in
  let v := word 1%nat in
  if (27 <=? v) && (v <=? 28) then
    let sig := mkSignature (word 2%nat) (word 3%nat) (u8 (v - 27)) in
    if isValid sig then
      let rec := recover sig (word 0%nat) in
      if negb (forallb (Z.eqb 0) rec)
      then (true, replicate 12 0 ++ drop 12 (hash_bytes 32 (tx_hash rec)))
      else (true, [])
    else (true, [])
  else (true, []).
Definition sha256 (in_ : bytes) : bool * bytes := (true, sha256_of in_).
Definition ripemd160 (in_ : bytes) : bool * bytes := (true, replicate 12 0 ++ ripemd160_of in_).
Definition identity (in_ : bytes) : bool * bytes := (true, in_).

(** ** Reading numbers *)

(** The bytes from [begin], followed by zeros *)
Definition right_padded (in_ : bytes) (begin cnt : nat) : bytes :=
  take cnt (drop begin in_ ++ replicate cnt 0).
Lemma be_val_zeros bs n : be_val (bs ++ replicate n 0) = be_val bs * 256 ^ Z.of_nat n.
Proof.
  rewrite be_val_app, length_replicate. pose proof (be_val_zero_prefix n []) as Hz. rewrite app_nil_r in Hz.
  rewrite Hz. change (be_val []) with 0. lia.
Qed.
Lemma parse_padded in_ b c :
  0 ≤ b → 0 ≤ c ≤ max_length →
  parseBigEndianRightPadded in_ b c = Some (be_val (right_padded in_ (Z.to_nat b) (Z.to_nat c))).
Proof.
  intros Hb Hc. unfold parseBigEndianRightPadded, right_padded, count.
  destruct (Z.ltb_spec (Z.of_nat (length in_)) b) as [Hlt|Hge].
  - f_equal. rewrite drop_ge by lia. cbn [app]. rewrite take_ge by (rewrite length_replicate; lia).
    pose proof (be_val_zero_prefix (Z.to_nat c) []) as Hz. rewrite app_nil_r in Hz. by rewrite Hz.
  - destruct (Z.ltb_spec max_length c); [lia|].
    set (d := drop (Z.to_nat b) in_). assert (length d = (length in_ - Z.to_nat b)%nat) as Hd by (unfold d; by rewrite length_drop).
    set (cr := take (Z.to_nat (Z.min c (Z.of_nat (length in_) - b))) d).
    assert (Z.of_nat (length cr) = Z.min c (Z.of_nat (length in_) - b)) as Hcr.
    { unfold cr. rewrite length_take. lia. }
    destruct (Z.ltb_spec max_length (c - Z.of_nat (length cr))); [lia|]. f_equal.
    rewrite Z.shiftl_mul_pow2 by lia. rewrite Z.pow_mul_r by lia. change (2 ^ 8) with 256.
    replace (c - Z.of_nat (length cr)) with (Z.of_nat (Z.to_nat c - length cr)) by lia.
    rewrite <-be_val_zeros. f_equal. rewrite take_app, take_replicate. unfold cr.
    rewrite length_take. destruct (decide (Z.to_nat c ≤ length d)%nat) as [Hle|Hgt].
    + replace (Z.to_nat (Z.min c (Z.of_nat (length in_) - b))) with (Z.to_nat c) by lia.
      f_equal. f_equal. lia.
    + rewrite !(take_ge d) by lia. f_equal. f_equal. lia.
Qed.
Lemma right_padded_ok in_ b c : bytes_ok in_ → bytes_ok (right_padded in_ b c) ∧ length (right_padded in_ b c) = c.
Proof.
  intros Hok. unfold right_padded. split.
  - apply Forall_take, Forall_app. split; [by apply Forall_drop|]. apply Forall_replicate. by split.
  - rewrite length_take, length_app, length_replicate. lia.
Qed.

(** ** Modular exponentiation *)

(** The lengths that the input begins with, and the three numbers behind them *)
Definition base_length (in_ : bytes) : Z := be_val (right_padded in_ 0 32).
Definition exp_length (in_ : bytes) : Z := be_val (right_padded in_ 32 32).
Definition mod_length (in_ : bytes) : Z := be_val (right_padded in_ 64 32).
Definition base_of (in_ : bytes) : Z := be_val (right_padded in_ 96 (Z.to_nat (base_length in_))).
Definition exp_of (in_ : bytes) : Z :=
  be_val (right_padded in_ (Z.to_nat (96 + base_length in_)) (Z.to_nat (exp_length in_))).
Definition mod_of (in_ : bytes) : Z :=
  be_val (right_padded in_ (Z.to_nat (96 + base_length in_ + exp_length in_)) (Z.to_nat (mod_length in_))).

Lemma padded_nonneg in_ b c : bytes_ok in_ → 0 ≤ be_val (right_padded in_ b c) < 256 ^ Z.of_nat c.
Proof.
  intros Hok. destruct (right_padded_ok in_ b c Hok) as [Hp Hl].
  pose proof (be_val_bound _ Hp) as Hb. by rewrite Hl in Hb.
Qed.
Lemma parse_lengths in_ :
  parseBigEndianRightPadded in_ 0 32 = Some (base_length in_) ∧
  parseBigEndianRightPadded in_ 32 32 = Some (exp_length in_) ∧
  parseBigEndianRightPadded in_ 64 32 = Some (mod_length in_).
Proof. split_and!; by rewrite parse_padded. Qed.

Lemma multComplexity_bounds x :
  0 ≤ x → 0 ≤ multComplexity x ∧ (1 ≤ x → 1 ≤ multComplexity x) ∧ (1024 < x → 20 * x ≤ multComplexity x).
Proof.
  intros Hx. unfold multComplexity. destruct (Z.leb_spec x 64); [nia|].
  destruct (Z.leb_spec x 1024).
  - pose proof (Z.div_pos (x * x) 4 ltac:(nia) ltac:(lia)). lia.
  - pose proof (Z.div_pos (x * x) 16 ltac:(nia) ltac:(lia)).
    assert (65536 ≤ x * x / 16) by (apply Z.div_le_lower_bound; nia). lia.
Qed.
(** The price is defined; below [2 ^ 59] it pays for lengths that fit. *)
Lemma modexp_price_spec in_ :
  bytes_ok in_ →
  ∃ p, modexp_price in_ = Some p ∧ 0 ≤ p ∧
    (p < 2 ^ 59 → mod_length in_ ≤ max_length ∧ base_length in_ ≤ max_length ∧
       (mod_length in_ = 0 ∧ base_length in_ = 0 ∨ exp_length in_ ≤ max_length)).
Proof.
  intros Hok. destruct (parse_lengths in_) as (Hb&He&Hm).
  pose proof (padded_nonneg in_ 0 32 Hok) as [Hb0 _]. pose proof (padded_nonneg in_ 32 32 Hok) as [He0 _].
  pose proof (padded_nonneg in_ 64 32 Hok) as [Hm0 _].
  fold (base_length in_) in Hb0. fold (exp_length in_) in He0. fold (mod_length in_) in Hm0.
  assert (∃ a, expLengthAdjust (base_length in_ + 96) (exp_length in_) in_ = Some a ∧
    (32 < exp_length in_ → 8 * (exp_length in_ - 32) ≤ a)) as (a&Ha&Hal).
  { unfold expLengthAdjust. destruct (Z.leb_spec (exp_length in_) 32).
    - rewrite parse_padded by (lia || (change max_length with 2305843009213693951; lia)). eexists. split; [reflexivity|lia].
    - rewrite parse_padded by (lia || (change max_length with 2305843009213693951; lia)). eexists. split; [reflexivity|]. intros _.
      cbn [mbind option_bind]. pose proof (Z.log2_nonneg
        (be_val (right_padded in_ (Z.to_nat (base_length in_ + 96)) (Z.to_nat 32)))). destruct (negb _); lia. }
  unfold modexp_price. rewrite Hb, He, Hm. cbn [mbind option_bind]. rewrite Ha. cbn [mbind option_bind].
  destruct (multComplexity_bounds (Z.max (mod_length in_) (base_length in_)) ltac:(lia)) as (Hc0&Hc1&Hc2).
  set (mc := multComplexity _) in *. eexists. split; [reflexivity|].
  rewrite Z.quot_div_nonneg by nia. split; [apply Z.div_pos; nia|]. intros Hp.
  assert (mc * Z.max a 1 < 20 * 2 ^ 59) as Hlt.
  { pose proof (Z.mul_succ_div_gt (mc * Z.max a 1) 20 ltac:(lia)). lia. }
  change max_length with 2305843009213693951. change (2 ^ 59) with 576460752303423488 in Hlt.
  assert (Z.max (mod_length in_) (base_length in_) ≤ 2305843009213693951) as Hmax.
  { destruct (Z.le_gt_cases (Z.max (mod_length in_) (base_length in_)) 2305843009213693951); [done|].
    specialize (Hc2 ltac:(lia)). nia. }
  split_and!; [lia|lia|]. destruct (Z.le_gt_cases (exp_length in_) 2305843009213693951); [by right|left].
  specialize (Hal ltac:(lia)).
  destruct (Z.le_gt_cases 1 (Z.max (mod_length in_) (base_length in_))) as [Hone|Hone]; [|lia].
  specialize (Hc1 Hone). nia.
Qed.
Lemma modexp_spec `{!PowmLaw _} in_ :
  bytes_ok in_ → mod_length in_ ≤ max_length → base_length in_ ≤ max_length →
  mod_length in_ = 0 ∧ base_length in_ = 0 ∨ exp_length in_ ≤ max_length →
  ∃ out, modexp in_ = Some (true, out) ∧ Z.of_nat (length out) = mod_length in_ ∧
    be_val out = (if mod_of in_ =? 0 then 0 else base_of in_ ^ exp_of in_ mod mod_of in_).
Proof.
  intros Hok Hml Hbl Hel. destruct (parse_lengths in_) as (Hb&He&Hm).
  pose proof (padded_nonneg in_ 0 32 Hok) as [Hb0 _]. pose proof (padded_nonneg in_ 32 32 Hok) as [He0 _].
  pose proof (padded_nonneg in_ 64 32 Hok) as [Hm0 _].
  fold (base_length in_) in Hb0. fold (exp_length in_) in He0. fold (mod_length in_) in Hm0.
  unfold modexp. rewrite Hb, He, Hm. cbn [mbind option_bind].
  destruct (Z.ltb_spec max_length (mod_length in_)); [lia|].
  destruct (Z.ltb_spec max_length (base_length in_)); [lia|].
  destruct (Z.eqb_spec (mod_length in_) 0) as [Hz|Hz]; cbn [andb].
  1: destruct (Z.eqb_spec (base_length in_) 0) as [Hz'|Hz'].
  1: { exists []. unfold mod_of. rewrite Hz. change (Z.to_nat 0) with 0%nat. unfold right_padded. cbn [take].
       by split_and!. }
  all: destruct Hel as [[? ?]|Hel]; [lia|].
  all: destruct (Z.ltb_spec max_length (exp_length in_)); [lia|].
  all: rewrite !parse_padded by lia; cbn [mbind option_bind]; change (Z.to_nat 96) with 96%nat.
  all: fold (base_of in_); fold (exp_of in_); fold (mod_of in_).
  all: pose proof (padded_nonneg in_ 96 (Z.to_nat (base_length in_)) Hok) as [Hb1 _]; fold (base_of in_) in Hb1.
  all: pose proof (padded_nonneg in_ (Z.to_nat (96 + base_length in_)) (Z.to_nat (exp_length in_)) Hok) as [He1 _];
    fold (exp_of in_) in He1.
  all: pose proof (padded_nonneg in_ (Z.to_nat (96 + base_length in_ + exp_length in_))
                     (Z.to_nat (mod_length in_)) Hok) as [Hm1 Hm2]; fold (mod_of in_) in Hm1, Hm2.
  all: eexists; split; [reflexivity|]; rewrite length_toBigEndian, length_replicate; split; [lia|].
  all: rewrite (proj2 (toBigEndian_spec _ _)), length_replicate.
  all: destruct (Z.eqb_spec (mod_of in_) 0) as [Hmz|Hmz]; cbn [negb].
  all: try (apply Z.mod_0_l; lia).
  all: rewrite powm_spec by lia; pose proof (Z.mod_pos_bound (base_of in_ ^ exp_of in_) (mod_of in_) ltac:(lia));
    apply Z.mod_small; lia.
Qed.

(** ** The recovery of a signer *)

(** Four words of the input *)
Lemma four_words w0 w1 w2 w3 :
  Forall (in_word 256) [w0; w1; w2; w3] →
  let in_ := hash_bytes 32 w0 ++ hash_bytes 32 w1 ++ hash_bytes 32 w2 ++ hash_bytes 32 w3 in
  let in' := take 128 in_ ++ replicate (128 - length in_) 0 in
  be_val (take 32 (drop (32 * 0) in')) = w0 ∧ be_val (take 32 (drop (32 * 1) in')) = w1 ∧
  be_val (take 32 (drop (32 * 2) in')) = w2 ∧ be_val (take 32 (drop (32 * 3) in')) = w3.
Proof.
  intros Hw. rewrite !Forall_cons in Hw. destruct Hw as (Hw0&Hw1&Hw2&Hw3&_).
  destruct (hash_bytes_spec 32 w0 Hw0) as (_&L0&V0). destruct (hash_bytes_spec 32 w1 Hw1) as (_&L1&V1).
  destruct (hash_bytes_spec 32 w2 Hw2) as (_&L2&V2). destruct (hash_bytes_spec 32 w3 Hw3) as (_&L3&V3).
  set (b0 := hash_bytes 32 w0) in *. set (b1 := hash_bytes 32 w1) in *. set (b2 := hash_bytes 32 w2) in *.
  set (b3 := hash_bytes 32 w3) in *. clearbody b0 b1 b2 b3. intros in_ in'.
  assert (in' = b0 ++ b1 ++ b2 ++ b3) as ->.
  { unfold in'. assert (length in_ = 128%nat) as Hl by (unfold in_; rewrite !length_app, L0, L1, L2, L3; done).
    rewrite Hl, Nat.sub_diag. cbn [replicate]. rewrite app_nil_r, take_ge by lia. done. }
  split_and!.
  - rewrite drop_0, take_app_length' by done. exact V0.
  - rewrite drop_app_length' by (rewrite L0; done). rewrite take_app_length' by done. exact V1.
  - rewrite app_assoc, drop_app_length' by (rewrite length_app, L0, L1; done).
    rewrite take_app_length' by done. exact V2.
  - rewrite !app_assoc, drop_app_length' by (rewrite !length_app, L0, L1, L2; done).
    rewrite take_ge by lia. exact V3.
Qed.
(** The lower bytes of a hash are an address. *)
Lemma drop_hash h : in_word 256 h → drop 12 (hash_bytes 32 h) = hash_bytes 20 (u160 h).
Proof.
  intros Hh. destruct (hash_bytes_spec 32 h Hh) as (Hok&Hl&Hv).
  assert (in_word 160 (u160 h)) as Ha by (apply Z.mod_pos_bound; done).
  destruct (hash_bytes_spec 20 (u160 h) Ha) as (Hok'&Hl'&Hv').
  assert (bytes_ok (drop 12 (hash_bytes 32 h))) as Hokd by by apply Forall_drop.
  assert (length (drop 12 (hash_bytes 32 h)) = 20%nat) as Hld by (rewrite length_drop, Hl; done).
  apply be_val_inj; [done|done|by rewrite Hld, Hl'|]. rewrite Hv'.
  rewrite <-(take_drop 12 (hash_bytes 32 h)), be_val_app, Hld in Hv.
  pose proof (be_val_bound _ Hokd) as Hb. rewrite Hld in Hb.
  unfold wrap. change (256 ^ Z.of_nat 20) with (2 ^ 160) in *.
  apply (f_equal (λ z, z mod 2 ^ 160)) in Hv. rewrite Z.add_comm, Z_mod_plus_full in Hv. rewrite <-Hv.
  symmetry. by apply Z.mod_small.
Qed.
Lemma ecrecover_words h v r s :
  Forall (in_word 256) [h; 27 + v; r; s] → 0 ≤ v → isValid (mkSignature r s v) = true →
  ecrecover (hash_bytes 32 h ++ hash_bytes 32 (27 + v) ++ hash_bytes 32 r ++ hash_bytes 32 s) =
  (true, if forallb (Z.eqb 0) (recover (mkSignature r s v) h) then []
         else replicate 12 0 ++ drop 12 (hash_bytes 32 (tx_hash (recover (mkSignature r s v) h)))).
Proof.
  intros Hw Hv Hval. destruct (four_words h (27 + v) r s Hw) as (W0&W1&W2&W3). unfold ecrecover.
  rewrite W0, W1, W2, W3. assert (v ≤ 1) as Hv1.
  { unfold isValid in Hval. rewrite !andb_true_iff in Hval. destruct Hval as ((((Hle&_)&_)&_)&_).
    cbn [sig_v] in Hle. lia. }
  destruct (Z.leb_spec 27 (27 + v)), (Z.leb_spec (27 + v) 28); try lia. cbn [andb].
  replace (27 + v - 27) with v by lia. rewrite (wrap_small 8 v) by (split; [lia|change (2 ^ 8) with 256; lia]).
  rewrite Hval. by destruct (forallb _ _).
Qed.
End Executors.


(** C28. The contract that recovers a signer gives the sender of a signed
    transaction for its hash and signature, and nothing when there is none. *)
Theorem ecrecover_sender `{Crypto, PrecompiledLib} t v h :
  m_vrs t = Some v → m_sender t = 0 → sha3_of t false = Ok h →
  Forall (in_word 256) [h; sig_r v; sig_s v; tx_hash (recover v h)] → 0 ≤ sig_v v → isValid v = true →
  ecrecover (hash_bytes 32 h ++ hash_bytes 32 (27 + sig_v v) ++ hash_bytes 32 (sig_r v) ++
             hash_bytes 32 (sig_s v)) =
  (true, match sender t with Ok a => replicate 12 0 ++ hash_bytes 20 a | Err _ => [] end).
Proof.
  intros Hv Hs Hh Hw Hv0 Hval. rewrite !Forall_cons in Hw. destruct Hw as (Hw1&Hw2&Hw3&Hw4&_).
  assert (sig_v v ≤ 1 ∧ isZeroSignature (sig_r v) (sig_s v) = false) as [Hv1 Hz].
  { unfold isValid in Hval. rewrite !andb_true_iff in Hval. destruct Hval as ((((Hle&Hr)&_)&_)&_).
    unfold isZeroSignature. split; [lia|]. destruct (Z.eqb_spec (sig_r v) 0); [lia|done]. }
  destruct v as [r s v]. cbn [sig_r sig_s sig_v] in *. rewrite ecrecover_words; [|..|done].
  2: { repeat (apply Forall_cons; split); [done|split; [lia|]|done|done|by apply Forall_nil].
       eapply Z.le_lt_trans with 28; [lia|done]. }
  2: done.
  unfold sender. rewrite Hs. cbn [negb Z.eqb]. unfold hasZeroSignature. rewrite Hv. cbn [sig_r sig_s].
  rewrite Hz, Hh. cbn [mbind result_bind].
  destruct (forallb _ _); [done|]. by rewrite drop_hash.
Qed.

(** ** Concrete inputs *)

#[local] Instance test_lib : PrecompiledLib :=
  {| powm := λ b e m, b ^ e mod m; sha256_of := λ b, b; ripemd160_of := λ b, b; G1_add := λ b, (true, b);
     G1_mul := λ b, (true, b); pairing_product := λ b, (true, b) |}.
#[local] Instance test_law : PowmLaw test_lib := λ b e m _ _ _, eq_refl.
#[local] Instance test_hash : Crypto := {| tx_hash := λ bs, Z.of_nat (length bs) + 2 ^ 255; recover := λ _ _, [9] |}.
(** 3 to the power of 5, under the modulus 7 of two bytes *)
Definition modexp_input : bytes :=
  hash_bytes 32 1 ++ hash_bytes 32 1 ++ hash_bytes 32 2 ++ [3; 5; 0; 7].

Definition test_tx : TransactionBase :=
  TransactionBase.mkTransaction TransactionBase.MessageCall 1 300 5 20 21000 [] (Some (mkSignature 5 6 1)) 1 0.
Lemma ecrecover_sender_witness :
  ∃ h, sha3_of test_tx false = Ok h ∧
    ecrecover (hash_bytes 32 h ++ hash_bytes 32 28 ++ hash_bytes 32 5 ++ hash_bytes 32 6) =
    (true, replicate 12 0 ++ hash_bytes 20 1).
Proof.
  assert (∃ h, sha3_of test_tx false = Ok h ∧ in_word 256 h) as (h&Hh&Hw).
  { eexists. split; [vm_compute; reflexivity|split; [discriminate|reflexivity]]. }
  exists h. split; [exact Hh|].
  pose proof (ecrecover_sender test_tx (mkSignature 5 6 1) h eq_refl eq_refl Hh) as He.
  cbn [sig_r sig_s sig_v] in He. change (27 + 1) with 28 in He. rewrite He.
  - unfold sender. rewrite Hh. vm_compute. reflexivity.
  - repeat (apply Forall_cons; split); [exact Hw|split; [discriminate|reflexivity]..|by apply Forall_nil].
  - discriminate.
  - reflexivity.
Defined.
End Precompiled.
