(* ===== verification/Executive.v ===== *)
(** * The execution of transactions and messages (libwing/Executive.h,
    Executive.cpp, ExtVM.h, ExtVM.cpp, libevm/ExtVMFace.h, and State::execute
    of libwing/State.cpp)

    [Executive] sets up a message call or the creation of a contract, runs its
    code and settles the result; [ExtVM] gives the virtual machine the state,
    and starts another executive for each message of the code.  The state and
    the executive are threaded; a reference to the state is the state itself. *)
From S2P Require Import Prelude CommonData RLP State NativeStorage Instruction LegacyVM LegacyVMExec TransactionBase Receipt BlockHeader SealEngine.

Module Executive.
Import BlockHeader(BlockHeader, mkHeader, m_number, m_timestamp, m_author, m_gasLimit,
  m_difficulty, m_parentHash).
Import CommonData RLP State NativeStorage TransactionBase SealEngine.
Import LegacyVM(CallParameters, mkCallParameters, world, ExtVMFace, Env, mkEnv, VMError).

(** [SubState]; the set of addresses is an ordered map to units. *)
Record SubState := mkSub { suicides : list (Z * unit); logs : list LogEntry; refunds : Z }.
Definition empty_sub : SubState := mkSub [] [] 0.
(** [operator+=] *)
Definition sub_add (x y : SubState) : SubState :=
  mkSub (foldr (λ e l, om_insert e.1 () l) (suicides x) (suicides y)) (logs x ++ logs y)
    (u256 (refunds x + refunds y)).

(** [CodeDeposit], [ExecutionResult] *)
Inductive CodeDeposit := Deposit_None | Deposit_Failed | Deposit_Success.
Record ExecutionResult := mkResult {
  r_gasUsed : Z;
  r_excepted : TransactionException;
  r_newAddress : Z;
  r_output : bytes;
  r_codeDeposit : CodeDeposit;
  r_gasRefunded : Z;
  r_depositSize : Z;
  r_gasForDeposit : Z;
}.
Definition no_result : ExecutionResult := mkResult 0 Unknown 0 [] Deposit_None 0 0 0.

(** [EnvInfo]; the hashes of the last blocks are the argument
    [precedingHashes] below. *)
Record EnvInfo := mkEnvInfo { info_header : BlockHeader; info_gasUsed : Z }.
Definition info_number (i : EnvInfo) : Z := m_number (info_header i).

(** What a call of the executive throws: an exception of a check, one of the
    state; [Aborted] is the end of the process or undefined behaviour. *)
Inductive ExecError := Threw (e : TxError) | ThrewState (e : StateError) | Aborted.

(** [toTransactionException] of the machine's exceptions; a revert and an
    exception of the world are handled before. *)
Definition vm_exception (e : VMError) : TransactionException :=
  match e with
  | LegacyVM.OutOfGas => OutOfGas_
  | LegacyVM.BadInstruction => BadInstruction_
  | LegacyVM.BadJumpDestination => BadJumpDestination_
  | LegacyVM.StackUnderflow => StackUnderflow_
  | LegacyVM.OutOfStack => OutOfStack_
  | LegacyVM.RevertInstruction _ => RevertInstruction_
  | LegacyVM.DisallowedStateChange | LegacyVM.BufferOverrun
  | LegacyVM.WorldException | LegacyVM.Undefined => Unknown
  end.

(** [transactionExceptionToEvmcStatusCode]: whether it is [EVMC_SUCCESS] *)
Definition status_success (e : TransactionException) : bool := bool_decide (e = None_).

(** [m_ext]: the frame of the code that is to run, and its sub-state *)
Record Frame := mkFrame { f_env : Env; f_sub : SubState }.

(** The members of class [Executive] but the references *)
Record Executive := mkExecutive {
  m_ext : option Frame;
  m_native : option Z;
  m_output : bytes;
  m_res : option ExecutionResult;
  m_depth : Z;
  m_excepted : TransactionException;
  m_baseGasRequired : Z;
  m_gas : Z;
  m_refunded : Z;
  m_t : TransactionBase;
  m_logs : list LogEntry;
  m_gasCost : Z;
  m_isCreation : bool;
  m_newAddress : Z;
  m_savepoint : nat;
}.
(** [Executive(_s, _envInfo, _sealEngine, _level)] *)
Definition new (level : Z) : Executive :=
  mkExecutive None None [] None level None_ 0 0 0 TransactionBase.null [] 0 false 0 0.

Definition with_ext (f : option Frame) (e : Executive) : Executive :=
  mkExecutive f (m_native e) (m_output e) (m_res e) (m_depth e) (m_excepted e)
    (m_baseGasRequired e) (m_gas e) (m_refunded e) (m_t e) (m_logs e) (m_gasCost e)
    (m_isCreation e) (m_newAddress e) (m_savepoint e).
Definition with_native (n : option Z) (e : Executive) : Executive :=
  mkExecutive (m_ext e) n (m_output e) (m_res e) (m_depth e) (m_excepted e)
    (m_baseGasRequired e) (m_gas e) (m_refunded e) (m_t e) (m_logs e) (m_gasCost e)
    (m_isCreation e) (m_newAddress e) (m_savepoint e).
Definition with_output (o : bytes) (e : Executive) : Executive :=
  mkExecutive (m_ext e) (m_native e) o (m_res e) (m_depth e) (m_excepted e)
    (m_baseGasRequired e) (m_gas e) (m_refunded e) (m_t e) (m_logs e) (m_gasCost e)
    (m_isCreation e) (m_newAddress e) (m_savepoint e).
Definition with_res (r : option ExecutionResult) (e : Executive) : Executive :=
  mkExecutive (m_ext e) (m_native e) (m_output e) r (m_depth e) (m_excepted e)
    (m_baseGasRequired e) (m_gas e) (m_refunded e) (m_t e) (m_logs e) (m_gasCost e)
    (m_isCreation e) (m_newAddress e) (m_savepoint e).
Definition with_excepted (x : TransactionException) (e : Executive) : Executive :=
  mkExecutive (m_ext e) (m_native e) (m_output e) (m_res e) (m_depth e) x
    (m_baseGasRequired e) (m_gas e) (m_refunded e) (m_t e) (m_logs e) (m_gasCost e)
    (m_isCreation e) (m_newAddress e) (m_savepoint e).
Definition with_gas (g : Z) (e : Executive) : Executive :=
  mkExecutive (m_ext e) (m_native e) (m_output e) (m_res e) (m_depth e) (m_excepted e)
    (m_baseGasRequired e) g (m_refunded e) (m_t e) (m_logs e) (m_gasCost e)
    (m_isCreation e) (m_newAddress e) (m_savepoint e).
Definition with_transaction (t : TransactionBase) (base cost : Z) (e : Executive) : Executive :=
  mkExecutive (m_ext e) (m_native e) (m_output e) (m_res e) (m_depth e) (m_excepted e)
    base (m_gas e) (m_refunded e) t (m_logs e) cost
    (m_isCreation e) (m_newAddress e) (m_savepoint e).
Definition with_newAddress (a : Z) (e : Executive) : Executive :=
  mkExecutive (m_ext e) (m_native e) (m_output e) (m_res e) (m_depth e) (m_excepted e)
    (m_baseGasRequired e) (m_gas e) (m_refunded e) (m_t e) (m_logs e) (m_gasCost e)
    (m_isCreation e) a (m_savepoint e).
(** [m_savepoint = m_s.savepoint()], and [m_isCreation = true] in a creation *)
Definition with_savepoint (creation : bool) (sp : nat) (e : Executive) : Executive :=
  mkExecutive (m_ext e) (m_native e) (m_output e) (m_res e) (m_depth e) (m_excepted e)
    (m_baseGasRequired e) (m_gas e) (m_refunded e) (m_t e) (m_logs e) (m_gasCost e)
    (m_isCreation e || creation) (m_newAddress e) sp.
Definition with_refunded (r : Z) (l : list LogEntry) (e : Executive) : Executive :=
  mkExecutive (m_ext e) (m_native e) (m_output e) (m_res e) (m_depth e) (m_excepted e)
    (m_baseGasRequired e) (m_gas e) r (m_t e) l (m_gasCost e)
    (m_isCreation e) (m_newAddress e) (m_savepoint e).

(** [gasUsed] *)
Definition gasUsed (e : Executive) : Z := u256 (TransactionBase.m_gas (m_t e) - m_gas e).
(** [accrueSubState] *)
Definition accrueSubState (e : Executive) (parent : SubState) : SubState :=
  match m_ext e with Some f => sub_add parent (f_sub f) | None => parent end.

Section Executive.
Context `{StateDB Root} (pick : nat → nat → nat).
(** The recovery of keys, the hashes of the last blocks by the most recent
    one ([LastBlockHashesFace::precedingHashes]), and the chain. *)
Context (recover : SignatureStruct → Z → bytes) (precedingHashes : Z → list Z).
Context (params : ChainOperationParams).
Notation State := (State (Root:=Root)).

#[local] Instance crypto : Crypto := {| tx_hash := sha3; TransactionBase.recover := recover |}.

Definition schedule_of (i : EnvInfo) : Instruction.EVMSchedule :=
  scheduleForBlockNumber params (info_number i).
Definition from_state {A} (r : result StateError A) : result ExecError A :=
  match r with Ok a => Ok a | Err e => Err (ThrewState e) end.
Definition from_tx {A} (r : result TxError A) : result ExecError A :=
  match r with Ok a => Ok a | Err e => Err (Threw e) end.

(** The data of [ExtVM] and its [EnvInfo] *)
Definition frame (i : EnvInfo) (my caller origin value gasPrice : Z) (data code : bytes)
    (depth : Z) (static : bool) : Frame :=
  let h := info_header i in
  mkFrame (mkEnv my caller origin value gasPrice data code depth static (m_author h)
             (m_timestamp h) (m_number h) (m_difficulty h) (m_gasLimit h) (schedule_of i))
    empty_sub.

(** [revert] *)
Definition revert (e : Executive) (s : State) : result ExecError (Executive * State) :=
  let e := with_ext (f ← m_ext e; Some (mkFrame (f_env f) empty_sub)) e in
  let e := with_newAddress 0 e in
  match rollback (m_savepoint e) s with Some s => Ok (e, s) | None => Err Aborted end.

(** Whether EIP 86 leaves the nonce of the sender alone *)
Definition counts_nonce (sender : Z) (i : EnvInfo) : bool :=
  negb (sender =? MaxAddress) || (info_number i <? constantinopleForkBlock params).

(** [call(CallParameters const&, ...)]: the result is whether all is done.
    The branches for a precompiled contract and for code, both with the
    transfer of the value, and the whole function *)
Definition call_precompiled (c : PrecompiledContract) (i : EnvInfo) (p : CallParameters)
    (e : Executive) (s : State) : result ExecError (Executive * State * bool) :=
  let g := m_cost c (LegacyVM.data p) in
  if LegacyVM.gas p <? g then
    let e := with_excepted OutOfGasBase e in
    s ← (if EIP158ForkBlock params <=? info_number i
         then from_state (addBalance pick (LegacyVM.codeAddress p) 0 s) else Ok s);
    Ok (e, s, true)
  else
    let e := with_gas (u256 (LegacyVM.gas p - g)) e in
    let '(success, output) := m_execute c (LegacyVM.data p) in
    let e := with_output output e in
    if negb success then Ok (with_excepted OutOfGas_ (with_gas 0 e), s, true)
    else Ok (e, s, false).
Definition call_code (i : EnvInfo) (p : CallParameters) (gasPrice origin : Z) (e : Executive)
    (s : State) : Executive * State :=
  let e := with_gas (LegacyVM.gas p) e in
  let '(s, isNative) := isNativeContract pick (LegacyVM.codeAddress p) s in
  let '(s, run) := if isNative then (s, true) else addressHasCode pick (LegacyVM.codeAddress p) s in
  if run then
    let '(s, c) := if isNative then (s, []) else code pick (LegacyVM.codeAddress p) s in
    let e := with_ext (Some (frame i (LegacyVM.receiveAddress p) (LegacyVM.senderAddress p) origin
                               (LegacyVM.apparentValue p) gasPrice (LegacyVM.data p) c (m_depth e)
                               (LegacyVM.staticCall_ p))) e in
    (if isNative then with_native (Some (LegacyVM.codeAddress p)) e else e, s)
  else (e, s).
Definition call_message (i : EnvInfo) (p : CallParameters) (gasPrice origin : Z) (e : Executive)
    (s : State) : result ExecError (Executive * State * bool) :=
  let e := with_savepoint false (savepoint s) e in
  '(e, s, done) ←
    match (if isPrecompiled params (LegacyVM.codeAddress p) (info_number i)
           then precompiled params !! LegacyVM.codeAddress p else None) with
    | Some c => call_precompiled c i p e s
    | None => Ok (call_code i p gasPrice origin e s, false)
    end;
  if done : bool then Ok (e, s, true)
  else
    s ← from_state (transferBalance pick (LegacyVM.senderAddress p) (LegacyVM.receiveAddress p)
                      (LegacyVM.valueTransfer p) s);
    Ok (e, s, if m_ext e then false else true).
Definition call (i : EnvInfo) (p : CallParameters) (gasPrice origin : Z) (e : Executive) (s : State)
    : result ExecError (Executive * State * bool) :=
  s ← (if non_null (m_t e) && counts_nonce (LegacyVM.senderAddress p) i
       then from_state (incNonce pick (LegacyVM.senderAddress p) s) else Ok s);
  call_message i p gasPrice origin e s.

(** The address of a new contract: [rlpList(_sender, nonce)] for a creation,
    the salt and the hash of the code for [CREATE2] *)
Definition create_rlp (sender nonce : Z) : result RLPError bytes :=
  s ← appendList 2 empty_stream;
  s ← append_hash (toBigEndian_u160 sender) false false s;
  s ← append_int nonce s;
  out s.
Definition create_address (sender nonce : Z) : Z :=
  match create_rlp sender nonce with Ok bs => u160 (sha3 bs) | Err _ => 0 end.
Definition create2_address (sender salt : Z) (init : bytes) : Z :=
  u160 (sha3 (toBigEndian_u160 sender ++ toBigEndian_u256 salt ++ toBigEndian_u256 (sha3 init))).

(** [executeCreate], from the savepoint on, and the whole function *)
Definition create_message (i : EnvInfo) (sender endowment gasPrice gas : Z) (init : bytes)
    (origin : Z) (e : Executive) (s : State) : result ExecError (Executive * State * bool) :=
  let e := with_savepoint true (savepoint s) e in
  let e := with_gas gas e in
  let '(s, hasCode) := addressHasCode pick (m_newAddress e) s in
  let '(s, accountAlreadyExist) :=
    if hasCode then (s, true)
    else let '(s, n) := getNonce pick (m_newAddress e) s in (s, 0 <? n) in
  if accountAlreadyExist : bool then
    let e := with_excepted AddressAlreadyUsed (with_gas 0 e) in
    '(e, s) ← revert e s;
    Ok (with_ext None e, s, true)
  else
    s ← from_state (transferBalance pick sender (m_newAddress e) endowment s);
    newNonce ← from_state (requireAccountStartNonce s);
    let newNonce := if EIP158ForkBlock params <=? info_number i then u256 (newNonce + 1) else newNonce in
    let s := setNonce pick (m_newAddress e) newNonce s in
    let e := if bool_decide (init = []) then e
             else with_ext (Some (frame i (m_newAddress e) sender origin endowment gasPrice [] init
                                    (m_depth e) false)) e in
    Ok (e, s, if m_ext e then false else true).
Definition executeCreate (i : EnvInfo) (sender endowment gasPrice gas : Z) (init : bytes)
    (origin : Z) (e : Executive) (s : State) : result ExecError (Executive * State * bool) :=
  s ← (if counts_nonce sender i then from_state (incNonce pick sender s) else Ok s);
  create_message i sender endowment gasPrice gas init origin e s.

(** [createOpcode], [create], [create2Opcode] *)
Definition createOpcode (i : EnvInfo) (sender endowment gasPrice gas : Z) (init : bytes)
    (origin : Z) (e : Executive) (s : State) : result ExecError (Executive * State * bool) :=
  let '(s, nonce) := getNonce pick sender s in
  executeCreate i sender endowment gasPrice gas init origin
    (with_newAddress (create_address sender nonce) e) s.
Definition create2Opcode (i : EnvInfo) (sender endowment gasPrice gas : Z) (init : bytes)
    (origin salt : Z) (e : Executive) (s : State) : result ExecError (Executive * State * bool) :=
  executeCreate i sender endowment gasPrice gas init origin
    (with_newAddress (create2_address sender salt init) e) s.

(** [initialize]: the check of the transaction; an exception leaves what was
    set. *)
Definition initialize (i : EnvInfo) (t : TransactionBase) (e : Executive) (s : State)
    : Executive * State * result TxError unit :=
  let base := baseGasRequired t (schedule_of i) in
  let e := with_transaction t base (m_gasCost e) e in
  match verifyTransaction params Everything t (info_header i) (info_gasUsed i) with
  | Err x => (with_excepted (toTransactionException x) e, s, Err x)
  | Ok _ =>
    if hasZeroSignature t then (e, s, Ok ())
    else
      match sender t with
      | Err InvalidSignature => (with_excepted InvalidSignature_ e, s, Err InvalidSignature)
      | Err x => (e, s, Err x)
      | Ok a =>
        let '(s, nonceReq) := getNonce pick a s in
        if negb (m_nonce t =? nonceReq) then (with_excepted InvalidNonce_ e, s, Err InvalidNonce)
        else
          let gasCost := TransactionBase.m_gas t * m_gasPrice t in
          let totalCost := m_value t + gasCost in
          let '(s, b) := balance pick a s in
          if b <? totalCost then (with_excepted NotEnoughCash_ e, s, Err TransactionBase.NotEnoughCash)
          else (with_transaction t base (u256 gasCost) e, s, Ok ())
      end
  end.

(** [execute] *)
Definition execute (i : EnvInfo) (e : Executive) (s : State)
    : result ExecError (Executive * State * bool) :=
  let t := m_t e in
  a ← from_tx (sender t);
  s ← from_state (subBalance pick a (m_gasCost e) s);
  let gas := u256 (TransactionBase.m_gas t - u256 (m_baseGasRequired e)) in
  if isCreation t then createOpcode i a (m_value t) (m_gasPrice t) gas (m_data t) a e s
  else
    call i (mkCallParameters a (m_receiveAddress t) (m_receiveAddress t) (m_value t) (m_value t) gas
              (m_data t) false) (m_gasPrice t) a e s.

(** [finalize] *)
Definition finalize (i : EnvInfo) (e : Executive) (s : State) : result ExecError (Executive * State * bool) :=
  let e := with_ext (f ← m_ext e;
                     let sub := f_sub f in
                     let r := u64 (Instruction.suicideRefundGas (schedule_of i) *
                                   Z.of_nat (length (suicides sub))) in
                     Some (mkFrame (f_env f) (mkSub (suicides sub) (logs sub) (u256 (refunds sub + r)))))
             e in
  let refunded := match m_ext e with
                  | Some f => Z.min (u256 (TransactionBase.m_gas (m_t e) - m_gas e) / 2) (refunds (f_sub f))
                  | None => 0
                  end in
  let e := with_gas (u256 (m_gas e + refunded)) e in
  s ← (if non_null (m_t e) then
         a ← from_tx (sender (m_t e));
         s ← from_state (addBalance pick a (u256 (m_gas e * m_gasPrice (m_t e))) s);
         let fees := u256 (u256 (TransactionBase.m_gas (m_t e) - m_gas e) * m_gasPrice (m_t e)) in
         from_state (addBalance pick (m_author (info_header i)) fees s)
       else Ok s);
  let s := match m_ext e with
           | Some f => fold_left (λ s a, kill pick a.1 s) (suicides (f_sub f)) s
           | None => s
           end in
  let e := with_refunded refunded
             (match m_ext e with Some f => logs (f_sub f) | None => m_logs e end) e in
  let e := with_res (r ← m_res e;
             Some (mkResult (gasUsed e) (m_excepted e) (m_newAddress e) (r_output r) (r_codeDeposit r)
                     (match m_ext e with Some f => refunds (f_sub f) | None => 0 end)
                     (r_depositSize r) (r_gasForDeposit r))) e in
  Ok (e, s, bool_decide (m_excepted e = None_)).

(** ** Running code *)

(** The world of the virtual machine: the state and the sub-state of the
    frame *)
Record World := mkWorld { w_state : State; w_sub : SubState }.

(** A run of the machine in a frame, from its gas and world to what is left
    of them and the result; [None] is undefined behaviour. *)
Definition Runner : Type := Env → Z → World → option (Z * World * result VMError bytes).

(** The handlers of [go] *)
Definition go_catch (x : VMError) (e : Executive) (s : State) : result ExecError (Executive * State) :=
  match x with
  | LegacyVM.RevertInstruction output =>
    '(e, s) ← revert e s;
    Ok (with_excepted RevertInstruction_ (with_output output e), s)
  | LegacyVM.WorldException | LegacyVM.Undefined => Err Aborted
  | _ => revert (with_excepted (vm_exception x) (with_gas 0 e)) s
  end.

(** [m_ext->sub], which the machine changes *)
Definition set_sub (sub : SubState) (e : Executive) : Executive :=
  with_ext (f ← m_ext e; Some (mkFrame (f_env f) sub)) e.
Definition set_deposit (d : CodeDeposit) (e : Executive) : Executive :=
  with_res (r ← m_res e;
    Some (mkResult (r_gasUsed r) (r_excepted r) (r_newAddress r) (r_output r) d
            (r_gasRefunded r) (r_depositSize r) (r_gasForDeposit r))) e.
Definition set_deposit_size (size gas : Z) (e : Executive) : Executive :=
  with_res (r ← m_res e;
    Some (mkResult (r_gasUsed r) (r_excepted r) (r_newAddress r) (r_output r) (r_codeDeposit r)
            (r_gasRefunded r) (u32 size) gas)) e.
Definition set_result_output (o : bytes) (e : Executive) : Executive :=
  with_res (r ← m_res e;
    Some (mkResult (r_gasUsed r) (r_excepted r) (r_newAddress r) o (r_codeDeposit r)
            (r_gasRefunded r) (r_depositSize r) (r_gasForDeposit r))) e.

(** [go], in the creation of a contract: the code of the contract is the
    output of its initialisation, when there is gas for it. *)
Definition go_deposit (f : Frame) (out : bytes) (e : Executive) (s : State)
    : result ExecError (Executive * State) :=
  let sched := LegacyVM.evmSchedule (f_env f) in
  let e := set_deposit_size (size out) (m_gas e) e in
  let cost := u64 (size out * Instruction.createDataGas sched) in
  if Instruction.maxCodeSize sched <? size out then go_catch LegacyVM.OutOfGas e s
  else if cost <=? m_gas e then
    let e := with_gas (u256 (m_gas e - cost)) (set_deposit Deposit_Success e) in
    Ok (set_result_output out e, setCode pick (LegacyVM.myAddress (f_env f)) out s)
  else if Instruction.exceptionalFailedCodeDeposit sched then go_catch LegacyVM.OutOfGas e s
  else
    let e := set_deposit Deposit_Failed e in
    Ok (set_result_output [] e, setCode pick (LegacyVM.myAddress (f_env f)) [] s).
Definition go_create (run : Runner) (f : Frame) (e : Executive) (s : State)
    : result ExecError (Executive * State) :=
  let s := clearStorage (LegacyVM.myAddress (f_env f)) s in
  match run (f_env f) (m_gas e) (mkWorld s (f_sub f)) with
  | None => Err Aborted
  | Some (gas, w, r) =>
    let e := set_sub (w_sub w) (with_gas gas e) in
    match r with
    | Ok out => go_deposit f out e (w_state w)
    | Err x => go_catch x e (w_state w)
    end
  end.
(** [go], in a message call: of a native contract or of code *)
Definition go_native (addr : Z) (f : Frame) (e : Executive) (s : State)
    : result ExecError (Executive * State) :=
  match callVM pick addr (LegacyVM.depth (f_env f)) s with
  | (s, Ok out) => Ok (with_output out e, s)
  | (s, Err AssetContractCalledDirectly) => revert (with_excepted Unknown (with_gas 0 e)) s
  | (s, Err _) => Err Aborted
  end.
Definition go_call (run : Runner) (f : Frame) (e : Executive) (s : State)
    : result ExecError (Executive * State) :=
  match m_native e with
  | Some addr => go_native addr f e s
  | None =>
    match run (f_env f) (m_gas e) (mkWorld s (f_sub f)) with
    | None => Err Aborted
    | Some (gas, w, r) =>
      let e := set_sub (w_sub w) (with_gas gas e) in
      match r with
      | Ok out => Ok (with_output out e, w_state w)
      | Err x => go_catch x e (w_state w)
      end
    end
  end.
Definition go (run : Runner) (e : Executive) (s : State) : result ExecError (Executive * State) :=
  match m_ext e with
  | None => Ok (e, s)
  | Some f =>
    '(e, s) ← (if m_isCreation e then go_create run f e s else go_call run f e s);
    Ok (if bool_decide (m_output e = []) then e else set_result_output (m_output e) e, s)
  end.

(** [executeTransaction] *)
Definition executeTransaction (run : Runner) (i : EnvInfo) (t : TransactionBase) (e : Executive)
    (s : State) : result ExecError (Executive * State * bool) :=
  let '(e, s, r) := initialize i t e s in
  _ ← from_tx r;
  '(e, s, done) ← execute i e s;
  '(e, s) ← (if done : bool then Ok (e, s) else go run e s);
  finalize i e s.

(** [State::execute], without the receipt; [Reverted] clears the cache. *)
Inductive Permanence := Reverted | Committed | Uncommitted.
Definition State_execute (run : Runner) (i : EnvInfo) (t : TransactionBase) (p : Permanence)
    (s : State) : result ExecError (ExecutionResult * Executive * State) :=
  '(e, s, _) ← executeTransaction run i t (with_res (Some no_result) (new 0)) s;
  let s := match p with
           | Reverted => drop_cache s
           | Committed => commit (if EIP158ForkBlock params <=? info_number i
                                  then RemoveEmptyAccounts else KeepEmptyAccounts) s
           | Uncommitted => s
           end in
  Ok (default no_result (m_res e), e, s).

(** *** [ExtVM] *)

(** [goOnOffloadedStack] runs [go] in a thread and waits for it. *)
Definition finish (run : Runner) (done : bool) (sub : SubState) (e : Executive) (s : State)
    : result ExecError (Executive * World) :=
  if done then Ok (e, mkWorld s sub)
  else '(e, s) ← go run e s; Ok (e, mkWorld s (accrueSubState e sub)).
Definition ext_call (run : Runner) (i : EnvInfo) (env : Env) (p : CallParameters)
    : world World (bool * bytes * Z) := λ w,
  match ('(e, s, done) ← call i p (LegacyVM.gasPrice env) (LegacyVM.origin env)
                           (new (u32 (LegacyVM.depth env + 1))) (w_state w);
         finish run done (w_sub w) e s) with
  | Ok (e, w) => Some (w, (status_success (m_excepted e), m_output e, m_gas e))
  | Err _ => None
  end.
Definition ext_create (run : Runner) (i : EnvInfo) (env : Env) (endowment gas : Z) (code : bytes)
    (create2 : bool) (salt : Z) : world World (Z * bytes * Z) := λ w,
  let e := new (u32 (LegacyVM.depth env + 1)) in
  match ('(e, s, done) ←
           (if create2
            then create2Opcode i (LegacyVM.myAddress env) endowment (LegacyVM.gasPrice env) gas code
                   (LegacyVM.origin env) salt e (w_state w)
            else createOpcode i (LegacyVM.myAddress env) endowment (LegacyVM.gasPrice env) gas code
                   (LegacyVM.origin env) e (w_state w));
         finish run done (w_sub w) e s) with
  | Ok (e, w) => Some (w, (m_newAddress e, m_output e, m_gas e))
  | Err _ => None
  end.
Definition ext_suicide (env : Env) (a : Z) : world World unit := λ w,
  let my := LegacyVM.myAddress env in
  let '(s, b) := balance pick my (w_state w) in
  match (s ← addBalance pick a b s; setBalance pick my 0 s) with
  | Ok s =>
    let sub := w_sub w in
    Some (mkWorld s (mkSub (om_insert my () (suicides sub)) (logs sub) (refunds sub)), ())
  | Err _ => None
  end.
Definition ext_exists (env : Env) (a : Z) : world World bool := λ w,
  let '(s, b) := (if Instruction.emptinessIsNonexistence (LegacyVM.evmSchedule env)
                  then accountNonemptyAndExisting else addressInUse) pick a (w_state w) in
  Some (mkWorld s (w_sub w), b).

(** [blockHash]: of the blocks before, or the result of a transaction to the
    contract that keeps the hashes, executed with the state of the frame *)
Definition c_blockhashContractAddress : Z := 0xf0.
Definition blockhash_transaction (env : Env) (number nonce : Z) : TransactionBase :=
  forceSender (LegacyVM.caller env)
    (mkTransaction MessageCall nonce 0 c_blockhashContractAddress 0 1000000 (toBigEndian_u256 number)
       None (-4) 0).
Definition ext_blockHash (outer : Runner) (i : EnvInfo) (env : Env) (number : Z)
    : world World Z := λ w,
  let currentNumber := u256 (info_number i) in
  if (currentNumber <=? number) || (number <? Z.max 256 currentNumber - 256) then Some (w, 0)
  else if currentNumber <? u256 (constantinopleForkBlock params + 256) then
    match precedingHashes (m_parentHash (info_header i)) !! Z.to_nat (u32 (currentNumber - 1 - number)) with
    | Some h => Some (w, h)
    | None => None
    end
  else
    let '(s, nonce) := getNonce pick (LegacyVM.caller env) (w_state w) in
    match State_execute outer i (blockhash_transaction env number nonce) Reverted s with
    | Ok (res, _, s) =>
      let o := r_output res in
      Some (mkWorld s (w_sub w), if (length o =? 32)%nat then u256 (be_val o) else 0)
    | Err _ => None
    end.

(** The virtual functions of [ExtVM] in a frame; [run] runs the code of the
    messages it sends, [outer] that of a whole transaction. *)
Definition ext_vm (outer run : Runner) (i : EnvInfo) (env : Env) : ExtVMFace World := {|
  LegacyVM.ext_store k w :=
    let '(s, v) := storage pick (LegacyVM.myAddress env) k (w_state w) in Some (mkWorld s (w_sub w), v);
  LegacyVM.ext_setStore k v w :=
    Some (mkWorld (setStorage pick (LegacyVM.myAddress env) k v (w_state w)) (w_sub w), ());
  LegacyVM.ext_balance a w :=
    let '(s, b) := balance pick a (w_state w) in Some (mkWorld s (w_sub w), b);
  LegacyVM.ext_codeAt a w :=
    let '(s, c) := code pick a (w_state w) in Some (mkWorld s (w_sub w), c);
  LegacyVM.ext_codeSizeAt a w :=
    let '(s, n) := codeSize pick a (w_state w) in Some (mkWorld s (w_sub w), n);
  LegacyVM.ext_exists := ext_exists env;
  LegacyVM.ext_suicide := ext_suicide env;
  LegacyVM.ext_create := ext_create run i env;
  LegacyVM.ext_call := ext_call run i env;
  LegacyVM.ext_log ts d w :=
    let sub := w_sub w in
    Some (mkWorld (w_state w)
            (mkSub (suicides sub) (logs sub ++ [mkLog (LegacyVM.myAddress env) ts d]) (refunds sub)), ());
  LegacyVM.ext_blockHash := ext_blockHash outer i env;
  LegacyVM.ext_add_refund n w :=
    let sub := w_sub w in
    Some (mkWorld (w_state w) (mkSub (suicides sub) (logs sub) (u256 (refunds sub + n))), ());
  LegacyVM.ext_sha3 := sha3;
|}.

(** [LegacyVM::exec] in a frame below which there are at most [levels] more,
    with enough fuel for its gas.  A frame at depth 1024 sends no message. *)
Fixpoint run_level (outer : Runner) (i : EnvInfo) (levels : nat) (env : Env) (gas : Z) (w : World)
    : option (Z * World * result VMError bytes) :=
  let run := match levels with O => λ _ _ _, None | S n => run_level outer i n end in
  @LegacyVM.exec World (ext_vm outer run i env) env (LegacyVMExec.exec_fuel gas) gas w.

(** The machine of a transaction.  A transaction to the contract of the block
    hashes is executed within it; the stack of the process has room for
    [stack] of them within each other. *)
Fixpoint run (stack : nat) (i : EnvInfo) : Runner :=
  run_level (match stack with O => λ _ _ _, None | S n => run n i end) i 1024.

End Executive.
End Executive.
