(* ===== verification/ExecutiveSafety.v ===== *)
(** * Messages between contracts are executed safely

    The virtual functions of [ExtVM] satisfy the laws that the virtual machine
    relies on, by induction on the depth of the call; with the theorem about
    the machine, executing a message gives a result: nothing throws, no state
    is rolled back further than its log goes, the process does not end. *)
From S2P Require Import Prelude CommonData RLP RLPCodec State StateSteps NativeStorage Instruction LegacyVM LegacyVMLogic LegacyVMExec TransactionBase BlockHeader SealEngine Executive.

Module ExecutiveSafety.
Import BlockHeader(BlockHeader, mkHeader, m_number, m_timestamp, m_author, m_gasLimit,
  m_difficulty, m_parentHash).
Import CommonData RLP State StateSteps NativeStorage TransactionBase SealEngine Executive.
Import LegacyVM(CallParameters, mkCallParameters, world, ExtVMFace, ExtVMFaceLaws, Env, mkEnv, VMError,
  buffer_ok, does, params_ok).

(** Reads members of an executive that setters built. *)
Ltac ex :=
  cbn [m_ext m_native m_output m_res m_depth m_excepted m_baseGasRequired m_gas m_refunded m_t m_logs
       m_gasCost m_isCreation m_newAddress m_savepoint with_ext with_native with_output with_res
       with_excepted with_gas with_transaction with_newAddress with_savepoint with_refunded
       f_env f_sub frame LegacyVM.depth LegacyVM.myAddress mbind result_bind orb] in *.

Section Safety.
Context `{StateDB Root} `{!StateDBLaws Root} (pick : nat → nat → nat).
Context (recover : SignatureStruct → Z → bytes) (precedingHashes : Z → list Z).
Context (params : ChainOperationParams).
Notation State := (State (Root:=Root)).
Notation World := (@World Root).
Notation moves := (StateSteps.moves RootContractAddress).
Notation fine := (StateSteps.fine RootContractAddress).
Notation slots s a := (slot_of (view s a)).

(** ** What the theorems assume of the chain *)

(** Hashes are words and none of them is the address of the root contract;
    precompiled contracts have a price and give buffers; the hashes of 256
    blocks are known. *)
Record chain_ok : Prop := {
  co_sha3 bs : in_word 256 (sha3 bs);
  co_root bs : u160 (sha3 bs) ≠ RootContractAddress;
  co_precompiled a c d :
    precompiled params !! a = Some c → buffer_ok d → 0 ≤ m_cost c d ∧ buffer_ok (m_execute c d).2;
  co_fork : 0 ≤ constantinopleForkBlock params < 2 ^ 63;
  co_hashes h : length (precedingHashes h) = 256%nat ∧ Forall (in_word 256) (precedingHashes h);
}.

(** The header is one of 256 bit words, of a block before the hashes of the
    blocks are kept by a contract. *)
Record info_ok (i : EnvInfo) : Prop := {
  io_words : let h := info_header i in
    Forall (in_word 256) [m_author h; m_timestamp h; m_number h; m_difficulty h; m_gasLimit h];
  io_number : info_number i < 2 ^ 63;
  io_fork : info_number i < constantinopleForkBlock params + 256;
}.

(** ** Good states and frames *)

(** The invariant of the state; the root contract has no code, and every
    native contract it names has a machine. *)
Record sound (s : State) : Prop := {
  so_fine : fine s;
  so_natives : natives_ok (slots s RootContractAddress);
  so_root : from_option o_code [] (view s RootContractAddress) = [];
}.
Definition settled_at (s : State) (a : Z) : Prop := ∃ o, view s a = Some o ∧ settled o.

(** A frame that may run code *)
Record frame_ok (env : Env) : Prop := {
  fo_env : LegacyVMLogic.env_ok env;
  fo_root : LegacyVM.myAddress env ≠ RootContractAddress;
  fo_depth : 0 ≤ LegacyVM.depth env;
}.
Definition good (env : Env) (w : World) : Prop :=
  sound (w_state w) ∧ settled_at (w_state w) (LegacyVM.myAddress env).

Lemma sound_wf s : sound s → wf s.
Proof. intros Hs. apply Hs. Qed.
Lemma sound_moves d s s' : sound s → moves d s s' → sound s'.
Proof.
  intros [Hf Hn Hr] Hm. destruct (mv_root _ _ _ _ Hm) as [Hc Hs]. split.
  - apply Hm.
  - eapply natives_ok_ext; [|done]. intros k. symmetry. apply Hs.
  - congruence.
Qed.
Lemma settled_moves d s s' a : moves d s s' → settled_at s a → settled_at s' a.
Proof.
  intros Hm (o&Ho&Hs). destruct (mv_kept _ _ _ _ Hm a o Ho) as (o'&Ho'&[_ Hk]). exists o'. auto.
Qed.
Lemma good_moves d env w w' : good env w → moves d (w_state w) (w_state w') → good env w'.
Proof. intros [Hs Ha] Hm. split; [by eapply sound_moves|by eapply settled_moves]. Qed.
Lemma settled_view s a : settled_at s a → view s a ≠ None.
Proof. by intros (o&->&_). Qed.
Lemma moves_here s : sound s → moves 0 s s.
Proof. intros Hs. by apply moves_refl, Hs. Qed.
Lemma moves_then d s1 s2 s3 : moves 0 s1 s2 → moves d s2 s3 → moves d s1 s3.
Proof. intros H1 H2. replace d with (0 + d) by lia. by eapply moves_trans. Qed.
Lemma moves_re s s' : sound s → refresh s s' → moves 0 s s'.
Proof. intros Hs Hre. apply moves_refresh; [apply Hs|done]. Qed.

(** The root contract runs no code. *)
Lemma root_no_code s : sound s → (addressHasCode pick RootContractAddress s).2 = false.
Proof.
  intros Hs. unfold addressHasCode. pose proof (account_spec pick RootContractAddress s (sound_wf _ Hs)) as Ha.
  destruct (account pick RootContractAddress s) as [s1 r]. destruct Ha as (_&_&_&Hv).
  pose proof (so_root _ Hs) as Hc. simpl.
  destruct (view s RootContractAddress) as [o|] eqn:Ho, r as [acc|];
    inversion Hv as [? ? Heq|]; subst; [|done].
  destruct (wf_obs _ (sound_wf _ Hs) _ _ Ho) as [Hh _]. simpl in Hc. rewrite Hc in Hh.
  replace (Account.m_codeHash acc) with (o_codeHash o) by apply Heq.
  rewrite <-Hh. unfold Account.EmptySHA3. by rewrite Z.eqb_refl.
Qed.

(** Reads of the state *)
Lemma addressHasCode_spec s a :
  sound s →
  let '(s', b) := addressHasCode pick a s in
  refresh s s' ∧ (b = true → settled_at s a ∧ a ≠ RootContractAddress) ∧
  (b = false → ∀ o, view s a = Some o → o_codeHash o = Account.EmptySHA3).
Proof.
  intros Hs. pose proof (root_no_code s Hs) as Hroot. revert Hroot. unfold addressHasCode.
  pose proof (account_spec pick a s (sound_wf _ Hs)) as Ha.
  destruct (account pick a s) as [s1 r] eqn:Hac. destruct Ha as (Hre&_&_&Hv). intros Hroot.
  split; [done|].
  destruct (view s a) as [o|] eqn:Ho, r as [acc|];
    inversion Hv as [? ? Heq|]; subst; [|done]. simpl in *.
  assert (o_codeHash o = Account.m_codeHash acc) as Hch by apply Heq.
  rewrite <-Hch. split.
  - intros Hne%negb_true_iff%Z.eqb_neq. split; [exists o; split; [done|by right]|].
    intros ->. rewrite Hac in Hroot. simpl in Hroot. rewrite <-Hch in Hroot.
    by apply negb_false_iff, Z.eqb_eq in Hroot.
  - intros He%negb_false_iff%Z.eqb_eq o' [= <-]. done.
Qed.
Lemma getNonce_spec s a :
  wf s →
  let '(s', n) := getNonce pick a s in
  refresh s s' ∧ n = from_option o_nonce (m_accountStartNonce s) (view s a).
Proof.
  intros Hwf. unfold getNonce. pose proof (account_spec pick a s Hwf) as Ha.
  destruct (account pick a s) as [s1 r]. destruct Ha as (Hre&_&_&Hv). split; [done|].
  destruct (view s a) as [o|], r as [acc|]; inversion Hv as [? ? Heq|]; subst; simpl;
    [symmetry; apply Heq|by rewrite (re_start _ _ Hre)].
Qed.
Lemma balance_spec s a :
  wf s → let '(s', b) := balance pick a s in refresh s s' ∧ b = bal s a.
Proof.
  intros Hwf. unfold balance, bal. pose proof (account_spec pick a s Hwf) as Ha.
  destruct (account pick a s) as [s1 r]. destruct Ha as (Hre&_&_&Hv). split; [done|].
  destruct (view s a) as [o|], r as [acc|]; inversion Hv as [? ? Heq|]; subst; simpl;
    [symmetry; apply Heq|done].
Qed.
Lemma bal_refresh (s s' : State) a : refresh s s' → bal s' a = bal s a.
Proof. intros Hre. symmetry. apply bal_proper, Hre. Qed.
Lemma code_buffer s a : sound s → let '(s', c) := code pick a s in refresh s s' ∧ buffer_ok c.
Proof.
  intros Hs. pose proof (code_spec pick a s (sound_wf _ Hs)) as Hc.
  destruct (code pick a s) as [s' c]. destruct Hc as [Hre ->]. split; [done|].
  destruct (view s a) as [o|] eqn:Ho; simpl; [|by split; [constructor|]].
  apply (fi_obs _ _ (so_fine _ Hs) a o Ho).
Qed.

(** A rollback to the savepoint of [s0] *)
Lemma revert_spec d s0 s1 e :
  sound s0 → moves d s0 s1 → m_savepoint e = savepoint s0 →
  ∃ e' s', revert e s1 = Ok (e', s') ∧ moves 0 s0 s' ∧ veq (view s') (view s0) ∧
    e' = with_newAddress 0 (with_ext (f ← m_ext e; Some (mkFrame (f_env f) empty_sub)) e).
Proof.
  intros Hs Hm Hsp. unfold revert. destruct (moves_rollback _ d s0 s1 (so_fine _ Hs) Hm) as (s'&Hr&Hm'&Hv).
  simpl. rewrite Hsp, Hr. eauto 10.
Qed.

(** ** Running the code of an executive *)

(** A run of the machine in frames at depth [d] *)
Definition runner_ok (d : Z) (run : Runner) : Prop := ∀ env gas w,
  frame_ok env → LegacyVM.depth env = d → good env w →
  ∃ gas' w' r, run env gas w = Some (gas', w', r) ∧ 0 ≤ gas' ≤ u64 gas ∧
    moves 0 (w_state w) (w_state w') ∧ LegacyVMExec.ends_well r.

(** A change of the account [a] is logged: it stays in the cache. *)
Definition logged (s : State) (a : Z) : Prop := Exists (λ c, change_address c = a) (m_changeLog s).
Lemma logged_pinned s s' a : step s s' → logged s a → pinned s' a.
Proof.
  intros [Hwf _ _ (new&Hlog&_)] Hl. pose proof (wf_pinned _ Hwf) as Hp. rewrite Hlog in Hp.
  apply Forall_app in Hp as [_ Hp]. apply Exists_exists in Hl as (c&Hc&<-).
  rewrite Forall_forall in Hp. by apply Hp.
Qed.

(** An executive in state [s] that is to run [f], with its savepoint at [s0] *)
Record ready (s0 s : State) (f : Frame) (e : Executive) : Prop := {
  rd_sound : sound s0;
  rd_moves : moves 0 s0 s;
  rd_savepoint : m_savepoint e = savepoint s0;
  rd_ext : m_ext e = Some f;
  rd_gas : 0 ≤ m_gas e;
  rd_output : buffer_ok (m_output e);
  rd_excepted : m_excepted e = None_;
  rd_run :
    if m_isCreation e then
      frame_ok (f_env f) ∧ logged s (LegacyVM.myAddress (f_env f)) ∧
      ∃ o, view s (LegacyVM.myAddress (f_env f)) = Some o ∧ o_root o = EmptyTrie
    else
      match m_native e with
      | Some a => (native_name (slots s RootContractAddress) a).1 ≠ 0
      | None => frame_ok (f_env f) ∧ settled_at s (LegacyVM.myAddress (f_env f))
      end;
}.

(** [s'] shows what [s] shows, up to an account without anything that is new:
    the one of a precompiled contract that there was no gas for. *)
Definition undone (s s' : State) : Prop := ∀ a,
  view s' a ≡ view s a ∨
  view s a = None ∧ view s' a ≡ Some (new_obs (m_accountStartNonce s) 0).

Lemma undone_view s s' : veq (view s') (view s) → undone s s'.
Proof. intros Hv a. left. apply Hv. Qed.
Lemma undone_bal s s' a : undone s s' → bal s' a = bal s a.
Proof.
  intros Hu. destruct (Hu a) as [Hv|[Hn Hv]]; [symmetry; by apply bal_proper|].
  unfold bal. rewrite Hn. destruct (view s' a); inversion Hv as [? ? Ho|]; subst. apply Ho.
Qed.
(** An account is touched. *)
Lemma undone_touch s s' a :
  wf s → writes a (wr_balance (m_accountStartNonce s) 0) s s' → undone s s'.
Proof.
  intros Hwf [_ _ Hat Hother] a'. destruct (decide (a' = a)) as [->|Hne]; [|by left; apply Hother].
  destruct (view s a) as [o|] eqn:Ho; [left|by right]. etrans; [exact Hat|]. constructor. simpl.
  destruct (wf_obs _ Hwf _ _ Ho) as [_ Hb]. rewrite Z.add_0_r, wrap_small by done. by split_and!.
Qed.

(** What [go] leaves of an executive: when it fails, the view of the savepoint
    and an empty sub-state. *)
Record went (s0 s' : State) (g : Z) (t : TransactionBase) (e' : Executive) : Prop := {
  we_moves : moves 0 s0 s';
  we_gas : 0 ≤ m_gas e' ≤ g;
  we_output : buffer_ok (m_output e');
  we_t : m_t e' = t;
  we_failed : m_excepted e' ≠ None_ →
    undone s0 s' ∧ ∀ f, m_ext e' = Some f → f_sub f = empty_sub;
}.

Lemma went_result s0 s' g t e' o : went s0 s' g t e' → went s0 s' g t (set_result_output o e').
Proof. by intros []. Qed.
Lemma went_gas s0 s' g g' t e' : g ≤ g' → went s0 s' g t e' → went s0 s' g' t e'.
Proof. intros Hg []. split; [done|lia|done..]. Qed.

(** The handlers of exceptions *)
Lemma catch_spec d s0 s1 x e :
  sound s0 → moves d s0 s1 → m_savepoint e = savepoint s0 → 0 ≤ m_gas e → buffer_ok (m_output e) →
  LegacyVMLogic.exn_ok x →
  ∃ e' s', go_catch x e s1 = Ok (e', s') ∧ went s0 s' (m_gas e) (m_t e) e' ∧ m_excepted e' ≠ None_.
Proof.
  intros Hs Hm Hsp Hg Ho Hx. unfold go_catch.
  assert (∀ x', x' ≠ None_ →
    ∃ e' s', revert (with_excepted x' (with_gas 0 e)) s1 = Ok (e', s') ∧ went s0 s' (m_gas e) (m_t e) e' ∧
             m_excepted e' ≠ None_) as Hrev.
  { intros x' Hx'. destruct (revert_spec d s0 s1 (with_excepted x' (with_gas 0 e)) Hs Hm Hsp)
      as (e'&s'&->&Hm'&Hv&->).
    do 2 eexists. split; [done|]. split; [|done]. split; simpl; [done|lia|done|done|].
    intros _. split; [by apply undone_view|]. intros f. destruct (m_ext e); [|done]. by intros [= <-]. }
  destruct x; try by apply Hrev.
  - destruct (revert_spec d s0 s1 e Hs Hm Hsp) as (e'&s'&->&Hm'&Hv&->). simpl.
    do 2 eexists. split; [done|]. split; [|done]. split; simpl; [done|lia|done|done|].
    intros _. split; [by apply undone_view|]. intros f. destruct (m_ext e); [|done]. by intros [= <-].
  - done.
  - done.
Qed.

Lemma wrap_le w z : 0 ≤ w → 0 ≤ z → 0 ≤ wrap w z ≤ z.
Proof.
  intros Hw Hz. pose proof (wrap_in_word w z Hw) as [? _]. split; [done|].
  apply Z.mod_le; [done|]. apply Z.pow_pos_nonneg; lia.
Qed.

Lemma setCode_moves s0 s1 my c :
  sound s0 → moves 0 s0 s1 → my ≠ RootContractAddress → logged s1 my → buffer_ok c →
  (∃ o, view s1 my = Some o ∧ o_root o = EmptyTrie) → moves 0 s0 (setCode pick my c s1).
Proof.
  intros Hs Hm Hne Hl Hc (o&Ho&Hr). eapply moves_then; [done|].
  pose proof (sound_moves _ _ _ Hs Hm) as Hs1.
  eapply moves_setCode; [apply Hs1| |done|exact Hc|done|done].
  eapply logged_pinned; [|done]. apply (mv_step _ _ _ _ (moves_here _ Hs1)).
Qed.
Lemma deposit_spec s0 s1 f out e :
  sound s0 → moves 0 s0 s1 → m_savepoint e = savepoint s0 → 0 ≤ m_gas e → buffer_ok (m_output e) →
  m_excepted e = None_ → LegacyVM.myAddress (f_env f) ≠ RootContractAddress →
  logged s1 (LegacyVM.myAddress (f_env f)) → buffer_ok out →
  (∃ o, view s1 (LegacyVM.myAddress (f_env f)) = Some o ∧ o_root o = EmptyTrie) →
  ∃ e' s', go_deposit pick f out e s1 = Ok (e', s') ∧ went s0 s' (m_gas e) (m_t e) e'.
Proof.
  intros Hs Hm Hsp Hg Ho Hx Hne Hl Hout Hroot. unfold go_deposit.
  set (e1 := set_deposit_size _ _ e). set (cost := u64 _).
  assert (∃ e' s', go_catch LegacyVM.OutOfGas e1 s1 = Ok (e', s') ∧ went s0 s' (m_gas e) (m_t e) e') as Hcatch.
  { destruct (catch_spec 0 s0 s1 LegacyVM.OutOfGas e1 Hs Hm Hsp Hg Ho I) as (e'&s'&Hc&Hw&_).
    exists e', s'. split; [done|]. done. }
  destruct (Instruction.maxCodeSize _ <? _); [done|].
  destruct (Z.leb_spec cost (m_gas e1)) as [Hcost|].
  - do 2 eexists. split; [done|]. apply went_result. change (m_gas e1) with (m_gas e) in *.
    assert (0 ≤ cost) by by apply (wrap_in_word 64).
    pose proof (wrap_le 256 (m_gas e - cost)) as Hle.
    split; simpl; [by apply setCode_moves|lia|done|done|congruence].
  - destruct (Instruction.exceptionalFailedCodeDeposit _); [done|].
    do 2 eexists. split; [done|]. apply went_result.
    split; simpl; [|lia|done|done|congruence]. apply setCode_moves; try done. by split; [constructor|].
Qed.

Lemma step_logged s s' a : step s s' → logged s a → logged s' a.
Proof.
  intros [_ _ _ (new&Hlog&_)] Hl. unfold logged. rewrite Hlog. apply Exists_app. by right.
Qed.

(** The storage of a new contract is empty: [clearStorage] finds nothing. *)
Lemma clearStorage_new s a o :
  wf s → pinned s a → view s a = Some o → o_root o = EmptyTrie → clearStorage a s = s.
Proof.
  intros Hwf (acc&Hacc&_) Ho Hr. unfold clearStorage. rewrite (update_id s a acc) by done.
  unfold entry. rewrite Hacc. simpl. rewrite decide_True; [done|].
  unfold view, lookup_account in Ho. rewrite Hacc in Ho. simplify_eq/=. done.
Qed.

(** [go] runs what is ready and ends without an exception of its own. *)
Lemma go_spec s0 s f e run :
  ready s0 s f e → runner_ok (LegacyVM.depth (f_env f)) run →
  ∃ e' s', go pick run e s = Ok (e', s') ∧ went s0 s' (m_gas e) (m_t e) e'.
Proof.
  intros [Hs Hm Hsp Hext Hg Ho Hx Hrun] Hrunner. unfold go. rewrite Hext.
  pose proof (sound_moves _ _ _ Hs Hm) as Hs1.
  assert (∃ e' s', (if m_isCreation e then go_create pick run f e s else go_call pick run f e s) =
            Ok (e', s') ∧ went s0 s' (m_gas e) (m_t e) e') as (e'&s'&->&Hw).
  2:{ simpl. do 2 eexists. split; [done|]. destruct (bool_decide _); [done|]. by apply went_result. }
  destruct (m_isCreation e).
  - destruct Hrun as (Hf&Hl&o&Hv&Hr). unfold go_create.
    rewrite (clearStorage_new s _ o); [|by apply sound_wf| |done|done].
    2:{ eapply logged_pinned; [|done]. apply (mv_step _ _ _ _ (moves_here _ Hs1)). }
    destruct (Hrunner (f_env f) (m_gas e) (mkWorld s (f_sub f)) Hf eq_refl) as (g&w&r&->&Hgas&Hmw&Hends).
    { split; [done|]. exists o. split; [done|by left]. }
    pose proof (wrap_le 64 (m_gas e)) as Hle. simpl in Hmw. pose proof (moves_then _ _ _ _ Hm Hmw) as Hm'.
    set (e1 := set_sub (w_sub w) (with_gas g e)).
    assert (m_gas e1 = g ∧ m_t e1 = m_t e ∧ m_savepoint e1 = m_savepoint e ∧ m_output e1 = m_output e ∧
            m_excepted e1 = m_excepted e) as (Hg1&Ht1&Hsp1&Ho1&Hx1) by done.
    clearbody e1. destruct r as [out|x].
    + destruct (mv_kept _ _ _ _ Hmw _ o Hv) as (o'&Hv'&[Hk _]).
      edestruct (deposit_spec s0 (w_state w) f out e1) as (e'&s'&Hd&Hw);
        [done|done|congruence|lia|congruence|congruence|apply Hf| |done|by eauto|].
      { eapply step_logged; [apply Hmw|done]. }
      exists e', s'. split; [done|]. rewrite <-Ht1. apply (went_gas _ _ (m_gas e1)); [lia|done].
    + destruct (catch_spec 0 s0 (w_state w) x e1) as (e'&s'&Hc&Hw&_);
        [done|done|congruence|lia|congruence|done|].
      exists e', s'. split; [done|]. rewrite <-Ht1. apply (went_gas _ _ (m_gas e1)); [lia|done].
  - unfold go_call. destruct (m_native e) as [addr|].
    + unfold go_native.
      pose proof (callVM_spec pick addr (LegacyVM.depth (f_env f)) s (sound_wf _ Hs1)
                    (so_natives _ Hs1) Hrun) as Hcall.
      destruct (callVM pick addr _ s) as [s1 r]. destruct Hcall as [Hre ->].
      pose proof (moves_then _ _ _ _ Hm (moves_re _ _ Hs1 Hre)) as Hm1.
      destruct (_ =? 1).
      * do 2 eexists. split; [done|]. split; simpl; [done|lia|by split; [constructor|]|done|congruence].
      * destruct (revert_spec 0 s0 s1 (with_excepted Unknown (with_gas 0 e)) Hs Hm1 Hsp)
          as (e'&s'&->&Hm'&Hv&->).
        do 2 eexists. split; [done|]. split; simpl; [done|lia|done|done|].
        intros _. split; [by apply undone_view|]. intros f'. rewrite Hext. by intros [= <-].
    + destruct Hrun as [Hf Hset].
      destruct (Hrunner (f_env f) (m_gas e) (mkWorld s (f_sub f)) Hf eq_refl) as (g&w&r&->&Hgas&Hmw&Hends);
        [done|].
      pose proof (wrap_le 64 (m_gas e)) as Hle. simpl in Hmw. pose proof (moves_then _ _ _ _ Hm Hmw) as Hm'.
      set (e1 := set_sub (w_sub w) (with_gas g e)).
      assert (m_gas e1 = g ∧ m_t e1 = m_t e ∧ m_savepoint e1 = m_savepoint e ∧ m_output e1 = m_output e ∧
              m_excepted e1 = m_excepted e) as (Hg1&Ht1&Hsp1&Ho1&Hx1) by done.
      clearbody e1. destruct r as [out|x].
      * do 2 eexists. split; [done|]. split; simpl; [done|lia|done|done|congruence].
      * destruct (catch_spec 0 s0 (w_state w) x e1) as (e'&s'&Hc&Hw&_);
          [done|done|congruence|lia|congruence|done|].
        exists e', s'. split; [done|]. rewrite <-Ht1. apply (went_gas _ _ (m_gas e1)); [lia|done].
Qed.

(** ** Setting up a message *)

Section Messages.
Context (CO : chain_ok) (i : EnvInfo) (IO : info_ok i).

(** The frame of words and buffers may run code. *)
Lemma frame_frame_ok my caller origin value gasPrice data code depth static :
  Forall (in_word 256) [my; caller; origin; value; gasPrice] → buffer_ok data → buffer_ok code →
  my ≠ RootContractAddress → 0 ≤ depth →
  frame_ok (f_env (frame params i my caller origin value gasPrice data code depth static)).
Proof.
  intros Hw Hd Hc Hne Hdepth. split; simpl; [|done|done]. constructor; simpl; [|done|done|apply schedule_ok].
  pose proof (io_words _ IO) as Hi. rewrite !Forall_cons in *. by destruct_and!; split_and!.
Qed.

(** A new executive, or one of a transaction before the message *)
Record fresh (e : Executive) : Prop := {
  fr_ext : m_ext e = None;
  fr_native : m_native e = None;
  fr_output : m_output e = [];
  fr_gas : m_gas e = 0;
  fr_excepted : m_excepted e = None_;
  fr_creation : m_isCreation e = false;
  fr_depth : 0 ≤ m_depth e;
}.
Lemma new_fresh d : 0 ≤ d → fresh (new d).
Proof. done. Qed.

(** How setting up a message ends: done, or ready to run its code *)
Definition set_up (s0 s : State) (g : Z) (t : TransactionBase) (depth : Z) (e : Executive) (fin : bool) : Prop :=
  if fin then went s0 s g t e
  else ∃ f, ready s0 s f e ∧ m_gas e ≤ g ∧ m_t e = t ∧ LegacyVM.depth (f_env f) = depth.

(** A message: from the sender, with words and buffers, to an account that
    may be the one of the running code *)
Record message_ok (s : State) (p : CallParameters) (gasPrice origin : Z) : Prop := {
  ms_words : Forall (in_word 256)
    [LegacyVM.senderAddress p; LegacyVM.receiveAddress p; LegacyVM.valueTransfer p;
     LegacyVM.apparentValue p; gasPrice; origin];
  ms_gas : 0 ≤ LegacyVM.gas p;
  ms_data : buffer_ok (LegacyVM.data p);
  ms_receive : LegacyVM.receiveAddress p = LegacyVM.codeAddress p ∨
    settled_at s (LegacyVM.receiveAddress p) ∧ LegacyVM.receiveAddress p ≠ RootContractAddress;
  ms_value : LegacyVM.valueTransfer p ≤ bal s (LegacyVM.senderAddress p);
}.

Lemma buffer_nil : buffer_ok [].
Proof. by split; [constructor|]. Qed.

Lemma call_code_spec s p gasPrice origin e :
  sound s → fresh e → message_ok s p gasPrice origin →
  let '(e', s') := call_code pick params i p gasPrice origin e s in
  refresh s s' ∧ m_gas e' = LegacyVM.gas p ∧ m_t e' = m_t e ∧ m_output e' = [] ∧
  m_excepted e' = None_ ∧ m_savepoint e' = m_savepoint e ∧ m_isCreation e' = false ∧
  match m_ext e' with
  | None => True
  | Some f => LegacyVM.depth (f_env f) = m_depth e ∧
    match m_native e' with
    | Some a => (native_name (slots s RootContractAddress) a).1 ≠ 0
    | None => frame_ok (f_env f) ∧ settled_at s (LegacyVM.myAddress (f_env f))
    end
  end.
Proof.
  intros Hs [Hext Hnat Hout Hgas Hx Hcr Hd] [Hw Hg Hdata Hrecv Hval]. unfold call_code.
  pose proof (isNativeContract_spec pick (LegacyVM.codeAddress p) s (sound_wf _ Hs)) as Hn.
  destruct (isNativeContract _ _ _) as [s1 isNative]. destruct Hn as [Hre1 Hn].
  pose proof (sound_moves _ _ _ Hs (moves_re _ _ Hs Hre1)) as Hs1.
  destruct isNative.
  { ex. symmetry in Hn. apply negb_true_iff, Z.eqb_neq in Hn. by split_and!. }
  clear Hn. pose proof (addressHasCode_spec s1 (LegacyVM.codeAddress p) Hs1) as Hh.
  destruct (addressHasCode _ _ _) as [s2 run]. destruct Hh as (Hre2&Hrun&_).
  pose proof (refresh_trans _ _ _ Hre1 Hre2) as Hre12. destruct run.
  2:{ ex. rewrite Hext. by split_and!. }
  destruct (Hrun eq_refl) as [Hset Hne].
  pose proof (sound_moves _ _ _ Hs1 (moves_re _ _ Hs1 Hre2)) as Hs2.
  pose proof (code_buffer s2 (LegacyVM.codeAddress p) Hs2) as Hc.
  destruct (code pick _ s2) as [s3 c]. destruct Hc as [Hre3 Hc]. ex.
  split; [by eapply refresh_trans|]. rewrite Hnat. split_and!; try done.
  - assert (LegacyVM.receiveAddress p ≠ RootContractAddress) as Hne' by (by destruct Hrecv as [->|[_ ?]]).
    rewrite !Forall_cons in Hw. destruct_and!. apply frame_frame_ok; [|done..]. rewrite !Forall_cons. by split_and!.
  - destruct Hrecv as [->|[? _]]; [|done]. destruct Hset as (o&Ho&Hst).
    pose proof (re_view _ _ Hre1 (LegacyVM.codeAddress p)) as Hv. rewrite Ho in Hv.
    destruct (view s (LegacyVM.codeAddress p)) as [o'|] eqn:Ho'; inversion Hv as [? ? Heq|]; subst.
    exists o'. split; [done|]. by rewrite Heq.
Qed.

(** The native contracts stay the same. *)
Lemma native_name_moves d s s' a :
  moves d s s' →
  native_name (slots s' RootContractAddress) a = native_name (slots s RootContractAddress) a.
Proof. intros Hm. apply data_at_ext. intros k. apply (mv_root _ _ _ _ Hm). Qed.

(** The transfer of the value at the end of setting up a message *)
Lemma transfer_value s s1 a b v :
  sound s → refresh s s1 → in_word 256 v → v ≤ bal s a →
  ∃ s', transferBalance pick a b v s1 = Ok s' ∧ moves 0 s s' ∧
    (view s b = None → ∃ o, view s' b = Some o ∧ o_root o = EmptyTrie) ∧
    ∀ a', a' ≠ a → a' ≠ b → view s' a' ≡ view s a'.
Proof.
  intros Hs Hre Hv Hle. pose proof (moves_re _ _ Hs Hre) as Hm.
  destruct (moves_transferBalance pick RootContractAddress s1 a b v) as (s'&Ht&Hm'&Ho&Hex);
    [apply Hm|done|by rewrite (bal_refresh s s1)|].
  exists s'. split; [done|]. split; [by eapply moves_then|]. split.
  - intros Hnone. apply Hex. pose proof (re_view _ _ Hre b) as Hvb. rewrite Hnone in Hvb.
    by inversion Hvb.
  - intros a' Ha Hb. rewrite Ho by done. symmetry. apply Hre.
Qed.

Lemma call_precompiled_spec s p gasPrice origin c e :
  sound s → fresh e → message_ok s p gasPrice origin → m_savepoint e = savepoint s →
  precompiled params !! LegacyVM.codeAddress p = Some c →
  ∃ e' s' fin, call_precompiled pick params c i p e s = Ok (e', s', fin) ∧
    if fin : bool then went s s' (LegacyVM.gas p) (m_t e) e'
    else s' = s ∧ m_ext e' = None ∧ m_excepted e' = None_ ∧ m_t e' = m_t e ∧
      0 ≤ m_gas e' ≤ LegacyVM.gas p ∧ buffer_ok (m_output e').
Proof.
  intros Hs [Hext Hnat Hout Hgas Hx Hcr Hd] [Hw Hg Hdata Hrecv Hval] Hsp Hc. unfold call_precompiled.
  destruct (co_precompiled CO _ _ _ Hc Hdata) as [Hcost Hexec].
  destruct (Z.ltb_spec (LegacyVM.gas p) (m_cost c (LegacyVM.data p))) as [|Hle].
  - assert (∃ s', (if EIP158ForkBlock params <=? info_number i
              then from_state (addBalance pick (LegacyVM.codeAddress p) 0 s) else Ok s) = Ok s' ∧
              moves 0 s s' ∧ undone s s') as (s'&->&Hm&Hu).
    { destruct (_ <=? _); [|exists s; split_and!; [done|by apply moves_here|by apply undone_view]].
      destruct (moves_addBalance pick RootContractAddress s (LegacyVM.codeAddress p) 0 (so_fine _ Hs))
        as (s'&->&Hm&Hwr); [done|]. exists s'. split_and!; [done|done|].
      by eapply undone_touch; [apply sound_wf|]. }
    do 3 eexists. split; [done|]. ex. split; ex; rewrite ?Hgas, ?Hout, ?Hext;
      [done|lia|apply buffer_nil|done|]. intros _. split; [done|]. intros f [=].
  - destruct (m_execute c (LegacyVM.data p)) as [success output] eqn:Hex. ex.
    pose proof (wrap_le 256 (LegacyVM.gas p - m_cost c (LegacyVM.data p))) as Hwr.
    destruct success; cbn [negb]; do 3 eexists; (split; [done|]); ex.
    + split_and!; try done; lia.
    + split; ex; [by apply moves_here|lia|done|done|]. intros _. split; [by apply undone_view|]. rewrite Hext. intros f [=].
Qed.

Lemma call_message_spec s p gasPrice origin e :
  sound s → fresh e → message_ok s p gasPrice origin →
  ∃ e' s' fin, call_message pick params i p gasPrice origin e s = Ok (e', s', fin) ∧
    set_up s s' (LegacyVM.gas p) (m_t e) (m_depth e) e' fin.
Proof.
  intros Hs Hf Hp. unfold call_message. set (e1 := with_savepoint false (savepoint s) e).
  assert (fresh e1) as Hf1 by (destruct Hf; split; unfold e1; ex; rewrite ?orb_false_r; done).
  assert (m_savepoint e1 = savepoint s ∧ m_t e1 = m_t e ∧ m_depth e1 = m_depth e) as (Hsp&Ht&Hdep) by done.
  clearbody e1. rewrite <-Ht, <-Hdep. clear e Hf Ht Hdep.
  pose proof (ms_words _ _ _ _ Hp) as Hw. rewrite !Forall_cons in Hw. destruct_and!.
  assert (∃ r, (if isPrecompiled params (LegacyVM.codeAddress p) (info_number i)
           then precompiled params !! LegacyVM.codeAddress p else None) = r ∧
           (∀ c, r = Some c → precompiled params !! LegacyVM.codeAddress p = Some c)) as (r&->&Hr).
  { destruct (isPrecompiled _ _ _); by eexists. }
  destruct r as [c|].
  - destruct (call_precompiled_spec s p gasPrice origin c e1 Hs Hf1 Hp Hsp (Hr c eq_refl))
      as (e'&s'&fin&->&Hfin). cbn [mbind result_bind].
    destruct fin; [do 3 eexists; split; [done|exact Hfin]|].
    destruct Hfin as (->&Hext&Hx&Ht&Hg&Ho).
    destruct (transfer_value s s (LegacyVM.senderAddress p) (LegacyVM.receiveAddress p)
                (LegacyVM.valueTransfer p) Hs) as (s'&->&Hm&_);
      [by apply refresh_refl, sound_wf|done|apply Hp|].
    cbn [mbind result_bind from_state]. rewrite Hext. do 3 eexists. split; [done|].
    by split.
  - pose proof (call_code_spec s p gasPrice origin e1 Hs Hf1 Hp) as Hcall.
    destruct (call_code _ _ _ _ _ _ _ _) as [e' s1]. destruct Hcall as (Hre&Hg&Ht&Ho&Hx&Hsp'&Hcr&Hext).
    cbn [mbind result_bind].
    destruct (transfer_value s s1 (LegacyVM.senderAddress p) (LegacyVM.receiveAddress p)
                (LegacyVM.valueTransfer p) Hs Hre) as (s'&->&Hm&_); [done|apply Hp|].
    cbn [mbind result_bind from_state]. pose proof (ms_gas _ _ _ _ Hp).
    destruct (m_ext e') as [f|] eqn:He; do 3 eexists; (split; [done|]).
    + destruct Hext as [Hdep Hrun]. exists f. split_and!; [|lia|done|done].
      split; [done|done|congruence|done|lia|rewrite Ho; apply buffer_nil|done|].
      rewrite Hcr. destruct (m_native e') as [a|]; [by rewrite (native_name_moves _ _ _ _ Hm)|].
      destruct Hrun. split; [done|]. by eapply settled_moves.
    + split; [done|lia|rewrite Ho; apply buffer_nil|done|]. intros Hne. congruence.
Qed.

Lemma logged_setNonce s a n : logged (setNonce pick a n s) a.
Proof.
  unfold setNonce. destruct (account pick a s) as [s1 [acc|]]; unfold logged; simpl; by constructor.
Qed.

(** A creation, from the savepoint on: when the address is not used, its
    storage is empty. *)
Lemma create_message_spec s sender endowment gasPrice gas init origin e :
  sound s → fresh e → m_newAddress e ≠ RootContractAddress →
  Forall (in_word 256) [m_newAddress e; sender; origin; endowment; gasPrice] → 0 ≤ gas →
  buffer_ok init → endowment ≤ bal s sender →
  ∃ e' s' fin,
    create_message pick params i sender endowment gasPrice gas init origin e s = Ok (e', s', fin) ∧
    set_up s s' gas (m_t e) (m_depth e) e' fin.
Proof.
  intros Hs [Hext Hnat Hout Hgas Hx Hcr Hd] Hne Hw Hg Hinit Hval. unfold create_message.
  set (e1 := with_gas gas _). set (new := m_newAddress e1). change (m_newAddress e) with new in *.
  pose proof (addressHasCode_spec s new Hs) as Hh.
  destruct (addressHasCode _ _ _) as [s1 hasCode]. destruct Hh as (Hre1&_&Hempty).
  pose proof (sound_moves _ _ _ Hs (moves_re _ _ Hs Hre1)) as Hs1.
  assert (∃ s2 used, (if hasCode then (s1, true)
            else let '(s, n) := getNonce pick new s1 in (s, 0 <? n)) = (s2, used) ∧ refresh s s2 ∧
            (used = false → ∀ o, view s new = Some o → o_root o = EmptyTrie)) as (s2&used&->&Hre&Hroot).
  { destruct hasCode; [by exists s1, true|]. pose proof (getNonce_spec s1 new (sound_wf _ Hs1)) as Hn.
    destruct (getNonce pick new s1) as [s2 n]. destruct Hn as [Hre2 ->]. do 2 eexists. split; [done|].
    split; [by eapply refresh_trans|]. intros Hn%Z.ltb_ge o Ho.
    pose proof (re_view _ _ Hre1 new) as Hv. rewrite Ho in Hv.
    destruct (view s1 new) as [o1|]; inversion Hv as [? ? Heq|]; subst. simpl in Hn.
    replace (o_nonce o1) with (o_nonce o) in Hn by apply Heq.
    destruct (fi_obs _ _ (so_fine _ Hs) _ _ Ho) as [[? _] _ _ Hst].
    destruct Hst as [?|[[Hst|Hst]|Hst]]; [done|done| |lia]. by rewrite (Hempty eq_refl o Ho) in Hst. }
  destruct used.
  - destruct (revert_spec 0 s s2 (with_excepted AddressAlreadyUsed (with_gas 0 e1)) Hs)
      as (e'&s'&->&Hm&Hv&->); [by apply moves_re|done|].
    ex. do 3 eexists. split; [done|]. split; unfold e1; ex;
      [done|lia|rewrite Hout; apply buffer_nil|done|]. intros _. split; [by apply undone_view|]. intros f [=].
  - rewrite !Forall_cons in Hw. destruct_and!.
    destruct (transfer_value s s2 sender new endowment Hs Hre) as (s3&->&Hm3&Hnew&_); [done|done|].
    cbn [mbind result_bind from_state]. pose proof (sound_moves _ _ _ Hs Hm3) as Hs3.
    destruct (fi_start _ _ (so_fine _ Hs3)) as [Hstart Hinv]. rewrite start_ok by done.
    cbn [mbind result_bind from_state]. set (n := if _ <=? _ then _ else _).
    assert (in_word 256 n) as Hwn by (unfold n; destruct (_ <=? _); [by apply wrap_in_word|done]).
    assert (∃ o, view s3 new = Some o ∧ o_root o = EmptyTrie) as (o3&Ho3&Hr3).
    { destruct (view s new) as [o|] eqn:Ho; [|by apply Hnew].
      destruct (mv_kept _ _ _ _ Hm3 new o Ho) as (o'&Ho'&Hk&_). exists o'. auto. }
    assert (moves 0 s3 (setNonce pick new n s3)) as Hm4.
    { apply moves_setNonce; [apply _|by apply so_fine|done|]. intros o Ho. simplify_eq. left. by left. }
    pose proof (moves_then _ _ _ _ Hm3 Hm4) as Hm.
    destruct (bool_decide (init = [])).
    + assert (m_ext e1 = None) as -> by done. do 3 eexists. split; [done|].
      split; unfold e1; ex; [done|lia|rewrite Hout; apply buffer_nil|done|congruence].
    + unfold e1 at 2. cbn [m_ext with_ext]. do 3 eexists. split; [done|].
      exists (frame params i new sender origin endowment gasPrice [] init (m_depth e) false).
      split_and!; unfold e1; ex; [|lia|done|done].
      split; ex; [done|done|done|done|done|rewrite Hout; apply buffer_nil|done|].
      rewrite orb_true_r. split_and!.
      * apply frame_frame_ok; try done; [|by apply buffer_nil]. rewrite !Forall_cons. by split_and!.
      * apply logged_setNonce.
      * destruct (mv_kept _ _ _ _ Hm4 new o3 Ho3) as (o'&Ho'&Hk&_). exists o'. auto.
Qed.

Lemma finish_spec s0 s g t depth e fin sub run :
  sound s0 → set_up s0 s g t depth e fin → runner_ok depth run →
  ∃ e' w', finish pick run fin sub e s = Ok (e', w') ∧ went s0 (w_state w') g t e' ∧
    (m_excepted e' ≠ None_ → fin = false → w_sub w' = accrueSubState e' sub ∧
       ∀ f, m_ext e' = Some f → f_sub f = empty_sub) ∧ (fin = true → w_sub w' = sub).
Proof.
  intros Hs Hset Hrun. unfold finish. destruct fin; [by exists e, (mkWorld s sub)|].
  destruct Hset as (f&Hr&Hg&Ht&Hd). rewrite <-Hd in Hrun.
  destruct (go_spec s0 s f e run Hr Hrun) as (e'&s'&->&Hw). cbn [mbind result_bind].
  do 2 eexists. split; [done|]. rewrite <-Ht. split; [by eapply went_gas|]. split; [|done].
  intros Hx _. split; [done|]. apply (we_failed _ _ _ _ _ Hw Hx).
Qed.
(** A message that fails leaves the sub-state of its frame. *)
Definition same_sub (sub sub' : SubState) : Prop :=
  suicides sub' = suicides sub ∧ logs sub' = logs sub ∧
  (in_word 256 (refunds sub) → refunds sub' = refunds sub).
Lemma finish_sub s0 s g t depth e fin sub run :
  sound s0 → set_up s0 s g t depth e fin → runner_ok depth run →
  ∃ e' w', finish pick run fin sub e s = Ok (e', w') ∧ went s0 (w_state w') g t e' ∧
    (m_excepted e' ≠ None_ → same_sub sub (w_sub w')).
Proof.
  intros Hs Hset Hrun. destruct (finish_spec _ _ _ _ _ _ _ sub _ Hs Hset Hrun) as (e'&w'&->&Hw&Hsub&Hfin).
  exists e', w'. split; [done|]. split; [done|]. intros Hx.
  destruct fin; [by rewrite Hfin|]. destruct (Hsub Hx eq_refl) as [-> He]. unfold accrueSubState.
  destruct (m_ext e') as [f|]; [|done]. rewrite (He f eq_refl). unfold same_sub, sub_add, empty_sub. simpl.
  rewrite app_nil_r, Z.add_0_r. split_and!; [done|done|]. intros Hr. by apply wrap_small.
Qed.

(** ** The virtual functions of [ExtVM] *)

Section ExtVM.
Context (env : Env) (FO : frame_ok env) (outer run : Runner (Root:=Root)).
Notation my := (LegacyVM.myAddress env).
Notation step w w' := (moves 0 (w_state w) (w_state w')).

Lemma does_refresh {A} (w : World) (s' : State) (a : A) (Q : World → A → Prop) (f : world World A) :
  good env w → f w = Some (mkWorld s' (w_sub w), a) → refresh (w_state w) s' →
  Q (mkWorld s' (w_sub w)) a → does (λ w w', step w w') f w Q.
Proof.
  intros [Hs _] Hf Hre HQ. do 2 eexists. split; [done|]. split; [|done]. by apply moves_re.
Qed.

Lemma frame_words :
  Forall (in_word 256) [my; LegacyVM.origin env; LegacyVM.gasPrice env].
Proof.
  pose proof (LegacyVMLogic.eo_words (env_ok:=fo_env _ FO)) as Hw. rewrite !Forall_cons in *.
  by destruct_and!; split_and!.
Qed.

Lemma ext_exists_does w a :
  good env w → does (λ w w', step w w') (ext_exists pick env a) w (λ _ _, True).
Proof.
  intros [Hs _]. unfold ext_exists, does, accountNonemptyAndExisting, addressInUse.
  pose proof (account_spec pick a (w_state w) (sound_wf _ Hs)) as Ha.
  destruct (Instruction.emptinessIsNonexistence _); destruct (account pick a (w_state w)) as [s1 r];
    do 2 eexists; (split; [done|]); (split; [|done]); by apply moves_re, Ha.
Qed.
Lemma ext_suicide_does w a :
  good env w → does (λ w w', step w w') (ext_suicide pick env a) w (λ _ _, True).
Proof.
  intros [Hs Hset]. unfold ext_suicide, does.
  pose proof (balance_spec (w_state w) my (sound_wf _ Hs)) as Hb.
  destruct (balance pick my (w_state w)) as [s1 b]. destruct Hb as [Hre ->].
  pose proof (moves_re _ _ Hs Hre) as Hm1. pose proof (sound_moves _ _ _ Hs Hm1) as Hs1.
  rewrite <-(bal_refresh _ _ my Hre).
  destruct (moves_suicide pick RootContractAddress s1 my a) as (s2&s3&Ha&Hb&Hm);
    [apply Hs1|by eapply settled_view, settled_moves|].
  rewrite Ha. cbn [mbind result_bind]. rewrite Hb. do 2 eexists. split; [done|]. split; [|done].
  by eapply moves_then.
Qed.

Lemma ext_blockHash_does w n :
  good env w → in_word 256 n →
  does (λ w w', step w w') (ext_blockHash pick recover precedingHashes params outer i env n) w
    (λ _, in_word 256).
Proof.
  intros [Hs Hset] Hn. unfold ext_blockHash, does.
  assert (in_word 256 (info_number i)) as Hw.
  { pose proof (io_words _ IO) as Hw. rewrite !Forall_cons in Hw. apply Hw. }
  pose proof (io_fork _ IO). pose proof (io_number _ IO). pose proof (co_fork CO).
  rewrite (wrap_small 256 (info_number i)), (wrap_small 256 (constantinopleForkBlock params + 256));
    [|unfold in_word; change (2 ^ 256) with (2 ^ 63 * 2 ^ 193); nia|done].
  destruct ((info_number i <=? n) || _) eqn:Hr.
  { do 2 eexists. split; [done|]. split; [by apply moves_here|done]. }
  apply orb_false_iff in Hr as [Hr1%Z.leb_gt Hr2%Z.ltb_ge].
  rewrite (proj2 (Z.ltb_lt _ _)) by lia.
  destruct (co_hashes CO (m_parentHash (info_header i))) as [Hlen Hall].
  destruct Hn as [Hn _].
  rewrite (wrap_small 32) by (unfold in_word; change (2 ^ 32) with 4294967296; lia).
  destruct (lookup_lt_is_Some_2 (precedingHashes (m_parentHash (info_header i)))
              (Z.to_nat (info_number i - 1 - n))) as [h Hh]; [lia|].
  rewrite Hh. do 2 eexists. split; [done|]. split; [by apply moves_here|]. by eapply Forall_lookup_1.
Qed.

Lemma ext_call_went w p :
  good env w → runner_ok (LegacyVM.depth env + 1) run → LegacyVM.depth env < 1024 → params_ok env p →
  LegacyVM.valueTransfer p = 0 ∨ LegacyVM.senderAddress p = my ∧ LegacyVM.valueTransfer p ≤ bal (w_state w) my →
  ∃ e' w', ext_call pick params run i env p w =
      Some (w', (status_success (m_excepted e'), m_output e', m_gas e')) ∧
    went (w_state w) (w_state w') (LegacyVM.gas p) TransactionBase.null e' ∧
    (m_excepted e' ≠ None_ → same_sub (w_sub w) (w_sub w')).
Proof.
  intros [Hs Hset] Hrun Hdep [Hw Hg Hd Hrecv] Hval. unfold ext_call, call.
  pose proof (fo_depth _ FO). rewrite (wrap_small 32) by (unfold in_word; change (2 ^ 32) with 4294967296; lia).
  change (non_null (m_t (new (LegacyVM.depth env + 1)))) with false. cbn [andb mbind result_bind].
  pose proof frame_words as He. rewrite !Forall_cons in He. rewrite !Forall_cons in Hw. destruct_and!.
  destruct (call_message_spec (w_state w) p (LegacyVM.gasPrice env) (LegacyVM.origin env)
              (new (LegacyVM.depth env + 1)) Hs) as (e'&s'&fin&->&Hup); [by apply new_fresh; lia| |].
  { split; [rewrite !Forall_cons; by split_and!|lia|done| |].
    - destruct Hrecv as [?| ->]; [by left|]. right. split; [done|apply FO].
    - destruct Hval as [->|[-> ?]]; [by apply bal_nonneg, sound_wf|done]. }
  cbn [mbind result_bind].
  destruct (finish_sub _ _ _ _ _ _ _ (w_sub w) run Hs Hup Hrun) as (e2&w2&->&Hw2&Hsub).
  exists e2, w2. by split_and!.
Qed.
Lemma ext_call_does w p :
  good env w → runner_ok (LegacyVM.depth env + 1) run → LegacyVM.depth env < 1024 → params_ok env p →
  LegacyVM.valueTransfer p = 0 ∨ LegacyVM.senderAddress p = my ∧ LegacyVM.valueTransfer p ≤ bal (w_state w) my →
  does (λ w w', step w w') (ext_call pick params run i env p) w
    (λ _ r, buffer_ok r.1.2 ∧ 0 ≤ r.2 ≤ LegacyVM.gas p).
Proof.
  intros Hg Hrun Hdep Hp Hval. destruct (ext_call_went w p Hg Hrun Hdep Hp Hval) as (e'&w'&Heq&[]&_).
  unfold does. rewrite Heq. do 2 eexists. split; [done|]. by split.
Qed.

(** Addresses of new contracts *)
Lemma address_word z : in_word 256 (u160 z).
Proof.
  pose proof (wrap_in_word 160 z ltac:(lia)) as [? ?]. split; [done|].
  eapply Z.lt_trans; [done|]. by apply Z.pow_lt_mono_r.
Qed.
Lemma create_address_ok sender nonce :
  in_word 256 (create_address sender nonce) ∧ create_address sender nonce ≠ RootContractAddress.
Proof.
  unfold create_address. destruct (create_rlp _ _); [split; [apply address_word|by apply CO]|].
  split; [done|]. intros Heq. vm_compute in Heq. discriminate Heq.
Qed.
Lemma create2_address_ok sender salt init :
  in_word 256 (create2_address sender salt init) ∧
  create2_address sender salt init ≠ RootContractAddress.
Proof. split; [apply address_word|by apply CO]. Qed.

(** The nonce of an account; the account of the sender is counted up. *)
Definition nonce_at (s : State) (a : Z) : Z := from_option o_nonce (m_accountStartNonce s) (view s a).
Record counted (b : bool) (sender : Z) (s s0 : State) : Prop := {
  co_nonce : nonce_at s0 sender = if b then u256 (nonce_at s sender + 1) else nonce_at s sender;
  co_bal a : bal s0 a = bal s a;
  co_other a : a ≠ sender → view s0 a ≡ view s a;
}.
Lemma count_spec s sender (b : bool) :
  sound s → (∀ o, view s sender = Some o → settled o ∨ o_nonce o < 2 ^ 256 - 1) →
  ∃ s0, (if b then from_state (incNonce pick sender s) else Ok s) = Ok s0 ∧ moves 0 s s0 ∧
    counted b sender s s0.
Proof.
  intros Hs Hnonce. destruct b; [|by exists s; split_and!; try apply moves_here].
  destruct (moves_incNonce pick RootContractAddress s sender (so_fine _ Hs) Hnonce) as (s0&->&Hm&Hwr).
  exists s0. split_and!; [done|done|]. split.
  - unfold nonce_at. pose proof (wr_at _ _ _ _ Hwr) as Hat.
    destruct (view s0 sender) as [o0|]; inversion Hat as [? ? Ho|]; subst.
    destruct (view s sender); simpl in *; apply Ho.
  - intros a. destruct (decide (a = sender)) as [->|Hne].
    + rewrite (bal_writes _ _ _ _ Hwr). unfold bal. by destruct (view s sender).
    + apply bal_proper. by apply (wr_other _ _ _ _ Hwr).
  - apply Hwr.
Qed.

Lemma executeCreate_spec s sender endowment gasPrice gas init origin e :
  sound s → fresh e → m_newAddress e ≠ RootContractAddress →
  Forall (in_word 256) [m_newAddress e; sender; origin; endowment; gasPrice] → 0 ≤ gas →
  buffer_ok init → endowment ≤ bal s sender →
  (∀ o, view s sender = Some o → settled o ∨ o_nonce o < 2 ^ 256 - 1) →
  ∃ s0 e' s' fin,
    executeCreate pick params i sender endowment gasPrice gas init origin e s = Ok (e', s', fin) ∧
    sound s0 ∧ moves 0 s s0 ∧ counted (counts_nonce params sender i) sender s s0 ∧
    set_up s0 s' gas (m_t e) (m_depth e) e' fin.
Proof.
  intros Hs Hf Hne Hw Hg Hinit Hval Hnonce. unfold executeCreate.
  destruct (count_spec s sender (counts_nonce params sender i) Hs Hnonce) as (s0&->&Hm&Hct).
  pose proof (co_bal _ _ _ _ Hct sender) as Hbal.
  cbn [mbind result_bind]. pose proof (sound_moves _ _ _ Hs Hm) as Hs0.
  destruct (create_message_spec s0 sender endowment gasPrice gas init origin e)
    as (e'&s'&fin&->&Hup); try done; [by rewrite Hbal|]. by exists s0, e', s', fin.
Qed.

Lemma ext_create_does w v g c two salt :
  good env w → runner_ok (LegacyVM.depth env + 1) run → LegacyVM.depth env < 1024 →
  v ≤ bal (w_state w) my → in_word 256 v → 0 ≤ g → buffer_ok c →
  does (λ w w', step w w') (ext_create pick params run i env v g c two salt) w
    (λ _ r, buffer_ok r.1.2 ∧ 0 ≤ r.2 ≤ g).
Proof.
  intros [Hs Hset] Hrun Hdep Hval Hv Hg Hc. unfold ext_create, does.
  pose proof (fo_depth _ FO). rewrite (wrap_small 32) by (unfold in_word; change (2 ^ 32) with 4294967296; lia).
  pose proof frame_words as He. rewrite !Forall_cons in He. destruct_and!.
  assert (∃ a s1, (if two
            then create2Opcode pick params i my v (LegacyVM.gasPrice env) g c (LegacyVM.origin env) salt
                   (new (LegacyVM.depth env + 1)) (w_state w)
            else createOpcode pick params i my v (LegacyVM.gasPrice env) g c (LegacyVM.origin env)
                   (new (LegacyVM.depth env + 1)) (w_state w)) =
          executeCreate pick params i my v (LegacyVM.gasPrice env) g c (LegacyVM.origin env)
            (with_newAddress a (new (LegacyVM.depth env + 1))) s1 ∧
          refresh (w_state w) s1 ∧ in_word 256 a ∧ a ≠ RootContractAddress) as (a&s1&->&Hre&Ha&Hne).
  { destruct two.
    - do 2 eexists. split; [done|]. split; [by apply refresh_refl, sound_wf|]. apply create2_address_ok.
    - unfold createOpcode. pose proof (getNonce_spec (w_state w) my (sound_wf _ Hs)) as Hn.
      destruct (getNonce pick my (w_state w)) as [s1 n]. destruct Hn as [Hre _].
      do 2 eexists. split; [done|]. split; [done|]. apply create_address_ok. }
  pose proof (moves_re _ _ Hs Hre) as Hm1. pose proof (sound_moves _ _ _ Hs Hm1) as Hs1.
  destruct (executeCreate_spec s1 my v (LegacyVM.gasPrice env) g c (LegacyVM.origin env)
              (with_newAddress a (new (LegacyVM.depth env + 1))) Hs1)
    as (s0&e'&s'&fin&->&Hs0&Hm0&_&Hup); try done.
  { split; try done. simpl. lia. }
  { rewrite !Forall_cons. by split_and!. }
  { by rewrite (bal_refresh _ _ my Hre). }
  { destruct (settled_moves _ _ _ _ Hm1 Hset) as (o&Ho&Hso). intros o' Ho'. simplify_eq. by left. }
  cbn [mbind result_bind].
  destruct (finish_spec _ _ _ _ _ _ _ (w_sub w) run Hs0 Hup Hrun) as (e2&w2&->&[]&_).
  do 2 eexists. split; [done|]. split; [|simpl; split; [done|lia]].
  eapply moves_then; [done|]. by eapply moves_then.
Qed.

(** The laws of the interface *)
Definition ext_vm_laws
    (Hrun : LegacyVM.depth env < 1024 → runner_ok (LegacyVM.depth env + 1) run) :
  @ExtVMFaceLaws World (ext_vm pick recover precedingHashes params outer run i env) env.
Proof.
  refine {|
    LegacyVM.ext_ok := good env;
    LegacyVM.ext_step w w' := step w w';
    LegacyVM.ext_can_pay w v := v ≤ bal (w_state w) my;
  |}.
  - intros w [Hs _]. by apply moves_here.
  - intros w1 w2 w3 H1 H2. by eapply moves_then.
  - intros w w' Hg Hm. by eapply good_moves.
  - intros w k Hg. pose proof (storage_spec pick my k (w_state w) (sound_wf _ (proj1 Hg))) as Hst.
    destruct (storage pick my k (w_state w)) as [s' v] eqn:Hv. destruct Hst as (Hre&->&_).
    eapply does_refresh; [done|cbn; by rewrite Hv|done|].
    destruct Hg as [Hs (o&Ho&_)]. rewrite Ho. apply (fi_obs _ _ (so_fine _ Hs) _ _ Ho).
  - intros w k v [Hs Hset] Hk Hv. do 2 eexists. split; [done|]. split; [|done].
    apply moves_setStorage; [apply Hs|done|by apply settled_view|apply FO].
  - intros w a Hg. pose proof (balance_spec (w_state w) a (sound_wf _ (proj1 Hg))) as Hb.
    destruct (balance pick a (w_state w)) as [s' b] eqn:Hbal. destruct Hb as [Hre ->].
    eapply does_refresh; [done|cbn; by rewrite Hbal|done|].
    split; [by apply bal_word, sound_wf, Hg|]. intros -> v Hv. simpl.
    rewrite (bal_refresh _ _ my Hre). lia.
  - intros w a Hg. pose proof (code_buffer (w_state w) a (proj1 Hg)) as Hc.
    destruct (code pick a (w_state w)) as [s' c] eqn:Hcode. destruct Hc as [Hre Hc].
    eapply does_refresh; [done|cbn; by rewrite Hcode|done|done].
  - intros w a Hg. destruct (codeSize pick a (w_state w)) as [s' n] eqn:Hn.
    assert (refresh (w_state w) s' ∧ in_word 256 n) as [Hre Hw].
    { revert Hn. unfold codeSize. pose proof (account_spec pick a (w_state w) (sound_wf _ (proj1 Hg))) as Ha.
      assert (∀ z, in_word 256 (u64 z)) as H64.
      { intros z. pose proof (wrap_in_word 64 z ltac:(lia)) as [? ?]. split; [done|].
        eapply Z.lt_trans; [done|]. by apply Z.pow_lt_mono_r. }
      destruct (account pick a (w_state w)) as [s1 [acc|]]; destruct Ha as (Hre&_); [|by intros [= <- <-]].
      destruct (Account.m_hasNewCode acc); [intros [= <- <-]; split; [done|apply H64]|].
      pose proof (code_spec pick a s1 (refresh_wf _ _ (sound_wf _ (proj1 Hg)) Hre)) as Hc.
      destruct (code pick a s1) as [s2 c]. destruct Hc as [Hre2 _]. intros [= <- <-].
      split; [by eapply refresh_trans|apply H64]. }
    eapply does_refresh; [done|cbn; by rewrite Hn|done|done].
  - intros w a Hg. by apply ext_exists_does.
  - intros w a Hg _. by apply ext_suicide_does.
  - intros w ts d [Hs _]. do 2 eexists. split; [done|]. split; [by apply moves_here|done].
  - intros w n Hg Hn. by apply ext_blockHash_does.
  - intros w n [Hs _]. do 2 eexists. split; [done|]. split; [by apply moves_here|done].
  - intros bs. by apply CO.
  - intros w p Hg Hd Hp Hpay. apply ext_call_does; auto.
  - intros w v g c two salt Hg Hd Hpay Hv Hgas Hc _. apply ext_create_does; auto. by destruct Hgas.
Defined.

End ExtVM.

(** ** The machine at every depth *)

(** Below a frame at depth [d] there are at most [1024 - d] more. *)
Lemma run_level_ok outer n d :
  1024 ≤ d + Z.of_nat n → runner_ok d (run_level pick recover precedingHashes params outer i n).
Proof.
  revert d. induction n as [|n IH]; intros d Hd env gas w FO Hdep Hg.
  - assert (LegacyVM.depth env < 1024 → runner_ok (LegacyVM.depth env + 1) (λ _ _ _, None)) as Hrun
      by lia.
    exact (@LegacyVMExec.exec_spec World _ env (ext_vm_laws env FO outer _ Hrun) (fo_env _ FO) w Hg
             gas _ (le_n _)).
  - assert (LegacyVM.depth env < 1024 → runner_ok (LegacyVM.depth env + 1)
              (run_level pick recover precedingHashes params outer i n)) as Hrun by (intros; apply IH; lia).
    exact (@LegacyVMExec.exec_spec World _ env (ext_vm_laws env FO outer _ Hrun) (fo_env _ FO) w Hg
             gas _ (le_n _)).
Qed.
Lemma runner_run stack : runner_ok 0 (run pick recover precedingHashes params stack i).
Proof. destruct stack; by apply run_level_ok. Qed.

End Messages.

End Safety.
End ExecutiveSafety.
