(* ===== verification/ExecutiveTx.v ===== *)
(** * The execution of transactions

    From the check of a transaction to the payment of its fees: what is
    guaranteed of the state, the gas and the balances, and what remains of a
    transaction that fails. *)
From S2P Require Import Prelude CommonData RLP State StateSteps NativeStorage Instruction LegacyVM LegacyVMLogic LegacyVMExec TransactionBase BlockHeader SealEngine Executive ExecutiveSafety.

Module ExecutiveTx.
Import BlockHeader(BlockHeader, mkHeader, m_number, m_timestamp, m_author, m_gasLimit,
  m_difficulty, m_parentHash).
Import CommonData RLP State StateSteps NativeStorage TransactionBase SealEngine Executive ExecutiveSafety.
Import LegacyVM(CallParameters, mkCallParameters, Env, buffer_ok).

(** ** The end of a transaction: killing accounts

    [kill] is not logged, and comes last: the log does not matter any more. *)

Section Kill.
Context `{StateDB Root} (pick : nat → nat → nat).
Notation State := (State (Root:=Root)).

Lemma evict_one_with_log l (s : State) : evict_one pick (with_log l s) = with_log l (evict_one pick s).
Proof. unfold evict_one. simpl. repeat case_match; simplify_eq/=; done. Qed.
Lemma account_with_log a l (s : State) :
  account pick a (with_log l s) = (with_log l (account pick a s).1, (account pick a s).2).
Proof.
  unfold account. simpl. destruct (m_cache s !! a); [done|]. destruct (decide _); [done|].
  destruct (m_state s !! a); [|done]. unfold clearCacheIfTooLarge. simpl.
  assert (∀ n s, evict_loop pick n (with_log l s) = with_log l (evict_loop pick n s)) as ->; [|done].
  clear. intros m. induction m as [|m IH]; intros s; simpl; [done|]. destruct (_ <? _)%nat; [|done].
  by rewrite evict_one_with_log, IH.
Qed.
Lemma kill_with_log a l (s : State) : kill pick a (with_log l s) = with_log l (kill pick a s).
Proof. unfold kill. rewrite account_with_log. by destruct (account pick a s) as [s' []]. Qed.

Lemma wf_unlog (s : State) : wf s → wf (with_log [] s).
Proof. intros []. by split. Qed.

Lemma bal_at (s : State) a o : view s a ≡ Some o → bal s a = o_balance o.
Proof. intros Hv. unfold bal. destruct (view s a); inversion Hv as [? ? Ho|]; subst. apply Ho. Qed.
Lemma kill_spec a (s : State) :
  wf s → m_changeLog s = [] →
  wf (kill pick a s) ∧ m_changeLog (kill pick a s) = [] ∧
  (∀ a', a' ≠ a → view (kill pick a s) a' ≡ view s a') ∧ bal (kill pick a s) a = 0.
Proof.
  intros Hwf Hlog. unfold kill. pose proof (account_spec pick a s Hwf) as Ha.
  destruct (account pick a s) as [s1 [acc|]]; destruct Ha as (Hre&Hr&_&Hv);
    pose proof (refresh_wf _ _ Hwf Hre) as Hwf1.
  - pose proof (view_update s1 a Account.kill acc (m_changeLog s1) Hr) as Hview.
    assert (with_log (m_changeLog s1) (update a Account.kill s1) = update a Account.kill s1) as Heq
      by by destruct s1.
    rewrite Heq in Hview. rewrite (re_log _ _ Hre), Hlog in *.
    assert (view (update a Account.kill s1) a ≡ Some (obs_of (m_codes s1) (Account.kill acc))) as Hat.
    { etrans; [apply (Hview a)|]. by rewrite decide_True. }
    split_and!.
    + rewrite <-Heq. apply (write_wf s1 a acc Account.kill []); try done.
      split; [|done]. simpl. unfold code_of. simpl. by rewrite Z.eqb_refl.
    + simpl. by rewrite (re_log _ _ Hre), Hlog.
    + intros a' Hne. etrans; [apply (Hview a')|]. rewrite decide_False by done. symmetry. apply Hre.
    + by rewrite (bal_at _ _ _ Hat).
  - split_and!; [done|by rewrite (re_log _ _ Hre)|intros; symmetry; apply Hre|].
    pose proof (re_view _ _ Hre a) as Hra. unfold bal.
    destruct (view s a); inversion Hv; subst. by inversion Hra.
Qed.

Lemma total_kill a (s : State) :
  wf s → m_changeLog s = [] → total (kill pick a s) ≤ total s.
Proof.
  intros Hwf Hlog. destruct (kill_spec a s Hwf Hlog) as (_&_&Hother&Hbal).
  set (X := {[a]} ∪ support s ∪ support (kill pick a s)).
  rewrite (total_support s X), (total_support (kill pick a s) X) by set_solver.
  rewrite (sum_over_update X a (bal s)); [|set_solver|by intros a' Hne; apply bal_proper, Hother].
  pose proof (bal_nonneg s a Hwf). lia.
Qed.

(** Killing the accounts of a list *)
Lemma kills_spec (l : list (Z * unit)) (s : State) :
  wf s →
  total (fold_left (λ s a, kill pick a.1 s) l s) ≤ total s ∧
  (∀ a, a ∉ l.*1 → view (fold_left (λ s a, kill pick a.1 s) l s) a ≡ view s a) ∧
  (∀ a, bal (fold_left (λ s a, kill pick a.1 s) l s) a ≤ bal s a).
Proof.
  intros Hwf. assert (∀ s, wf s → m_changeLog s = [] →
    total (fold_left (λ s a, kill pick a.1 s) l s) ≤ total s ∧
    (∀ a, a ∉ l.*1 → view (fold_left (λ s a, kill pick a.1 s) l s) a ≡ view s a) ∧
    (∀ a, bal (fold_left (λ s a, kill pick a.1 s) l s) a ≤ bal s a)) as Hl.
  { clear s Hwf. induction l as [|[a []] l IH]; intros s Hwf Hlog; simpl; [by split_and!|].
    destruct (kill_spec a s Hwf Hlog) as (Hwf1&Hlog1&Hother&Hbal).
    destruct (IH _ Hwf1 Hlog1) as (Ht&Hv&Hb). pose proof (total_kill a s Hwf Hlog). split_and!.
    - lia.
    - intros a'. rewrite elem_of_cons. intros Hne. rewrite Hv, Hother by tauto. done.
    - intros a'. specialize (Hb a'). destruct (decide (a' = a)) as [->|Hne].
      + pose proof (bal_nonneg s a Hwf). lia.
      + by rewrite <-(bal_proper _ _ _ (Hother a' Hne)). }
  assert (∀ (l : list (Z * unit)) (s : State), fold_left (λ s a, kill pick a.1 s) l (with_log [] s) =
                 with_log [] (fold_left (λ s a, kill pick a.1 s) l s)) as Hfold.
  { clear. induction l as [|[a []] l IH]; intros s; simpl; [done|]. by rewrite kill_with_log, IH. }
  pose proof (Hl (with_log [] s) (wf_unlog s Hwf) eq_refl) as Hs. rewrite Hfold in Hs. exact Hs.
Qed.

End Kill.

(** ** The parts of a transaction *)

Section Transactions.
Context `{StateDB Root} `{!StateDBLaws Root} (pick : nat → nat → nat).
Context (recover : SignatureStruct → Z → bytes) (precedingHashes : Z → list Z).
Context (params : ChainOperationParams).
Context (CO : chain_ok precedingHashes params) (i : EnvInfo) (IO : info_ok params i).
Notation State := (State (Root:=Root)).
Notation moves := (StateSteps.moves RootContractAddress).
Notation sender := (@sender (crypto recover)).

(** A transaction of words and buffers *)
Record tx_ok (t : TransactionBase) : Prop := {
  tx_words : Forall (in_word 256)
    [m_value t; m_receiveAddress t; m_gasPrice t; TransactionBase.m_gas t; m_sender t];
  tx_data : buffer_ok (m_data t);
  tx_type : non_null t = true;
}.
Notation cost t := (TransactionBase.m_gas t * m_gasPrice t).
Notation base t := (baseGasRequired t (schedule_of params i)).

Lemma sender_word t a : tx_ok t → sender t = Ok a → in_word 256 a.
Proof.
  intros [Hw _ _]. rewrite !Forall_cons in Hw. unfold TransactionBase.sender.
  destruct (negb _); [by intros [= <-]; apply Hw|]. destruct (hasZeroSignature t); [by intros [= <-]|].
  destruct (m_vrs t); [|done]. intros (h&_&Ha)%bind_Ok_inv. destruct (forallb _ _); [done|].
  injection Ha as <-. apply address_word.
Qed.

(** What the check of a transaction establishes *)
Lemma verifyTransaction_spec t h g :
  verifyTransaction params Everything t h g = Ok () →
  baseGasRequired t (scheduleForBlockNumber params (m_number h)) ≤ TransactionBase.m_gas t ∧
  g + TransactionBase.m_gas t ≤ m_gasLimit h ∧
  (hasZeroSignature t = true → m_value t = 0 ∧ m_gasPrice t = 0).
Proof.
  intros Hv. assert (verifyTransaction_face params Everything t h g = Ok ()) as Hf.
  { revert Hv. unfold verifyTransaction, verifyTransaction_Ethash. destruct (sealEngineName params); try done.
    by intros ([]&Hface&_)%bind_Ok_inv. }
  clear Hv. revert Hf. unfold verifyTransaction_face.
  change (requires Everything TransactionSignatures) with true.
  change (requires Everything TransactionBasic) with true.
  intros ([]&_&([]&H1%throw_if_Ok&([]&H2%throw_if_Ok&([]&_&([]&H3%throw_if_Ok&H4%throw_if_Ok)%bind_Ok_inv)
    %bind_Ok_inv)%bind_Ok_inv)%bind_Ok_inv)%bind_Ok_inv.
  apply Z.ltb_ge in H3, H4. split_and!; [done|done|]. intros Hz. rewrite Hz in *. simpl in *.
  rewrite andb_true_r in *. apply Z.ltb_ge in H1. rewrite (proj2 (Z.leb_le _ _)) in H2 by done.
  simpl in H2. apply orb_false_iff in H2 as [[H2 H2']%orb_false_iff _].
  apply negb_false_iff, Z.eqb_eq in H2, H2'. done.
Qed.

Lemma base_nonneg t : 0 ≤ base t.
Proof.
  unfold baseGasRequired, baseGasRequired_of, schedule_of.
  assert (∀ sched, sched = scheduleForBlockNumber params (info_number i) →
    0 ≤ Instruction.txDataNonZeroGas sched ∧ 0 ≤ Instruction.txDataZeroGas sched ∧
    0 ≤ Instruction.txCreateGas sched ∧ 0 ≤ Instruction.txGas sched) as Hs.
  { unfold scheduleForBlockNumber. intros sched ->. repeat case_match; by vm_compute. }
  destruct (Hs _ eq_refl) as (H1&H2&H3&H4). clear Hs.
  set (sched := scheduleForBlockNumber _ _) in *. clearbody sched.
  assert (∀ l g, 0 ≤ g → 0 ≤ fold_left (λ g i, g + (if negb (i =? 0)
    then Instruction.txDataNonZeroGas sched else Instruction.txDataZeroGas sched)) l g) as Hl.
  { induction l as [|x l IH]; simpl; intros g Hg; [done|]. apply IH. destruct (negb _); lia. }
  apply Hl. by destruct (isCreation t).
Qed.

(** [initialize] accepts a transaction whose sender can pay for it. *)
Lemma initialize_spec t e e1 (s s1 : State) :
  sound s → tx_ok t → m_gasCost e = 0 →
  initialize pick recover params i t e s = (e1, s1, Ok ()) →
  refresh s s1 ∧ e1 = with_transaction t (base t) (cost t) e ∧
  base t ≤ TransactionBase.m_gas t ∧ in_word 256 (cost t) ∧
  ∃ a, sender t = Ok a ∧ m_value t + cost t ≤ bal s a.
Proof.
  intros Hs Ht Hcost. unfold initialize.
  pose proof (tx_words _ Ht) as Hw. rewrite !Forall_cons in Hw. destruct Hw as (Hv&_&Hp&Hg&_).
  destruct (verifyTransaction _ _ _ _ _) as [[]|x] eqn:Hver; [|done].
  destruct (verifyTransaction_spec _ _ _ Hver) as (Hbase&_&Hzero). fold (info_number i) in Hbase.
  fold (schedule_of params i) in Hbase.
  destruct (hasZeroSignature t) eqn:Hz.
  - destruct (Hzero eq_refl) as [Hv0 Hp0]. intros [= <- <-]. rewrite Hp0, Hv0, Hcost, Z.mul_0_r.
    split; [by apply refresh_refl, sound_wf|]. split_and!; try done.
    unfold TransactionBase.sender. rewrite Hz. destruct (negb _); eexists; (split; [done|]);
      apply bal_nonneg, sound_wf, Hs.
  - destruct (TransactionBase.sender t) as [a|x] eqn:Ha; [|by destruct x].
    pose proof (getNonce_spec pick s a (sound_wf _ Hs)) as Hn.
    destruct (getNonce pick a s) as [s2 n]. destruct Hn as [Hre _]. destruct (negb _); [done|].
    pose proof (refresh_wf _ _ (sound_wf _ Hs) Hre) as Hwf2.
    pose proof (balance_spec pick s2 a Hwf2) as Hb.
    destruct (balance pick a s2) as [s3 b]. destruct Hb as [Hre2 ->].
    rewrite (bal_refresh _ _ a Hre). destruct (Z.ltb_spec (bal s a) (m_value t + cost t)) as [|Hle]; [done|].
    intros [= <- <-]. split; [by eapply refresh_trans|].
    pose proof (bal_word s a (sound_wf _ Hs)) as [_ ?]. destruct Hv as [? _], Hp as [? _], Hg as [? _].
    assert (in_word 256 (cost t)) as Hc by (split; nia).
    rewrite (wrap_small 256 (cost t)) by done. split; [done|]. split; [done|]. split; [done|]. by exists a.
Qed.

Lemma counted_refresh b a (s s1 s2 : State) : refresh s s1 → counted b a s1 s2 → counted b a s s2.
Proof.
  intros Hre [Hn Hb Ho]. split.
  - assert (nonce_at s1 a = nonce_at s a) as <-; [|done]. unfold nonce_at.
    rewrite (re_start _ _ Hre). pose proof (re_view _ _ Hre a) as Hv.
    destruct (view s a), (view s1 a); inversion Hv as [? ? Heq|]; subst; [|done]. symmetry. apply Heq.
  - intros a'. by rewrite Hb, (bal_refresh _ _ a' Hre).
  - intros a' Hne. rewrite Ho by done. symmetry. apply Hre.
Qed.

(** The account of the sender pays for the gas, and the message is set up. *)
Lemma execute_spec t e (s : State) a :
  sound s → tx_ok t → fresh e → m_depth e = 0 → sender t = Ok a →
  base t ≤ TransactionBase.m_gas t → in_word 256 (cost t) → m_value t + cost t ≤ bal s a →
  (∀ o, view s a = Some o → settled o ∨ o_nonce o < 2 ^ 256 - 1) →
  m_t e = t → m_baseGasRequired e = base t → m_gasCost e = cost t →
  ∃ s1 s2 e' s' fin, execute pick recover params i e s = Ok (e', s', fin) ∧
    moves (- cost t) s s1 ∧ bal s1 a = bal s a - cost t ∧ nonce_at s1 a = nonce_at s a ∧
    (∀ a', a' ≠ a → view s1 a' ≡ view s a') ∧
    moves 0 s1 s2 ∧ counted (counts_nonce params a i) a s1 s2 ∧
    set_up s2 s' (TransactionBase.m_gas t - base t) t 0 e' fin.
Proof.
  intros Hs Ht Hf Hd Ha Hbase Hcost Hval Hnonce Hte Hbe Hce. unfold execute. rewrite Hte, Ha, Hce.
  pose proof (base_nonneg t) as Hb0. pose proof (sender_word t a Ht Ha) as Haw.
  pose proof (tx_words _ Ht) as Hw. rewrite !Forall_cons in Hw. destruct Hw as (Hv&Hr&Hp&Hg&_).
  destruct (moves_subBalance pick RootContractAddress s a (cost t) (so_fine _ Hs) Hcost)
    as (s1&Hsub&Hm1&Ho1&Hex1&Hbal1&Hn1); [destruct Hv; lia|].
  cbn [from_tx mbind result_bind]. rewrite Hsub. cbn [from_state mbind result_bind].
  pose proof (sound_moves _ _ _ Hs Hm1) as Hs1.
  assert (nonce_at s1 a = nonce_at s a) as Hnat.
  { unfold nonce_at. rewrite (mv_start _ _ _ _ Hm1). destruct (view s1 a) as [o1|] eqn:Hv1.
    - destruct (Hn1 o1 eq_refl) as (o&->&Hn&_). done.
    - destruct (view s a) as [o|] eqn:Hva; [|done].
      destruct (mv_kept _ _ _ _ Hm1 a o Hva) as (?&?&_). congruence. }
  assert (∀ o, view s1 a = Some o → settled o ∨ o_nonce o < 2 ^ 256 - 1) as Hnonce1.
  { intros o1 Ho. destruct (Hn1 o1 Ho) as (o&Hoa&->&Hk). destruct (Hnonce o Hoa); auto. }
  unfold in_word in Hg. rewrite (wrap_small 256 (m_baseGasRequired e)) by (rewrite Hbe; split; lia).
  rewrite Hbe, (wrap_small 256 (_ - _)) by (split; lia).
  set (gas := TransactionBase.m_gas t - base t). assert (0 ≤ gas) as Hgas by (unfold gas; lia).
  exists s1. destruct (isCreation t).
  - unfold createOpcode. pose proof (getNonce_spec pick s1 a (sound_wf _ Hs1)) as Hn.
    destruct (getNonce pick a s1) as [s1' n] eqn:Hget. destruct Hn as [Hre _].
    pose proof (moves_re _ _ Hs1 Hre) as Hmre.
    destruct (create_address_ok precedingHashes params CO a n) as [Hca Hcr].
    destruct (executeCreate_spec pick params i IO s1' a (m_value t) (m_gasPrice t) gas
      (m_data t) a (with_newAddress (create_address a n) e)) as (s2&e'&s'&fin&Hex&Hs2&Hm2&Hct&Hup).
    { by eapply sound_moves. }
    { by destruct Hf. }
    { done. }
    { rewrite !Forall_cons. by split_and!. }
    { done. }
    { apply Ht. }
    { rewrite (bal_refresh _ _ a Hre). lia. }
    { intros o Ho. pose proof (re_view _ _ Hre a) as Hv1. rewrite Ho in Hv1.
      destruct (view s1 a) as [o1|] eqn:Ho1'; inversion Hv1 as [? ? Heq|]; subst.
      replace (o_nonce o) with (o_nonce o1) by apply Heq.
      destruct (Hnonce1 o1 eq_refl); [left; by rewrite <-Heq|by right]. }
    exists s2, e', s', fin. rewrite Hex. split_and!; try done.
    + by eapply moves_then.
    + by eapply counted_refresh.
    + by rewrite <-Hte, <-Hd.
  - unfold call. rewrite Hte, (tx_type _ Ht). cbn [andb LegacyVM.senderAddress].
    destruct (count_spec pick s1 a (counts_nonce params a i) Hs1 Hnonce1) as (s2&->&Hm2&Hct).
    cbn [mbind result_bind]. pose proof (sound_moves _ _ _ Hs1 Hm2) as Hs2.
    set (p := mkCallParameters _ _ _ _ _ _ _ _).
    destruct (call_message_spec pick precedingHashes params CO i IO s2 p (m_gasPrice t) a e Hs2 Hf)
      as (e'&s'&fin&->&Hup).
    { split; simpl; [rewrite !Forall_cons; by split_and!|done|apply Ht|by left|].
      rewrite (co_bal _ _ _ _ Hct). lia. }
    exists s2, e', s', fin. split_and!; try done. by rewrite <-Hte, <-Hd.
Qed.

(** Running the code, when there is some *)
Lemma ran_spec (s s' : State) g t depth e fin run :
  sound s → set_up s s' g t depth e fin → runner_ok depth run →
  ∃ e2 s2, (if fin : bool then Ok (e, s') else go pick run e s') = Ok (e2, s2) ∧ went s s2 g t e2.
Proof.
  intros Hs Hset Hrun. destruct fin; [by exists e, s'|].
  destruct Hset as (f&Hr&Hg&Ht&Hd). rewrite <-Hd in Hrun.
  destruct (go_spec pick s s' f e run Hr Hrun) as (e2&s2&->&Hw). do 2 eexists. split; [done|].
  rewrite <-Ht. by eapply went_gas.
Qed.

(** A payment, in the view *)
Definition paid (a v : Z) (s s' : State) : Prop :=
  moves v s s' ∧ writes a (wr_balance (m_accountStartNonce s) v) s s'.
Lemma pay a v (s : State) :
  sound s → in_word 256 v → ∃ s', addBalance pick a v s = Ok s' ∧ paid a v s s'.
Proof.
  intros Hs Hv. destruct (moves_addBalance pick RootContractAddress s a v (so_fine _ Hs) Hv) as (s'&?&?&?).
  by exists s'.
Qed.
Lemma paid_nonce a v a' (s s' : State) : paid a v s s' → nonce_at s' a' = nonce_at s a'.
Proof.
  intros [Hm Hwr]. unfold nonce_at. rewrite (mv_start _ _ _ _ Hm).
  destruct (decide (a' = a)) as [->|Hne].
  - pose proof (wr_at _ _ _ _ Hwr) as Hat.
    destruct (view s' a); inversion Hat as [? ? Ho|]; subst. simpl.
    destruct Ho as (_&->&_). by destruct (view s a).
  - pose proof (wr_other _ _ _ _ Hwr a' Hne) as Hv.
    destruct (view s a'), (view s' a'); inversion Hv as [? ? Ho|]; subst; [apply Ho|done].
Qed.
Lemma paid_bal a v a' (s s' : State) :
  sound s → in_word 256 v → paid a v s s' → bal s a + v < 2 ^ 256 →
  bal s' a' = bal s a' + if decide (a' = a) then v else 0.
Proof.
  intros Hs Hv [Hm Hwr] Hlt. destruct (decide (a' = a)) as [->|Hne].
  - rewrite (bal_writes _ _ _ _ Hwr). pose proof (bal_nonneg s a (sound_wf _ Hs)). unfold bal in *.
    destruct Hv. destruct (view s a); simpl in *; [apply wrap_small; split; lia|done].
  - rewrite (bal_proper s' s a'); [lia|]. by apply (wr_other _ _ _ _ Hwr).
Qed.

(** The refund is at most half of the gas that was used. *)
Lemma refund_bounds gas left r :
  0 ≤ left ≤ gas → gas < 2 ^ 256 → 0 ≤ r →
  0 ≤ Z.min (u256 (gas - left) / 2) r ∧ Z.min (u256 (gas - left) / 2) r ≤ (gas - left) / 2.
Proof.
  intros Hl Hg Hr. rewrite wrap_small by (split; lia).
  pose proof (Z.div_pos (gas - left) 2). lia.
Qed.

(** The fees are paid, the rest of the gas is given back, and what killed
    itself is killed. *)
Lemma finalize_spec t e (s : State) a :
  sound s → tx_ok t → sender t = Ok a → m_t e = t → in_word 256 (cost t) →
  0 ≤ m_gas e ≤ TransactionBase.m_gas t →
  ∃ e' s1 s2 s' g, finalize pick recover params i e s = Ok (e', s', bool_decide (m_excepted e = None_)) ∧
    m_gas e' = g ∧ m_t e' = t ∧ m_excepted e' = m_excepted e ∧
    m_gas e ≤ g ≤ m_gas e + (TransactionBase.m_gas t - m_gas e) / 2 ∧
    paid a (g * m_gasPrice t) s s1 ∧
    paid (m_author (info_header i)) ((TransactionBase.m_gas t - g) * m_gasPrice t) s1 s2 ∧
    total s' ≤ total s2 ∧ (∀ a, bal s' a ≤ bal s2 a) ∧
    ((∀ f, m_ext e = Some f → f_sub f = empty_sub) → s' = s2).
Proof.
  intros Hs Ht Ha Hte Hcost Hgas. unfold finalize.
  pose proof (tx_words _ Ht) as Hw. rewrite !Forall_cons in Hw. destruct Hw as (_&_&[Hp0 Hp1]&[Hg0 Hg1]&_).
  set (e1 := with_ext _ e).
  assert (m_gas e1 = m_gas e ∧ m_t e1 = t ∧ m_excepted e1 = m_excepted e) as (Hge1&Hte1&Hxe1) by done.
  assert (match m_ext e1 with Some f => 0 ≤ refunds (f_sub f) | None => True end) as Hrf.
  { unfold e1. simpl. destruct (m_ext e); simpl; [|done]. by apply (wrap_in_word 256). }
  assert ((∀ f, m_ext e = Some f → f_sub f = empty_sub) →
          match m_ext e1 with Some f => suicides (f_sub f) = [] | None => True end) as Hkill.
  { intros Hf. unfold e1. simpl. destruct (m_ext e) as [f|]; simpl; [|done]. by rewrite (Hf f eq_refl). }
  rewrite Hge1, Hte1. set (r := match m_ext e1 with Some f => Z.min _ _ | None => 0 end).
  assert (0 ≤ r ≤ (TransactionBase.m_gas t - m_gas e) / 2) as Hr.
  { pose proof (Z.div_pos (TransactionBase.m_gas t - m_gas e) 2). unfold r.
    destruct (m_ext e1) as [f|]; [by apply refund_bounds|lia]. }
  clearbody r. set (g := m_gas e + r).
  assert (m_gas e ≤ g ≤ m_gas e + (TransactionBase.m_gas t - m_gas e) / 2) as Hg by (unfold g; lia).
  assert ((TransactionBase.m_gas t - m_gas e) / 2 ≤ TransactionBase.m_gas t - m_gas e) as Hhalf
    by (apply Z.div_le_upper_bound; lia).
  rewrite (wrap_small 256 g) by (split; lia). ex. rewrite Hte1, (tx_type _ Ht), Ha.
  cbn [from_tx mbind result_bind].
  destruct Hcost as [Hc0 Hc1].
  assert (in_word 256 (g * m_gasPrice t)) as Hpay1 by (split; nia).
  assert (in_word 256 ((TransactionBase.m_gas t - g) * m_gasPrice t)) as Hpay2 by (split; nia).
  rewrite (wrap_small 256 (g * _)) by done.
  rewrite (wrap_small 256 (TransactionBase.m_gas t - g)) by (split; lia).
  rewrite (wrap_small 256 ((_ - g) * _)) by done.
  destruct (pay a _ s Hs Hpay1) as (s1&->&Hs1). cbn [from_state mbind result_bind].
  pose proof (sound_moves _ _ _ Hs (proj1 Hs1)) as Hso1.
  destruct (pay (m_author (info_header i)) _ s1 Hso1 Hpay2) as (s2&->&Hs2). cbn [from_state mbind result_bind].
  pose proof (sound_moves _ _ _ Hso1 (proj1 Hs2)) as Hso2.
  set (s' := match m_ext e1 with Some f => fold_left _ _ s2 | None => s2 end).
  assert (total s' ≤ total s2 ∧ (∀ a, bal s' a ≤ bal s2 a)) as [Htot Hbal].
  { unfold s'. destruct (m_ext e1) as [f|]; [|done].
    destruct (kills_spec pick (suicides (f_sub f)) s2 (sound_wf _ Hso2)) as (?&_&?). done. }
  assert ((∀ f, m_ext e = Some f → f_sub f = empty_sub) → s' = s2) as Hsame.
  { intros Hf. specialize (Hkill Hf). unfold s'. destruct (m_ext e1); [by rewrite Hkill|done]. }
  clearbody s'. do 4 eexists. exists g. split; [reflexivity|]. repeat (split; [done|]). done.
Qed.

Lemma undone_nonce (s s' : State) a :
  m_accountStartNonce s' = m_accountStartNonce s → undone s s' → nonce_at s' a = nonce_at s a.
Proof.
  intros Hst Hu. unfold nonce_at. rewrite Hst. destruct (Hu a) as [Hv|[-> Hv]].
  - destruct (view s a), (view s' a); inversion Hv as [? ? Ho|]; subst; [apply Ho|done].
  - destruct (view s' a); inversion Hv as [? ? Ho|]; subst. simpl. apply Ho.
Qed.

(** A transaction that [initialize] accepts: the gas is paid for ([sa]), the
    sender counted ([sb]), the message run ([sc]), the rest of the gas and the
    fees are paid ([sd], [se]), and what killed itself is killed. *)
Record stages (t : TransactionBase) (a : Z) (s sa sb sc sd se s' : State) (e2 e' : Executive) : Prop := {
  sg_bought : moves (- cost t) s sa ∧ bal sa a = bal s a - cost t ∧ nonce_at sa a = nonce_at s a ∧
    ∀ a', a' ≠ a → view sa a' ≡ view s a';
  sg_counted : moves 0 sa sb ∧ counted (counts_nonce params a i) a sa sb;
  sg_ran : went sb sc (TransactionBase.m_gas t - base t) t e2;
  sg_gas : m_gas e2 ≤ m_gas e' ≤ m_gas e2 + (TransactionBase.m_gas t - m_gas e2) / 2;
  sg_result : m_t e' = t ∧ m_excepted e' = m_excepted e2;
  sg_back : paid a (m_gas e' * m_gasPrice t) sc sd;
  sg_fees : paid (m_author (info_header i)) ((TransactionBase.m_gas t - m_gas e') * m_gasPrice t) sd se;
  sg_killed : total s' ≤ total se ∧ ((∀ f, m_ext e2 = Some f → f_sub f = empty_sub) → s' = se);
}.

Notation execTx run := (executeTransaction pick recover params run i).
Notation runner stack := (Executive.run pick recover precedingHashes params stack i).

Lemma transaction_stages stack t e e1 (s s1 : State) a :
  sound s → tx_ok t → fresh e → m_depth e = 0 → m_gasCost e = 0 →
  initialize pick recover params i t e s = (e1, s1, Ok ()) → sender t = Ok a →
  (∀ o, view s a = Some o → settled o ∨ o_nonce o < 2 ^ 256 - 1) →
  base t ≤ TransactionBase.m_gas t ∧ in_word 256 (cost t) ∧ m_value t + cost t ≤ bal s a ∧
  ∃ sa sb sc sd se s' e2 e',
    execTx (runner stack) t e s = Ok (e', s', bool_decide (m_excepted e' = None_)) ∧
    stages t a s sa sb sc sd se s' e2 e'.
Proof.
  intros Hs Ht Hf Hd Hc Hinit Ha Hnonce.
  destruct (initialize_spec t e e1 s s1 Hs Ht Hc Hinit) as (Hre&->&Hbase&Hcost&a'&Ha'&Hval).
  assert (a' = a) as -> by congruence. split; [done|]. split; [done|]. split; [done|].
  pose proof (moves_re _ _ Hs Hre) as Hmre. pose proof (sound_moves _ _ _ Hs Hmre) as Hs1.
  destruct (execute_spec t (with_transaction t (base t) (cost t) e) s1 a)
    as (sa&sb&e2&s2&fin&Hex&Hma&Hba&Hna&Hoa&Hmb&Hct&Hup); try done; [by destruct Hf| | |].
  { by rewrite (bal_refresh _ _ a Hre). }
  { intros o Ho. pose proof (re_view _ _ Hre a) as Hv. rewrite Ho in Hv.
    destruct (view s a) as [o1|] eqn:Ho1; inversion Hv as [? ? Heq|]; subst.
    replace (o_nonce o) with (o_nonce o1) by apply Heq.
    destruct (Hnonce o1 eq_refl); [left; by rewrite <-Heq|by right]. }
  pose proof (sound_moves _ _ _ Hs1 Hma) as Hsa. pose proof (sound_moves _ _ _ Hsa Hmb) as Hsb.
  destruct (ran_spec sb s2 _ t 0 e2 fin (runner stack) Hsb Hup) as (e3&sc&Hgo&Hw); [by apply runner_run|].
  destruct Hw as [Hmc Hg Ho Ht3 Hfail].
  pose proof (base_nonneg t) as Hb0. pose proof (sound_moves _ _ _ Hsb Hmc) as Hsc.
  destruct (finalize_spec t e3 sc a) as (e'&sd&se&s'&g&Hfin&Hg'&Ht'&Hx'&Hgb&Hpd&Hpe&Htot&_&Hsame);
    [done|done|done|done|done|lia|].
  exists sa, sb, sc, sd, se, s', e3, e'. split.
  - unfold executeTransaction. rewrite Hinit. cbn [from_tx mbind result_bind]. rewrite Hex.
    cbn [mbind result_bind]. rewrite Hgo. cbn [mbind result_bind]. by rewrite Hfin, Hx'.
  - rewrite <-Hg' in *. split; [| |by split|done|done|done|done|done].
    + split_and!; [by eapply moves_then|by rewrite Hba, (bal_refresh _ _ a Hre)| |].
      * rewrite Hna. unfold nonce_at. rewrite (re_start _ _ Hre). pose proof (re_view _ _ Hre a) as Hv.
        destruct (view s a), (view s1 a); inversion Hv as [? ? Heq|]; subst; [symmetry; apply Heq|done].
      * intros x Hne. rewrite Hoa by done. symmetry. apply Hre.
    + done.
Qed.

Lemma stages_gasUsed t a s sa sb sc sd se s' e2 e' :
  tx_ok t → base t ≤ TransactionBase.m_gas t → stages t a s sa sb sc sd se s' e2 e' →
  gasUsed e' = TransactionBase.m_gas t - m_gas e' ∧ base t ≤ 2 * gasUsed e' ∧
  0 ≤ m_gas e' ≤ TransactionBase.m_gas t.
Proof.
  intros Ht Hbase [_ _ Hw Hg [Hte _] _ _ _]. pose proof (we_gas _ _ _ _ _ Hw) as Hg2.
  pose proof (base_nonneg t) as Hb0.
  pose proof (tx_words _ Ht) as Hws. rewrite !Forall_cons in Hws. destruct Hws as (_&_&_&[? ?]&_).
  pose proof (Z.mul_div_le (TransactionBase.m_gas t - m_gas e2) 2).
  assert (0 ≤ m_gas e' ≤ TransactionBase.m_gas t) as Hle by lia.
  unfold gasUsed. rewrite Hte, wrap_small by (split; lia). split; [done|]. split; [lia|done].
Qed.

(** C1. A transaction that [initialize] accepts is executed to its end: nothing
    throws, the virtual machine stays within its stack, memory and code, the
    state is rolled back no further than its log goes, and the process does
    not end - whatever the code of the contracts it calls.  No ether is
    created.  The gas that is used is at most the gas that was bought, and at
    least half of what the transaction costs before any code runs. *)
Theorem transaction_total stack t e e1 (s s1 : State) a :
  sound s → tx_ok t → fresh e → m_depth e = 0 → m_gasCost e = 0 →
  initialize pick recover params i t e s = (e1, s1, Ok ()) → sender t = Ok a →
  (∀ o, view s a = Some o → settled o ∨ o_nonce o < 2 ^ 256 - 1) →
  ∃ e' s' ok, execTx (runner stack) t e s = Ok (e', s', ok) ∧
    total s' ≤ total s ∧ base t ≤ 2 * gasUsed e' ∧ gasUsed e' ≤ TransactionBase.m_gas t.
Proof.
  intros Hs Ht Hf Hd Hc Hinit Ha Hnonce.
  destruct (transaction_stages stack t e e1 s s1 a Hs Ht Hf Hd Hc Hinit Ha Hnonce)
    as (Hbase&Hcost&Hval&sa&sb&sc&sd&se&s'&e2&e'&Hrun&Hst).
  destruct (stages_gasUsed _ _ _ _ _ _ _ _ _ _ _ Ht Hbase Hst) as (Hu&Hlow&Hle).
  exists e', s', (bool_decide (m_excepted e' = None_)).
  destruct Hst as [[Hb _] [Hct _] Hw Hg _ [Hpd _] [Hpe _] [Hk _]].
  split; [exact Hrun|]. split; [|lia].
  pose proof (mv_total _ _ _ _ Hb). pose proof (mv_total _ _ _ _ Hct).
  pose proof (mv_total _ _ _ _ (we_moves _ _ _ _ _ Hw)).
  pose proof (mv_total _ _ _ _ Hpd). pose proof (mv_total _ _ _ _ Hpe). nia.
Qed.

(** What a failed transaction does to the balances, and to the rest *)
Lemma failed_stages t a (s sa sb sc sd se s' : State) e2 e' :
  sound s → tx_ok t → in_word 256 (cost t) → m_value t + cost t ≤ bal s a →
  base t ≤ TransactionBase.m_gas t → stages t a s sa sb sc sd se s' e2 e' → m_excepted e' ≠ None_ →
  s' = se ∧ sound sc ∧ sound sd ∧ undone sb sc ∧
  ∀ x, bal sc x = bal s x - if decide (x = a) then cost t else 0.
Proof.
  intros Hs Ht Hcost Hval Hbase [(Hb&Hba&Hna&Hoa) [Hct Hcounted] Hw _ [_ Hxe] Hpd Hpe [_ Hk]] Hx.
  pose proof (sound_moves _ _ _ Hs Hb) as Hsa. pose proof (sound_moves _ _ _ Hsa Hct) as Hsb.
  pose proof (sound_moves _ _ _ Hsb (we_moves _ _ _ _ _ Hw)) as Hsc.
  pose proof (sound_moves _ _ _ Hsc (proj1 Hpd)) as Hsd.
  assert (m_excepted e2 ≠ None_) as Hx2 by congruence.
  destruct (we_failed _ _ _ _ _ Hw Hx2) as [Hun Hsub].
  split; [by apply Hk|]. split_and!; try done. intros x.
  rewrite (undone_bal _ _ x Hun), (co_bal _ _ _ _ Hcounted).
  destruct (decide (x = a)) as [->|Hne]; [done|]. rewrite Z.sub_0_r. apply bal_proper. by apply Hoa.
Qed.
Lemma failed_balances t a (s sa sb sc sd se s' : State) e2 e' :
  sound s → total s < 2 ^ 256 → tx_ok t → in_word 256 (cost t) → m_value t + cost t ≤ bal s a →
  base t ≤ TransactionBase.m_gas t → stages t a s sa sb sc sd se s' e2 e' → m_excepted e' ≠ None_ →
  let author := m_author (info_header i) in
  let fee := gasUsed e' * m_gasPrice t in
  ∀ x, bal s' x = bal s x - (if decide (x = a) then fee else 0) + (if decide (x = author) then fee else 0).
Proof.
  intros Hs Htot Ht [Hc0 Hc1] Hval Hbase Hst Hx author fee.
  destruct (failed_stages _ _ _ _ _ _ _ _ _ _ _ Hs Ht (conj Hc0 Hc1) Hval Hbase Hst Hx)
    as (->&Hsc&Hsd&Hun&Hbsc).
  destruct (stages_gasUsed _ _ _ _ _ _ _ _ _ _ _ Ht Hbase Hst) as (Hu&_&Hle).
  destruct Hst as [_ _ _ _ _ Hpd Hpe _].
  set (back := m_gas e' * m_gasPrice t) in *. set (fees := (_ - _) * m_gasPrice t) in *.
  assert (fees = fee) as Hfee by (unfold fees, fee; by rewrite Hu).
  pose proof (tx_words _ Ht) as Hws. rewrite !Forall_cons in Hws. destruct Hws as ([? ?]&_&[? ?]&[? ?]&_).
  assert (0 ≤ back ∧ 0 ≤ fees ∧ back + fees = cost t) as (?&?&?) by (unfold back, fees; nia).
  pose proof (bal_word s a (sound_wf _ Hs)) as [? ?].
  assert (∀ x, bal sd x = bal sc x + if decide (x = a) then back else 0) as Hbsd.
  { intros x. apply (paid_bal _ _ _ _ _ Hsc); [split; lia|done|]. rewrite Hbsc, decide_True by done. lia. }
  intros x. rewrite (paid_bal author fees x sd se Hsd); [|split; lia|exact Hpe|].
  - rewrite Hbsd, Hbsc, <-Hfee. fold author. destruct (decide (x = a)), (decide (x = author)); lia.
  - rewrite Hbsd, Hbsc. fold author. destruct (decide (author = a)) as [->|Hne]; [lia|].
    pose proof (bal_total2 s author a (sound_wf _ Hs) Hne). lia.
Qed.

(** C2. A transaction that fails - its code ran out of gas, reverted, jumped
    where it may not, the address of the contract to create was taken, ... -
    takes the gas it used from the sender, at the price of the transaction, and
    gives it to the author of the block; it counts the nonce of the sender; and
    changes nothing else: every other account shows what it showed - but for
    an account that did not exist, which may now exist with nothing in it.  In
    particular the value of the transaction stays with the sender. *)
Theorem failed_transaction stack t e e1 (s s1 : State) a e' s' ok :
  sound s → total s < 2 ^ 256 → tx_ok t → fresh e → m_depth e = 0 → m_gasCost e = 0 →
  initialize pick recover params i t e s = (e1, s1, Ok ()) → sender t = Ok a →
  (∀ o, view s a = Some o → settled o ∨ o_nonce o < 2 ^ 256 - 1) →
  execTx (runner stack) t e s = Ok (e', s', ok) → m_excepted e' ≠ None_ →
  let author := m_author (info_header i) in
  let fee := gasUsed e' * m_gasPrice t in
  ok = false ∧
  (∀ x, bal s' x = bal s x - (if decide (x = a) then fee else 0) + (if decide (x = author) then fee else 0)) ∧
  nonce_at s' a = (if counts_nonce params a i then u256 (nonce_at s a + 1) else nonce_at s a) ∧
  ∀ x, x ≠ a → x ≠ author →
    view s' x ≡ view s x ∨ view s x = None ∧ view s' x ≡ Some (new_obs (m_accountStartNonce s) 0).
Proof.
  intros Hs Htot Ht Hf Hd Hc Hinit Ha Hnonce Hrun Hx author fee.
  destruct (transaction_stages stack t e e1 s s1 a Hs Ht Hf Hd Hc Hinit Ha Hnonce)
    as (Hbase&Hcost&Hval&sa&sb&sc&sd&se&s2&e2&e3&Hrun'&Hst).
  rewrite Hrun in Hrun'. injection Hrun' as <- <- ->.
  destruct (failed_stages _ _ _ _ _ _ _ _ _ _ _ Hs Ht Hcost Hval Hbase Hst Hx) as (->&_&_&Hun&_).
  split; [by apply bool_decide_eq_false_2|].
  split; [by apply (failed_balances _ _ _ sa sb sc sd se se e2 e')|].
  destruct Hst as [(Hb&Hba&Hna&Hoa) [Hct Hcounted] Hw _ _ Hpd Hpe _]. split.
  - rewrite (paid_nonce _ _ _ _ _ Hpe), (paid_nonce _ _ _ _ _ Hpd).
    rewrite (undone_nonce _ _ _ (mv_start _ _ _ _ (we_moves _ _ _ _ _ Hw)) Hun).
    by rewrite (co_nonce _ _ _ _ Hcounted), Hna.
  - intros x Hxa Hxo. assert (view se x ≡ view sc x) as Hv.
    { etrans; [by apply (wr_other _ _ _ _ (proj2 Hpe))|]. by apply (wr_other _ _ _ _ (proj2 Hpd)). }
    assert (view sb x ≡ view s x) as Hvb by (etrans; [by apply (co_other _ _ _ _ Hcounted)|by apply Hoa]).
    destruct (Hun x) as [Hux|[Hnone Hux]].
    + left. by rewrite Hv, Hux.
    + right. rewrite Hnone in Hvb. split; [by inversion Hvb|]. rewrite Hv, Hux.
      by rewrite (mv_start _ _ _ _ Hct), (mv_start _ _ _ _ Hb).
Qed.

(** The machine of the messages below a frame *)
Definition below (outer : Runner) (levels : nat) : Runner :=
  run_level pick recover precedingHashes params outer i levels.

(** C3. A message from the code of a frame, at any depth of the call: it gets
    an answer - the code it calls, and the messages of that code, run to their
    end - ; it costs no more than the gas it was given and creates no ether;
    when it fails the state shows what it showed before, up to an account that
    did not exist and may now exist with nothing in it, and no log, no suicide
    and no refund is added; and the frame can still roll back what the message
    did, to the view it had before. *)
Theorem message_atomic outer levels env w p :
  frame_ok env → LegacyVM.depth env < 1024 ≤ LegacyVM.depth env + 1 + Z.of_nat levels →
  good env w → LegacyVM.params_ok env p →
  LegacyVM.valueTransfer p = 0 ∨
    LegacyVM.senderAddress p = LegacyVM.myAddress env ∧
    LegacyVM.valueTransfer p ≤ bal (w_state w) (LegacyVM.myAddress env) →
  ∃ w' ok output g,
    ext_call pick params (below outer levels) i env p w = Some (w', (ok, output, g)) ∧
    good env w' ∧ buffer_ok output ∧ 0 ≤ g ≤ LegacyVM.gas p ∧ total (w_state w') ≤ total (w_state w) ∧
    (ok = false → undone (w_state w) (w_state w') ∧ same_sub (w_sub w) (w_sub w')) ∧
    ∃ s, rollback (savepoint (w_state w)) (w_state w') = Some s ∧ veq (view s) (view (w_state w)).
Proof.
  intros FO [Hdep Hlev] Hg Hp Hval.
  destruct (ext_call_went pick precedingHashes params CO i IO env FO
    (below outer levels) w p Hg) as (e'&w'&Hcall&Hw&Hsub);
    [by apply run_level_ok|done..|].
  destruct Hw as [Hm Hgas Hout _ Hfail].
  exists w', (status_success (m_excepted e')), (m_output e'), (m_gas e').
  split; [exact Hcall|]. split; [by eapply good_moves|]. split; [done|]. split; [done|].
  pose proof (mv_total _ _ _ _ Hm). split; [lia|]. split.
  - intros Hx%bool_decide_eq_false. by split; [apply Hfail|apply Hsub].
  - destruct (moves_rollback _ 0 _ _ (so_fine _ (proj1 Hg)) Hm) as (s&Hr&_&Hv). by exists s.
Qed.

End Transactions.

(** ** Witnesses: a chain with hashes that are words *)

(** A trie by its map; the hash of a buffer is an odd word. *)
Record Store := mkStore { store_map : gmap Z Z }.
#[export] Instance Store_eq_dec : EqDecision Store.
Proof. solve_decision. Defined.
#[export] Instance word_db : StateDB Store := {
  sha3 bs := u256 (2 * be_val (1 :: bs) + 1);
  EmptyTrie := mkStore ∅;
  trie_at r k := default 0 (store_map r !! k);
  trie_insert r k v := mkStore (<[k := v]> (store_map r));
  trie_remove r k := mkStore (delete k (store_map r));
}.
#[export] Instance word_db_laws : StateDBLaws Store.
Proof.
  split; simpl.
  - intros k. by rewrite lookup_empty.
  - intros r k v k' _. destruct (Z.eqb_spec k' k) as [->|]; by rewrite ?lookup_insert_eq, ?lookup_insert_ne.
  - intros r k k'. destruct (Z.eqb_spec k' k) as [->|]; by rewrite ?lookup_delete_eq, ?lookup_delete_ne.
Qed.
Lemma word_db_odd w bs : 0 < w ≤ 256 → Z.odd (wrap w (sha3 (Root:=Store) bs)) = true.
Proof.
  intros Hw. simpl. assert (∀ v z, 0 < v → Z.odd z = true → Z.odd (wrap v z) = true) as Hodd.
  { intros v z Hv Hz. rewrite <-Z.bit0_odd in *. unfold wrap. by rewrite Z.mod_pow2_bits_low by lia. }
  apply Hodd; [lia|]. apply Hodd; [lia|]. by rewrite Z.add_1_r, Z.odd_succ, Z.even_mul.
Qed.

(** A block in which all forks up to Byzantium are active *)
Definition wit_header : BlockHeader := mkHeader 0 0 0 0 0 0 5 10000000 0 [] 1000 77 1 [] 0 0.
Definition wit_params : ChainOperationParams :=
  mkParams NoProof 0 1024 0 true 0x1388 (2 ^ 63 - 1) 1024 0 0 0 0 c_infiniteBlockNumer 1000 1000 0 0 1 1 1 false ∅.
Definition wit_info : EnvInfo := mkEnvInfo wit_header 0.
Definition wit_hashes : Z → list Z := λ _, replicate 256 0.
Definition wit_recover : SignatureStruct → Z → bytes := λ _ _, [].

(** An account with ether, a contract that writes slot 0 and returns, one that
    writes it and then hits an invalid instruction, and the root contract,
    which names one native contract. *)
Definition code_store : bytes := [0x60; 1; 0x60; 0; 0x55; 0].
Definition code_invalid : bytes := [0x60; 1; 0x60; 0; 0x55; 0xfe].
Definition wit_key : Z := Eval vm_compute in keyOn (Root:=Store) 1 500.
Definition wit_name : Z := Eval vm_compute in word_of 2 [0; 5] asset_name.
Definition contract (n b : Z) (c : bytes) : TrieAccount := mkTrieAccount n b (mkStore ∅) (sha3 c).
Definition wit_state : State (Root:=Store) :=
  mkState (list_to_map [(100, contract 0 (10 ^ 18) []); (200, contract 1 5 code_store);
                        (300, contract 1 0 code_invalid);
                        (RootContractAddress, mkTrieAccount 0 0 (mkStore {[wit_key := wit_name]}) (sha3 []))])
    (list_to_map [(sha3 code_store, code_store); (sha3 code_invalid, code_invalid)]) ∅ [] ∅ ∅ 0 [] 0.
Definition wit_tx (to : Z) : TransactionBase :=
  forceSender 100 (mkTransaction MessageCall 0 7 to 2 60000 [] None (-4) 0).

Lemma wit_chain : chain_ok wit_hashes wit_params.
Proof.
  split.
  - intros bs. by apply (wrap_in_word 256).
  - intros bs Heq. assert (Z.odd (u160 (sha3 (Root:=Store) bs)) = true) as Hodd by by apply word_db_odd.
    by rewrite Heq in Hodd.
  - intros a c d. simpl. by rewrite lookup_empty.
  - done.
  - intros h. split; [done|]. by apply Forall_replicate.
Qed.
Lemma wit_info_ok : info_ok wit_params wit_info.
Proof. split; [|done..]. by repeat (apply Forall_cons; split). Qed.

Definition wit_entries : list (Z * TrieAccount) :=
  [(100, contract 0 (10 ^ 18) []); (200, contract 1 5 code_store); (300, contract 1 0 code_invalid);
   (RootContractAddress, mkTrieAccount 0 0 (mkStore {[wit_key := wit_name]}) (sha3 []))].
Lemma wit_forall (P : Z → Obs → Prop) :
  Forall (λ e : Z * TrieAccount, P e.1 (obs_of (m_codes wit_state) (load e.2))) wit_entries →
  ∀ a o, view wit_state a = Some o → P a o.
Proof.
  rewrite Forall_forall. intros HP a o. unfold view, lookup_account.
  change (m_cache wit_state !! a) with (@None (Account.Account Store)). cbn [m_state wit_state].
  destruct (list_to_map _ !! a) as [t|] eqn:Ht; [|done]. intros [= <-].
  apply elem_of_list_to_map_2 in Ht. exact (HP (a, t) Ht).
Qed.

Lemma wit_slot k :
  slot_of (view wit_state RootContractAddress) k = if k =? wit_key then wit_name else 0.
Proof.
  transitivity (default 0 (({[wit_key := wit_name]} : gmap Z Z) !! k)); [done|].
  destruct (Z.eqb_spec k wit_key) as [->|Hne]; [by rewrite lookup_singleton_eq|].
  by rewrite lookup_singleton_ne.
Qed.
Lemma wit_empty codes n b c k : o_storage (obs_of codes (load (contract n b c))) k = 0.
Proof. simpl. unfold storage_of. simpl. by rewrite lookup_empty. Qed.
Lemma wit_fine a o : view wit_state a = Some o → obs_fine RootContractAddress a o.
Proof.
  revert a o. apply wit_forall. unfold wit_entries.
  repeat (apply Forall_cons; split); [..|apply Forall_nil; done]; cbn [fst snd].
  1-3: split; [done|intros k; by rewrite wit_empty|by split; [apply bytes_okb_spec|]|right; left; by left].
  split; [done| |by split; [constructor|]|by left].
  intros k. change (in_word 256 (slot_of (view wit_state RootContractAddress) k)). rewrite wit_slot.
  by destruct (_ =? _).
Qed.

Lemma wit_sound : sound wit_state.
Proof.
  split; [split|..].
  - apply wf_committed. intros a t Ht%elem_of_list_to_map_2.
    assert (Forall (λ e : Z * TrieAccount, obs_ok (obs_of (m_codes wit_state) (load e.2))) wit_entries)
      as Hall by (repeat (apply Forall_cons; split); try apply Forall_nil; done).
    rewrite Forall_forall in Hall. exact (Hall (a, t) Ht).
  - apply wit_fine.
  - done.
  - eapply natives_ok_ext; [intros k; symmetry; apply wit_slot|].
    intros addr. unfold native_name. destruct (Z.eqb_spec (keyOn 1 addr) wit_key) as [->|Hne].
    + by vm_compute.
    + unfold data_at. by rewrite (proj2 (Z.eqb_neq _ _) Hne).
  - done.
Qed.

Notation wit_run := (Executive.run no_pick wit_recover wit_hashes wit_params 0 wit_info).
Notation wit_init to := (initialize no_pick wit_recover wit_params wit_info (wit_tx to) (new 0) wit_state).
Lemma wit_tx_ok to : in_word 256 to → tx_ok (wit_tx to).
Proof.
  intros Hto. split; [|by split; [constructor|]|done].
  apply Forall_cons; split; [done|]. apply Forall_cons; split; [done|].
  by repeat (apply Forall_cons; split).
Qed.
Lemma wit_nonce o : view wit_state 100 = Some o → settled o ∨ o_nonce o < 2 ^ 256 - 1.
Proof. intros [= <-]. right. by vm_compute. Qed.

(** A call of the contract that writes a slot *)
Lemma transaction_total_witness :
  ∃ e s ok, executeTransaction no_pick wit_recover wit_params wit_run wit_info (wit_tx 200) (new 0) wit_state =
      Ok (e, s, ok) ∧
    total s ≤ total wit_state ∧ 21000 ≤ 2 * gasUsed e ∧ gasUsed e ≤ 60000.
Proof.
  apply (transaction_total no_pick wit_recover wit_hashes wit_params wit_chain wit_info wit_info_ok 0
    (wit_tx 200) (new 0) (wit_init 200).1.1 wit_state (wit_init 200).1.2 100).
  - exact wit_sound.
  - by apply wit_tx_ok.
  - by apply new_fresh.
  - reflexivity.
  - reflexivity.
  - vm_compute. reflexivity.
  - reflexivity.
  - exact wit_nonce.
Defined.

(** A call of the contract that fails: it uses all its gas. *)
Definition wit_result : result ExecError (Executive * State (Root:=Store) * bool) :=
  executeTransaction no_pick wit_recover wit_params wit_run wit_info (wit_tx 300) (new 0) wit_state.
Definition wit_e : Executive := match wit_result with Ok (e, _, _) => e | Err _ => new 0 end.
Definition wit_s : State (Root:=Store) := match wit_result with Ok (_, s, _) => s | Err _ => wit_state end.
Lemma failed_transaction_witness :
  m_excepted wit_e = BadInstruction_ ∧ bal wit_s 100 = 10 ^ 18 - 120000 ∧ bal wit_s 77 = 120000 ∧
  nonce_at wit_s 100 = 1 ∧ view wit_s 300 ≡ view wit_state 300.
Proof.
  assert (m_excepted wit_e = BadInstruction_) as Hx by (vm_compute; reflexivity).
  assert (gasUsed wit_e = 60000) as Hg by (vm_compute; reflexivity).
  destruct (failed_transaction no_pick wit_recover wit_hashes wit_params wit_chain wit_info wit_info_ok 0
    (wit_tx 300) (new 0) (wit_init 300).1.1 wit_state (wit_init 300).1.2 100 wit_e wit_s false)
    as (_&Hb&Hn&Hv).
  - exact wit_sound.
  - vm_compute. reflexivity.
  - apply wit_tx_ok. split; [discriminate|reflexivity].
  - apply new_fresh. discriminate.
  - reflexivity.
  - reflexivity.
  - vm_compute. reflexivity.
  - reflexivity.
  - exact wit_nonce.
  - vm_compute. reflexivity.
  - rewrite Hx. discriminate.
  - rewrite Hg in Hb. split; [exact Hx|]. split; [rewrite (Hb 100); reflexivity|].
    split; [rewrite (Hb 77); reflexivity|]. split; [rewrite Hn; reflexivity|].
    destruct (Hv 300) as [Heq|[Hnone _]]; [discriminate|discriminate|exact Heq|discriminate].
Defined.

(** The contract 200 sends ether to the one that fails. *)
Definition wit_env : Env := f_env (frame wit_params wit_info 200 100 100 7 2 [] code_store 0 false).
Definition wit_message : CallParameters := mkCallParameters 200 300 300 5 5 30000 [] false.
Definition wit_world : World (Root:=Store) := mkWorld wit_state empty_sub.
Notation wit_answer :=
  (ext_call no_pick wit_params (below no_pick wit_recover wit_hashes wit_params wit_info (λ _ _ _, None) 1024)
     wit_info wit_env wit_message wit_world).
Lemma wit_frame : frame_ok wit_env.
Proof.
  split; [|discriminate|done]. apply (frame_frame_ok wit_params wit_info wit_info_ok);
    [by repeat (apply Forall_cons; split)|by split; [constructor|]|by split; [apply bytes_okb_spec|]|discriminate|done].
Qed.
Lemma wit_params_ok : LegacyVM.params_ok wit_env wit_message.
Proof. split; [by repeat (apply Forall_cons; split)|done|by split; [constructor|]|by left]. Qed.
Lemma message_atomic_witness :
  ∃ w g, wit_answer = Some (w, (false, [], g)) ∧ undone wit_state (w_state w) ∧ same_sub empty_sub (w_sub w).
Proof.
  assert (match wit_answer with Some (_, (b, o, _)) => b = false ∧ o = [] | None => False end) as Hfalse
    by (vm_compute; split; reflexivity).
  destruct (message_atomic no_pick wit_recover wit_hashes wit_params wit_chain wit_info wit_info_ok
    (λ _ _ _, None) 1024 wit_env wit_world wit_message) as (w&ok&output&g&Hcall&_&_&_&_&Hfail&_).
  - exact wit_frame.
  - split; [reflexivity|discriminate].
  - split; [exact wit_sound|]. eexists. split; [reflexivity|]. left. reflexivity.
  - exact wit_params_ok.
  - right. split; [reflexivity|]. vm_compute. discriminate.
  - rewrite Hcall in Hfalse. destruct Hfalse as [-> ->]. exists w, g. split; [exact Hcall|]. apply Hfail. reflexivity.
Defined.

(** The root contract has a storage, but neither nonce, balance nor code: for
    the rules of EIP 158 it is empty.  A transaction that sends it nothing
    touches it, and committing the state removes it with all that it names. *)
Definition wit_touch : TransactionBase :=
  forceSender 100 (mkTransaction MessageCall 0 0 RootContractAddress 2 60000 [] None (-4) 0).
Definition wit_touched : option (State (Root:=Store)) :=
  match State_execute no_pick wit_recover wit_params wit_run wit_info wit_touch Committed wit_state with
  | Ok (_, _, s) => Some s
  | Err _ => None
  end.
Example root_contract_removed :
  ∃ s, wit_touched = Some s ∧
    (isNativeContract no_pick 500 wit_state).2 = true ∧ (isNativeContract no_pick 500 s).2 = false ∧
    m_state s !! RootContractAddress = None.
Proof.
  assert (match wit_touched with Some s => (isNativeContract no_pick 500 s).2 = false ∧
            m_state s !! RootContractAddress = None | None => False end) as Hs by (vm_compute; split; reflexivity).
  destruct wit_touched as [s|]; [|destruct Hs]. destruct Hs as [Hn Hr]. exists s.
  split; [reflexivity|]. split; [vm_compute; reflexivity|]. split; [exact Hn|exact Hr].
Qed.

End ExecutiveTx.
