(* ===== verification/Block.v ===== *)
(** * The block that is being built or enacted (libwing/Block.h, Block.cpp,
    State::execute of libwing/State.cpp, childDaos of libwing/GenesisInfo.cpp,
    and the contract of the block hashes of libwingcore/Common.cpp)

    A block on top of the chain: a state, the transactions that were executed in
    it with their receipts, and a header.  It is reset to the state after its
    parent, executes transactions, is closed with the rewards and sealed - or
    plays back a block that somebody else sealed and compares.  Assertions, logs
    and timers are left out.  An exception leaves no block, but for [execute],
    after which the block is still used. *)
From S2P Require Import Prelude CommonData RLP RLPFields TransactionBase State NativeStorage.
From S2P Require Import Instruction LegacyVM Receipt BlockHeader SealEngine EthashSeal BasicAuthority.
From S2P Require Import TrieHash Executive BlockChain TransactionQueue.

(** The root hash of a trie of accounts, and the trie that the state database
    has under a root hash when the block is started (MemTrie, OverlayDB) *)
Class StateTries (Root : Type) := {
  rootHash : gmap Z (State.TrieAccount (Root:=Root)) → Z;
  trie_under : Z → option (gmap Z (State.TrieAccount (Root:=Root)));
}.

Module Block.
Import CommonData RLP RLPFields State TransactionBase Executive BlockChain.
Import BlockHeader(BlockHeader, HeaderError, null_header, is_set, header_eqb, setAuthor, setTimestamp, setLogBloom,
  setGasUsed, setRoots, setParentHash, setExtraData, HeaderData, BlockData, of_bytes, hash, WithSeal, WithoutSeal,
  CheckNothingNew, m_hash, m_parentHash, m_author, m_timestamp, m_number, m_stateRoot, m_receiptsRoot, m_logBloom, m_difficulty,
  m_gasLimit, m_extraData).
Import Receipt(TransactionReceipt, StatusCode, StateRoot, m_gasUsed, m_bloom).

(** ** Code that throws *)

(** The exceptions: of the chain, of the execution of a transaction, of the
    state, of headers, of transactions and of the writer, and those of this
    file *)
Inductive BlockError :=
| ChainBad (e : ChainError) | ExecBad (e : ExecError) | StateBad (e : StateError) | HeaderWrong (e : HeaderError)
| TxBad (e : TxError) | WriteBad
| ChainOperationWithUnknownBlockChain | InvalidOperationOnSealedBlock | RootNotFound | BlockNotFound
| InvalidParentHash | InvalidReceiptsRoot | InvalidLogBloom | TooManyUncles | UncleInChain | UncleUnknownParent
| UncleTooOld | UncleIsBrother | UncleParentNotInChain | InvalidStateRoot | InvalidGasUsed.

(** Code that asks the chain, which may change its caches *)
Definition C (A : Type) : Type := Chain → Chain * result BlockError A.
#[export] Instance C_ret : MRet C := λ A a c, (c, Ok a).
#[export] Instance C_bind : MBind C := λ A B f m c,
  match m c with (c', Ok a) => f a c' | (c', Err e) => (c', Err e) end.
Definition lift {A} (m : BlockChain.M A) : C A := λ c,
  match m c with (c', Ok a) => (c', Ok a) | (c', Err e) => (c', Err (ChainBad e)) end.
Definition pure {A} (r : result BlockError A) : C A := λ c, (c, r).
Definition raise_when (b : bool) (e : BlockError) : C () := pure (throw_if b e).
Fixpoint each {A B} (f : B → A → C B) (acc : B) (l : list A) : C B :=
  match l with [] => mret acc | x :: l => acc ← f acc x; each f acc l end.

Definition of_err {E A} (f : E → BlockError) (r : result E A) : result BlockError A :=
  match r with Ok a => Ok a | Err e => Err (f e) end.
Notation of_state := (of_err StateBad).
Notation of_header := (of_err HeaderWrong).
Notation of_tx := (of_err TxBad).
Notation of_exec := (of_err ExecBad).
Notation of_writer := (of_err (λ _, WriteBad)).

(** ** Constants *)

(** [c_childDaos], [childDaos] *)
Definition childDaos : list Z :=
  [
   0xd4fe7bc31cedb7bfb8a345f31e668033056b2728; 0xb3fb0e5aba0e20e5c49d252dfd30e102b171a425;
   0x2c19c7f9ae8b751e37aeb2d93a699722395ae18f; 0xecd135fa4f61a655311e86238c92adcd779555d2;
   0x1975bd06d486162d5dc297798dfc41edd5d160a7; 0xa3acf3a1e16b1d7c315e23510fdd7847b48234f6;
   0x319f70bab6845585f412ec7724b744fec6095c85; 0x06706dd3f2c9abf0a21ddcc6941d9b86f0596936;
   0x5c8536898fbb74fc7445814902fd08422eac56d0; 0x6966ab0d485353095148a2155858910e0965b6f9;
   0x779543a0491a837ca36ce8c635d6154e3c4911a6; 0x2a5ed960395e2a49b1c758cef4aa15213cfd874c;
   0x5c6e67ccd5849c0d29219c4f95f1a7a93b3f5dc5; 0x9c50426be05db97f5d64fc54bf89eff947f0a321;
   0x200450f06520bdd6c527622a273333384d870efb; 0xbe8539bfe837b67d1282b2b1d61c3f723966f049;
   0x6b0c4d41ba9ab8d8cfb5d379c69a612f2ced8ecb; 0xf1385fb24aad0cd7432824085e42aff90886fef5;
   0xd1ac8b1ef1b69ff51d1d401a476e7e612414f091; 0x8163e7fb499e90f8544ea62bbf80d21cd26d9efd;
   0x51e0ddd9998364a2eb38588679f0d2c42653e4a6; 0x627a0a960c079c21c34f7612d5d230e01b4ad4c7;
   0xf0b1aa0eb660754448a7937c022e30aa692fe0c5; 0x24c4d950dfd4dd1902bbed3508144a54542bba94;
   0x9f27daea7aca0aa0446220b98d028715e3bc803d; 0xa5dc5acd6a7968a4554d89d65e59b7fd3bff0f90;
   0xd9aef3a1e38a39c16b31d1ace71bca8ef58d315b; 0x63ed5a272de2f6d968408b4acb9024f4cc208ebf;
   0x6f6704e5a10332af6672e50b3d9754dc460dfa4d; 0x77ca7b50b6cd7e2f3fa008e24ab793fd56cb15f6;
   0x492ea3bb0f3315521c31f273e565b868fc090f17; 0x0ff30d6de14a8224aa97b78aea5388d1c51c1f00;
   0x9ea779f907f0b315b364b0cfc39a0fde5b02a416; 0xceaeb481747ca6c540a000c1f3641f8cef161fa7;
   0xcc34673c6c40e791051898567a1222daf90be287; 0x579a80d909f346fbfb1189493f521d7f48d52238;
   0xe308bd1ac5fda103967359b2712dd89deffb7973; 0x4cb31628079fb14e4bc3cd5e30c2f7489b00960c;
   0xac1ecab32727358dba8962a0f3b261731aad9723; 0x4fd6ace747f06ece9c49699c7cabc62d02211f75;
   0x440c59b325d2997a134c2c7c60a8c61611212bad; 0x4486a3d68fac6967006d7a517b889fd3f98c102b;
   0x9c15b54878ba618f494b38f0ae7443db6af648ba; 0x27b137a85656544b1ccb5a0f2e561a5703c6a68f;
   0x21c7fdb9ed8d291d79ffd82eb2c4356ec0d81241; 0x23b75c2f6791eef49c69684db4c6c1f93bf49a50;
   0x1ca6abd14d30affe533b24d7a21bff4c2d5e1f3b; 0xb9637156d330c0d605a791f1c31ba5890582fe1c;
   0x6131c42fa982e56929107413a9d526fd99405560; 0x1591fc0f688c81fbeb17f5426a162a7024d430c2;
   0x542a9515200d14b68e934e9830d91645a980dd7a; 0xc4bbd073882dd2add2424cf47d35213405b01324;
   0x782495b7b3355efb2833d56ecb34dc22ad7dfcc4; 0x58b95c9a9d5d26825e70a82b6adb139d3fd829eb;
   0x3ba4d81db016dc2890c81f3acec2454bff5aada5; 0xb52042c8ca3f8aa246fa79c3feaa3d959347c0ab;
   0xe4ae1efdfc53b73893af49113d8694a057b9c0d1; 0x3c02a7bc0391e86d91b7d144e61c2c01a25a79c5;
   0x0737a6b837f97f46ebade41b9bc3e1c509c85c53; 0x97f43a37f595ab5dd318fb46e7a155eae057317a;
   0x52c5317c848ba20c7504cb2c8052abd1fde29d03; 0x4863226780fe7c0356454236d3b1c8792785748d;
   0x5d2b2e6fcbe3b11d26b525e085ff818dae332479; 0x5f9f3392e9f62f63b8eac0beb55541fc8627f42c;
   0x057b56736d32b86616a10f619859c6cd6f59092a; 0x9aa008f65de0b923a2a4f02012ad034a5e2e2192;
   0x304a554a310c7e546dfe434669c62820b7d83490; 0x914d1b8b43e92723e64fd0a06f5bdb8dd9b10c79;
   0x4deb0033bb26bc534b197e61d19e0733e5679784; 0x07f5c1e1bc2c93e0402f23341973a0e043f7bf8a;
   0x35a051a0010aba705c9008d7a7eff6fb88f6ea7b; 0x4fa802324e929786dbda3b8820dc7834e9134a2a;
   0x9da397b9e80755301a3b32173283a91c0ef6c87e; 0x8d9edb3054ce5c5774a420ac37ebae0ac02343c6;
   0x0101f3be8ebb4bbd39a2e3b9a3639d4259832fd9; 0x5dc28b15dffed94048d73806ce4b7a4612a1d48f;
   0xbcf899e6c7d9d5a215ab1e3444c86806fa854c76; 0x12e626b0eebfe86a56d633b9864e389b45dcb260;
   0xa2f1ccba9395d7fcb155bba8bc92db9bafaeade7; 0xec8e57756626fdc07c63ad2eafbd28d08e7b0ca5;
   0xd164b088bd9108b60d0ca3751da4bceb207b0782; 0x6231b6d0d5e77fe001c2a460bd9584fee60d409b;
   0x1cba23d343a983e9b5cfd19496b9a9701ada385f; 0xa82f360a8d3455c5c41366975bde739c37bfeb8a;
   0x9fcd2deaff372a39cc679d5c5e4de7bafb0b1339; 0x005f5cee7a43331d5a3d3eec71305925a62f34b6;
   0x0e0da70933f4c7849fc0d203f5d1d43b9ae4532d; 0xd131637d5275fd1a68a3200f4ad25c71a2a9522e;
   0xbc07118b9ac290e4622f5e77a0853539789effbe; 0x47e7aa56d6bdf3f36be34619660de61275420af8;
   0xacd87e28b0c9d1254e868b81cba4cc20d9a32225; 0xadf80daec7ba8dcf15392f1ac611fff65d94f880;
   0x5524c55fb03cf21f549444ccbecb664d0acad706; 0x40b803a9abce16f50f36a77ba41180eb90023925;
   0xfe24cdd8648121a43a7c86d289be4dd2951ed49f; 0x17802f43a0137c506ba92291391a8a8f207f487d;
   0x253488078a4edf4d6f42f113d1e62836a942cf1a; 0x86af3e9626fce1957c82e88cbf04ddf3a2ed7915;
   0xb136707642a4ea12fb4bae820f03d2562ebff487; 0xdbe9b615a3ae8709af8b93336ce9b477e4ac0940;
   0xf14c14075d6c4ed84b86798af0956deef67365b5; 0xca544e5c4687d109611d0f8f928b53a25af72448;
   0xaeeb8ff27288bdabc0fa5ebb731b6f409507516c; 0xcbb9d3703e651b0d496cdefb8b92c25aeb2171f7;
   0x6d87578288b6cb5549d5076a207456a1f6a63dc0; 0xb2c6f0dfbb716ac562e2d85d6cb2f8d5ee87603e;
   0xaccc230e8a6e5be9160b8cdf2864dd2a001c28b6; 0x2b3455ec7fedf16e646268bf88846bd7a2319bb2;
   0x4613f3bca5c44ea06337a9e439fbc6d42e501d0a; 0xd343b217de44030afaa275f54d31a9317c7f441e;
   0x84ef4b2357079cd7a7c69fd7a37cd0609a679106; 0xda2fef9e4a3230988ff17df2165440f37e8b1708;
   0xf4c64518ea10f995918a454158c6b61407ea345c; 0x7602b46df5390e432ef1c307d4f2c9ff6d65cc97;
   0xbb9bc244d798123fde783fcc1c72d3bb8c189413; 0x807640a13483f8ac783c557fcdf27be11ea4ac7a
  ].
(** [c_blockhashContractCode], [SystemAddress] *)
Definition c_blockhashContractCode : bytes :=
  [
   0x60; 0x00; 0x73; 0xff; 0xff; 0xff; 0xff; 0xff; 0xff; 0xff; 0xff; 0xff; 0xff; 0xff; 0xff; 0xff;
   0xff; 0xff; 0xff; 0xff; 0xff; 0xff; 0xfe; 0x33; 0x14; 0x15; 0x61; 0x00; 0x59; 0x57; 0x60; 0x01;
   0x43; 0x03; 0x5b; 0x60; 0x01; 0x15; 0x61; 0x00; 0x53; 0x57; 0x60; 0x00; 0x35; 0x61; 0x01; 0x00;
   0x82; 0x06; 0x83; 0x01; 0x55; 0x61; 0x01; 0x00; 0x81; 0x06; 0x15; 0x61; 0x00; 0x40; 0x57; 0x00;
   0x5b; 0x61; 0x01; 0x00; 0x81; 0x04; 0x90; 0x50; 0x61; 0x01; 0x00; 0x82; 0x01; 0x91; 0x50; 0x61;
   0x00; 0x22; 0x56; 0x5b; 0x50; 0x61; 0x00; 0xe0; 0x56; 0x5b; 0x43; 0x60; 0x00; 0x35; 0x12; 0x15;
   0x61; 0x00; 0xd4; 0x57; 0x60; 0x00; 0x35; 0x60; 0x01; 0x81; 0x43; 0x03; 0x03; 0x5b; 0x61; 0x01;
   0x00; 0x81; 0x12; 0x15; 0x15; 0x61; 0x00; 0x85; 0x57; 0x60; 0x00; 0x61; 0x01; 0x00; 0x83; 0x06;
   0x14; 0x61; 0x00; 0x88; 0x56; 0x5b; 0x60; 0x00; 0x5b; 0x15; 0x61; 0x00; 0xa7; 0x57; 0x61; 0x01;
   0x00; 0x83; 0x01; 0x92; 0x50; 0x61; 0x01; 0x00; 0x82; 0x04; 0x91; 0x50; 0x61; 0x01; 0x00; 0x81;
   0x04; 0x90; 0x50; 0x61; 0x00; 0x6d; 0x56; 0x5b; 0x61; 0x01; 0x00; 0x81; 0x12; 0x15; 0x15; 0x61;
   0x00; 0xbd; 0x57; 0x60; 0x00; 0x60; 0xa0; 0x52; 0x60; 0x20; 0x60; 0xa0; 0xf3; 0x5b; 0x61; 0x01;
   0x00; 0x82; 0x06; 0x83; 0x01; 0x54; 0x60; 0xc0; 0x52; 0x60; 0x20; 0x60; 0xc0; 0xf3; 0x50; 0x50;
   0x61; 0x00; 0xdf; 0x56; 0x5b; 0x60; 0x00; 0x60; 0xe0; 0x52; 0x60; 0x20; 0x60; 0xe0; 0xf3; 0x5b;
   0x5b; 0x50
  ].
Definition SystemAddress : Z := 0xfffffffffffffffffffffffffffffffffffffffe.

Section Block.
Context `{StateDB Root} `{!StateTries Root} `{EthashLib} `{AuthorityLib} (pick : nat → nat → nat).
(** The recovery of keys, and the transactions to the contract of the block
    hashes within each other that the stack of the process has room for *)
Context (recover : SignatureStruct → Z → bytes) (stack : nat).
Context (p : SealEngine.ChainOperationParams) (genesisBlock : bytes) (authority : BasicAuthority.Authority).
Notation State := (State (Root:=Root)).
#[local] Instance block_crypto : Crypto := crypto recover.

(** ** The members *)

(** The members of [Block], with [b_] for [m_]; [b_sealEngine] tells whether the
    seal engine of the chain was noted. *)
Record Block := mkBlock {
  b_state : State;
  b_transactions : list TransactionBase;
  b_receipts : list TransactionReceipt;
  b_transactionSet : gset Z;
  b_precommit : State;
  b_previousBlock : BlockHeader;
  b_currentBlock : BlockHeader;
  b_currentBytes : bytes;
  b_committedToSeal : bool;
  b_currentTxs : bytes;
  b_currentUncles : bytes;
  b_author : Z;
  b_sealEngine : bool;
}.
Definition with_state (s : State) (b : Block) : Block :=
  mkBlock s (b_transactions b) (b_receipts b) (b_transactionSet b) (b_precommit b) (b_previousBlock b)
    (b_currentBlock b) (b_currentBytes b) (b_committedToSeal b) (b_currentTxs b) (b_currentUncles b) (b_author b)
    (b_sealEngine b).
Definition with_precommit (s : State) (committed : bool) (b : Block) : Block :=
  mkBlock (b_state b) (b_transactions b) (b_receipts b) (b_transactionSet b) s (b_previousBlock b)
    (b_currentBlock b) (b_currentBytes b) committed (b_currentTxs b) (b_currentUncles b) (b_author b) (b_sealEngine b).
Definition with_executed (ts : list TransactionBase) (rs : list TransactionReceipt) (set : gset Z) (b : Block) : Block :=
  mkBlock (b_state b) ts rs set (b_precommit b) (b_previousBlock b) (b_currentBlock b) (b_currentBytes b)
    (b_committedToSeal b) (b_currentTxs b) (b_currentUncles b) (b_author b) (b_sealEngine b).
Definition with_headers (previous current : BlockHeader) (b : Block) : Block :=
  mkBlock (b_state b) (b_transactions b) (b_receipts b) (b_transactionSet b) (b_precommit b) previous current
    (b_currentBytes b) (b_committedToSeal b) (b_currentTxs b) (b_currentUncles b) (b_author b) (b_sealEngine b).
Definition with_bytes (block txs uncles : bytes) (b : Block) : Block :=
  mkBlock (b_state b) (b_transactions b) (b_receipts b) (b_transactionSet b) (b_precommit b) (b_previousBlock b)
    (b_currentBlock b) block (b_committedToSeal b) txs uncles (b_author b) (b_sealEngine b).
Definition with_author (a : Z) (engine : bool) (b : Block) : Block :=
  mkBlock (b_state b) (b_transactions b) (b_receipts b) (b_transactionSet b) (b_precommit b) (b_previousBlock b)
    (b_currentBlock b) (b_currentBytes b) (b_committedToSeal b) (b_currentTxs b) (b_currentUncles b) a engine.

(** [State::operator=]: the log of changes stays, and so do the random numbers
    of the process. *)
Definition assign (target source : State) : State :=
  with_draws (m_draws target) (with_log (m_changeLog target) source).
(** [State(nonce, db, BaseState::Empty)] for the database of a state *)
Definition fresh_state (nonce : Z) (s : State) : State := mkState ∅ (m_codes s) ∅ [] ∅ ∅ nonce [] (m_draws s).
(** [State::setRoot]: the trie that the state has is in its database. *)
Definition setRoot (r : Z) (s : State) : result BlockError State :=
  if r =? rootHash (m_state s) then Ok (State.setRoot (m_state s) s)
  else
    match trie_under r with
    | Some trie => Ok (State.setRoot trie s)
    | None => if r =? BlockHeader.EmptyTrie then Ok (State.setRoot ∅ s) else Err RootNotFound
    end.
(** [db().lookup(root).empty()] *)
Definition has_root (r : Z) (s : State) : bool :=
  (r =? rootHash (m_state s)) || match trie_under r with Some _ => true | None => false end.

(** ** Small operations *)

(** The members before a constructor notes the chain *)
Definition blank (s : State) (author : Z) : Block :=
  mkBlock s [] [] ∅ s (BlockHeader.clear null_header) (BlockHeader.clear null_header) [] false [] [] author false.
(** The copy constructor *)
Definition copy (b : Block) : Block :=
  mkBlock (State.copy (b_state b)) (b_transactions b) (b_receipts b) (b_transactionSet b) (State.copy (b_state b))
    (b_previousBlock b) (b_currentBlock b) (b_currentBytes b) false [] [] (b_author b) (b_sealEngine b).
Definition isSealed (b : Block) : bool := match b_currentBytes b with [] => false | _ => true end.
Definition gasUsed (b : Block) : Z := match last (b_receipts b) with Some r => m_gasUsed r | None => 0 end.
Definition gasLimitRemaining (b : Block) : Z := u256 (m_gasLimit (b_currentBlock b) - gasUsed b).
(** [sealEngine]: the engine must have been noted. *)
Definition sealEngine (b : Block) : result BlockError () :=
  throw_if (negb (b_sealEngine b)) ChainOperationWithUnknownBlockChain.
Definition noteChain (b : Block) : result BlockError Block :=
  if b_sealEngine b then Ok b
  else
    s ← of_state (noteAccountStartNonce (SealEngine.accountStartNonce p) (b_state b));
    pre ← of_state (noteAccountStartNonce (SealEngine.accountStartNonce p) (b_precommit b));
    Ok (with_author (b_author b) true (with_precommit pre (b_committedToSeal b) (with_state s b))).
Definition uncommitToSeal (b : Block) : Block :=
  if b_committedToSeal b then with_precommit (b_precommit b) false (with_state (assign (b_state b) (b_precommit b)) b)
  else b.
(** The constructors for a chain and a state of its database, and for a root *)
Definition make (s : State) (author : Z) : result BlockError Block := noteChain (blank s author).
Definition make_at (s : State) (root author : Z) : result BlockError Block :=
  b ← make s author;
  s ← setRoot root (b_state b);
  Ok (with_state s b).
Definition logBloom (b : Block) : Z := fold_left (λ ret i, Z.lor ret (m_bloom i)) (b_receipts b) 0.
(** [stateRootBeforeTx]: a receipt with a status gives the null hash. *)
Definition stateRootBeforeTx (i : nat) (b : Block) : Z :=
  match Nat.min i (length (b_transactions b)) with
  | O => m_stateRoot (b_previousBlock b)
  | S i => match b_receipts b !! i with
           | Some r => match Receipt.stateRoot r with Ok h => h | Err _ => 0 end
           | None => 0
           end
  end.

(** [SealEngineFace::populateFromParent] *)
Definition populateFromParent (bi parent : BlockHeader) : result HeaderError BlockHeader :=
  match SealEngine.sealEngineName p with
  | SealEngine.Ethash => EthashSeal.populateFromParent p bi parent
  | SealEngine.NoProof => Ok (BlockHeader.populateFromParent parent bi)
  | SealEngine.BasicAuthority => Ok (BasicAuthority.populateFromParent authority bi parent)
  end.
Definition blockReward (number : Z) : Z := SealEngine.blockReward p (SealEngine.scheduleForBlockNumber p number).
Definition commit_behaviour (number : Z) : CommitBehaviour :=
  if SealEngine.EIP158ForkBlock p <=? number then RemoveEmptyAccounts else KeepEmptyAccounts.

(** ** Execution *)

(** [State::execute] with the receipt.  The hashes of the last blocks are those
    after a block; what the chain keeps of them is not changed here. *)
Definition executeState (hashes : Z → list Z) (i : EnvInfo) (t : TransactionBase) (pm : Permanence) (s : State)
    : result BlockError (ExecutionResult * TransactionReceipt * State) :=
  '(res, e, s) ← of_exec (State_execute pick recover p (run pick recover hashes p stack i) i t pm s);
  let status := if SealEngine.byzantiumForkBlock p <=? info_number i
                then StatusCode (if status_success (m_excepted e) then 1 else 0)
                else StateRoot (rootHash (m_state s)) in
  Ok (res, Receipt.make status (u256 (info_gasUsed i + Executive.gasUsed e)) (m_logs e), s).
(** [LastBlockHashes] of the chain *)
Definition last_hashes (c : Chain) (h : Z) : list Z :=
  match precedingHashes genesisBlock h c with (_, Ok l) => l | (_, Err _) => [] end.
Definition env_info (b : Block) : EnvInfo := mkEnvInfo (b_currentBlock b) (gasUsed b).
(** [execute]: the block and the result; an exception leaves what the check of
    the transaction has read in the caches of the state. *)
Definition execute (hashes : Z → list Z) (t : TransactionBase) (pm : Permanence) (b : Block)
    : Block * result BlockError ExecutionResult :=
  if isSealed b then (b, Err InvalidOperationOnSealedBlock)
  else
    let b := uncommitToSeal b in
    match executeState hashes (env_info b) t pm (b_state b) with
    | Err e => (with_state (initialize pick recover p (env_info b) t (new 0) (b_state b)).1.2 b, Err e)
    | Ok (res, receipt, s) =>
      let b := with_state s b in
      match pm with
      | Committed =>
        match of_tx (sha3_of t true) with
        | Ok h => (with_executed (b_transactions b ++ [t]) (b_receipts b ++ [receipt]) ({[h]} ∪ b_transactionSet b) b,
                   Ok res)
        | Err e => (b, Err e)
        end
      | _ => (b, Ok res)
      end
    end.

(** [performIrregularModifications]: the fork that moved the ether of the DAOs *)
Definition dao_recipient : Z := 0xbf4ed7b27f1d666546e30d74d50d173d20bca754.
Definition performIrregularModifications (b : Block) : result BlockError Block :=
  let daoHardfork := SealEngine.daoHardforkBlock p in
  if negb (daoHardfork =? 0) && (m_number (b_currentBlock b) =? daoHardfork) then
    s ← of_state (foldM (λ s dao, let '(s, v) := balance pick dao s in transferBalance pick dao dao_recipient v s)
                    (b_state b) childDaos);
    Ok (with_state (commit KeepEmptyAccounts s) b)
  else Ok b.
(** [updateBlockhashContract] *)
Definition call_blockhash (b : Block) : result BlockError Block :=
  let i := mkEnvInfo (b_currentBlock b) 0 in
  '(h, prev) ← of_header (hash WithSeal (b_previousBlock b));
  let params := LegacyVM.mkCallParameters SystemAddress c_blockhashContractAddress c_blockhashContractAddress 0 0 1000000
                  (hash_bytes 32 h) false in
  '(e, s, done) ← of_exec (call pick p i params 0 SystemAddress (new 0) (b_state b));
  '(e, s) ← (if done : bool then Ok (e, s)
             else of_exec (go pick (run pick recover (λ _, []) p stack i) e s));
  '(_, s, _) ← of_exec (finalize pick recover p i e s);
  Ok (with_headers prev (b_currentBlock b) (with_state (commit RemoveEmptyAccounts s) b)).
Definition updateBlockhashContract (b : Block) : result BlockError Block :=
  let blockNumber := u256 (m_number (b_currentBlock b)) in
  let fork := SealEngine.constantinopleForkBlock p in
  b ← (if blockNumber =? fork then
         s ← of_state (createContract c_blockhashContractAddress (b_state b));
         Ok (with_state (commit KeepEmptyAccounts (setCode pick c_blockhashContractAddress c_blockhashContractCode s)) b)
       else Ok b);
  if fork <=? blockNumber then call_blockhash b else Ok b.

(** ** On top of the chain *)

(** [resetCurrent] *)
Definition resetCurrent (timestamp : Z) (b : Block) : result BlockError Block :=
  let b := with_executed [] [] ∅ b in
  let previous := b_previousBlock b in
  let current := setTimestamp (Z.max (m_timestamp previous + 1) timestamp) (setAuthor (b_author b) null_header) in
  let b := with_bytes [] (b_currentTxs b) (b_currentUncles b) b in
  _ ← sealEngine b;
  current ← of_header (populateFromParent current previous);
  s ← setRoot (m_stateRoot previous) (b_state b);
  let b := with_headers previous current (with_state s b) in
  let b := with_precommit (assign (b_precommit b) s) false b in
  b ← performIrregularModifications b;
  updateBlockhashContract b.
Definition setAuthor_block (a utcTime : Z) (b : Block) : result BlockError Block :=
  resetCurrent utcTime (with_author a (b_sealEngine b) b).

(** [sync] with a block; no header is the one that is not set. *)
Definition sync (utcTime h : Z) (bi : BlockHeader) (b : Block) : C (Block * bool) :=
  b ← pure (noteChain b);
  bi ← (if is_set bi then mret bi else lift (info genesisBlock h));
  if header_eqb bi (b_currentBlock b) then
    b ← pure (resetCurrent utcTime (with_headers (b_currentBlock b) (b_currentBlock b) b)); mret (b, true)
  else if header_eqb bi (b_previousBlock b) then mret (b, false)
  else
    raise_when (negb (has_root (m_stateRoot bi) (b_state b))) InvalidStateRoot;;
    b ← pure (resetCurrent utcTime (with_headers bi (b_currentBlock b) b)); mret (b, true).
Definition sync_head (utcTime : Z) (b : Block) : C (Block * bool) :=
  h ← lift currentHash; sync utcTime h null_header b.

(** ** Playing back a block *)

(** [VerifiedBlockRef] *)
Record VerifiedBlockRef := mkVerified {
  vb_block : bytes; vb_info : BlockHeader; vb_transactions : list TransactionBase;
}.

(** The loop over the transactions, with the receipts as they are hashed *)
Definition enact_transaction (hashes : Z → list Z) (acc : Block * list bytes) (t : TransactionBase)
    : result BlockError (Block * list bytes) :=
  let '(b, receipts) := acc in
  match execute hashes t Committed b with
  | (b, Ok _) =>
    match last (b_receipts b) with
    | Some r => d ← of_writer (Receipt.rlp r); Ok (b, receipts ++ [d])
    | None => Err WriteBad
    end
  | (_, Err e) => Err e
  end.

(** One uncle: the parent of the block, and so on [depth] times, must be the
    parent of the uncle. *)
Fixpoint ancestor (n : nat) (h : Z) : C Z :=
  match n with O => mret h | S n => d ← lift (details h); ancestor n (parent d) end.
Definition check_uncle (cur : BlockHeader) (acc : gset Z * list BlockHeader) (i : bytes)
    : C (gset Z * list BlockHeader) :=
  let '(excluded, rewarded) := acc in
  let h := tx_hash i in
  raise_when (bool_decide (h ∈ excluded)) UncleInChain;;
  uncle ← pure (of_header (of_bytes i HeaderData h));
  known ← lift (isKnown genesisBlock (m_parentHash uncle) true);
  raise_when (negb known) UncleUnknownParent;;
  d ← lift (block genesisBlock (m_parentHash uncle));
  uncleParent ← pure (of_header (of_bytes d BlockData 0));
  let depth := m_number cur - m_number uncle in
  raise_when (6 <? depth) UncleTooOld;;
  raise_when (depth <? 1) UncleIsBrother;;
  expected ← ancestor (Z.to_nat depth) (m_parentHash cur);
  '(uph, uncleParent) ← pure (of_header (hash WithSeal uncleParent));
  raise_when (negb (expected =? uph)) UncleParentNotInChain;;
  pure (of_header (BlockHeader.verify CheckNothingNew uncle uncleParent []));;
  mret ({[h]} ∪ excluded, rewarded ++ [uncle]).
Definition check_uncles (cur : BlockHeader) (us : list bytes) : C (list BlockHeader) :=
  raise_when (2 <? Z.of_nat (length us)) TooManyUncles;;
  excluded ← lift (allKinFrom genesisBlock (m_parentHash cur) 6);
  '(h, cur) ← pure (of_header (hash WithSeal cur));
  '(_, rewarded) ← each (check_uncle cur) ({[h]} ∪ excluded, []) us;
  mret rewarded.

(** [applyRewards] *)
Definition uncle_reward (reward number : Z) (i : BlockHeader) : Z := u256 (reward * (8 + m_number i - number)) / 8.
Definition applyRewards (uncles : list BlockHeader) (reward : Z) (b : Block) : result BlockError Block :=
  let cur := b_currentBlock b in
  '(s, r) ← foldM (λ '(s, r) i,
      s ← of_state (addBalance pick (m_author i) (uncle_reward reward (m_number cur) i) s);
      Ok (s, u256 (r + reward / 32))) (b_state b, reward) uncles;
  s ← of_state (addBalance pick (m_author cur) r s);
  Ok (with_state s b).

(** [enact]: the header of the block may also repeat the state root of its
    parent. *)
Definition finish_block (uncles : list BlockHeader) (b : Block) : result BlockError Block :=
  let n := m_number (b_currentBlock b) in
  b ← applyRewards uncles (blockReward n) b;
  Ok (with_state (commit (commit_behaviour n) (b_state b)) b).
Definition enact (vb : VerifiedBlockRef) (b : Block) : C (Block * Z) := λ c,
  (b ← pure (noteChain b);
   '(ph, previous) ← pure (of_header (hash WithSeal (b_previousBlock b)));
   raise_when (negb (m_parentHash (b_currentBlock b) =? ph)) InvalidParentHash;;
   let b := with_headers previous (vb_info vb) b in
   pure (of_writer (construct VeryStrict (vb_block vb)));;
   '(b, receipts) ← pure (foldM (enact_transaction (last_hashes c)) (b, []) (vb_transactions vb));
   let cur := b_currentBlock b in
   let receiptsRoot := be_val (TrieHash.orderedTrieRoot BlockHeader.sha3_bytes receipts) in
   raise_when (negb (receiptsRoot =? m_receiptsRoot cur)) InvalidReceiptsRoot;;
   raise_when (negb (m_logBloom cur =? logBloom b)) InvalidLogBloom;;
   us ← lift (block_items 2 (vb_block vb));
   rewarded ← check_uncles cur us;
   b ← pure (finish_block rewarded b);
   let root := rootHash (m_state (b_state b)) in
   raise_when (negb (m_stateRoot cur =? m_stateRoot (b_previousBlock b)) && negb (m_stateRoot cur =? root))
     InvalidStateRoot;;
   raise_when (negb (BlockHeader.m_gasUsed cur =? gasUsed b)) InvalidGasUsed;;
   mret (b, m_difficulty cur)) c.
(** [enactOn] *)
Definition enactOn (utcTime : Z) (vb : VerifiedBlockRef) (b : Block) : C (Block * Z) :=
  b ← pure (noteChain b);
  biParent ← lift (info genesisBlock (m_parentHash (vb_info vb)));
  pure (of_header (BlockHeader.verify CheckNothingNew (vb_info vb) biParent []));;
  (if negb (m_number biParent =? 0) then _ ← lift (info genesisBlock (m_parentHash biParent)); mret () else mret ());;
  '(b, _) ← sync utcTime (m_parentHash (vb_info vb)) null_header b;
  b ← pure (resetCurrent utcTime b);
  enact vb (with_headers biParent (b_currentBlock b) b).
(** [populateFromChain] *)
Definition populateFromChain (utcTime h ir : Z) (b : Block) : C Block :=
  b ← pure (noteChain b);
  known ← lift (isKnown genesisBlock h true);
  raise_when (negb known) BlockNotFound;;
  d ← lift (block genesisBlock h);
  bi ← pure (of_header (of_bytes d BlockData 0));
  if negb (m_number bi =? 0) then
    pd ← lift (block genesisBlock (m_parentHash bi));
    bip ← pure (of_header (of_bytes pd BlockData 0));
    '(b, _) ← sync utcTime (m_parentHash bi) bip b;
    let b := with_author (m_author bi) (b_sealEngine b) b in
    '(i, txs) ← lift (verifyBlock p genesisBlock authority (Z.lor ir SealEngine.TransactionBasic) d);
    '(b, _) ← enact (mkVerified d i txs) b;
    mret b
  else
    let s := b_state b in
    '(b, _) ← sync utcTime h bi (with_state (assign s (fresh_state (m_accountStartNonce s) s)) b);
    mret b.
(** [cleanup]: the database is written, and the block is reset on itself. *)
Definition cleanup (utcTime : Z) (b : Block) : result BlockError Block :=
  let previous := b_currentBlock b in
  _ ← sealEngine b;
  current ← of_header (populateFromParent (b_currentBlock b) previous);
  resetCurrent utcTime (with_headers previous current b).

(** ** Sealing *)

(** The uncles that [commitToSeal] includes: children of the last ancestors
    that are not known there, two at most; with their headers as they are
    stored, and the hashes that are excluded *)
Notation Uncles := (list (BlockHeader * bytes) * gset Z)%type.
Fixpoint take_uncles (us : list Z) (acc : Uncles) : C Uncles :=
  match us with
  | [] => mret acc
  | u :: us =>
    let '(found, excluded) := acc in
    if decide (u ∈ excluded) then take_uncles us acc
    else
      h ← lift (info genesisBlock u);
      d ← lift (headerData genesisBlock u);
      let found := found ++ [(h, d)] in
      if (length found =? 2)%nat then mret (found, excluded) else take_uncles us (found, {[u]} ∪ excluded)
  end.
Fixpoint find_uncles (gens : nat) (h : Z) (acc : Uncles) : C Uncles :=
  match gens with
  | O => mret acc
  | S gens =>
    if (h =? m_genesisHash genesisBlock) || (2 <=? length acc.1)%nat then mret acc
    else
      d ← lift (details h);
      acc ← take_uncles (children d) acc;
      d ← lift (details h);
      find_uncles gens (parent d) acc
  end.
Definition choose_uncles (b : Block) : C (list (BlockHeader * bytes)) :=
  if negb (m_number (b_previousBlock b) =? 0) then
    excluded ← lift (allKinFrom genesisBlock (m_parentHash (b_currentBlock b)) 6);
    '(found, _) ← find_uncles 6 (m_parentHash (b_previousBlock b)) ([], excluded);
    mret found
  else mret [].

(** The lists of the block as they are written, a receipt for each transaction
    ([at] throws); the keys of the maps are distinct. *)
Definition receipt_at (b : Block) (i : nat) : result BlockError bytes :=
  match b_receipts b !! i with Some r => of_writer (Receipt.rlp r) | None => Err WriteBad end.
Definition receipt_bytes (b : Block) : result BlockError (list bytes) :=
  foldM (λ l i, d ← receipt_at b i; Ok (l ++ [d])) [] (seq 0 (length (b_transactions b))).
Definition transaction_bytes (b : Block) : result BlockError (list bytes) :=
  foldM (λ l t, d ← of_tx (rlp_of t true); Ok (l ++ [d])) [] (b_transactions b).
Definition write_list (items : list bytes) : result BlockError bytes :=
  of_writer (s ← appendList (Z.of_nat (length items)) empty_stream;
             s ← foldM (λ s d, appendRaw d 1 s) s items; out s).
Definition write_uncles (items : list bytes) : result BlockError bytes :=
  of_writer (s ← appendList (Z.of_nat (length items)) empty_stream;
             s ← appendRaw (concat items) (Z.of_nat (length items)) s; out s).
Definition map_root (items : list bytes) : Z :=
  be_val (TrieHash.hash256 BlockHeader.sha3_bytes
    (foldl (λ m e, TrieHash.map_insert e.1 e.2 m) [] (imap (λ i d, (TrieHash.index_key (Z.of_nat i), d)) items))).

(** [commitToSeal] *)
Definition sealed_header (extraData : bytes) (txs receipts : list bytes) (uncles : bytes) (b : Block)
    : result BlockError Block :=
  let cur := b_currentBlock b in
  let cur := setLogBloom (logBloom b) cur in
  let cur := setGasUsed (gasUsed b) cur in
  let cur := setRoots (map_root txs) (map_root receipts) (tx_hash uncles) (rootHash (m_state (b_state b))) cur in
  '(h, previous) ← of_header (hash WithSeal (b_previousBlock b));
  Ok (with_headers previous (setExtraData (take 32 extraData) (setParentHash h cur)) b).
Definition commitToSeal (extraData : bytes) (b : Block) : C Block :=
  raise_when (isSealed b) InvalidOperationOnSealedBlock;;
  b ← pure (noteChain b);
  let b := if b_committedToSeal b then uncommitToSeal b
           else with_precommit (assign (b_precommit b) (b_state b)) false b in
  uncles ← choose_uncles b;
  receipts ← pure (receipt_bytes b);
  txs ← pure (transaction_bytes b);
  currentTxs ← pure (write_list txs);
  currentUncles ← pure (write_uncles uncles.*2);
  let b := with_bytes (b_currentBytes b) currentTxs currentUncles b in
  b ← pure (finish_block uncles.*1 b);
  b ← pure (sealed_header extraData txs receipts currentUncles b);
  mret (with_precommit (b_precommit b) true b).
(** [sealBlock] *)
Definition sealBlock (header : bytes) (b : Block) : result BlockError (Block * bool) :=
  if b_committedToSeal b then
    i ← of_header (of_bytes header HeaderData 0);
    '(h, i) ← of_header (hash WithoutSeal i);
    '(h', cur) ← of_header (hash WithoutSeal (b_currentBlock b));
    let b := with_headers (b_previousBlock b) cur b in
    if negb (h =? h') then Ok (b, false)
    else
      ret ← of_writer (s ← appendList 3 empty_stream; s ← appendRaw header 1 s;
                       s ← appendRaw (b_currentTxs b) 1 s; s ← appendRaw (b_currentUncles b) 1 s; out s);
      i ← of_header (of_bytes header HeaderData 0);
      let b := with_bytes ret (b_currentTxs b) (b_currentUncles b) b in
      let b := with_headers (b_previousBlock b) i b in
      Ok (with_state (assign (b_state b) (b_precommit b)) b, true)
  else Ok (b, false).

(** ** Transactions from the queue *)

(** What the queue sees of a transaction *)
#[local] Instance queue_view : Transaction TransactionBase := {|
  tx_sha3 t := match sha3_of t true with Ok h => h | Err _ => 0 end;
  tx_from := safeSender;
  tx_nonce := m_nonce;
  tx_gasPrice := m_gasPrice;
  tx_hasZeroSignature := hasZeroSignature;
  tx_parse d := match of_rlp d CheckEverything with Ok t => Some t | Err _ => None end;
  tx_parse_cheap d := match of_rlp d Cheap with Ok t => Some t | Err _ => None end;
|}.
Notation Queue := (TransactionQueue.Queue TransactionBase).

(** The handlers of [sync]: what becomes of a transaction that threw *)
Definition refused (e : BlockError) (t : TransactionBase) (b : Block) (q : Queue) : option Queue :=
  let h := tx_sha3 t in
  match e with
  | ExecBad (Threw InvalidNonce) =>
    let req := (getNonce pick (safeSender t) (b_state b)).2 in
    let got := m_nonce t in
    if got <? req then TransactionQueue.drop_tx h q
    else if req + TransactionQueue.waiting (safeSender t) q <? got then TransactionQueue.drop_tx h q
    else Some (TransactionQueue.setFuture h q)
  | ExecBad (Threw BlockGasLimitReached) =>
    if m_gasLimit (b_currentBlock b) <? TransactionBase.m_gas t then TransactionQueue.drop_tx h q else Some q
  | _ => TransactionQueue.drop_tx h q
  end.

(** [sync] with the queue, for a pricer that asks [ask] of a block: one
    transaction, one round over all of them, and the rounds until all of a
    round were executed or the clock passes the deadline, after [rounds] more *)
Definition sync_transaction (ask : Block → Z) (hashes : Z → list Z) (t : TransactionBase)
    (acc : Block * Queue * list TransactionReceipt * Z) : option (Block * Queue * list TransactionReceipt * Z) :=
  let '(b, q, receipts, good) := acc in
  if decide (tx_sha3 t ∈ b_transactionSet b) then Some acc
  else if ask b <=? m_gasPrice t then
    match execute hashes t Committed b with
    | (b, Ok _) => Some (b, q, receipts ++ match last (b_receipts b) with Some r => [r] | None => [] end, good + 1)
    | (b, Err e) => q ← refused e t b q; Some (b, q, receipts, good)
    end
  else if m_gasPrice t <? u256 (ask b * 9) / 10 then
    q ← TransactionQueue.drop_tx (tx_sha3 t) q; Some (b, q, receipts, good)
  else Some acc.
Fixpoint sync_round (ask : Block → Z) (hashes : Z → list Z) (ts : list TransactionBase)
    (acc : Block * Queue * list TransactionReceipt * Z) : option (Block * Queue * list TransactionReceipt * Z) :=
  match ts with
  | [] => Some acc
  | t :: ts => acc ← sync_transaction ask hashes t acc; sync_round ask hashes ts acc
  end.
Fixpoint sync_rounds (ask : Block → Z) (hashes : Z → list Z) (rounds : nat) (ts : list TransactionBase)
    (b : Block) (q : Queue) (receipts : list TransactionReceipt) (more : bool)
    : option (Block * Queue * list TransactionReceipt * bool) :=
  '(b, q, receipts, good) ← sync_round ask hashes ts (b, q, receipts, 0);
  match rounds with
  | O => Some (b, q, receipts, true)
  | S rounds =>
    if good <? Z.of_nat (length ts) then sync_rounds ask hashes rounds ts b q receipts more
    else Some (b, q, receipts, more)
  end.
Definition c_maxSyncTransactions : nat := 1024.
Definition sync_queue (ask : Block → Z) (hashes : Z → list Z) (rounds : nat) (b : Block) (q : Queue)
    : result BlockError (option (Block * Queue * list TransactionReceipt * bool)) :=
  _ ← throw_if (isSealed b) InvalidOperationOnSealedBlock;
  b ← noteChain b;
  let ts := TransactionQueue.topTransactions c_maxSyncTransactions (b_transactionSet b) q in
  let more := (length ts =? c_maxSyncTransactions)%nat in
  match ts with
  | [] => Ok (Some (b, q, [], more))
  | _ => Ok (sync_rounds ask hashes rounds ts b q [] more)
  end.

End Block.
End Block.
