(* ===== verification/BlockSpec.v ===== *)
(** * What an enacted block is, and what a block pays

    A block that is played back without an exception passed every comparison of
    the source: the receipts, the filter, the gas, the state, and the uncles,
    of which the second part says which blocks they are.  The last part is the
    ether that a block creates. *)
From S2P Require Import Prelude CommonData RLP RLPFields TransactionBase State StateSteps NativeStorage.
From S2P Require Import Instruction LegacyVM Receipt BlockHeader SealEngine EthashSeal BasicAuthority.
From S2P Require Import TrieHash Executive TransactionQueue BlockChain BlockChainTree BlockChainVerify BlockChainInsert BlockChainSystem Block.

Module BlockSpec.
Import CommonData RLP State TransactionBase Executive BlockChain Block.
Import BlockHeader(BlockHeader, HeaderError, is_set, HeaderData, BlockData, of_bytes, hash, WithSeal,
  CheckNothingNew, m_hash, m_parentHash, m_author, m_timestamp, m_number, m_stateRoot, m_receiptsRoot, m_logBloom,
  m_difficulty).

(** ** Runs that succeed *)

Lemma C_bind_inv {A B} (m : C A) (f : A → C B) c c' b :
  (m ≫= f) c = (c', Ok b) → ∃ c1 a, m c = (c1, Ok a) ∧ f a c1 = (c', Ok b).
Proof. unfold mbind, C_bind. destruct (m c) as [c1 [a|e]]; [|done]. eauto. Qed.
Lemma pure_inv {A} (r : result BlockError A) c c' a : pure r c = (c', Ok a) → c' = c ∧ r = Ok a.
Proof. unfold pure. by intros [= <- ->]. Qed.
Lemma raise_inv (x : bool) e c c' u : raise_when x e c = (c', Ok u) → c' = c ∧ x = false.
Proof. unfold raise_when. intros [-> Hx]%pure_inv. by apply throw_if_Ok in Hx. Qed.
Lemma lift_inv {A} (m : BlockChain.M A) c c' a : lift m c = (c', Ok a) → m c = (c', Ok a).
Proof. unfold lift. destruct (m c) as [c1 [x|e]]; [|done]. by intros [= -> ->]. Qed.
Lemma ret_inv {A} (x a : A) c c' : mret (M:=C) x c = (c', Ok a) → c' = c ∧ x = a.
Proof. by intros [= <- <-]. Qed.
Lemma of_err_inv {E A} (f : E → BlockError) (r : result E A) a : of_err f r = Ok a → r = Ok a.
Proof. destruct r; [|done]. by intros [= ->]. Qed.

(** Takes the first step of a run. *)
Ltac step H :=
  match type of H with
  | (pure _ ≫= _) _ = _ =>
    let c := fresh "c" in let a := fresh "a" in let E := fresh "E" in
    apply C_bind_inv in H as (c&a&E&H); apply pure_inv in E as [-> E]
  | (raise_when _ _ ≫= _) _ = _ =>
    let c := fresh "c" in let a := fresh "a" in let E := fresh "E" in
    apply C_bind_inv in H as (c&a&E&H); apply raise_inv in E as [-> E]; clear a
  | (lift _ ≫= _) _ = _ =>
    let c := fresh "c" in let a := fresh "a" in let E := fresh "E" in
    apply C_bind_inv in H as (c&a&E&H); apply lift_inv in E
  | (_ ≫= _) _ = _ =>
    let c := fresh "c" in let a := fresh "a" in let E := fresh "E" in
    apply C_bind_inv in H as (c&a&E&H)
  | mret _ _ = _ => apply ret_inv in H as [<- H]
  end; cbv beta zeta in H.

Section Enacted.
Context `{DB : StateDB Root} `{ST : !StateTries Root} `{EL : EthashLib} `{AL : AuthorityLib} (pick : nat → nat → nat).
Context (recover : SignatureStruct → Z → bytes) (stack : nat).
Context (p : SealEngine.ChainOperationParams) (genesisBlock : bytes).
Notation Block := (Block (Root:=Root)).
#[local] Hint Extern 0 Crypto => exact (block_crypto recover) : typeclass_instances.
Notation execute := (execute pick recover stack p).
Notation enact_transaction := (enact_transaction pick recover stack p).
Notation enact := (enact pick recover stack p genesisBlock).
Notation last_hashes := (last_hashes recover genesisBlock).

(** ** The comparisons *)

(** What the loop over the transactions does *)
Record played (hashes : Z → list Z) (ts : list TransactionBase) (b b' : Block) (receipts : list bytes) : Prop := {
  pl_run : foldM (enact_transaction hashes) (b, []) ts = Ok (b', receipts);
  pl_receipts : ∃ rs, b_receipts b' = b_receipts b ++ rs ∧ length rs = length ts ∧
    Forall2 (λ r d, Receipt.rlp r = Ok d) rs receipts;
  pl_transactions : b_transactions b' = b_transactions b ++ ts;
}.

(** The steps of one transaction *)
Lemma execute_inv hashes t b b' res :
  execute hashes t Committed b = (b', Ok res) →
  isSealed b = false ∧
  ∃ receipt s h,
    executeState pick recover stack p hashes (env_info (uncommitToSeal b)) t Committed (b_state (uncommitToSeal b)) =
      Ok (res, receipt, s) ∧ sha3_of t true = Ok h ∧
    b' = with_executed (b_transactions b ++ [t]) (b_receipts b ++ [receipt]) ({[h]} ∪ b_transactionSet b)
           (with_state s (uncommitToSeal b)).
Proof.
  unfold Block.execute. destruct (isSealed b); [done|].
  destruct (executeState _ _ _ _ _ _ _ _ _) as [[[res' receipt] s]|]; [|done].
  destruct (sha3_of t true) as [h|] eqn:Hh; [|done]. cbn [of_err]. intros [= <- ->]. split; [done|].
  exists receipt, s, h. split_and!; [done|done|]. unfold uncommitToSeal. by destruct (b_committedToSeal b).
Qed.
Lemma enact_loop hashes ts b rs0 b' receipts :
  foldM (enact_transaction hashes) (b, rs0) ts = Ok (b', receipts) →
  ∃ rs ds, receipts = rs0 ++ ds ∧ b_receipts b' = b_receipts b ++ rs ∧ length rs = length ts ∧
    Forall2 (λ r d, Receipt.rlp r = Ok d) rs ds ∧
    b_transactions b' = b_transactions b ++ ts ∧ b_currentBlock b' = b_currentBlock b ∧
    b_previousBlock b' = b_previousBlock b ∧ b_sealEngine b' = b_sealEngine b.
Proof.
  revert b rs0. induction ts as [|t ts IH]; intros b rs0; cbn [foldM].
  { intros [= <- <-]. exists [], []. by rewrite !app_nil_r. }
  intros ([b1 rs1]&H1&H2)%bind_Ok_inv. unfold Block.enact_transaction in H1.
  destruct (execute hashes t Committed b) as [b2 [res|e]] eqn:Hx; [|done].
  apply execute_inv in Hx as (_&receipt&s&h&_&_&->).
  cbn [b_receipts with_executed with_state] in H1. rewrite last_snoc in H1.
  apply bind_Ok_inv in H1 as (d&Hd%of_err_inv&H1). injection H1 as <- <-.
  apply IH in H2 as (rs&ds&->&Er&El&HF&Et&Ec&Ep&Es). exists (receipt :: rs), (d :: ds).
  unfold uncommitToSeal in *. destruct (b_committedToSeal b);
    cbn in *; rewrite Er, Et, El, <-!app_assoc; split_and!; try done; by constructor.
Qed.

(** What is compared.  The state root of the header is the one that was
    computed - or the one of the parent, which is not compared. *)
Record agrees (i prev : BlockHeader) (b : Block) (receipts : list bytes) : Prop := {
  ag_receipts : m_receiptsRoot i = be_val (TrieHash.orderedTrieRoot BlockHeader.sha3_bytes receipts);
  ag_bloom : m_logBloom i = logBloom b;
  ag_gas : BlockHeader.m_gasUsed i = gasUsed b;
  ag_root : m_stateRoot i = rootHash (m_state (b_state b)) ∨ m_stateRoot i = m_stateRoot prev;
}.
Lemma finish_inv uncles (b b' : Block) :
  finish_block pick p uncles b = Ok b' →
  ∃ s, b' = with_state s b.
Proof.
  unfold finish_block. intros (b1&H1&H2)%bind_Ok_inv. injection H2 as <-.
  unfold applyRewards in H1. apply bind_Ok_inv in H1 as ([s r]&_&H1). apply bind_Ok_inv in H1 as (s'&_&H1).
  injection H1 as <-. by eexists.
Qed.
Lemma noteChain_inv (b b' : Block) :
  noteChain p b = Ok b' →
  b_receipts b' = b_receipts b ∧ b_transactions b' = b_transactions b ∧ b_previousBlock b' = b_previousBlock b ∧
  b_currentBlock b' = b_currentBlock b ∧ b_sealEngine b' = true.
Proof.
  unfold noteChain. destruct (b_sealEngine b) eqn:E; [by intros [= <-]|].
  intros (s&_&Hs)%bind_Ok_inv. apply bind_Ok_inv in Hs as (pre&_&Hs). by injection Hs as <-.
Qed.

(** The parts of a run of [enact]: the transactions, the uncles, the end *)
Record enacted (vb : VerifiedBlockRef) (b b' : Block) (c c' : Chain) : Prop := {
  en_parent : ∃ prev, hash WithSeal (b_previousBlock b) = Ok (m_parentHash (b_currentBlock b), prev);
  en_played : ∃ b0 b1 us rewarded prev receipts c1,
    noteChain p b = Ok b0 ∧
    played (last_hashes c) (vb_transactions vb) (with_headers prev (vb_info vb) b0) b1 receipts ∧
    block_items 2 (vb_block vb) c = (c1, Ok us) ∧
    check_uncles recover genesisBlock (vb_info vb) us c1 = (c', Ok rewarded) ∧
    finish_block pick p rewarded b1 = Ok b' ∧ agrees (vb_info vb) (b_previousBlock b) b' receipts;
}.
Lemma hash_memo i h v h' : hash i h = Ok (v, h') → m_stateRoot h' = m_stateRoot h.
Proof.
  unfold hash. destruct (_ =? 0); [|by intros [= _ <-]]. intros (d&_&E)%bind_Ok_inv. injection E as _ <-. by destruct i.
Qed.

Lemma enact_parts vb b c c' b' td :
  enact vb b c = (c', Ok (b', td)) → td = m_difficulty (vb_info vb) ∧ enacted vb b b' c c'.
Proof.
  unfold Block.enact. intros Hr. step Hr. rename a into b0, E into Hb0. step Hr. destruct a as [ph prev].
  apply of_err_inv in E. rename E into Hph. step Hr. apply negb_false_iff, Z.eqb_eq in E.
  step Hr. clear E0 a. step Hr. destruct a as [b1 receipts]. rename E0 into Hrun. step Hr. rename E0 into Hrr. step Hr.
  rename E0 into Hbl. step Hr. rename a into us, E0 into Hus. step Hr. rename a into rewarded, E0 into Hun.
  step Hr. rename a into b2, E0 into Hfin. step Hr. rename E0 into Hroot. step Hr. rename E0 into Hgas.
  apply ret_inv in Hr as [<- [= <- <-]].
  destruct (noteChain_inv _ _ Hb0) as (N1&N2&N3&N4&_). pose proof (hash_memo _ _ _ _ Hph) as Hm.
  pose proof Hrun as Hrun'. apply enact_loop in Hrun' as (rs&ds&->&Er&El&HF&Et&Ec&Ep&_).
  cbn in Er, Et, Ec, Ep. rewrite Ec in *. destruct (finish_inv _ _ _ Hfin) as [s Hs].
  split; [done|]. split.
  - exists prev. by rewrite <-N3, <-N4, E.
  - exists b0, b1, us, rewarded, prev, ds, c0. split_and!; try done.
    + split; [done|by exists rs|done].
    + assert (b_previousBlock b2 = prev ∧ logBloom b2 = logBloom b1) as [P1 P2] by by subst b2.
      rewrite P1 in Hroot. split.
      * by apply negb_false_iff, Z.eqb_eq in Hrr.
      * apply negb_false_iff, Z.eqb_eq in Hbl. by rewrite P2.
      * by apply negb_false_iff, Z.eqb_eq in Hgas.
      * rewrite <-N3, <-Hm. apply andb_false_iff in Hroot as [Hx|Hx]; apply negb_false_iff, Z.eqb_eq in Hx; auto.
Qed.

(** ** Uncles *)

Import BlockChainTree BlockChainVerify BlockChainInsert.
Notation g := (m_genesisHash genesisBlock).
Notation ok := (ok genesisBlock).
Notation stored := (stored genesisBlock).

(** The block [n] generations above is reached before the genesis block. *)
Definition below_genesis (c : Chain) (n : nat) (h : Z) : Prop := ∀ l, (l ≤ n)%nat → up c l h ≠ g.

(** [kin_loop] collects the ancestors and their uncles. *)
Definition kin (c : Chain) (n : nat) (h : Z) (ks : gset Z) : Prop := ∀ j, (j < n)%nat → below_genesis c j h →
  up c (S j) h ∈ ks ∧
  ∀ d us, stored c (up c j h) d → (block_items 2 d c).2 = Ok us → ∀ x, x ∈ us → tx_hash x ∈ ks.
Lemma kin_wp n h ret s :
  details_agree s → blocks_agree s →
  wp (kin_loop genesisBlock n h ret) s (λ s' r, quiet s s' ∧ ∀ ks, r = Ok ks → ret ⊆ ks ∧ kin s n h ks).
Proof.
  revert h ret s. induction n as [|n IH]; intros h ret s HD HB; cbn [kin_loop].
  { apply run_ret. split; [done|]. intros ks [= <-]. split; [done|]. intros j Hj. lia. }
  destruct (Z.eqb_spec h g) as [->|Hg].
  { apply run_ret. split; [done|]. intros ks [= <-]. split; [done|]. intros j _ Hb.
    by destruct (Hb 0%nat ltac:(lia)). }
  apply run_bind, details_wp; [done|]. intros s1 d C1 (_&_&Ed).
  assert (details_agree s1) as HD1 by (by eapply calm_agree).
  assert (blocks_agree s1) as HB1 by (by eapply calm_blocks_agree).
  apply run_bind, block_wp; [done|]. intros s2 data C2 _ Hu.
  assert (details_agree s2) as HD2 by (by eapply calm_agree).
  assert (blocks_agree s2) as HB2 by (by eapply calm_blocks_agree).
  assert (quiet s s2) as Q by (apply calm_quiet; by etrans).
  apply run_bind. pose proof (block_items_calm 2 data s2) as Hi. unfold wp in Hi |- * at 1.
  destruct (block_items 2 data s2) as [s3 [us|e]] eqn:Ei; cbn [fst snd] in Hi |- *; subst s3; [|by split].
  eapply run_mono; [by apply IH|]. intros s3 r (Q3&Hks). split; [by etrans|]. intros ks Hr.
  destruct (Hks ks Hr) as (Hret&HK).
  assert (parent d = par s h) as Ep by (by rewrite Ed). rewrite Ep in *.
  split; [set_solver|]. intros j Hj Hb. destruct j as [|j].
  - cbn [up]. split; [set_solver|]. intros d' us' Hd' Hi' x Hx.
    assert (data = d') as <- by (apply Hu; by apply (calm_stored genesisBlock s s1)).
    assert (block_items 2 data s2 = (s2, Ok us')) as Ei' by (by apply (block_items_any _ _ s)).
    rewrite Ei in Ei'. injection Ei' as <-. apply Hret. apply elem_of_union_l, elem_of_list_to_set, list_elem_of_fmap.
    by exists x.
  - assert (below_genesis s2 j (par s h)) as Hb2.
    { intros l Hl. rewrite (quiet_up s s2) by done. apply (Hb (S l)). lia. }
    destruct (HK j ltac:(lia) Hb2) as (H1&H2). rewrite (quiet_up s s2) in H1 by done. split; [exact H1|].
    intros d' us' Hd' Hi' x Hx. apply (H2 d' us'); [|by rewrite (block_items_any _ _ s s2 us')|done].
    rewrite (quiet_up s s2) by done. by apply (quiet_stored genesisBlock s s2).
Qed.
Lemma ancestor_inv n h c c' r :
  details_agree c → ancestor n h c = (c', Ok r) → quiet c c' ∧ r = up c n h.
Proof.
  revert h c. induction n as [|n IH]; intros h c HD Hr; cbn [ancestor] in Hr.
  { by apply ret_inv in Hr as [<- <-]. }
  step Hr. pose proof (details_wp h c (λ c1 r, ∀ d, r = Ok d → calm c c1 ∧ parent d = par c h) HD) as Hd.
  unfold wp in Hd. rewrite E in Hd. cbn [fst snd] in Hd.
  destruct (Hd ltac:(intros s' d C (_&_&Ed) d' [= <-]; split; [done|by rewrite Ed]) a eq_refl) as [C1 Ea].
  apply IH in Hr as [Q ->]; [|by eapply calm_agree]. split; [etrans; [by apply calm_quiet|exact Q]|].
  cbn [up]. rewrite Ea. apply (quiet_up c c0). by apply calm_quiet.
Qed.

(** The hash of the header of a stored block is its key. *)
Lemma stored_hash c h d q v q' :
  ok c → (h = g ∨ ∃ dt, node c h = Some dt) → stored c h d →
  of_bytes d BlockData 0 = Ok q → hash WithSeal q = Ok (v, q') → v = h.
Proof.
  intros HO Hk [[-> ->]|[Hg Hd]] Hq Hh.
  - unfold m_genesisHash. by rewrite Hq, Hh.
  - destruct Hk as [?|[dt Hn]]; [done|].
    destruct (ok_rooted _ _ HO _ _ Hn Hg) as (data&i&dp&[R1 [R2 R2' _] R3 _ _ _ _]).
    rewrite Hd in R1. injection R1 as <-. rewrite Hq in R2. injection R2 as <-.
    unfold hash in Hh. rewrite (proj2 (Z.eqb_neq _ _)) in Hh by done. injection Hh as <- _. done.
Qed.
Lemma read_set d q : of_bytes d BlockData 0 = Ok q → is_set q = true.
Proof.
  unfold of_bytes. intros (hb&_&Hq)%bind_Ok_inv. by eapply read_is_set.
Qed.

(** A child of the ancestor [k] generations above the parent of [i], later than
    that ancestor *)
Record placed (c : Chain) (i : BlockHeader) (d : bytes) (u : BlockHeader) : Prop := {
  pl_header : of_bytes d HeaderData (tx_hash d) = Ok u;
  pl_depth : ∃ k, (1 ≤ k ≤ 6)%nat ∧ m_number u = m_number i - Z.of_nat k ∧ m_parentHash u = up c k (m_parentHash i);
  pl_parent : ∃ data q, stored c (m_parentHash u) data ∧ of_bytes data BlockData 0 = Ok q ∧
    m_timestamp q < m_timestamp u ∧ m_number u = m_number q + 1;
}.
(** Neither the block itself, nor one of the last ancestors, nor one of their
    uncles *)
Record fresh_uncle (c : Chain) (i : BlockHeader) (d : bytes) : Prop := {
  fr_self v i' : hash WithSeal i = Ok (v, i') → tx_hash d ≠ v;
  fr_parent : tx_hash d ≠ m_parentHash i;
  fr_ancestor j : (j < 6)%nat → below_genesis c j (m_parentHash i) → tx_hash d ≠ up c (S j) (m_parentHash i);
  fr_kin j data us x : (j < 6)%nat → below_genesis c j (m_parentHash i) → stored c (up c j (m_parentHash i)) data →
    (block_items 2 data c).2 = Ok us → x ∈ us → tx_hash d ≠ tx_hash x;
}.

Lemma check_uncle_inv c i ex rw d c' ex' rw' :
  ok c → check_uncle recover genesisBlock i (ex, rw) d c = (c', Ok (ex', rw')) →
  quiet c c' ∧ tx_hash d ∉ ex ∧ ex' = {[tx_hash d]} ∪ ex ∧ ∃ u, rw' = rw ++ [u] ∧ placed c i d u.
Proof.
  intros HO Hr. unfold check_uncle in Hr. step Hr. apply bool_decide_eq_false in E. rename E into Hnew.
  step Hr. rename a into u. apply of_err_inv in E. rename E into Hu.
  step Hr. rename a into known, E into Hk, c0 into c1.
  pose proof (BlockChainSystem.isKnown_wp genesisBlock (m_parentHash u) true c (tr_agree _ _ (ok_tree _ _ HO))) as Hkw.
  unfold wp in Hkw. rewrite Hk in Hkw. cbn [fst snd] in Hkw. destruct Hkw as (Q1&known'&[= <-]&Hnode).
  step Hr. apply negb_false_iff in E. specialize (Hnode E). clear E Hk.
  assert (ok c1) as HO1 by by eapply quiet_ok.
  step Hr. rename a into data, E into Hd, c0 into c2.
  pose proof (block_wp genesisBlock (m_parentHash u) c1 (λ s r, ∀ d, r = Ok d → quiet c1 s ∧ (d = [] ∨ stored c1 (m_parentHash u) d))
    (ok_blocks _ _ HO1)) as Hbw.
  unfold wp in Hbw. rewrite Hd in Hbw. cbn [fst snd] in Hbw.
  destruct (Hbw ltac:(intros s' d' C ? _ ? [= <-]; split; [by apply calm_quiet|done]) data eq_refl) as [Q2 Hst].
  clear Hbw Hd. step Hr. rename a into q. apply of_err_inv in E. rename E into Hq.
  destruct Hst as [->|Hst]; [done|]. apply (quiet_stored genesisBlock c c1) in Hst; [|done].
  step Hr. apply Z.ltb_ge in E. rename E into Hold. step Hr. apply Z.ltb_ge in E. rename E into Hyoung.
  assert (quiet c c2) as Q by (by etrans). assert (ok c2) as HO2 by by eapply quiet_ok.
  step Hr. rename a into expected, c0 into c3. apply ancestor_inv in E as [Q3 ->]; [|apply HO2].
  rewrite (quiet_up c c2) in Hr by done.
  step Hr. destruct a as [uph q']. apply of_err_inv in E. rename E into Hh.
  step Hr. apply negb_false_iff, Z.eqb_eq in E. rename E into Hanc.
  step Hr. destruct a. apply of_err_inv in E. rename E into Hv. apply ret_inv in Hr as [<- [= <- <-]].
  pose proof (stored_hash c _ _ _ _ _ HO Hnode Hst Hq Hh) as ->.
  split; [by etrans|]. split; [done|]. split; [done|]. exists u. split; [done|].
  apply BlockHeader.verify_iff in Hv as (_&_&Hf&_).
  assert (is_set q' = true ∧ m_timestamp q' = m_timestamp q ∧ m_number q' = m_number q) as (Hs&Et&En).
  { pose proof (read_set _ _ Hq) as Hs. unfold hash in Hh. destruct (_ =? 0); [|by injection Hh as _ <-].
    apply bind_Ok_inv in Hh as (x&_&Hh). by injection Hh as _ <-. }
  destruct (Hf Hs) as (_&Htime&Hnum). rewrite Et in Htime. rewrite En in Hnum. split; [done| |by exists data, q].
  exists (Z.to_nat (m_number i - m_number u)). split_and!; [lia|lia|lia|done].
Qed.

Lemma placed_quiet c c1 i i' d u :
  quiet c c1 → m_parentHash i' = m_parentHash i → m_number i' = m_number i → placed c1 i' d u → placed c i d u.
Proof.
  intros Q Ep En [H1 (k&H2&H3&H4) (data&q&H5&H6)]. split; [done| |].
  - exists k. rewrite <-Ep, <-En, <-(quiet_up c c1) by done. done.
  - exists data, q. split; [|done]. by apply (quiet_stored genesisBlock c c1).
Qed.
Lemma each_uncle_inv c i ex rw us c' ex' rw' :
  ok c → each (check_uncle recover genesisBlock i) (ex, rw) us c = (c', Ok (ex', rw')) →
  quiet c c' ∧ NoDup (map tx_hash us) ∧ (∀ d, d ∈ us → tx_hash d ∉ ex) ∧
  ∃ un, rw' = rw ++ un ∧ Forall2 (placed c i) us un.
Proof.
  revert c ex rw. induction us as [|d us IH]; intros c ex rw HO Hr; cbn [each] in Hr.
  { apply ret_inv in Hr as [<- [= _ <-]]. split; [done|]. split; [constructor|]. split; [set_solver|].
    exists []. by rewrite app_nil_r. }
  step Hr. destruct a as [ex1 rw1]. apply check_uncle_inv in E as (Q1&Hd&->&u&->&HP); [|done].
  apply IH in Hr as (Q2&Hnd&Hnew&un&->&HF); [|by eapply quiet_ok]. split; [by etrans|]. cbn [map]. split.
  { constructor; [|done]. intros (x&Hx&Hin)%list_elem_of_fmap. apply (Hnew x Hin). rewrite <-Hx. set_solver. }
  split.
  { intros x [->|Hx]%elem_of_cons; [done|]. specialize (Hnew x Hx). set_solver. }
  exists (u :: un). rewrite <-app_assoc. split; [done|]. constructor; [done|].
  eapply Forall2_impl; [exact HF|]. intros x y. by apply placed_quiet.
Qed.
Lemma check_uncles_inv c i us c' un :
  ok c → check_uncles recover genesisBlock i us c = (c', Ok un) →
  quiet c c' ∧ (length us ≤ 2)%nat ∧ NoDup (map tx_hash us) ∧ Forall2 (placed c i) us un ∧ Forall (fresh_uncle c i) us.
Proof.
  intros HO Hr. unfold check_uncles in Hr. step Hr. apply Z.ltb_ge in E. rename E into Hlen.
  step Hr. rename a into ks, E into Hks, c0 into c1.
  pose proof (kin_wp 6 (m_parentHash i) {[m_parentHash i]} c (tr_agree _ _ (ok_tree _ _ HO)) (ok_blocks _ _ HO)) as Hkw.
  unfold wp in Hkw. unfold allKinFrom in Hks. rewrite Hks in Hkw. cbn [fst snd] in Hkw.
  destruct Hkw as (Q1&Hkin). destruct (Hkin ks eq_refl) as (Hph&HK). clear Hkin Hks.
  step Hr. destruct a as [v i']. apply of_err_inv in E. rename E into Hi.
  step Hr. destruct a as [ex rw]. apply ret_inv in Hr as [<- <-].
  apply each_uncle_inv in E as (Q2&Hnd&Hnew&un&->&HF); [|by eapply quiet_ok].
  assert (m_parentHash i' = m_parentHash i ∧ m_number i' = m_number i) as [Ep En].
  { unfold hash in Hi. destruct (_ =? 0); [|by injection Hi as _ <-].
    apply bind_Ok_inv in Hi as (x&_&Hi). by injection Hi as _ <-. }
  split; [by etrans|]. split; [lia|]. split; [done|]. split.
  { eapply Forall2_impl; [exact HF|]. intros x y. by apply placed_quiet. }
  apply Forall_forall. intros d Hd. specialize (Hnew d Hd). split.
  - intros v' i2. rewrite Hi. intros [= <- _]. set_solver.
  - intros E. apply Hnew. rewrite E. set_solver.
  - intros j Hj Hb E. apply Hnew. rewrite E. apply elem_of_union_r, HK; done.
  - intros j data us' x Hj Hb Hst Hit Hx E. apply Hnew. rewrite E. apply elem_of_union_r.
    by eapply (proj2 (HK j Hj Hb)).
Qed.

(** C1. A block that is enacted - played back without an exception on a block
    that has just been reset - was executed transaction by transaction, and
    what its header says is what came out: the root of the receipts, the filter
    of the logs, the gas, and the root of the state after the rewards - unless
    it repeats the root of the parent, which is let through.  It has at most two
    uncles, all different, each a child of one of the last ancestors but the
    parent and later than it, and none of them is the block itself, an ancestor,
    or was an uncle of one.  The chain is left as it was, up to what is cached,
    and the difficulty that is added is that of the header. *)
Theorem enact_accepts vb b c c' b' td :
  ok c → b_receipts b = [] → b_transactions b = [] →
  enact vb b c = (c', Ok (b', td)) →
  let i := vb_info vb in
  quiet c c' ∧ td = m_difficulty i ∧
  b_transactions b' = vb_transactions vb ∧
  (∃ receipts, Forall2 (λ r d, Receipt.rlp r = Ok d) (b_receipts b') receipts ∧
     length (b_receipts b') = length (vb_transactions vb) ∧ agrees i (b_previousBlock b) b' receipts) ∧
  ∃ us un b1, (block_items 2 (vb_block vb) c).2 = Ok us ∧
    (length us ≤ 2)%nat ∧ NoDup (map tx_hash us) ∧ Forall2 (placed c i) us un ∧ Forall (fresh_uncle c i) us ∧
    finish_block pick p un b1 = Ok b'.
Proof.
  intros HO Er Et Hr i. apply enact_parts in Hr as (->&[_ (b0&b1&us&un&prev&receipts&c1&Hb0&[_ (rs&Hrs&Hl1&HF) Ht]&Hi&Hu&Hf&Ha)]).
  destruct (noteChain_inv _ _ Hb0) as (N1&N2&_). cbn in Hrs, Ht. rewrite N1, Er in Hrs. rewrite N2, Et in Ht.
  pose proof (block_items_calm 2 (vb_block vb) c) as Hc. unfold wp in Hc. rewrite Hi in Hc. cbn in Hc. subst c1.
  destruct (finish_inv _ _ _ Hf) as [s ->]. cbn in Hrs, Ht |- *.
  apply check_uncles_inv in Hu as (Q&Hl&Hnd&HP&HN); [|done].
  split; [done|]. split; [done|]. split; [done|]. split.
  - exists receipts. by rewrite Hrs.
  - exists us, un, b1. by rewrite Hi.
Qed.

(** ** Rewards *)

Import StateSteps.
(** What is paid to whom, in order; the last one is the author of the block. *)
Definition credits (reward : Z) (i : BlockHeader) (un : list BlockHeader) : list (Z * Z) :=
  map (λ u, (m_author u, uncle_reward reward (m_number i) u)) un ++
  [(m_author i, reward + Z.of_nat (length un) * (reward / 32))].
Definition sum (l : list Z) : Z := foldr Z.add 0 l.
Definition paid_to (a : Z) (l : list (Z * Z)) : Z := sum (map (λ x, if decide (x.1 = a) then x.2 else 0) l).
Definition issued (l : list (Z * Z)) : Z := sum (map snd l).

Lemma sum_app l1 l2 : sum (l1 ++ l2) = sum l1 + sum l2.
Proof. unfold sum. induction l1 as [|x l1 IH]; cbn; [done|]. lia. Qed.
Lemma credit (s : State) a v :
  wf s → m_accountStartNonce s ≠ Invalid256 → 0 ≤ v → total s + v < 2 ^ 256 →
  ∃ s', addBalance pick a v s = Ok s' ∧ wf s' ∧ m_accountStartNonce s' = m_accountStartNonce s ∧
    total s' = total s + v ∧ ∀ x, bal s' x = bal s x + if decide (x = a) then v else 0.
Proof.
  intros Hwf Hn Hv Ht. pose proof (bal_total s a Hwf) as Hle. pose proof (bal_nonneg s a Hwf) as H0.
  destruct (addBalance_writes pick s a v Hwf) as (s'&Hadd&Hw); [split; lia|done|].
  exists s'. split; [done|]. pose proof (addBalance_spec pick a v s Hwf ltac:(split; lia)) as Hs. rewrite Hadd in Hs.
  destruct Hs as (Hwf'&Hst&Hba&Hother). rewrite wrap_small in Hba by (split; lia).
  split; [done|]. split; [done|]. split.
  - rewrite (total_writes _ _ _ _ Hw). lia.
  - intros x. destruct (decide (x = a)) as [->|Hne]; [done|]. rewrite Z.add_0_r. by apply bal_proper, Hother.
Qed.

(** The loop over the uncles *)
Lemma pay_uncles reward n un (s : State) r :
  wf s → m_accountStartNonce s ≠ Invalid256 → 0 ≤ reward → 0 ≤ r →
  Forall (λ u, 0 ≤ uncle_reward reward n u) un →
  let l := map (λ u, (m_author u, uncle_reward reward n u)) un in
  total s + issued l < 2 ^ 256 → r + Z.of_nat (length un) * (reward / 32) < 2 ^ 256 →
  ∃ s', foldM (λ '(s, r) i,
      s ← of_err StateBad (addBalance pick (m_author i) (uncle_reward reward n i) s);
      Ok (s, u256 (r + reward / 32))) (s, r) un = Ok (s', r + Z.of_nat (length un) * (reward / 32)) ∧
    wf s' ∧ m_accountStartNonce s' = m_accountStartNonce s ∧ total s' = total s + issued l ∧
    ∀ x, bal s' x = bal s x + paid_to x l.
Proof.
  revert s r. induction un as [|u un IH]; intros s r Hwf Hn Hr0 Hr Hpos l Ht Hfit.
  { exists s. unfold issued, paid_to, sum. cbn. rewrite !Z.add_0_r. split_and!; try done. intros x. lia. }
  apply Forall_cons in Hpos as [Hu Hpos]. subst l. unfold issued, paid_to, sum in *. cbn [map foldr snd fst length] in Ht, Hfit |- *.
  rewrite Nat2Z.inj_succ, Z.mul_succ_l in Hfit |- *.
  set (l1 := map (λ u, (m_author u, uncle_reward reward n u)) un) in *.
  assert (0 ≤ foldr Z.add 0 (map snd l1)) as Hl1.
  { clear -Hpos. subst l1. induction Hpos as [|x l Hx _ IH]; cbn; [done|]. lia. }
  pose proof (Z.div_pos reward 32 Hr0 ltac:(lia)) as Hd.
  pose proof (Z.mul_nonneg_nonneg (Z.of_nat (length un)) _ ltac:(lia) Hd) as Hd'.
  destruct (credit s (m_author u) (uncle_reward reward n u) Hwf Hn Hu ltac:(lia)) as (s1&Ha&Hwf1&Hn1&Ht1&Hb1).
  cbn [foldM]. rewrite Ha. cbn [of_err mbind result_bind]. rewrite wrap_small by (split; lia).
  destruct (IH s1 (r + reward / 32)) as (s'&Hf&Hwf'&Hn'&Ht'&Hb'); try done; try lia; try congruence.
  exists s'. split; [|split; [done|split; [congruence|split; [lia|]]]].
  - etrans; [exact Hf|]. do 2 f_equal. lia.
  - intros x. rewrite Hb', Hb1. destruct (decide (x = m_author u)), (decide (m_author u = x)); congruence || lia.
Qed.

(** C3. The ether that a block creates: each uncle's author is paid the part of
    the reward that is left of eight parts for each generation it is late, the
    author of the block the reward and a thirty-second of it for each uncle, and
    nobody else anything.  In sum that is at most 45/16 of the reward, for the
    two uncles of up to six generations that an enacted block may have. *)
Theorem rewards_issued reward un (b : Block) :
  let i := b_currentBlock b in
  let l := credits reward i un in
  wf (b_state b) → m_accountStartNonce (b_state b) ≠ Invalid256 →
  0 ≤ reward → total (b_state b) + 8 * reward < 2 ^ 256 →
  (length un ≤ 2)%nat → Forall (λ u, 1 ≤ m_number i - m_number u ≤ 6) un →
  ∃ b', applyRewards pick un reward b = Ok b' ∧ wf (b_state b') ∧
    (∀ x, bal (b_state b') x = bal (b_state b) x + paid_to x l) ∧
    total (b_state b') = total (b_state b) + issued l ∧
    reward ≤ issued l ∧ 16 * issued l ≤ 45 * reward.
Proof.
  intros i l Hwf Hn Hr Ht Hlen Hun.
  assert (0 ≤ total (b_state b)) as Ht0.
  { pose proof (bal_total (b_state b) 0 Hwf). pose proof (bal_nonneg (b_state b) 0 Hwf). lia. }
  assert (∀ u, 1 ≤ m_number i - m_number u ≤ 6 →
    uncle_reward reward (m_number i) u = reward * (8 - (m_number i - m_number u)) / 8) as Hur.
  { intros u Hu. unfold uncle_reward. rewrite wrap_small by (split; nia). do 2 f_equal. lia. }
  assert (∀ u, 1 ≤ m_number i - m_number u ≤ 6 →
    0 ≤ uncle_reward reward (m_number i) u ∧ 8 * uncle_reward reward (m_number i) u ≤ 7 * reward) as Hub.
  { intros u Hu. rewrite Hur by done. split; [apply Z.div_pos; nia|].
    pose proof (Z.mul_div_le (reward * (8 - (m_number i - m_number u))) 8 ltac:(lia)). nia. }
  pose proof (Z.mul_div_le reward 32 ltac:(lia)) as H32. pose proof (Z.div_pos reward 32 Hr ltac:(lia)) as H32'.
  set (lu := map (λ u, (m_author u, uncle_reward reward (m_number i) u)) un).
  assert (0 ≤ issued lu ∧ 8 * issued lu ≤ 7 * reward * Z.of_nat (length un)) as [Hl0 Hl].
  { clear -Hun Hub. unfold issued, sum. subst lu. induction Hun as [|u un Hu _ IH]; [cbn; lia|].
    specialize (Hub u Hu). cbn [map foldr snd length]. lia. }
  destruct (pay_uncles reward (m_number i) un (b_state b) reward) as (s1&Hf&Hwf1&Hn1&Ht1&Hb1); try done; fold lu; try nia.
  { eapply Forall_impl; [exact Hun|]. intros u Hu. by apply Hub. }
  set (r := reward + Z.of_nat (length un) * (reward / 32)) in *.
  destruct (credit s1 (m_author i) r Hwf1) as (s2&Ha&Hwf2&_&Ht2&Hb2); [congruence|nia|fold lu in Ht1; nia|].
  exists (with_state s2 b). unfold applyRewards. fold i. rewrite Hf. cbn [mbind result_bind]. rewrite Ha.
  cbn [of_err mbind result_bind b_state with_state].
  assert (issued l = issued lu + r) as Hil.
  { unfold l, credits, issued. rewrite map_app, sum_app. unfold sum. cbn. fold lu. lia. }
  split; [done|]. split; [done|]. split.
  - intros x. rewrite Hb2, Hb1. unfold l, credits, paid_to. rewrite map_app, sum_app. fold lu. unfold sum. cbn.
    destruct (decide (x = m_author i)), (decide (m_author i = x)); congruence || lia.
  - rewrite Ht2, Ht1. fold lu. rewrite Hil. subst r. split; [lia|]. split; nia.
Qed.
End Enacted.
End BlockSpec.
