(* ===== verification/BlockSeal.v ===== *)
(** * A sealed block is enacted

    What a node builds and seals, every node with the same chain and the same
    state accepts: the execution of a transaction depends on the header through
    a few of its fields, the writer of a block and the comparisons of [enact]
    use the same formulas, and the uncles that are included pass their checks. *)
From S2P Require Import Prelude CommonData RLP RLPCodec RLPFields TransactionBase State NativeStorage.
From S2P Require Import Instruction LegacyVM LegacyVMExec Receipt ReceiptSpec BlockHeader BlockHeaderCodec SealEngine EthashSeal BasicAuthority.
From S2P Require Import TrieHash Executive TransactionQueue BlockChain BlockChainTree BlockChainVerify BlockChainInsert Block BlockSpec.

Module BlockSeal.
Import CommonData RLP RLPCodec RLPFields State TransactionBase Executive BlockChain Block BlockSpec.
Import BlockHeader(BlockHeader, HeaderError, mkHeader, is_set, HeaderData, BlockData, of_bytes, hash, WithSeal, WithoutSeal,
  CheckNothingNew, m_hash, m_parentHash, m_author, m_timestamp, m_number, m_stateRoot, m_receiptsRoot, m_logBloom,
  m_transactionsRoot, m_sha3Uncles, m_difficulty, m_gasLimit, m_extraData).
Import BlockHeaderCodec(header_ok, all_fields, block_bytes, extractHeader_block, populate_fields, block_construct,
  header_rlp_fields).

(** ** What a transaction sees of the header *)

(** The header with the fields that the machine and the checks of a transaction
    read, and nothing in the others *)
Definition seen (h : BlockHeader) : BlockHeader :=
  mkHeader (m_parentHash h) 0 0 0 0 0 (m_number h) (m_gasLimit h) 0 [] (m_timestamp h) (m_author h) (m_difficulty h)
    [] 0 0.
Definition seen_info (i : EnvInfo) : EnvInfo := mkEnvInfo (seen (info_header i)) (info_gasUsed i).

Section Seen.
Context `{DB : StateDB Root} (pick : nat → nat → nat).
Context (recover : SignatureStruct → Z → bytes) (hashes : Z → list Z) (p : SealEngine.ChainOperationParams).
Context (i : EnvInfo).
Notation j := (seen_info i).

Lemma verify_seen t g : SealEngine.verifyTransaction p SealEngine.Everything t (info_header j) g =
  SealEngine.verifyTransaction p SealEngine.Everything t (info_header i) g.
Proof. reflexivity. Qed.
Lemma initialize_seen : initialize pick recover p j = initialize pick recover p i.
Proof. reflexivity. Qed.
Lemma call_seen : call pick p j = call pick p i.
Proof. reflexivity. Qed.
Lemma createOpcode_seen : createOpcode pick p j = createOpcode pick p i.
Proof. reflexivity. Qed.
Lemma finalize_seen : finalize pick recover p j = finalize pick recover p i.
Proof. reflexivity. Qed.
Lemma executeTransaction_seen run : executeTransaction pick recover p run j = executeTransaction pick recover p run i.
Proof. reflexivity. Qed.
Lemma State_execute_seen run : State_execute pick recover p run j = State_execute pick recover p run i.
Proof. reflexivity. Qed.
Lemma ext_vm_seen outer run env : ext_vm pick recover hashes p outer run j env = ext_vm pick recover hashes p outer run i env.
Proof. reflexivity. Qed.
Lemma run_level_seen outer n : run_level pick recover hashes p outer j n = run_level pick recover hashes p outer i n.
Proof.
  induction n as [|n IH]; [reflexivity|].
  cbn [run_level]. by rewrite IH.
Qed.
Lemma run_seen stack : run pick recover hashes p stack j = run pick recover hashes p stack i.
Proof.
  induction stack as [|n IH]; cbn [run]; [apply run_level_seen|]. rewrite IH. apply run_level_seen.
Qed.
End Seen.

Section Sealed.
Context `{DB : StateDB Root} `{ST : !StateTries Root} `{EL : EthashLib} `{AL : AuthorityLib} (pick : nat → nat → nat).
Context (recover : SignatureStruct → Z → bytes) (stack : nat).
Context (p : SealEngine.ChainOperationParams) (genesisBlock : bytes).
Notation Block := (Block (Root:=Root)).
#[local] Hint Extern 0 Crypto => exact (block_crypto recover) : typeclass_instances.
Notation execute := (execute pick recover stack p).
Notation executeState := (executeState pick recover stack p).
Notation enact_transaction := (enact_transaction pick recover stack p).

(** ** Building and playing back *)

(** The node that builds the block executes transactions one after the other. *)
Definition build_one (hashes : Z → list Z) (b : Block) (t : TransactionBase) : result BlockError Block :=
  match execute hashes t Committed b with (b, Ok _) => Ok b | (_, Err e) => Err e end.
Definition build (hashes : Z → list Z) (ts : list TransactionBase) (b : Block) : result BlockError Block :=
  foldM (build_one hashes) b ts.

(** A block that is open: neither sealed nor closed *)
Definition opened (b : Block) : Prop := b_currentBytes b = [] ∧ b_committedToSeal b = false.
(** Two blocks in the same state, with headers that a transaction cannot tell
    apart *)
Record alike (b b' : Block) : Prop := {
  al_state : b_state b' = b_state b;
  al_transactions : b_transactions b' = b_transactions b;
  al_receipts : b_receipts b' = b_receipts b;
  al_set : b_transactionSet b' = b_transactionSet b;
  al_header : seen (b_currentBlock b') = seen (b_currentBlock b);
  al_opened : opened b ∧ opened b';
}.

Lemma executeState_seen hashes i t pm s :
  executeState hashes (seen_info i) t pm s = executeState hashes i t pm s.
Proof. unfold Block.executeState. rewrite run_seen, State_execute_seen. reflexivity. Qed.
Lemma execute_alike hashes t b b' b1 r :
  alike b b' → execute hashes t Committed b = (b1, Ok r) →
  ∃ b1', execute hashes t Committed b' = (b1', Ok r) ∧ alike b1 b1' ∧
    b_currentBlock b1 = b_currentBlock b ∧ b_previousBlock b1 = b_previousBlock b ∧
    b_sealEngine b1 = b_sealEngine b ∧ b_precommit b1 = b_precommit b ∧
    b_currentBlock b1' = b_currentBlock b' ∧ b_previousBlock b1' = b_previousBlock b' ∧
    (∃ rc, b_receipts b1 = b_receipts b ++ [rc]) ∧ b_transactions b1 = b_transactions b ++ [t].
Proof.
  intros [A1 A2 A3 A4 A5 [[O1 O2] [O1' O2']]] Hx. unfold Block.execute in Hx |- *. unfold isSealed in *.
  rewrite O1 in Hx. rewrite O1'. unfold uncommitToSeal in *. rewrite O2 in Hx. rewrite O2'.
  rewrite <-executeState_seen in Hx |- *.
  assert (seen_info (env_info b') = seen_info (env_info b)) as ->.
  { unfold seen_info, env_info, gasUsed. cbn [info_header info_gasUsed]. by rewrite A5, A3. }
  rewrite A1. destruct (executeState hashes (seen_info (env_info b)) t Committed (b_state b)) as [[[res rc] s]|]; [|done].
  destruct (sha3_of t true) as [h|]; [|done]. cbn [of_err] in *. injection Hx as <- <-.
  eexists. split; [reflexivity|]. split; [split; cbn; try congruence; done|]. cbn. split_and!; try done. by eexists.
Qed.

(** What building adds *)
Lemma alike_refl b : opened b → alike b b.
Proof. by split. Qed.
Lemma build_one_grows hashes t b b1 :
  opened b → build_one hashes b t = Ok b1 →
  opened b1 ∧ (∃ rc, b_receipts b1 = b_receipts b ++ [rc]) ∧ b_transactions b1 = b_transactions b ++ [t] ∧
  b_currentBlock b1 = b_currentBlock b ∧ b_previousBlock b1 = b_previousBlock b ∧
  b_sealEngine b1 = b_sealEngine b.
Proof.
  intros HO H. unfold build_one in H. destruct (execute hashes t Committed b) as [b2 [r|e]] eqn:Hx; [|done].
  injection H as ->. destruct (execute_alike _ _ _ _ _ _ (alike_refl b HO) Hx) as (b2'&_&HA&?&?&?&_&_&_&?&?).
  split; [apply HA|]. done.
Qed.
Lemma build_grows hashes ts b b1 :
  opened b → build hashes ts b = Ok b1 →
  opened b1 ∧ (∃ rs, b_receipts b1 = b_receipts b ++ rs ∧ length rs = length ts) ∧
  b_transactions b1 = b_transactions b ++ ts ∧
  b_currentBlock b1 = b_currentBlock b ∧ b_previousBlock b1 = b_previousBlock b ∧
  b_sealEngine b1 = b_sealEngine b.
Proof.
  unfold build. revert b. induction ts as [|t ts IH]; intros b HO Hb; cbn [foldM] in Hb.
  { injection Hb as ->. split; [done|]. split; [exists []; by rewrite app_nil_r|]. by rewrite app_nil_r. }
  apply bind_Ok_inv in Hb as (b2&H2&Hb). apply build_one_grows in H2 as (HO2&[rc Er]&Et&Ec&Ep&Es); [|done].
  destruct (IH b2 HO2 Hb) as (HO1&(rs&Er1&El)&Et1&Ec1&Ep1&Es1). split; [done|].
  split; [exists (rc :: rs); rewrite Er1, Er, <-app_assoc; split; [done|cbn; by rewrite El]|].
  rewrite Et1, Et, <-app_assoc. split_and!; try done; congruence.
Qed.

(** The loop of [enact] does what the builder did, and collects the receipts
    as they are written. *)
Lemma enact_alike hashes ts b b' b1 rs ds rs0 :
  alike b b' → build hashes ts b = Ok b1 → b_receipts b1 = b_receipts b ++ rs →
  Forall2 (λ r d, Receipt.rlp r = Ok d) rs ds →
  ∃ b1', foldM (enact_transaction hashes) (b', rs0) ts = Ok (b1', rs0 ++ ds) ∧ alike b1 b1' ∧
    b_currentBlock b1' = b_currentBlock b' ∧ b_previousBlock b1' = b_previousBlock b'.
Proof.
  unfold build. revert b b' rs ds rs0. induction ts as [|t ts IH]; intros b b' rs ds rs0 HA Hb Er HF; cbn [foldM] in *.
  { injection Hb as ->. assert (rs = []) as ->.
    { apply (app_inv_head (b_receipts b1)). by rewrite app_nil_r. }
    inversion HF; subst. rewrite app_nil_r. by eexists. }
  apply bind_Ok_inv in Hb as (b2&H2&Hb). pose proof (proj1 (al_opened _ _ HA)) as HO.
  pose proof H2 as H2'. apply build_one_grows in H2' as (HO2&_); [|done]. unfold build_one in H2.
  destruct (execute hashes t Committed b) as [b2' [r|e]] eqn:Hx; [|done]. injection H2 as ->.
  destruct (execute_alike _ _ _ _ _ _ HA Hx) as (b2'&Hx'&HA2&_&_&_&_&Ec&Ep&[rc Er2]&_).
  destruct (build_grows hashes ts b2 b1 HO2 Hb) as (_&(rs1&Er1&_)&_).
  assert (rs = rc :: rs1) as ->.
  { apply (app_inv_head (b_receipts b)). rewrite <-Er, Er1, Er2, <-app_assoc. done. }
  inversion HF as [|? d ? ds' Hd HF']; subst.
  destruct (IH b2 b2' rs1 ds' (rs0 ++ [d]) HA2 Hb Er1 HF') as (b1'&Hl&HA1&Ec1&Ep1).
  exists b1'. split; [|split; [done|split; congruence]].
  assert (enact_transaction hashes (b', rs0) t = Ok (b2', rs0 ++ [d])) as ->.
  { unfold Block.enact_transaction. rewrite Hx'. rewrite (al_receipts _ _ HA2), Er2, last_snoc, Hd. reflexivity. }
  cbn [mbind result_bind]. rewrite Hl, <-app_assoc. done.
Qed.

(** The receipts as [commitToSeal] writes them *)
Lemma receipts_written (b : Block) ds :
  length (b_receipts b) = length (b_transactions b) → receipt_bytes b = Ok ds →
  Forall2 (λ r d, Receipt.rlp r = Ok d) (b_receipts b) ds.
Proof.
  unfold receipt_bytes. intros El Hr. rewrite <-El in Hr. clear El.
  assert (∀ q l acc ds, b_receipts b = q ++ l →
    foldM (λ l i, d ← receipt_at b i; Ok (l ++ [d])) acc (seq (length q) (length l)) = Ok ds →
    ∃ ds', ds = acc ++ ds' ∧ Forall2 (λ r d, Receipt.rlp r = Ok d) l ds') as Hgen.
  { clear. intros q l. revert q. induction l as [|r l IH]; intros q acc ds Hq Hr; cbn [foldM length seq] in Hr.
    { injection Hr as <-. exists []. by rewrite app_nil_r. }
    apply bind_Ok_inv in Hr as (acc1&H1&Hr). apply bind_Ok_inv in H1 as (d&Hd&H1). injection H1 as <-.
    unfold receipt_at in Hd. rewrite Hq, list_lookup_middle in Hd by done. apply of_err_inv in Hd.
    destruct (IH (q ++ [r]) (acc ++ [d]) ds) as (ds'&->&HF).
    - by rewrite <-app_assoc.
    - by rewrite length_app, Nat.add_1_r.
    - exists (d :: ds'). rewrite <-app_assoc. split; [done|]. by constructor. }
  destruct (Hgen [] (b_receipts b) [] ds eq_refl Hr) as (ds'&->&HF). done.
Qed.
Lemma map_root_ordered ds : map_root recover ds = be_val (TrieHash.orderedTrieRoot BlockHeader.sha3_bytes ds).
Proof. reflexivity. Qed.

(** ** The bytes of a block *)

Lemma raw_items L s :
  Forall field_good L → foldM (λ s d, appendRaw d 1 s) s (map encode L) = foldM (λ s t, write t s) s L.
Proof.
  intros HL. revert s. induction HL as [|t L [Hok Hs] HL IH]; intros s; [done|]. cbn [map foldM].
  rewrite write_spec; [|done|]. 2: { eapply Z.lt_trans; [exact Hs|done]. }
  apply bind_cong; [done|]. intros s'. apply IH.
Qed.
Definition small (L : list item) : Prop := Forall field_good L ∧ size (concat (map encode L)) < 2 ^ 60.
Definition writable (L : list item) : Prop := Forall field_good L ∧ size (concat (map encode L)) < 2 ^ 62.
Lemma small_writable L : small L → writable L.
Proof. intros [HL Hs]. split; [done|]. eapply Z.lt_trans; [exact Hs|done]. Qed.
Lemma write_list_items L : writable L → write_list (map encode L) = Ok (encode (List L)).
Proof.
  intros HL. destruct (fields_ok L (proj1 HL) (proj2 HL)) as [Hok Hs]. unfold write_list. rewrite length_map.
  pose proof (write_fields L Hok Hs) as Hw.
  destruct (appendList (Z.of_nat (length L)) empty_stream) as [s|]; [|done]. cbn [mbind result_bind] in Hw |- *.
  by rewrite raw_items, Hw by apply HL.
Qed.
Lemma write_uncles_items L : small L → write_uncles (map encode L) = Ok (encode (List L)).
Proof.
  intros HL. destruct L as [|t L]; [reflexivity|]. destruct HL as [_ Hs]. unfold write_uncles. rewrite length_map.
  set (l := t :: L) in *. set (payload := concat (map encode l)) in *. unfold appendList.
  assert (0 < Z.of_nat (length l)) as Hl by (cbn; lia). destruct (Z.eqb_spec (Z.of_nat (length l)) 0); [lia|].
  cbn [negb mbind result_bind]. unfold appendRaw, noteAppended. cbn [m_out m_listStack empty_stream app].
  destruct (Z.eqb_spec (Z.of_nat (length l)) 0); [lia|]. cbn [noteAppended_loop].
  rewrite Z.ltb_irrefl, Z.sub_diag. cbn [negb Z.eqb]. pose proof (size_nonneg payload).
  change (size []) with 0. rewrite Z.sub_0_r, list_header_spec by (change (2 ^ 60) with 1152921504606846976 in Hs; lia).
  reflexivity.
Qed.
Lemma write_block (t1 t2 t3 : item) :
  writable [t1; t2; t3] →
  (s ← appendList 3 empty_stream; s ← appendRaw (encode t1) 1 s; s ← appendRaw (encode t2) 1 s;
   s ← appendRaw (encode t3) 1 s; out s) = Ok (encode (List [t1; t2; t3])).
Proof.
  intros HL. pose proof (write_list_items _ HL) as Hw. unfold write_list in Hw. cbn [map length foldM] in Hw.
  change (Z.of_nat 3) with 3 in Hw. destruct (appendList 3 empty_stream) as [s|]; [|done].
  cbn [mbind result_bind] in *. destruct (appendRaw (encode t1) 1 s) as [s1|]; [|done].
  cbn [mbind result_bind] in *. destruct (appendRaw (encode t2) 1 s1) as [s2|]; [|done].
  cbn [mbind result_bind] in *. destruct (appendRaw (encode t3) 1 s2) as [s3|]; [|done].
  cbn [mbind result_bind] in *. destruct (out s3); [|done]. injection Hw as ->. done.
Qed.
Lemma uncles_read (H T U : list item) c :
  BlockHeaderCodec.block_ok H T U → BlockChain.block_items 2 (BlockHeaderCodec.block_bytes H T U) c = (c, Ok (map encode U)).
Proof.
  intros B. destruct (BlockHeaderCodec.block_good H T U B) as [Hg Hs]. destruct (BlockHeaderCodec.block_construct H T U B) as [Hc Hl].
  unfold BlockChain.block_items, mbind, M_bind, header_m. rewrite Hc. cbn [BlockHeader.rlp_error].
  destruct (BlockHeaderCodec.hfield_at _ Hg Hs 2 _ _ eq_refl (cache_new _)) as (c2&E2&_). change (Z.of_nat 2) with 2 in E2.
  unfold BlockHeaderCodec.block_bytes. rewrite E2. unfold receipt_m.
  destruct (BlockHeaderCodec.bo_uncles H T U B) as [Hgu Hsu].
  by rewrite (ReceiptSpec.for_items_read U Hgu) by by apply BlockHeaderCodec.small_60.
Qed.

(** ** Uncles that are included *)

Import BlockChainTree BlockChainVerify BlockChainInsert.
Notation g := (m_genesisHash genesisBlock).
Notation ok := (ok genesisBlock).
Notation stored := (stored genesisBlock).

(** Runs of code that asks the chain *)
Definition cwp {A} (m : C A) (c : Chain) (Q : Chain → result BlockError A → Prop) : Prop := Q (m c).1 (m c).2.
Lemma cwp_bind {A B} (m : C A) (f : A → C B) c Q :
  cwp m c (λ c' r, match r with Ok a => cwp (f a) c' Q | Err e => Q c' (Err e) end) → cwp (m ≫= f) c Q.
Proof. unfold cwp, mbind, C_bind. destruct (m c) as [c' [a|e]]; done. Qed.
Lemma cwp_lift {A} (m : BlockChain.M A) c (Q : Chain → result BlockError A → Prop) :
  wp m c (λ c' r, Q c' (of_err ChainBad r)) → cwp (lift m) c Q.
Proof. unfold wp, cwp, lift. destruct (m c) as [c' [a|e]]; done. Qed.
Lemma cwp_pure {A} (r : result BlockError A) c (Q : Chain → result BlockError A → Prop) : Q c r → cwp (pure r) c Q.
Proof. done. Qed.
Lemma cwp_ret {A} (a : A) c (Q : Chain → result BlockError A → Prop) : Q c (Ok a) → cwp (mret a) c Q.
Proof. done. Qed.
Lemma cwp_mono {A} (m : C A) c (Q Q' : Chain → result BlockError A → Prop) :
  cwp m c Q → (∀ c' r, Q c' r → Q' c' r) → cwp m c Q'.
Proof. unfold cwp. eauto. Qed.

(** The hashes that [allKinFrom] collects, from the database *)
Fixpoint kin_of (c : Chain) (n : nat) (h : Z) (ret : gset Z) : result ChainError (gset Z) :=
  match n with
  | O => Ok ret
  | S n =>
    if h =? g then Ok ret
    else
      match (block_items 2 (default [] (m_blocksDB c !! h)) c).2 with
      | Ok us => kin_of c n (par c h) (list_to_set (map tx_hash us) ∪ ({[par c h]} ∪ ret))
      | Err e => Err e
      end
  end.
Lemma items_state i d c c' : (block_items i d c').2 = (block_items i d c).2.
Proof.
  unfold block_items, mbind, M_bind, header_m, receipt_m. destruct (BlockHeader.rlp_error _) as [root|]; [|done].
  destruct (BlockHeader.hfield _ _ _) as [[? l]|]; [|done]. by destruct (Receipt.for_items l).
Qed.
Lemma kin_of_quiet c c' n h ret : quiet c c' → kin_of c' n h ret = kin_of c n h ret.
Proof.
  intros Q. revert h ret. induction n as [|n IH]; intros h ret; cbn [kin_of]; [done|].
  destruct (h =? g); [done|]. unfold par. rewrite (quiet_blocksDB _ _ Q), (quiet_node _ _ _ Q), (items_state _ _ c).
  destruct (block_items _ _ c) as [? [us|e]]; cbn [snd]; [apply IH|done].
Qed.
Lemma kin_runs n h ret c d :
  ok c → node c h = Some d → wp (kin_loop genesisBlock n h ret) c (λ c' r, calm c c' ∧ r = kin_of c n h ret).
Proof.
  revert h ret c d. induction n as [|n IH]; intros h ret c d HO Hn; cbn [kin_loop kin_of]; [by apply run_ret|].
  destruct (Z.eqb_spec h g) as [->|Hg]; [by apply run_ret|].
  destruct (ok_rooted _ _ HO _ _ Hn Hg) as (data&i&dp&[R1 R2 R3 R4 R5 R6 R7]).
  apply run_bind, details_wp; [apply HO|]. intros c1 d1 C1 (_&_&Ed). rewrite Hn in Ed. cbn in Ed.
  assert (blocks_agree c1) as HB1 by (eapply calm_blocks_agree; [done|apply HO]).
  apply run_bind, block_wp; [done|]. intros c2 data2 C2 _ Hu.
  assert (data2 = data) as ->.
  { apply Hu. apply (calm_stored genesisBlock c c1); [done|]. by right. }
  rewrite R1. cbn [default from_option]. unfold id.
  apply run_bind. pose proof (block_items_calm 2 data c2) as Hi. unfold wp in Hi |- * at 1.
  rewrite (items_state 2 data c2 c).
  destruct (block_items 2 data c2) as [c3 [us|e]] eqn:Ei; cbn [fst snd] in Hi |- *; subst c3; [|split; [by etrans|done]].
  assert (calm c c2) as C by (by etrans).
  assert (parent d1 = par c h) as -> by (unfold par; by rewrite Hn).
  assert (par c h = parent d) as Ep by (unfold par; by rewrite Hn).
  assert (node c2 (par c h) = Some dp) as Hp by (rewrite (calm_node _ _ _ C), Ep; done).
  eapply run_mono; [apply (IH _ _ c2 dp); [eapply quiet_ok; [by apply calm_quiet|done]|done]|].
  intros c3 r [C3 ->]. split; [by etrans|]. apply kin_of_quiet. by apply calm_quiet.
Qed.

(** A block [u] behind [h] that was checked when it was imported: the header
    [i] with its bytes [d] *)
Record child (c : Chain) (h u : Z) (d : bytes) (i : BlockHeader) : Prop := {
  ch_genesis : u ≠ g ∧ u ≠ 0;
  ch_block : ∃ data, m_blocksDB c !! u = Some data ∧ BlockHeader.extractHeader data = Ok d;
  ch_header : of_bytes d HeaderData 0 = Ok i ∧ tx_hash d = u;
  ch_item : ∃ x, d = encode x ∧ field_good x ∧ size d < 2 ^ 58;
  ch_parent : m_parentHash i = h;
  ch_checked : ∀ data q, stored c h data → of_bytes data BlockData 0 = Ok q →
    BlockHeader.verify CheckNothingNew i q [] = Ok ();
}.
(** The children that are noted, in the database and in the cache, are such
    blocks. *)
Definition family (c : Chain) : Prop := ∀ h dt u,
  t_details (m_cache c) !! h = Some dt ∨ node c h = Some dt → u ∈ children dt → ∃ d i, child c h u d i.
Lemma quiet_child c c' h u d i : quiet c c' → child c h u d i ↔ child c' h u d i.
Proof.
  intros Q. split; intros [H1 H2 H3 H4 H5 H6]; (split; try done).
  - by rewrite (quiet_blocksDB _ _ Q).
  - intros data q Hs. apply (quiet_stored genesisBlock c c') in Hs; [|done]. by apply H6.
  - by rewrite <-(quiet_blocksDB _ _ Q).
  - intros data q Hs. apply (H6 data q). by apply (quiet_stored genesisBlock c c').
Qed.
Lemma calm_child c c' h u d i : calm c c' → child c h u d i → child c' h u d i.
Proof. intros Cm. exact (proj1 (quiet_child c c' h u d i (calm_quiet _ _ Cm))). Qed.
Lemma calm_family c c' : calm c c' → family c → family c'.
Proof.
  intros Cm F h dt u Hd Hu. destruct (F h dt u) as (d&i&Hc); [|done|].
  - rewrite (calm_node _ _ _ Cm) in Hd. destruct Hd as [Hd|?]; [|by right].
    destruct (calm_details _ _ Cm h) as [E|[_ E]]; rewrite E in Hd; auto.
  - exists d, i. by apply (calm_child c).
Qed.
Lemma children_wp h c (Q : Chain → result ChainError BlockDetails → Prop) :
  details_agree c → family c →
  (∀ c' d, calm c c' → parent d = par c h → (∀ u, u ∈ children d → ∃ x i, child c h u x i) → Q c' (Ok d)) →
  wp (details h) c Q.
Proof.
  intros HD F HQ. pose proof (details_wp h c (λ c' r, calm c c' ∧ ∃ d, r = Ok d ∧ parent d = par c h) HD) as Hw.
  destruct Hw as (Cm&d&Er&Ep).
  { intros c' d Cm (_&_&Ed). split; [done|]. by exists d. }
  unfold wp. rewrite Er. apply HQ; [done|done|]. intros u Hu.
  unfold details, queryExtras in Er. cbn [rd details_t] in Er.
  destruct (t_details (m_cache c) !! h) as [d1|] eqn:E1; [injection Er as ->; by eapply (F h d u); [left|]|].
  destruct (t_details (m_extrasDB c) !! h) as [d1|] eqn:E2; cbn [snd] in Er.
  - injection Er as ->. by eapply (F h d u); [right|].
  - injection Er as <-. by apply not_elem_of_nil in Hu.
Qed.
Lemma headerData_found u data c (Q : Chain → result ChainError bytes → Prop) :
  blocks_agree c → u ≠ g → m_blocksDB c !! u = Some data → data ≠ [] →
  (∀ c', calm c c' → Q c' (header_m (BlockHeader.extractHeader data) c').2) → wp (headerData genesisBlock u) c Q.
Proof.
  intros HB Hg Hd Hne HQ. unfold wp, headerData. rewrite (proj2 (Z.eqb_neq _ _)) by done.
  destruct (m_blocks c !! u) as [d1|] eqn:E1.
  - apply HB in E1. rewrite Hd in E1. injection E1 as <-. by apply HQ.
  - rewrite Hd. cbn [default from_option]. unfold id. destruct data as [|x data]; [done|]. apply HQ.
    by apply keep_block_calm.
Qed.
Lemma child_data c h u d i (Q : Chain → result ChainError bytes → Prop) :
  blocks_agree c → child c h u d i → (∀ c', calm c c' → Q c' (Ok d)) → wp (headerData genesisBlock u) c Q.
Proof.
  intros HB [[Hg _] (data&Hd&He) _ _ _ _] HQ. apply (headerData_found u data); try done.
  - by intros ->.
  - intros c' Cm. unfold header_m. rewrite He. by apply HQ.
Qed.
Lemma child_info c h u d i (Q : Chain → result ChainError BlockHeader → Prop) :
  blocks_agree c → child c h u d i → (∀ c', calm c c' → Q c' (Ok i)) → wp (info genesisBlock u) c Q.
Proof.
  intros HB Hc HQ. unfold info. apply run_bind, (child_data c h u d i); [done|done|]. intros c' Cm.
  apply header_m_wp. destruct (ch_header _ _ _ _ _ Hc) as [-> _]. by apply HQ.
Qed.

(** A child of one of the last ancestors but the parent and the genesis block,
    where [n] is the number of the parent *)
Definition sibling (c : Chain) (ph n : Z) (x : BlockHeader * bytes) : Prop := ∃ k d,
  (1 ≤ k ≤ 6)%nat ∧ up c k ph ≠ g ∧ node c (up c k ph) = Some d ∧ number d = n - Z.of_nat k ∧
  child c (up c k ph) (tx_hash x.2) x.2 x.1.
Lemma quiet_sibling c c' ph n x : quiet c c' → sibling c ph n x → sibling c' ph n x.
Proof.
  intros Q (k&d&H1&H2&H3&H4&H5). exists k, d.
  rewrite (quiet_up c c'), (quiet_node c c') by done. split_and!; try done; try lia. by apply (quiet_child c c').
Qed.

(** What [commitToSeal] picks: siblings that are not excluded *)
Section Pick.
Context (c0 : Chain) (HO : ok c0) (F : family c0) (ph np : Z) (ex0 : gset Z).
Definition pickable (x : BlockHeader * bytes) : Prop := sibling c0 ph np x ∧ tx_hash x.2 ∉ ex0.
Record picked (found : list (BlockHeader * bytes)) (ex : gset Z) : Prop := {
  pk_each : Forall pickable found;
  pk_new : NoDup (map (λ x, tx_hash x.2) found);
  pk_excluded : ex0 ⊆ ex ∧ ((length found < 2)%nat → ∀ x, x ∈ found → tx_hash x.2 ∈ ex);
  pk_two : (length found ≤ 2)%nat;
}.
Lemma calm_good c : calm c0 c → ok c ∧ family c.
Proof. intros Cm. split; [eapply quiet_ok; [by apply calm_quiet|done]|by eapply calm_family]. Qed.

Lemma take_wp us found ex c k d :
  calm c0 c → picked found ex → (length found < 2)%nat →
  (1 ≤ k ≤ 6)%nat → up c0 k ph ≠ g → node c0 (up c0 k ph) = Some d → number d = np - Z.of_nat k →
  (∀ u, u ∈ us → ∃ x i, child c0 (up c0 k ph) u x i) →
  cwp (take_uncles recover genesisBlock us (found, ex)) c (λ c' r, calm c0 c' ∧
    ∀ acc, r = Ok acc → picked acc.1 acc.2).
Proof.
  intros Cm HP Hlen Hk Hg Hn Hnum. revert found ex c Cm HP Hlen.
  induction us as [|u us IH]; intros found ex c Cm HP Hlen Hus; cbn [take_uncles].
  { apply cwp_ret. split; [done|]. by intros acc [= <-]. }
  destruct (decide (u ∈ ex)) as [Hin|Hnew]; [apply IH; [done..|]; intros; apply Hus; set_solver|].
  destruct (Hus u ltac:(set_solver)) as (x&i&Hc). destruct (calm_good c Cm) as [HO1 _].
  apply cwp_bind, cwp_lift, (child_info c (up c0 k ph) u x i); [apply HO1|by apply (calm_child c0)|].
  intros c1 C1. assert (calm c0 c1) as Cm1 by (by etrans). destruct (calm_good c1 Cm1) as [HO2 _].
  cbn [of_err]. apply cwp_bind, cwp_lift, (child_data c1 (up c0 k ph) u x i);
    [apply HO2|by apply (calm_child c0)|].
  intros c2 C2. assert (calm c0 c2) as Cm2 by (by etrans). cbn [of_err]. cbv beta zeta.
  destruct (ch_header _ _ _ _ _ Hc) as [_ Hx]. subst u.
  destruct HP as [P1 P2 [P3 P4] P5]. specialize (P4 Hlen).
  assert (Forall pickable (found ++ [(i, x)])) as P1'.
  { apply Forall_app. split; [done|]. apply Forall_singleton. destruct Hk. split; [|cbn [snd]; set_solver].
    exists k, d. by split_and!. }
  assert (NoDup (map (λ x, tx_hash x.2) (found ++ [(i, x)]))) as P2'.
  { rewrite map_app. apply NoDup_app. split; [done|]. split; [|apply NoDup_singleton].
    intros y (z&->&Hz)%list_elem_of_fmap Hy. apply list_elem_of_singleton in Hy. cbn [snd] in Hy.
    apply Hnew. rewrite <-Hy. by apply P4. }
  rewrite length_app. cbn [length]. destruct (Nat.eqb_spec (length found + 1) 2) as [E|E].
  - apply cwp_ret. split; [done|]. intros acc [= <-]. split; cbn [fst snd]; try done.
    + split; [done|]. rewrite length_app. cbn [length]. lia.
    + rewrite length_app. cbn [length]. lia.
  - apply IH; [done| |rewrite length_app; cbn [length]; lia|intros; apply Hus; set_solver].
    split; try done; [|rewrite length_app; cbn [length]; lia]. split; [set_solver|].
    intros _ y [Hy| ->%list_elem_of_singleton]%elem_of_app; [apply elem_of_union_r; by apply P4|cbn; set_solver].
Qed.
Lemma find_wp n k found ex c d :
  calm c0 c → picked found ex → (k + n = 7)%nat → (1 ≤ k)%nat → node c0 (up c0 k ph) = Some d →
  number d = np - Z.of_nat k →
  cwp (find_uncles recover genesisBlock n (up c0 k ph) (found, ex)) c (λ c' r, calm c0 c' ∧
    ∀ acc, r = Ok acc → picked acc.1 acc.2).
Proof.
  revert k found ex c d. induction n as [|n IH]; intros k found ex c d Cm HP Hkn Hk Hn Hnum; cbn [find_uncles].
  { apply cwp_ret. split; [done|]. by intros acc [= <-]. }
  destruct (Z.eqb_spec (up c0 k ph) g) as [Hg|Hg]; cbn [orb].
  { apply cwp_ret. split; [done|]. by intros acc [= <-]. }
  cbn [fst]. destruct (Nat.leb_spec 2 (length found)) as [Hl|Hl].
  { apply cwp_ret. split; [done|]. by intros acc [= <-]. }
  destruct (calm_good c Cm) as [HO1 F1].
  apply cwp_bind, cwp_lift, children_wp; [apply HO1|done|]. intros c1 d1 C1 _ Hch. cbn [of_err].
  assert (calm c0 c1) as Cm1 by (by etrans).
  apply cwp_bind. eapply cwp_mono; [apply (take_wp _ found ex c1 k d); try done; [lia|]|].
  { intros u Hu. destruct (Hch u Hu) as (x&i&Hc). exists x, i. apply (quiet_child c0 c); [by apply calm_quiet|done]. }
  intros c2 r [Cm2 Hacc]. destruct r as [[found2 ex2]|e]; [|by split].
  destruct (calm_good c2 Cm2) as [HO2 F2].
  apply cwp_bind, cwp_lift, children_wp; [apply HO2|done|]. intros c3 d3 C3 Ep _. cbn [of_err].
  assert (calm c0 c3) as Cm3 by (by etrans).
  assert (parent d3 = up c0 (S k) ph) as ->.
  { rewrite Ep, up_S. unfold par. by rewrite (calm_node _ _ _ Cm2). }
  destruct (tr_node _ _ (ok_tree _ _ HO) _ _ Hn) as (_&_&[?|(dp&Hp&Hpn)]); [done|].
  apply (IH (S k) found2 ex2 c3 dp); [done|by apply (Hacc _ eq_refl)|lia|lia| |lia].
  rewrite up_S. unfold par. rewrite Hn. done.
Qed.
End Pick.

(** ** Their checks *)

Lemma isKnown_true h d c :
  ok c → node c h = Some d → number d ≤ m_lastBlockNumber c →
  wp (isKnown genesisBlock h true) c (λ c' r, quiet c c' ∧ r = Ok true).
Proof.
  intros HO Hn Hl. unfold isKnown, wp. destruct (Z.eqb_spec h g) as [Hg|Hg]; [done|].
  destruct (ok_rooted _ _ HO _ _ Hn Hg) as (data&i&dp&[R1 _ _ _ _ _ _]). rewrite R1.
  rewrite (bool_decide_eq_false_2 (Some data = None)) by done. rewrite andb_false_r.
  unfold node in Hn. rewrite Hn. rewrite (bool_decide_eq_false_2 (Some d = None)) by done. rewrite andb_false_r.
  apply (run_bind (details h)), details_wp; [apply HO|]. intros c1 d1 C1 (En&_). unfold node in En. rewrite Hn in En.
  cbn in En. apply run_bind, get_wp, run_ret. split; [by apply calm_quiet|].
  rewrite En, (calm_number _ _ C1). by rewrite (proj2 (Z.leb_le _ _)).
Qed.
Lemma ancestor_runs n h c :
  ok c → cwp (ancestor n h) c (λ c' r, quiet c c' ∧ r = Ok (up c n h)).
Proof.
  revert h c. induction n as [|n IH]; intros h c HO; cbn [ancestor]; [by apply cwp_ret|].
  apply cwp_bind, cwp_lift, details_wp; [apply HO|]. intros c1 d C1 (_&_&Ed). cbn [of_err].
  eapply cwp_mono; [apply IH; eapply quiet_ok; [by apply calm_quiet|done]|].
  intros c2 r [Q ->]. split; [etrans; [by apply calm_quiet|done]|]. f_equal.
  rewrite (quiet_up c c1) by by apply calm_quiet. cbn [up]. unfold par. by rewrite Ed.
Qed.

Lemma header_memo d i : of_bytes d HeaderData 0 = Ok i → of_bytes d HeaderData (tx_hash d) = Ok i.
Proof.
  unfold of_bytes. destruct (BlockHeader.rlp_error (construct VeryStrict d)) as [h|] eqn:E; [|discriminate].
  assert (h = d) as ->.
  { unfold BlockHeader.rlp_error in E. destruct (construct VeryStrict d) eqn:E2; [|discriminate]. injection E as ->.
    by eapply construct_same. }
  cbn [mbind result_bind]. cbv zeta. intros Hi. destruct (negb (tx_hash d =? 0)); exact Hi.
Qed.
Lemma check_uncle_pass cur ex rw x c dp :
  ok c → node c (m_parentHash cur) = Some dp → m_number cur = number dp + 1 →
  number dp ≤ m_lastBlockNumber c →
  sibling c (m_parentHash cur) (number dp) x → tx_hash x.2 ∉ ex →
  cwp (check_uncle recover genesisBlock cur (ex, rw) x.2) c
    (λ c' r, quiet c c' ∧ r = Ok ({[tx_hash x.2]} ∪ ex, rw ++ [x.1])).
Proof.
  intros HO Hn Hcur Hlast (k&d&Hk&Hg&Hd&Hnum&Hc) Hnew. unfold check_uncle.
  apply cwp_bind, cwp_pure. rewrite bool_decide_eq_false_2 by done. cbn [throw_if].
  destruct (ch_header _ _ _ _ _ Hc) as [Hi Hx]. pose proof (ch_parent _ _ _ _ _ Hc) as Hpar.
  destruct (ch_genesis _ _ _ _ _ Hc) as [_ Hz].
  rewrite (header_memo _ _ Hi).
  apply cwp_bind, cwp_pure. cbn [of_err].
  destruct (ok_rooted _ _ HO _ _ Hd Hg) as (data&q&dq&[R1 R2 R3 R4 R5 R6 R7]). rewrite Hpar.
  apply cwp_bind, cwp_lift. eapply run_mono; [apply (isKnown_true _ d); [done|done|lia]|].
  intros c1 r [Q1 ->]. cbn [of_err]. assert (ok c1) as HO1 by by eapply quiet_ok.
  apply cwp_bind, cwp_pure. cbn [negb throw_if].
  apply cwp_bind, cwp_lift, block_wp; [apply HO1|]. intros c2 data2 C2 _ Hu. cbn [of_err].
  assert (stored c (up c k (m_parentHash cur)) data) as Hst by by right.
  assert (data2 = data) as ->. { apply Hu. by apply (quiet_stored genesisBlock c c1). }
  assert (quiet c c2) as Q2 by (etrans; [done|by apply calm_quiet]). assert (ok c2) as HO2 by by eapply quiet_ok.
  apply cwp_bind, cwp_pure. rewrite (good_header _ _ R2). cbn [of_err].
  pose proof (ch_checked _ _ _ _ _ Hc data q Hst (good_header _ _ R2)) as Hv.
  pose proof Hv as Hv'. apply BlockHeader.verify_iff in Hv' as (_&_&Hf&_).
  pose proof (good_header _ _ R2) as Hset. apply BlockSpec.read_set in Hset. destruct (Hf Hset) as (_&_&Hun). rewrite R5, Hnum in Hun.
  assert (m_number cur - m_number x.1 = Z.of_nat k) as -> by lia.
  apply cwp_bind, cwp_pure. rewrite (proj2 (Z.ltb_ge _ _)) by lia. cbn [throw_if].
  apply cwp_bind, cwp_pure. rewrite (proj2 (Z.ltb_ge _ _)) by lia. cbn [throw_if].
  apply cwp_bind. eapply cwp_mono; [by apply ancestor_runs|]. intros c3 r [Q3 ->]. cbv beta iota.
  rewrite Nat2Z.id, (quiet_up c c2) by done.
  assert (hash WithSeal q = Ok (up c k (m_parentHash cur), q)) as ->.
  { unfold hash. rewrite (proj2 (Z.eqb_neq _ _) (good_hash _ _ R2)). by rewrite R3. }
  apply cwp_bind, cwp_pure. cbn [of_err]. cbv beta iota.
  apply cwp_bind, cwp_pure. rewrite Z.eqb_refl. cbn [negb throw_if].
  apply cwp_bind, cwp_pure. rewrite Hv. cbn [of_err]. apply cwp_ret. split; [by etrans|done].
Qed.
Lemma each_uncle_pass cur xs ex rw c dp :
  ok c → node c (m_parentHash cur) = Some dp → m_number cur = number dp + 1 →
  number dp ≤ m_lastBlockNumber c →
  Forall (λ x, sibling c (m_parentHash cur) (number dp) x ∧ tx_hash x.2 ∉ ex) xs → NoDup (map (λ x, tx_hash x.2) xs) →
  cwp (each (check_uncle recover genesisBlock cur) (ex, rw) xs.*2) c
    (λ c' r, quiet c c' ∧ ∃ ex', r = Ok (ex', rw ++ xs.*1)).
Proof.
  revert ex rw c. induction xs as [|x xs IH]; intros ex rw c HO Hn Hcur Hlast HF Hnd.
  { apply cwp_ret. split; [done|]. exists ex. by rewrite app_nil_r. }
  apply Forall_cons in HF as [[Hs Hx] HF]. cbn [map] in Hnd. apply NoDup_cons in Hnd as [Hnx Hnd].
  rewrite fmap_cons. cbn [Block.each].
  apply cwp_bind. eapply cwp_mono; [by apply (check_uncle_pass _ _ _ _ _ dp)|]. intros c1 r [Q ->].
  eapply cwp_mono; [apply (IH _ _ c1)|].
  - by eapply quiet_ok.
  - by rewrite (quiet_node c c1).
  - done.
  - by rewrite (quiet_number c c1).
  - apply Forall_forall. intros y Hy. rewrite Forall_forall in HF. destruct (HF y Hy) as [Hsy Hny].
    split; [by eapply quiet_sibling|]. apply not_elem_of_union. split; [|done].
    intros E%elem_of_singleton. apply Hnx. rewrite <-E. apply list_elem_of_fmap. by exists y.
  - done.
  - intros c2 r [Q2 (ex'&->)]. split; [by etrans|]. exists ex'. by rewrite fmap_cons, <-app_assoc.
Qed.

Lemma hash_keeps k i v i' : hash k i = Ok (v, i') → m_parentHash i' = m_parentHash i ∧ m_number i' = m_number i.
Proof.
  unfold hash. destruct (_ =? 0); [|by intros [= _ <-]]. intros (d&_&E)%bind_Ok_inv. injection E as _ <-. by destruct k, i.
Qed.
Lemma check_uncles_pass cur xs c dp ks v cur' :
  ok c → node c (m_parentHash cur) = Some dp → m_number cur = number dp + 1 →
  number dp ≤ m_lastBlockNumber c →
  kin_of c 6 (m_parentHash cur) {[m_parentHash cur]} = Ok ks →
  hash WithSeal cur = Ok (v, cur') → m_blocksDB c !! v = None →
  Forall (pickable c (m_parentHash cur) (number dp) ks) xs → NoDup (map (λ x, tx_hash x.2) xs) →
  (length xs ≤ 2)%nat →
  cwp (check_uncles recover genesisBlock cur xs.*2) c (λ c' r, quiet c c' ∧ r = Ok xs.*1).
Proof.
  intros HO Hn Hcur Hlast Hks Hv Hself HF Hnd Hlen. unfold check_uncles.
  apply cwp_bind, cwp_pure. rewrite length_fmap, (proj2 (Z.ltb_ge _ _)) by lia. cbn [throw_if].
  apply cwp_bind, cwp_lift. unfold allKinFrom.
  eapply run_mono; [by apply (kin_runs 6 _ _ _ dp)|]. intros c1 r [C1 ->]. rewrite Hks. cbn [of_err].
  assert (quiet c c1) as Q1 by by apply calm_quiet.
  apply cwp_bind, cwp_pure. rewrite Hv. cbn [of_err]. cbv beta iota.
  destruct (hash_keeps _ _ _ _ Hv) as [Ep En].
  apply cwp_bind. eapply cwp_mono; [apply (each_uncle_pass cur' xs _ _ c1 dp); rewrite ?Ep, ?En|].
  - by eapply quiet_ok.
  - by rewrite (quiet_node c c1).
  - done.
  - by rewrite (quiet_number c c1).
  - eapply Forall_impl; [exact HF|]. intros x [Hs Hx]. split; [by eapply quiet_sibling|].
    apply not_elem_of_union. split; [|done]. intros E%elem_of_singleton.
    destruct Hs as (k&d&_&_&_&_&Hc). destruct (ch_block _ _ _ _ _ Hc) as (data&Hd&_). rewrite E in Hd. congruence.
  - done.
  - intros c2 r [Q2 (ex&->)]. apply cwp_ret. split; [by etrans|done].
Qed.

(** A block on top of a noted block of the chain *)
Record on_top (b : Block) (c : Chain) (dp : BlockDetails) : Prop := {
  ot_hash : ∃ prev, hash WithSeal (b_previousBlock b) = Ok (m_parentHash (b_currentBlock b), prev);
  ot_node : node c (m_parentHash (b_currentBlock b)) = Some dp;
  ot_number : m_number (b_previousBlock b) = number dp ∧ m_number (b_currentBlock b) = number dp + 1 ∧
    number dp ≤ m_lastBlockNumber c;
  ot_parent : m_parentHash (b_previousBlock b) = parent dp;
}.
(** The uncles that are chosen *)
Lemma choose_wp b c dp :
  ok c → family c → on_top b c dp →
  cwp (choose_uncles recover genesisBlock b) c (λ c' r, calm c c' ∧ ∀ xs, r = Ok xs →
    let ph := m_parentHash (b_currentBlock b) in
    ∃ ks, kin_of c 6 ph {[ph]} = Ok ks ∧ Forall (pickable c ph (number dp) ks) xs ∧
      NoDup (map (λ x, tx_hash x.2) xs) ∧ (length xs ≤ 2)%nat).
Proof.
  intros HO F [_ Hn (Hpn&_&_) Hpar]. unfold choose_uncles. rewrite Hpn.
  set (ph := m_parentHash (b_currentBlock b)) in *. destruct (Z.eqb_spec (number dp) 0) as [E|E]; cbn [negb].
  { apply cwp_ret. split; [done|]. intros xs [= <-]. exists {[ph]}.
    assert (ph = g) as Hg by exact (number_0 _ _ _ _ (ok_tree _ _ HO) Hn E).
    split; [|split; [constructor|split; [constructor|cbn; lia]]]. cbn [kin_of]. by rewrite Hg, Z.eqb_refl. }
  apply cwp_bind, cwp_lift. unfold allKinFrom.
  eapply run_mono; [by apply (kin_runs 6 _ _ _ dp)|]. intros c1 r [C1 ->].
  destruct (kin_of c 6 ph {[ph]}) as [ks|e] eqn:Hks; cbn [of_err]; [|by split].
  destruct (tr_node _ _ (ok_tree _ _ HO) _ _ Hn) as (_&_&[Hg|(d&Hd&Hnum)]).
  { destruct (tr_genesis _ _ (ok_tree _ _ HO)) as (dg&Hdg&H0). rewrite Hg in Hn. rewrite Hn in Hdg. injection Hdg as ->.
    done. }
  apply cwp_bind. rewrite Hpar. assert (parent dp = up c 1 ph) as Eup.
  { cbn [up]. unfold par. by rewrite Hn. }
  rewrite Eup. eapply cwp_mono; [apply (find_wp c HO F ph (number dp) ks 6 1 [] ks c1 d); try done; try lia|].
  - split; [constructor|constructor|split; [done|set_solver]|cbn; lia].
  - by rewrite <-Eup.
  - intros c2 r [C2 Hacc]. destruct r as [[xs ex]|e]; [|by split]. apply cwp_ret. split; [done|].
    intros xs' [= <-]. destruct (Hacc _ eq_refl) as [P1 P2 _ P4]. by exists ks.
Qed.

(** ** What is committed and sealed *)

Notation commitToSeal := (commitToSeal pick recover p genesisBlock).
(** The parts of a run of [commitToSeal] on an open block *)
Record committed (extra : bytes) (b b2 : Block) (c c2 : Chain) (xs : list (BlockHeader * bytes))
    (ds dts : list bytes) : Prop := {
  cm_uncles : choose_uncles recover genesisBlock b c = (c2, Ok xs);
  cm_receipts : receipt_bytes b = Ok ds;
  cm_transactions : transaction_bytes b = Ok dts;
  cm_write_transactions : write_list dts = Ok (b_currentTxs b2);
  cm_write_uncles : write_uncles xs.*2 = Ok (b_currentUncles b2);
  cm_finish : ∃ bf, b_state bf = b_state b ∧ b_currentBlock bf = b_currentBlock b ∧
    finish_block pick p xs.*1 bf = Ok (with_state (b_state b2) bf);
  cm_header : ∃ h prev, hash WithSeal (b_previousBlock b) = Ok (h, prev) ∧
    b_currentBlock b2 =
      BlockHeader.setExtraData (take 32 extra) (BlockHeader.setParentHash h
        (BlockHeader.setRoots (map_root recover dts) (map_root recover ds) (tx_hash (b_currentUncles b2))
           (rootHash (m_state (b_state b2)))
           (BlockHeader.setGasUsed (gasUsed b) (BlockHeader.setLogBloom (logBloom b) (b_currentBlock b)))));
}.
Lemma commitToSeal_inv extra (b b2 : Block) c c2 :
  opened b → b_sealEngine b = true → commitToSeal extra b c = (c2, Ok b2) →
  ∃ xs ds dts, committed extra b b2 c c2 xs ds dts.
Proof.
  intros [O1 O2] Hs Hr. unfold Block.commitToSeal in Hr. step Hr. step Hr. unfold noteChain in E0. rewrite Hs in E0.
  injection E0 as <-. rewrite O2 in Hr. step Hr. rename a into xs, E0 into Hx. step Hr. rename a into ds, E0 into Hds.
  step Hr. rename a into dts, E0 into Hdts. step Hr. rename a into ct, E0 into Hct. step Hr. rename a into cu, E0 into Hcu.
  step Hr. rename a into b5, E0 into Hf. step Hr. rename a into b6, E0 into Hh. apply ret_inv in Hr as [<- <-].
  exists xs, ds, dts. destruct (finish_inv _ _ _ _ _ Hf) as [s Hb5].
  unfold sealed_header in Hh. apply bind_Ok_inv in Hh as ([h prev]&Hp%of_err_inv&Hh). injection Hh as <-.
  subst b5. split; try done.
  - eexists. split; [|split; [|exact Hf]]; reflexivity.
  - exists h, prev. split; [exact Hp|]. reflexivity.
Qed.
Lemma sealBlock_inv header (b2 b3 : Block) :
  sealBlock recover header b2 = Ok (b3, true) →
  of_bytes header HeaderData 0 = Ok (b_currentBlock b3) ∧
  (s ← appendList 3 empty_stream; s ← appendRaw header 1 s; s ← appendRaw (b_currentTxs b2) 1 s;
   s ← appendRaw (b_currentUncles b2) 1 s; out s) = Ok (b_currentBytes b3).
Proof.
  unfold sealBlock. destruct (b_committedToSeal b2); [|done].
  intros (i&Hi%of_err_inv&Hr)%bind_Ok_inv. apply bind_Ok_inv in Hr as ([h i']&_&Hr).
  apply bind_Ok_inv in Hr as ([h' cur]&_&Hr). destruct (negb (h =? h')); [done|].
  apply bind_Ok_inv in Hr as (ret&Hw%of_err_inv&Hr). apply bind_Ok_inv in Hr as (i2&Hi2%of_err_inv&Hr).
  injection Hr as <-. by split.
Qed.

(** The fields but for the seal *)
Definition unsealed (i : BlockHeader) : BlockHeader :=
  mkHeader (m_parentHash i) (m_sha3Uncles i) (m_stateRoot i) (m_transactionsRoot i) (m_receiptsRoot i) (m_logBloom i)
    (m_number i) (m_gasLimit i) (BlockHeader.m_gasUsed i) (m_extraData i) (m_timestamp i) (m_author i) (m_difficulty i)
    [] 0 0.

Lemma finish_same un (b b' b2 : Block) :
  finish_block pick p un b = Ok b2 → b_state b' = b_state b →
  m_author (b_currentBlock b') = m_author (b_currentBlock b) →
  m_number (b_currentBlock b') = m_number (b_currentBlock b) →
  finish_block pick p un b' = Ok (with_state (b_state b2) b').
Proof.
  unfold finish_block, applyRewards. intros Hf -> -> ->.
  destruct (foldM _ _ un) as [[s r]|]; [|done]. cbn [mbind result_bind] in *.
  destruct (of_err StateBad _) as [s'|]; [|done]. cbn [mbind result_bind] in *. by injection Hf as <-.
Qed.
Lemma transactions_items (b : Block) dts T :
  transaction_bytes b = Ok dts → Forall2 (λ t x, rlp_of t true = Ok (encode x)) (b_transactions b) T →
  dts = map encode T.
Proof.
  unfold transaction_bytes. intros Hr HF.
  assert (∀ acc dts, foldM (λ l t, d ← of_err TxBad (rlp_of t true); Ok (l ++ [d])) acc (b_transactions b) = Ok dts →
    dts = acc ++ map encode T) as Hgen; [|by apply (Hgen [])].
  clear dts Hr. induction HF as [|t x ts T Ht HF IH]; intros acc dts Hr; cbn [foldM map] in *.
  { injection Hr as <-. by rewrite app_nil_r. }
  rewrite Ht in Hr. cbn [of_err mbind result_bind] in Hr. rewrite (IH _ _ Hr), <-app_assoc. done.
Qed.
Lemma uncles_items c ph np ks xs :
  Forall (pickable c ph np ks) xs → (length xs ≤ 2)%nat → ∃ U, xs.*2 = map encode U ∧ small U.
Proof.
  intros HF Hl. assert (∃ U, xs.*2 = map encode U ∧ Forall field_good U ∧
    size (concat (map encode U)) ≤ Z.of_nat (length xs) * 2 ^ 58) as (U&E&HU&HS).
  { clear Hl. induction HF as [|x xs [(k&d&_&_&_&_&Hc) _] HF IH]; [by exists []|].
    destruct IH as (U&E&HU&HS). destruct (ch_item _ _ _ _ _ Hc) as (t&Et&Ht&Hs). exists (t :: U).
    split; [rewrite fmap_cons, E, Et; done|]. split; [by constructor|].
    cbn [map concat length]. rewrite size_app, <-Et, Nat2Z.inj_succ, Z.mul_succ_l. lia. }
  exists U. split; [done|]. split; [done|]. change (2 ^ 58) with 288230376151711744 in HS.
  change (2 ^ 60) with 1152921504606846976. lia.
Qed.

(** ** Every node accepts it *)

(** A block that was reset, and one that was reset to the same state on the same
    parent; its own header but for the parent does not matter. *)
Record started (b : Block) : Prop := {
  st_open : opened b;
  st_receipts : b_receipts b = [];
  st_transactions : b_transactions b = [];
  st_engine : b_sealEngine b = true;
}.
Record same_start (b b' : Block) : Prop := {
  sm_started : started b';
  sm_state : b_state b' = b_state b;
  sm_set : b_transactionSet b' = b_transactionSet b;
  sm_previous : b_previousBlock b' = b_previousBlock b;
  sm_parent : m_parentHash (b_currentBlock b') = m_parentHash (b_currentBlock b);
}.

Lemma block_header i ts T U :
  header_ok i ts → BlockHeaderCodec.block_ok (all_fields i ts WithSeal) T U →
  of_bytes (block_bytes (all_fields i ts WithSeal) T U) BlockData 0 =
    Ok (BlockHeader.with_memo (tx_hash (encode (List (all_fields i ts WithSeal)))) 0 i).
Proof.
  intros Hok B. unfold of_bytes. rewrite extractHeader_block by done. cbn [mbind result_bind].
  rewrite (populate_fields i ts Hok). reflexivity.
Qed.
Lemma alike_sums (b b' : Block) : alike b b' → logBloom b' = logBloom b ∧ gasUsed b' = gasUsed b.
Proof. intros A. unfold logBloom, gasUsed. by rewrite (al_receipts _ _ A). Qed.

(** What the header of the closed block [b1] says *)
Record says (i : BlockHeader) (b1 : Block) (xs : list (BlockHeader * bytes)) (ds : list bytes) (s : State.State) : Prop := {
  sy_seen : seen i = seen (b_currentBlock b1);
  sy_receipts : m_receiptsRoot i = map_root recover ds;
  sy_bloom : m_logBloom i = logBloom b1;
  sy_gas : BlockHeader.m_gasUsed i = gasUsed b1;
  sy_root : m_stateRoot i = rootHash (m_state s);
  sy_finish : ∃ bf, b_state bf = b_state b1 ∧ b_currentBlock bf = b_currentBlock b1 ∧
    finish_block pick p xs.*1 bf = Ok (with_state s bf);
}.
Lemma closed_fields i cur x h t r u root gas bloom :
  unsealed i = unsealed (BlockHeader.setExtraData x (BlockHeader.setParentHash h (BlockHeader.setRoots t r u root
    (BlockHeader.setGasUsed gas (BlockHeader.setLogBloom bloom cur))))) →
  seen i = seen (BlockHeader.setParentHash h cur) ∧ m_receiptsRoot i = r ∧ m_logBloom i = bloom ∧
  BlockHeader.m_gasUsed i = gas ∧ m_stateRoot i = root.
Proof.
  intros E. split; [exact (f_equal seen E)|]. split; [exact (f_equal m_receiptsRoot E)|].
  split; [exact (f_equal m_logBloom E)|]. split; [exact (f_equal BlockHeader.m_gasUsed E)|exact (f_equal m_stateRoot E)].
Qed.
Lemma committed_says extra b1 b2 c c2 xs ds dts i prev :
  committed extra b1 b2 c c2 xs ds dts → unsealed i = unsealed (b_currentBlock b2) →
  hash WithSeal (b_previousBlock b1) = Ok (m_parentHash (b_currentBlock b1), prev) →
  says i b1 xs ds (b_state b2).
Proof.
  intros [_ _ _ _ _ Hf (h&prev'&Hh&Hcur)] Hun Hp. rewrite Hp in Hh. injection Hh as <- <-. rewrite Hcur in Hun.
  apply closed_fields in Hun as (E1&E2&E3&E4&E5). by split.
Qed.

(** The bytes of the sealed block *)
Lemma Ok_inj {E A} (x y : A) : Ok (E:=E) x = Ok y → x = y.
Proof. congruence. Qed.
Lemma sealed_bytes i ts T (b1 b2 b3 : Block) extra c c2 xs ds dts U :
  committed extra b1 b2 c c2 xs ds dts →
  small (all_fields i ts WithSeal) → small T → small U → dts = map encode T → xs.*2 = map encode U →
  sealBlock recover (encode (List (all_fields i ts WithSeal))) b2 = Ok (b3, true) →
  b_currentBytes b3 = block_bytes (all_fields i ts WithSeal) T U ∧
  BlockHeaderCodec.block_ok (all_fields i ts WithSeal) T U.
Proof.
  intros [_ _ _ C4 C5 _ _] HsH HsT HsU -> EU Hs. rewrite EU in C5.
  rewrite write_list_items in C4 by by apply small_writable. rewrite write_uncles_items in C5 by done.
  apply Ok_inj in C4, C5. apply sealBlock_inv in Hs as [_ Hw]. rewrite <-C4, <-C5 in Hw.
  assert (BlockHeaderCodec.block_ok (all_fields i ts WithSeal) T U) as B by by split.
  split; [|done]. destruct (BlockHeaderCodec.block_good _ _ _ B) as [Hg Hsz].
  assert (writable (BlockHeaderCodec.block_items (all_fields i ts WithSeal) T U)) as HW by by split.
  pose proof (eq_trans (eq_sym (write_block _ _ _ HW)) Hw) as E. exact (eq_sym (Ok_inj _ _ E)).
Qed.

(** Playing back, forwards *)
Lemma C_bind_intro {A B} (m : C A) (f : A → C B) c c1 a x : m c = (c1, Ok a) → f a c1 = x → (m ≫= f) c = x.
Proof. unfold mbind, C_bind. by intros ->. Qed.
Lemma pure_run {A} (r : result BlockError A) c a : r = Ok a → pure r c = (c, Ok a).
Proof. by intros ->. Qed.
Lemma raise_run (x : bool) e c : x = false → raise_when x e c = (c, Ok ()).
Proof. by intros ->. Qed.
Lemma enact_intro vb (b b0 b1 b2 : Block) c c' prev w receipts us rewarded :
  noteChain p b = Ok b0 →
  hash WithSeal (b_previousBlock b0) = Ok (m_parentHash (b_currentBlock b0), prev) →
  construct VeryStrict (vb_block vb) = Ok w →
  foldM (enact_transaction (last_hashes recover genesisBlock c)) (with_headers prev (vb_info vb) b0, [])
    (vb_transactions vb) = Ok (b1, receipts) →
  let cur := b_currentBlock b1 in
  be_val (TrieHash.orderedTrieRoot BlockHeader.sha3_bytes receipts) = m_receiptsRoot cur → m_logBloom cur = logBloom b1 →
  block_items 2 (vb_block vb) c = (c, Ok us) → check_uncles recover genesisBlock cur us c = (c', Ok rewarded) →
  finish_block pick p rewarded b1 = Ok b2 → m_stateRoot cur = rootHash (m_state (b_state b2)) →
  BlockHeader.m_gasUsed cur = gasUsed b2 →
  enact pick recover stack p genesisBlock vb b c = (c', Ok (b2, m_difficulty cur)).
Proof.
  intros H1 H2 H3 H4 cur H5 H6 H7 H8 H9 H10 H11. unfold Block.enact.
  eapply C_bind_intro; [by apply pure_run|]. eapply C_bind_intro; [apply pure_run; by rewrite H2|].
  eapply C_bind_intro; [apply raise_run; by rewrite Z.eqb_refl|]. cbv beta iota zeta.
  eapply C_bind_intro; [apply pure_run; by rewrite H3|]. eapply C_bind_intro; [by apply pure_run|]. cbv beta iota zeta.
  eapply C_bind_intro; [apply raise_run; fold cur; by rewrite H5, Z.eqb_refl|].
  eapply C_bind_intro; [apply raise_run; fold cur; by rewrite H6, Z.eqb_refl|].
  eapply C_bind_intro; [unfold lift; by rewrite H7|]. eapply C_bind_intro; [exact H8|].
  eapply C_bind_intro; [by apply pure_run|].
  eapply C_bind_intro; [apply raise_run; fold cur; by rewrite H10, Z.eqb_refl, andb_false_r|].
  eapply C_bind_intro; [apply raise_run; fold cur; by rewrite H11, Z.eqb_refl|]. reflexivity.
Qed.
Lemma hash_of_read i ts :
  header_ok i ts → let v := tx_hash (encode (List (all_fields i ts WithSeal))) in
  hash WithSeal (BlockHeader.with_memo v 0 i) = Ok (v, BlockHeader.with_memo v 0 i).
Proof.
  intros Hok v. unfold hash. cbn [BlockHeader.with_memo m_hash]. destruct (v =? 0); [|reflexivity].
  assert (BlockHeader.header_rlp (BlockHeader.with_memo v 0 i) WithSeal = BlockHeader.header_rlp i WithSeal) as ->
    by reflexivity.
  rewrite (header_rlp_fields i ts Hok WithSeal) by discriminate. reflexivity.
Qed.
Lemma enact_says txs (b b1 b' : Block) c c0 dp i ts T U xs ds s ks :
  ok c → on_top b c0 dp → quiet c0 c → started b → same_start b b' →
  build (last_hashes recover genesisBlock c) txs b = Ok b1 → receipt_bytes b1 = Ok ds →
  header_ok i ts → says i b1 xs ds s → xs.*2 = map encode U →
  BlockHeaderCodec.block_ok (all_fields i ts WithSeal) T U →
  let header := encode (List (all_fields i ts WithSeal)) in
  let ph := m_parentHash (b_currentBlock b) in
  m_blocksDB c !! tx_hash header = None →
  kin_of c 6 ph {[ph]} = Ok ks → Forall (pickable c ph (number dp) ks) xs →
  NoDup (map (λ x, tx_hash x.2) xs) → (length xs ≤ 2)%nat →
  ∃ c3 b4, enact pick recover stack p genesisBlock
    (mkVerified (block_bytes (all_fields i ts WithSeal) T U) (BlockHeader.with_memo (tx_hash header) 0 i) txs) b' c =
      (c3, Ok (b4, m_difficulty i)) ∧
    quiet c c3 ∧ b_state b4 = s ∧ b_receipts b4 = b_receipts b1 ∧ b_transactions b4 = txs.
Proof.
  intros HO [[prev Hp] Hn (Hpn&Hcn&Hl) _] Q [O R0 T0 S0] [[O' R0' T0' S0'] M1 M2 M3 M4] Hb Hds Hok
    [Y1 Y2 Y3 Y4 Y5 (bf&F1&F2&F3)] EU B header ph Hself Hks HF Hnd Hlen.
  destruct (build_grows _ _ _ _ O Hb) as (O1&(rs&Er&El)&Et&Ec&_).
  rewrite R0 in Er. rewrite T0 in Et. cbn [app] in Er, Et. rewrite Ec in Y1, F2.
  set (i' := BlockHeader.with_memo (tx_hash header) 0 i) in *. set (bytes := block_bytes _ _ _) in *.
  assert (seen i' = seen (b_currentBlock b)) as Hseen by (by rewrite <-Y1).
  assert (alike b (with_headers prev i' b')) as HA by (split; cbn; try congruence; done).
  assert (Forall2 (λ r d, Receipt.rlp r = Ok d) rs ds) as Hrs.
  { rewrite <-Er. apply receipts_written; [|done]. by rewrite Er, Et, El. }
  destruct (enact_alike _ txs b _ b1 rs ds [] HA Hb ltac:(by rewrite R0) Hrs) as (b1'&Hloop&HA1&Ec1&Ep1).
  cbn [with_headers b_currentBlock b_previousBlock app] in Hloop, Ec1, Ep1.
  destruct (alike_sums _ _ HA1) as [Hbl Hga].
  assert (m_parentHash i' = ph ∧ m_number i' = m_number (b_currentBlock b) ∧ m_author i' = m_author (b_currentBlock b))
    as (Eph&Enum&Eauth) by (unfold ph; destruct i, (b_currentBlock b); by injection Hseen).
  pose proof (finish_same _ _ b1' _ F3 ltac:(rewrite F1; apply HA1) ltac:(by rewrite Ec1, F2) ltac:(by rewrite Ec1, F2)) as Hfin.
  cbn [with_state b_state] in Hfin.
  pose proof (hash_of_read i ts Hok) as Hv. cbv zeta in Hv. fold header in Hv. fold i' in Hv.
  pose proof (check_uncles_pass i' xs c dp ks _ _ HO ltac:(rewrite Eph, (quiet_node c0 c) by done; exact Hn)
    ltac:(lia) ltac:(rewrite (quiet_number c0 c) by done; lia) ltac:(by rewrite Eph) Hv Hself ltac:(by rewrite Eph) Hnd Hlen) as Hu.
  unfold cwp in Hu. rewrite EU in Hu.
  destruct (check_uncles recover genesisBlock i' (map encode U) c) as [c3 r] eqn:Eu. cbn [fst snd] in Hu. destruct Hu as [Q3 ->].
  exists c3, (with_state s b1'). split; [|split; [done|]].
  2: { split; [done|]. split; [exact (al_receipts _ _ HA1)|]. rewrite <-Et. exact (al_transactions _ _ HA1). }
  pose proof (enact_intro (mkVerified bytes i' txs) b' b' b1' (with_state s b1') c c3 prev bytes ds (map encode U) xs.*1) as He.
  cbn [vb_block vb_info vb_transactions] in He. rewrite Ec1 in He. apply He; clear He.
  - unfold noteChain. by rewrite S0'.
  - by rewrite M3, M4.
  - exact (proj1 (block_construct _ _ _ B)).
  - exact Hloop.
  - rewrite <-map_root_ordered. exact (eq_sym Y2).
  - rewrite Hbl. exact Y3.
  - exact (uncles_read _ _ _ c B).
  - exact Eu.
  - exact Hfin.
  - exact Y5.
  - exact (eq_trans Y4 (eq_sym Hga)).
Qed.

(** C2. A block that a node builds on a noted parent, closes and seals - whatever
    transactions it executed, whatever uncles it found - is enacted by every node
    whose chain holds the same blocks and whose block was reset to the same
    state, once its header carries a seal and nothing else is new in it: the
    block reads back as its header, the transactions are executed to the same
    receipts, every comparison of the header holds, the uncles pass their
    checks, and the state has the root that the header says. *)
Theorem sealed_enacted extra txs (b b1 b2 b3 b' : Block) c c2 c' dp i ts T :
  ok c → family c → on_top b c dp → started b →
  build (last_hashes recover genesisBlock c') txs b = Ok b1 →
  commitToSeal extra b1 c = (c2, Ok b2) →
  header_ok i ts → small (all_fields i ts WithSeal) → unsealed i = unsealed (b_currentBlock b2) →
  let header := encode (List (all_fields i ts WithSeal)) in
  sealBlock recover header b2 = Ok (b3, true) →
  Forall2 (λ t x, rlp_of t true = Ok (encode x)) txs T → small T →
  quiet c c' → m_blocksDB c !! tx_hash header = None → same_start b b' →
  ∃ i' c3 b4, of_bytes (b_currentBytes b3) BlockData 0 = Ok i' ∧ unsealed i' = unsealed i ∧
    m_hash i' = tx_hash header ∧
    enact pick recover stack p genesisBlock (mkVerified (b_currentBytes b3) i' txs) b' c' =
      (c3, Ok (b4, m_difficulty i)) ∧
    quiet c' c3 ∧ rootHash (m_state (b_state b4)) = m_stateRoot i ∧
    b_receipts b4 = b_receipts b1 ∧ b_transactions b4 = txs.
Proof.
  intros HO F HT HS Hb Hc Hok Hsm Hun header Hs HFt HsT Q Hself HS'.
  destruct (build_grows _ _ _ _ (st_open _ HS) Hb) as (O1&_&Et&Ec&Ep&Es).
  rewrite (st_transactions _ HS) in Et. rewrite (st_engine _ HS) in Es. cbn [app] in Et.
  destruct (commitToSeal_inv _ _ _ _ _ O1 Es Hc) as (xs&ds&dts&HC).
  destruct HT as [[prev Hp] Hn Hnum Hpar].
  assert (on_top b1 c dp) as HT1 by (split; rewrite ?Ec, ?Ep; [by exists prev|done..]).
  pose proof (choose_wp b1 c dp HO F HT1) as Hx. unfold cwp in Hx. rewrite (cm_uncles _ _ _ _ _ _ _ _ HC) in Hx.
  cbn [fst snd] in Hx. destruct Hx as [_ Hx]. destruct (Hx _ eq_refl) as (ks&Hks&HF&Hnd&Hlen). clear Hx.
  destruct (uncles_items _ _ _ _ _ HF Hlen) as (U&EU&HsU). rewrite Ec in Hks, HF.
  assert (dts = map encode T) as Hdts.
  { apply (transactions_items b1); [apply HC|by rewrite Et]. }
  destruct (sealed_bytes _ _ _ _ _ _ _ _ _ _ _ _ _ HC Hsm HsT HsU Hdts EU Hs) as [Eb B].
  assert (says i b1 xs ds (b_state b2)) as HY.
  { eapply committed_says; [exact HC|done|]. by rewrite Ep, Ec. }
  destruct (enact_says txs b b1 b' c' c dp i ts T U xs ds (b_state b2) ks) as (c3&b4&He&Q3&Est&Er&Et4);
    [|split|exact Q|exact HS|exact HS'|exact Hb|apply HC|exact Hok|exact HY|exact EU|exact B|..|exact Hnd|exact Hlen|].
  - by eapply quiet_ok.
  - by exists prev.
  - exact Hn.
  - exact Hnum.
  - exact Hpar.
  - rewrite (quiet_blocksDB _ _ Q). exact Hself.
  - rewrite (kin_of_quiet c c') by done. exact Hks.
  - eapply Forall_impl; [exact HF|]. intros x [H1 H2]. split; [by eapply quiet_sibling|done].
  - exists (BlockHeader.with_memo (tx_hash header) 0 i), c3, b4. rewrite Eb. split; [exact (block_header i ts T U Hok B)|].
    split; [reflexivity|]. split; [reflexivity|]. split; [exact He|]. split; [exact Q3|].
    split; [rewrite Est; exact (eq_sym (sy_root _ _ _ _ _ HY))|split; [exact Er|exact Et4]].
Qed.
End Sealed.
End BlockSeal.
